(* ===== verification/_CoqProject ===== *)
-Q . S2P
Prelude.v
Bytes.v
Wire.v
ConnPool.v
Crypto.v
SenderKeys.v
Redis.v
Postgres.v
SessionMachine.v
SessionStore.v
SessionManager.v
SessionContract.v
SessionRaces.v
Grpc.v
SessionGrpc.v
Messages.v
Kafka.v
Outbox.v
Dispatcher.v
Inbox.v
OfflineSync.v
SyncHandler.v
Delivery.v
Groups.v
Consumers.v
Media.v
KeyCache.v
Noise.v
CryptoGrpc.v
StreamConn.v
Float64.v
Conn.v
Observability.v
Gateway.v
ExampleLoop.v
Iot.v
Finance.v
Game.v
Notify.v
Starters.v
Sdk.v
Process.v
GatewayMetrics.v
GatewayServer.v
GatewayMain.v
ExampleServer.v
IotServer.v
FinanceServer.v
GameServer.v
StarterMain.v
NotifyServer.v
Core.v
EndToEnd.v
Services.v
Ports.v
SdkPorts.v
PortNoise.v
PortTransports.v
