(* ===== verification/Prelude.v ===== *)
(** * FProto: a verification development

    FProto is a messaging system: an encrypted protocol core in Go ([proto-core/]), a
    set of server processes around Kafka, PostgreSQL and Redis ([server/]), client SDKs
    ([sdk/]), starters in seven languages ([starters/]) and example programs
    ([examples/]).  This library translates the code of the core, of the services, of
    the SDKs, of the examples and of the protocol part of the starters into Rocq
    definitions and proves what makes each part correct.

    ** How the parts interact

    A client connects over QUIC, a WebSocket or a gRPC stream and runs a Noise
    handshake with the gateway.  The gateway decrypts each message and hands it to the
    dispatcher, which chooses a Kafka topic and writes the message to the outbox table.
    A relay publishes the rows of the outbox to Kafka.  The sync service reads the
    topics, filters duplicates with Redis and stores each message in the inbox of its
    recipient, from where offline synchronisation serves it; the command service
    applies group commands to the tables of groups.  Sessions live in Redis and
    PostgreSQL behind a manager, and media, sender keys and the crypto service stand
    beside this path.

    ** How the code is modelled

    A Go function that can fail or panic returns a [result]; one that changes state is a
    computation of the monad [M W] over the world [W] of its component: [wrap] is
    [fmt.Errorf("...: %w", err)], [attempt] and [ignore] are the two ways of going on
    after an error, and a [panic] ends the computation.  Integers are [Z] with their
    wrap-around written out ([uint32], [int64]), byte slices are lists of bytes, floats
    are IEEE binary64.  The order in which Go ranges over a map is a parameter
    ([RangeOrder]).  Time, random bytes and the timer are arguments or part of the
    environment.

    Code outside the repository is a class with its operations and a class of laws:
    the stream of quic-go and the connections of gorilla/websocket ([Wire], [Conn]),
    ChaCha20-Poly1305, HKDF, HMAC, Ed25519 and flynn/noise ([Crypto], [SenderKeys],
    [Noise]), go-redis ([Redis]), pgx with PostgreSQL ([Postgres]), sarama with Kafka
    ([Kafka], [Consumers]), protobuf and JSON codecs, S3 ([Media]), zap and OpenTelemetry
    ([Observability]), the certificate functions of the Go library ([GatewayMain]) and
    the constructors of clients ([Process]).  A call to a remote
    system that returns an error may or may not have had its effect.  Every class of
    laws has an instance in memory, used by the witnesses.  SQL statements are
    translated, in the component that owns them, to functions on its tables.

    ** Files

    - [Prelude], [Bytes], [Float64]: results, the monad and its reasoning rules, loops
      with fuel, machine integers, hex, decimal and binary encodings, floats.
    - [Wire] ([transport/quic.go], [sdk/go/transport.go]): framing over a byte stream.
      Round trip for any fragmentation; only whole frames of at most 64 KiB are
      returned; oversized messages desynchronise the stream.
    - [ConnPool] ([transport/pool.go]): capacity, and [Best] for any map order.
    - [Conn] ([transport/transport.go], [quic.go], [websocket.go]): the interface all
      handlers are proved against, and QUIC and WebSocket as implementations of it.
    - [StreamConn] ([transport/grpc_transport.go]): both ends of a gRPC stream with
      every outcome of their selects; order and delivery through the pumps.
    - [Crypto] ([crypto/aead.go], [rekey.go], [zeroize.go]), [Noise] ([noise.go],
      [keypair.go]): round trips, unique nonces, and the handshake as two processes:
      whenever both sides finish they agree, whatever keys they use, and with generated
      keys over a faithful link they do finish.
    - [CryptoGrpc] ([cryptogrpc/server.go]): handshakes advanced call by call.
    - [SenderKeys], [KeyCache] ([senderkeys/]): ratchet, group encryption, distribution
      and rotation, and the cache of keys in Redis.
    - [SessionMachine], [SessionStore], [SessionManager], [SessionGrpc]
      ([proto-core/session/], [sessiongrpc/server.go]): the transition table, the two
      stores, the manager as a refinement of the abstract life cycle, the RPCs.
      [SessionContract] ([session/store.go]): the interface of the stores as a class with
      a contract that both keep, so that falling back from one to the other is safe.
      [SessionRaces]: the manager's transitions of a session by several callers at once,
      command by command: the status stays in the machine or is lost with the session,
      although a logout may be undone.
    - [Messages], [Kafka], [Outbox], [Dispatcher], [Inbox], [OfflineSync],
      [SyncHandler]: the delivery path.  Routing keeps addressees apart; the outbox
      loses nothing under any interleaving of relays, inserts and failures; a poll
      publishes the oldest pending rows when its servers are up, and buries a row that is
      refused too often; a message is handled once whatever happens in the 48 hours in
      which its key is kept; paginated synchronisation is complete.  [Delivery] composes
      them from the dispatcher to the inbox.
    - [Consumers] ([kafka/config.go], [kafka/consumer.go], the [Run] methods of the
      services): the consumer loops and what happens to offsets.
    - [Groups] ([groups/], [commands/]), [Media] ([media/]), [Grpc]: tables with their
      constraints, command handlers and what the membership is after a sequence of
      commands, uploads, status codes.
    - [Gateway] ([cmd/gateway/main.go], [cmd/echo-server/main.go]): the connection
      handlers as whole loops; what they dispatch and what an acknowledgement means.
    - [GatewayMetrics]: the same handler with its metrics and spans; recording changes
      nothing, and what the numbers mean.  [GatewayServer]: many connections interleaved
      over one dispatcher, and the loop that accepts QUIC connections.  [GatewayMain]:
      the two [main] functions, with [ListenQUIC] and the self-signed certificate.
    - [Observability] ([observability/]): logger, interceptor, traces and metrics.
    - [Process], [Services] (the other [main] functions of [server/cmd/] and the
      constructors they call): a process with fatal exits, panics, deferred calls and
      the loop that serves calls and background turns.  Clients are closed in order, and
      what the dispatcher has answered is kept however its process ends.
    - [Core] ([proto-core/config.go], [hooks.go]): defaults and hooks.
    - [Sdk] ([sdk/go/]): the client against the gateway, from the handshake to the last
      reply, and reconnection: attempts and waits in turn, termination and the delays.
    - [EndToEnd]: the whole path, from the client that sends a direct message over an
      encrypted connection to the recipient that gets it by offline synchronisation.
    - [SdkPorts] ([sdk/typescript/], [sdk/kotlin/], [sdk/swift/]): the three clients with
      the events of their sockets.  Calls of [receive] get the messages in order; where
      Swift's call is interrupted between its two halves none is lost, but the order is;
      reconnection ends at its limit.
    - [ExampleLoop], [Iot], [Finance], [Game], [Notify] ([examples/]): the four example
      programs, each with its client run against its server; the rules of the game and
      the isolation of its players, signatures in the order book, exact broadcasts over
      subscribers that are shared pointers.
    - [ExampleServer]: what the servers of the examples and starters share, a goroutine
      for each connection and a state under a lock, as steps, as the loops that accept
      connections (QUIC, or [net/http], which recovers panics), and the rules to reason
      about every interleaving: one order of the effects explains the state, and each
      client's own messages are in it in the order of sending.  [IotServer],
      [FinanceServer], [GameServer], [NotifyServer]: [runServer], [runClient] and [main] of
      the four examples, with any number of clients at once; the notification server up to
      the first data race, which can kill it.
    - [Starters], [StarterMain] ([starters/go/], [starters/interop/]): the echo servers
      and the client, alone and as processes.
    - [Ports] (the starters in Rust, Python, TypeScript, Java, C# and PHP): the same
      session machine and interoperable encryption, for sequence numbers that the integers
      of the language hold, but a different rekeying.
      [PortNoise]: the handshakes in Python and Rust, which understand each other's and
      the Go code.  [PortTransports]: the WebSocket connections in TypeScript, Python and
      Rust.

    ** Concurrency

    A method under a mutex is one step.  Where the code makes several calls without a
    lock the calls are separate steps: the outbox relay is cut call by call
    ([relay_next]) and interleaved with other relays and with inserts, the registration
    of a connection is cut between its check and its insertion, a transition of a session
    at every command that it sends to Redis ([SessionRaces]), the two halves of the
    Swift client's [receive] are interleaved with messages, the two sides of a handshake
    run against each other, the pumps of a gRPC stream interleave freely, the turns of
    the gateway's connections are interleaved as a whole, since a turn calls the shared
    dispatcher once, and the calls that the dispatcher process serves are interleaved
    with the single calls of its relay.  The handlers of the other services run one
    request at a time.  A handler of an example is cut at every call on its connection
    and at every section that holds the lock ([prog]), and a handler that is alone does
    what the loop of [ExampleLoop] does.  The read-write lock of the notification hub is
    modelled as it is: several broadcasts may hold it for reading, while clients that join
    or leave wait.  What broadcasts and handlers share without a lock is accessed in two
    steps, a start and an end; two accesses in progress that conflict are a data race, at
    which the run of the model ends ([race_free] in [NotifyServer]).

    ** Bounds and fuel

    A loop that the code leaves only on an error or a closed connection takes fuel, one
    unit for each turn, and the theorems about it ask for more fuel than there are
    messages to read, so that the loop ends by itself ([turn_loop] in [Prelude]);
    safety theorems hold for every fuel, that is for every prefix of the run.
    [paginate] needs more fuel than there are missed messages, since every page but the
    last is non-empty.  [ReadFull] has as much fuel as bytes are wanted, since every
    read returns at least one.  [reconnect_loop] and [port_reconnect] need as much as
    the limit on attempts; without a limit it is shown how the delays grow instead.

    ** Not modelled

    - The parsing of flags: the [main] functions start from the values of their flags.
    - The log lines of connection handlers; those of the [main] functions and of the gRPC
      interceptor are modelled.  The statistics handlers of OpenTelemetry for gRPC.
    - The generated protobuf code: its codec is a parameter with round-trip laws.
    - In the starters of other languages, the zeroing of keys, the generation of keys in
      TypeScript, which wraps a single call of its package, and the echo programs.
    - What a program does after a data race: the Go runtime kills it when it notices
      concurrent accesses to a map; anything else is left open by the language. *)
From stdpp Require Export base tactics list gmap strings fin_maps fin_sets.
From Stdlib Require Export ZArith Lia.
From Corelib Require Export Init.Byte.
From Stdlib Require Strings.Byte.

(** ** Go errors and results *)

(** An [error] value: [fmt.Errorf] with its format string, and the wrapping
    form [fmt.Errorf("...: %w", err)].  The other arguments of the format are
    not kept. *)
Inductive error : Type :=
| Errorf (msg : string)
| Wrap (msg : string) (cause : error).

#[export] Instance error_eq_dec : EqDecision error.
Proof. solve_decision. Defined.

(** [errors.Is]: the target occurs in the chain of wrapped errors. *)
Fixpoint error_Is (e target : error) : bool :=
  bool_decide (e = target) ||
  match e with
  | Errorf _ => false
  | Wrap _ cause => error_Is cause target
  end.

(** The outcome of a Go call: a value, a returned error, or a run-time panic. *)
Inductive result (A : Type) : Type :=
| Ok (a : A)
| Err (e : error)
| Panic (why : string).
Arguments Ok {A} a.
Arguments Err {A} e.
Arguments Panic {A} why.

#[export] Instance result_fmap : FMap result := λ A B f r,
  match r with Ok a => Ok (f a) | Err e => Err e | Panic s => Panic s end.

(** ** Stateful fallible code *)

(** A Go function that reads and writes the world [W] and may fail.  The world
    reached before an error or a panic is kept: nothing is rolled back. *)
Definition M (W A : Type) : Type := W → result A * W.

#[export] Instance M_ret W : MRet (M W) := λ A a w, (Ok a, w).
#[export] Instance M_bind W : MBind (M W) := λ A B f m w,
  match m w with
  | (Ok a, w') => f a w'
  | (Err e, w') => (Err e, w')
  | (Panic s, w') => (Panic s, w')
  end.

(** [return nil, err] *)
Definition throw {W A} (e : error) : M W A := λ w, (Err e, w).

(** [panic], an out-of-range slice, a nil dereference *)
Definition panic {W A} (why : string) : M W A := λ w, (Panic why, w).

(** [if err != nil { return fmt.Errorf("msg: %w", err) }] *)
Definition wrap {W A} (msg : string) (m : M W A) : M W A := λ w,
  match m w with
  | (Err e, w') => (Err (Wrap msg e), w')
  | r => r
  end.

(** The call with its error as a value: [v, err := f()]. *)
Definition attempt {W A} (m : M W A) : M W (option error * option A) := λ w,
  match m w with
  | (Ok a, w') => (Ok (None, Some a), w')
  | (Err e, w') => (Ok (Some e, None), w')
  | (Panic s, w') => (Panic s, w')
  end.

(** [_ = f()]: the error is dropped. *)
Definition ignore {W A} (m : M W A) : M W unit := λ w,
  match m w with
  | (Ok _, w') => (Ok tt, w')
  | (Err _, w') => (Ok tt, w')
  | (Panic s, w') => (Panic s, w')
  end.

(** An assignment. *)
Definition modify {W} (f : W → W) : M W unit := λ w, (Ok tt, f w).

(** A pure outcome as a computation. *)
Definition lift {W A} (r : result A) : M W A := λ w, (r, w).

(** Run a computation on one component of the world. *)
Definition zoom {W V A} (get : W → V) (put : V → W → W) (m : M V A) : M W A := λ w,
  let '(r, v) := m (get w) in (r, put v w).

(** [for _, x := range xs { body }] with an early return on error. *)
Fixpoint for_each {W A} (body : A → M W unit) (xs : list A) : M W unit :=
  match xs with
  | [] => mret tt
  | x :: xs => body x ;; for_each body xs
  end.

(** [for { ... }]: turns until one says that the function returns; [fuel] bounds their
    number, and running out of it is a panic. *)
Fixpoint turn_loop {W} (turn : M W bool) (fuel : nat) : M W unit :=
  match fuel with
  | O => panic "out of fuel"
  | S fuel => continue ← turn; if (continue : bool) then turn_loop turn fuel else mret tt
  end.

(** What can happen to a request to a server: nothing, the request is lost, or the
    reply is. *)
Inductive fault := NoFault | RequestLost | ReplyLost.

(** The order in which Go ranges over a map, which the language leaves open. *)
Class RangeOrder := { range : ∀ {V : Type}, gmap string V → list (string * V) }.

Class RangeOrderLaws `{RangeOrder} : Prop := {
  range_perm (V : Type) (m : gmap string V) : range m ≡ₚ map_to_list m;
}.

(** ** Go byte slices *)

Notation bytes := (list byte).

(** A [[]byte]: [None] is the nil slice, [Some []] an empty allocated one.  The
    two differ where a slice becomes a SQL parameter or is compared with nil. *)
Notation slice := (option (list byte)).

Definition sbytes (s : slice) : bytes := default [] s.
Definition slen (s : slice) : nat := length (sbytes s).

#[export] Instance byte_eq_dec : EqDecision byte.
Proof. intros a b. destruct (Byte.byte_eq_dec a b); [left|right]; done. Defined.

#[export] Program Instance byte_countable : Countable byte :=
  inj_countable Byte.to_N Byte.of_N _.
Next Obligation. intros b. apply Byte.of_to_N. Qed.


(** ** Time *)

(** [time.Time] and [time.Duration] in nanoseconds; [Time.Unix] is the number of
    whole seconds since the epoch (rounded down). *)
Definition Second : Z := 1000000000.
Definition Millisecond : Z := 1000000.
Definition Microsecond : Z := 1000.
Definition Minute : Z := 60 * Second.
Definition Hour : Z := 60 * Minute.

Definition Unix (t : Z) : Z := (t / Second)%Z.
Definition FromUnix (s : Z) : Z := (s * Second)%Z.

(** ** Shared lemmas *)

Section run.
Context {W A B : Type}.
Implicit Types (m : M W A) (f : A → M W B) (w : W).

Lemma bind_Ok_inv m f w b w' :
  (m ≫= f) w = (Ok b, w') → ∃ a w1, m w = (Ok a, w1) ∧ f a w1 = (Ok b, w').
Proof. unfold mbind, M_bind. destruct (m w) as [[] ?]; naive_solver. Qed.

Lemma bind_Err_inv m f w e w' :
  (m ≫= f) w = (Err e, w') →
  m w = (Err e, w') ∨ ∃ a w1, m w = (Ok a, w1) ∧ f a w1 = (Err e, w').
Proof. unfold mbind, M_bind. destruct (m w) as [[] ?]; naive_solver. Qed.

Lemma bind_Panic_inv m f w s w' :
  (m ≫= f) w = (Panic s, w') →
  m w = (Panic s, w') ∨ ∃ a w1, m w = (Ok a, w1) ∧ f a w1 = (Panic s, w').
Proof. unfold mbind, M_bind. destruct (m w) as [[] ?]; naive_solver. Qed.

Lemma bind_run m f w r w' :
  m w = (r, w') →
  (m ≫= f) w = match r with
               | Ok a => f a w'
               | Err e => (Err e, w')
               | Panic s => (Panic s, w')
               end.
Proof. unfold mbind, M_bind. intros ->. by destruct r. Qed.

Lemma wrap_Ok_inv msg m w a w' : wrap msg m w = (Ok a, w') → m w = (Ok a, w').
Proof. unfold wrap. destruct (m w) as [[] ?]; naive_solver. Qed.

Lemma wrap_inv msg m w r w' :
  wrap msg m w = (r, w') → ∃ r0, m w = (r0, w') ∧ r = match r0 with Err e => Err (Wrap msg e) | _ => r0 end.
Proof. unfold wrap. destruct (m w) as [[] ?]; intros [= <- <-]; eauto. Qed.

Lemma wrap_run msg m w r w' :
  m w = (r, w') →
  wrap msg m w = (match r with Err e => Err (Wrap msg e) | _ => r end, w').
Proof. unfold wrap. intros ->. by destruct r. Qed.

Lemma ignore_run m w r w' :
  m w = (r, w') →
  ignore m w = (match r with Panic s => Panic s | _ => Ok tt end, w').
Proof. unfold ignore. intros ->. by destruct r. Qed.

Lemma attempt_run m w r w' :
  m w = (r, w') →
  attempt m w = (match r with
                 | Ok a => Ok (None, Some a)
                 | Err e => Ok (Some e, None)
                 | Panic s => Panic s
                 end, w').
Proof. unfold attempt. intros ->. by destruct r. Qed.

Lemma ignore_attempt m w r w' :
  ignore m w = (r, w') → ∃ r', attempt m w = (r', w') ∧ (∀ x, r' = Ok x → r = Ok tt).
Proof. unfold ignore, attempt. destruct (m w) as [[] ?]; intros [= <- <-]; naive_solver. Qed.

Lemma attempt_bind m f w :
  attempt (m ≫= f) w =
  (attempt m ≫= λ r, match r with
                     | (None, Some a) => attempt (f a)
                     | (e, _) => mret (e, None)
                     end) w.
Proof. unfold attempt, mbind, M_bind, mret, M_ret. by destruct (m w) as [[] ?]. Qed.

End run.

Lemma error_Is_refl e : error_Is e e = true.
Proof. destruct e; simpl; by rewrite bool_decide_true. Qed.

Lemma error_Is_Wrap msg e t : error_Is e t = true → error_Is (Wrap msg e) t = true.
Proof. intros H. simpl. by rewrite H, orb_true_r. Qed.

Lemma Unix_FromUnix s : Unix (FromUnix s) = s.
Proof. unfold Unix, FromUnix, Second. rewrite Z.div_mul; lia. Qed.

Lemma for_each_app {W A} (body : A → M W unit) xs ys w :
  for_each body (xs ++ ys) w = (for_each body xs ;; for_each body ys) w.
Proof.
  revert w. induction xs as [|x xs IH]; intros w; [done|].
  simpl. unfold mbind, M_bind in *. destruct (body x w) as [[[]| |] w']; auto.
Qed.

(** However often a loop turns, an invariant of its turns holds at its end. *)
Lemma turn_loop_invariant {W} (turn : M W bool) (I : W → Prop) fuel w r w' :
  (∀ w r w', I w → turn w = (r, w') → I w') → I w → turn_loop turn fuel w = (r, w') → I w'.
Proof.
  intros Hturn. revert w. induction fuel as [|fuel IH]; intros w Hw E; simpl in E; [by injection E as _ <-|].
  destruct (turn w) as [r1 w1] eqn:E1. rewrite (bind_run _ _ _ _ _ E1) in E. pose proof (Hturn _ _ _ Hw E1). destruct r1 as [[]| |]; [eauto|by injection E as _ <-..].
Qed.

(** Turns that keep an invariant and do not fail: the loop ends well, unless the fuel
    does not reach. *)
Lemma turn_loop_safe {W} (turn : M W bool) (I : W → Prop) fuel w r w' :
  (∀ w, I w → ∃ b w', turn w = (Ok b, w') ∧ (b = true → I w')) → I w → turn_loop turn fuel w = (r, w') →
  r = Ok tt ∨ r = Panic "out of fuel".
Proof.
  intros Hturn. revert w. induction fuel as [|fuel IH]; intros w Hw E; simpl in E; [injection E as <- <-; by right|].
  destruct (Hturn w Hw) as (b & w1 & E1 & Hb). rewrite (bind_run _ _ _ _ _ E1) in E.
  destruct b; [eauto|]. injection E as <- <-. by left.
Qed.

(** An invariant of a step relation holds in every reachable state. *)
Lemma rtc_invariant {A} (R : relation A) (P : A → Prop) x y :
  (∀ a b, P a → R a b → P b) → P x → rtc R x y → P y.
Proof. intros Hstep Hx Hxy. induction Hxy; eauto. Qed.

Lemma Forall_sublist {A} (P : A → Prop) l k : sublist l k → Forall P k → Forall P l.
Proof. induction 1; inversion 1; subst; eauto. Qed.

Lemma filter_all {A} (P : A → Prop) `{∀ x, Decision (P x)} l : Forall P l → filter P l = l.
Proof. induction 1 as [|x l Hx _ IH]; [done|]. by rewrite filter_cons_True, IH. Qed.

#[export] Instance insertion_order : RangeOrder := {| range V m := map_to_list m |}.

#[export] Instance insertion_order_laws : RangeOrderLaws.
Proof. by split. Qed.

Lemma range_length `{RangeOrderLaws} {V} (m : gmap string V) : length (range m) = size m.
Proof. by rewrite range_perm, length_map_to_list. Qed.

Section map_size.
Context {K V : Type} `{Countable K}.
Implicit Types m : gmap K V.

Lemma map_size_insert_le m k v : size (<[k := v]> m) ≤ S (size m).
Proof. rewrite map_size_insert. destruct (m !! k); simpl; lia. Qed.

Lemma map_size_delete_le m k : size (delete k m) ≤ size m.
Proof. rewrite map_size_delete. destruct (m !! k); simpl; lia. Qed.

End map_size.

(** ** Automation *)

Create HintDb fproto.
#[export] Hint Resolve error_Is_refl error_Is_Wrap : fproto.

(** Run a computation symbolically in hypothesis [H]. *)
Ltac run_in H :=
  unfold mbind, M_bind, mret, M_ret, throw, panic, wrap, ignore, attempt, lift, zoom in H;
  repeat (case_match; simplify_eq/=; try done).

(** Run the first part [m] of [(m ≫= f) w = _] in hypothesis [H]: its outcome is [r],
    the world it leaves is [w], and [E] says so. *)
Tactic Notation "step" hyp(H) "as" ident(r) ident(w) ident(E) :=
  match type of H with
  | mbind _ ?m ?w0 = _ =>
      destruct (m w0) as [r w] eqn:E; rewrite (bind_run _ _ _ _ _ E) in H
  end.

(** Run a computation symbolically in the goal. *)
Ltac run :=
  unfold mbind, M_bind, mret, M_ret, throw, panic, wrap, ignore, attempt, lift, zoom;
  simpl.
