(* ===== verification/Bytes.v ===== *)
(** * Byte strings: hex, decimal and fixed-width integer encodings

    What the Go sources use of [encoding/hex], [encoding/binary] and [strconv]:
    hexadecimal printing and parsing of byte slices, little- and big-endian
    unsigned integers, decimal printing and parsing of [int64]. *)
From S2P Require Import Prelude.
From Stdlib Require Import Ascii DecimalString DecimalZ.
From coqutil Require Export Byte Word.LittleEndianList.

Local Open Scope Z_scope.

(** ** encoding/hex *)

Definition hextable : string := "0123456789abcdef".

(** One hexadecimal digit of a value below 16. *)
Definition hexdigit (n : nat) : ascii := default "0"%char (String.get n hextable).

Definition byte_hi (b : byte) : nat := Z.to_nat (byte.unsigned b / 16).
Definition byte_lo (b : byte) : nat := Z.to_nat (byte.unsigned b mod 16).

(** [hex.EncodeToString] *)
Fixpoint EncodeToString (bs : bytes) : string :=
  match bs with
  | [] => EmptyString
  | b :: bs => String (hexdigit (byte_hi b)) (String (hexdigit (byte_lo b)) (EncodeToString bs))
  end.

(** The value of a hexadecimal digit of either case. *)
Definition fromHexChar (c : ascii) : option Z :=
  let n := Z.of_N (Ascii.N_of_ascii c) in
  if (48 <=? n) && (n <=? 57) then Some (n - 48)
  else if (97 <=? n) && (n <=? 102) then Some (n - 87)
  else if (65 <=? n) && (n <=? 70) then Some (n - 55)
  else None.

(** [hex.DecodeString]: the bytes decoded before the first error, and whether
    the whole string was well formed (an odd trailing digit is an error). *)
Fixpoint DecodeString (s : string) : bytes * bool :=
  match s with
  | EmptyString => ([], true)
  | String _ EmptyString => ([], false)
  | String c1 (String c2 s) =>
      match fromHexChar c1, fromHexChar c2 with
      | Some hi, Some lo => let '(bs, ok) := DecodeString s in (byte.of_Z (hi * 16 + lo) :: bs, ok)
      | _, _ => ([], false)
      end
  end.

(** ** encoding/binary *)

(** [binary.LittleEndian.PutUint64] *)
Definition PutUint64LE (v : Z) : bytes := le_split 8 v.
(** [binary.BigEndian.PutUint32] *)
Definition PutUint32BE (v : Z) : bytes := rev (le_split 4 v).
(** [binary.BigEndian.Uint32] *)
Definition Uint32BE (b : bytes) : Z := le_combine (rev b).

(** Conversion to a fixed-width unsigned type: [uint32(x)], [uint64(x)]. *)
Definition uint32 (x : Z) : Z := x mod 2 ^ 32.
Definition uint64 (x : Z) : Z := x mod 2 ^ 64.

(** [int64(x)]: two's complement wrap-around. *)
Definition int64 (x : Z) : Z := (x + 2 ^ 63) mod 2 ^ 64 - 2 ^ 63.

(** ** strconv *)

(** [strconv.FormatInt(v, 10)] *)
Definition FormatInt (v : Z) : string := NilZero.string_of_int (Z.to_int v).

Definition MaxInt64 : Z := 2 ^ 63 - 1.
Definition MinInt64 : Z := - 2 ^ 63.

(** The value of [strconv.ParseInt(s, 10, 64)] when its error is dropped: 0 on a
    syntax error, the nearest bound when out of range. *)
Definition ParseInt (s : string) : Z :=
  let digits := match s with String "+" s' => s' | _ => s end in
  match NilZero.int_of_string digits with
  | Some d => Z.max MinInt64 (Z.min MaxInt64 (Z.of_int d))
  | None => 0
  end.

(** ** Strings as byte sequences: [[]byte(s)] and [string(b)] *)

Definition bytes_of_string (s : string) : bytes := String.list_byte_of_string s.
Definition string_of_bytes (b : bytes) : string := String.string_of_list_byte b.

#[global] Arguments PutUint64LE : simpl never.
#[global] Arguments PutUint32BE : simpl never.
#[global] Arguments Uint32BE : simpl never.

(** ** Lemmas *)

Lemma hex_digits_byte b :
  fromHexChar (hexdigit (byte_hi b)) = Some (byte.unsigned b / 16) ∧
  fromHexChar (hexdigit (byte_lo b)) = Some (byte.unsigned b mod 16).
Proof. by destruct b. Qed.

Lemma DecodeString_EncodeToString bs : DecodeString (EncodeToString bs) = (bs, true).
Proof.
  induction bs as [|b bs IH]; [done|].
  cbn [EncodeToString DecodeString].
  destruct (hex_digits_byte b) as [-> ->]. rewrite IH.
  rewrite (Z.mul_comm _ 16), <-Z.div_mod by lia. by rewrite byte.of_Z_unsigned.
Qed.

#[export] Instance EncodeToString_inj : Inj (=) (=) EncodeToString.
Proof.
  intros b1 b2 H. apply (f_equal DecodeString) in H.
  rewrite !DecodeString_EncodeToString in H. by simplify_eq.
Qed.

Lemma EncodeToString_length bs : String.length (EncodeToString bs) = (2 * length bs)%nat.
Proof. induction bs as [|b bs IH]; [done|]. cbn [EncodeToString String.length length]. lia. Qed.

Lemma PutUint64LE_length v : length (PutUint64LE v) = 8%nat.
Proof. apply length_le_split. Qed.

Lemma PutUint32BE_length v : length (PutUint32BE v) = 4%nat.
Proof. unfold PutUint32BE. by rewrite length_rev, length_le_split. Qed.

Lemma PutUint64LE_inj v1 v2 :
  0 ≤ v1 < 2 ^ 64 → 0 ≤ v2 < 2 ^ 64 → PutUint64LE v1 = PutUint64LE v2 → v1 = v2.
Proof.
  intros H1 H2 H. apply (f_equal le_combine) in H. unfold PutUint64LE in H.
  rewrite !le_combine_split in H. change (2 ^ (Z.of_nat 8 * 8)) with (2 ^ 64) in H.
  rewrite !Z.mod_small in H; lia.
Qed.

Lemma le_combine_PutUint64LE v : 0 ≤ v < 2 ^ 64 → le_combine (PutUint64LE v) = v.
Proof. intros Hv. unfold PutUint64LE. rewrite le_combine_split. apply Z.mod_small. exact Hv. Qed.

Lemma Uint32BE_PutUint32BE v : Uint32BE (PutUint32BE v) = uint32 v.
Proof. unfold Uint32BE, PutUint32BE. by rewrite rev_involutive, le_combine_split. Qed.

Lemma Uint32BE_range b : length b = 4%nat → 0 ≤ Uint32BE b < 2 ^ 32.
Proof.
  intros Hb. unfold Uint32BE. pose proof (le_combine_bound (rev b)) as H.
  rewrite length_rev, Hb in H. exact H.
Qed.

Lemma PutUint32BE_Uint32BE b : length b = 4%nat → PutUint32BE (Uint32BE b) = b.
Proof.
  intros Hb. unfold PutUint32BE, Uint32BE.
  rewrite split_le_combine' by (by rewrite length_rev). apply rev_involutive.
Qed.

Lemma int64_small v : MinInt64 ≤ v ≤ MaxInt64 → int64 v = v.
Proof. unfold int64, MinInt64, MaxInt64. intros. rewrite Z.mod_small; lia. Qed.

Lemma int64_add_l a b : int64 (int64 a + b) = int64 (a + b).
Proof.
  unfold int64. f_equal. replace ((a + 2 ^ 63) mod 2 ^ 64 - 2 ^ 63 + b + 2 ^ 63) with ((a + 2 ^ 63) mod 2 ^ 64 + b) by lia.
  rewrite Z.add_mod_idemp_l by done. f_equal. lia.
Qed.

Lemma Z_to_int_nonnil v :
  Z.to_int v ≠ Decimal.Pos Decimal.Nil ∧ Z.to_int v ≠ Decimal.Neg Decimal.Nil.
Proof.
  destruct v as [|p|p]; simpl; split; try done; intros [= H];
    apply (f_equal Pos.of_uint) in H; by rewrite DecimalPos.Unsigned.of_to in H.
Qed.

Lemma string_of_int_no_plus d s : NilZero.string_of_int d ≠ String "+"%char s.
Proof. by destruct d as [[]|[]]. Qed.

Lemma ParseInt_FormatInt v : MinInt64 ≤ v ≤ MaxInt64 → ParseInt (FormatInt v) = v.
Proof.
  intros Hv. unfold ParseInt, FormatInt.
  assert (match NilZero.string_of_int (Z.to_int v) with
          | String "+" s' => s' | _ => NilZero.string_of_int (Z.to_int v) end
          = NilZero.string_of_int (Z.to_int v)) as ->.
  { pose proof (string_of_int_no_plus (Z.to_int v)) as Hp.
    destruct (NilZero.string_of_int (Z.to_int v)) as [|c s]; [done|].
    destruct c as [[] [] [] [] [] [] [] []]; try done. by destruct (Hp s). }
  destruct (Z_to_int_nonnil v). rewrite NilZero.isi by done. rewrite DecimalZ.of_to. lia.
Qed.

#[global] Arguments EncodeToString : simpl never.

(** A hexadecimal string holds no colon. *)
Lemma hexdigit_not_colon b :
  hexdigit (byte_hi b) ≠ ":"%char ∧ hexdigit (byte_lo b) ≠ ":"%char.
Proof. by destruct b. Qed.

Lemma EncodeToString_cons b bs :
  EncodeToString (b :: bs) =
  String (hexdigit (byte_hi b)) (String (hexdigit (byte_lo b)) (EncodeToString bs)).
Proof. reflexivity. Qed.

Lemma hexdigits_inj x y :
  hexdigit (byte_hi x) = hexdigit (byte_hi y) → hexdigit (byte_lo x) = hexdigit (byte_lo y) → x = y.
Proof.
  intros H1 H2. assert ([x] = [y]) as [= ->]; [|done].
  apply (inj EncodeToString). by rewrite !EncodeToString_cons, H1, H2.
Qed.

(** A hexadecimal string ends where a colon begins. *)
Lemma hex_colon_inj a b t1 t2 :
  EncodeToString a +:+ String ":" t1 = EncodeToString b +:+ String ":" t2 → a = b ∧ t1 = t2.
Proof.
  revert b. induction a as [|x a IH]; intros [|y b].
  - change (String ":"%char t1 = String ":"%char t2 → [] = ([] : bytes) ∧ t1 = t2). naive_solver.
  - rewrite EncodeToString_cons. intros [= Hx _]. by destruct (hexdigit_not_colon y).
  - rewrite EncodeToString_cons. intros [= Hx _]. by destruct (hexdigit_not_colon x).
  - rewrite !EncodeToString_cons. intros [= H1 H2 H3]. apply IH in H3 as [-> ->].
    by rewrite (hexdigits_inj x y).
Qed.

Lemma hex_no_colon a b t : EncodeToString a ≠ EncodeToString b +:+ String ":" t.
Proof.
  revert b. induction a as [|x a IH]; intros [|y b]; try done.
  - rewrite EncodeToString_cons. intros [= Hx _]. by destruct (hexdigit_not_colon x).
  - rewrite !EncodeToString_cons. intros [= _ _ H]. by apply IH in H.
Qed.
