(* ===== verification/Wire.v ===== *)
(** * Length-prefixed framing over a QUIC stream

    [proto-core/transport/quic.go] and [sdk/go/transport.go]: a message is sent
    as four big-endian length bytes followed by its contents.  The QUIC stream
    (quic-go) is a parameter, the class [Stream]; what the framing relies on is
    the class [StreamLaws]: an ordered, reliable byte stream that may be cut
    anywhere into reads. *)
From S2P Require Import Prelude Bytes.

Local Open Scope Z_scope.

(** ** The stream, a parameter *)

(** [Read(p)] with [len(p)] and [Write(p)] of a QUIC stream; [incoming] is what
    the peer's writes will still deliver before the stream ends or fails,
    [sent] what this side has written so far. *)
Class Stream (S : Type) := {
  stream_Read : nat → M S bytes;
  stream_Write : bytes → M S unit;
  incoming : S → bytes;
  sent : S → bytes;
}.

Class StreamLaws (S : Type) `{Stream S} : Prop := {
  Read_Ok n s b s' : (0 < n)%nat → stream_Read n s = (Ok b, s') →
    b ≠ [] ∧ (length b ≤ n)%nat ∧ incoming s = b ++ incoming s' ∧ sent s' = sent s;
  Read_Err n s e s' : (0 < n)%nat → stream_Read n s = (Err e, s') →
    incoming s = [] ∧ incoming s' = [] ∧ sent s' = sent s;
  Read_no_panic n s w s' : stream_Read n s ≠ (Panic w, s');
  Write_Ok b s s' : stream_Write b s = (Ok tt, s') →
    sent s' = sent s ++ b ∧ incoming s' = incoming s;
  Write_Err b s e s' : stream_Write b s = (Err e, s') →
    incoming s' = incoming s ∧ ∃ k, sent s' = sent s ++ take k b;
  Write_no_panic b s w s' : stream_Write b s ≠ (Panic w, s');
}.

(** ** The framing *)

Definition quicMaxMsgSize : Z := 65536.

Section framing.
Context {S : Type} `{Stream S}.

(** [io.ReadFull] into a buffer of [n] bytes: read until it is full.  Every read
    of a non-empty buffer returns at least one byte, so [n] rounds are enough. *)
Fixpoint ReadFull_loop (fuel n : nat) : M S bytes :=
  match n, fuel with
  | O, _ => mret []
  | _, O => throw (Errorf "io: read full: out of rounds")
  | _, Datatypes.S fuel =>
      b ← stream_Read n;
      rest ← ReadFull_loop fuel (n - length b);
      mret (b ++ rest)
  end.

Definition ReadFull (n : nat) : M S bytes := ReadFull_loop n n.

Definition QUICConn_ReadMessage : M S bytes :=
  lenBuf ← wrap "quic read length" (ReadFull 4);
  let msgLen := Uint32BE lenBuf in
  if quicMaxMsgSize <? msgLen then throw (Errorf "quic message too large: %d")
  else wrap "quic read payload" (ReadFull (Z.to_nat msgLen)).

Definition QUICConn_WriteMessage (data : bytes) : M S unit :=
  let lenBuf := PutUint32BE (uint32 (Z.of_nat (length data))) in
  _ ← wrap "quic write length" (stream_Write lenBuf);
  wrap "quic write payload" (stream_Write data).

(** The SDK's transport: the same framing, without a size limit when reading. *)
Definition quicTransport_ReadMessage : M S bytes :=
  lenBuf ← ReadFull 4;
  let msgLen := Uint32BE lenBuf in
  ReadFull (Z.to_nat msgLen).

Definition quicTransport_WriteMessage (data : bytes) : M S unit :=
  let lenBuf := PutUint32BE (uint32 (Z.of_nat (length data))) in
  _ ← stream_Write lenBuf;
  stream_Write data.

(** Writing, and reading back, a sequence of messages. *)
Definition write_all (write : bytes → M S unit) (ms : list bytes) : M S unit :=
  for_each write ms.

Fixpoint read_all (read : M S bytes) (n : nat) : M S (list bytes) :=
  match n with
  | O => mret []
  | Datatypes.S n => m ← read; ms ← read_all read n; mret (m :: ms)
  end.

End framing.

(** The bytes of one message on the wire. *)
Definition frame (m : bytes) : bytes := PutUint32BE (Z.of_nat (length m)) ++ m.

#[global] Arguments frame : simpl never.

(** ** A concrete stream: the incoming bytes already cut into reads *)

Record chunks := Chunks { ch_in : list bytes; ch_out : bytes }.

(** Drop the empty chunks at the front: a read blocks until there is data. *)
Fixpoint next_chunk (cs : list bytes) : option (bytes * list bytes) :=
  match cs with
  | [] => None
  | [] :: cs => next_chunk cs
  | c :: cs => Some (c, cs)
  end.

Definition chunks_Read (n : nat) : M chunks bytes := λ s,
  match next_chunk (ch_in s) with
  | None => (Err (Errorf "EOF"), Chunks [] (ch_out s))
  | Some (c, cs) => (Ok (take n c), Chunks (drop n c :: cs) (ch_out s))
  end.

Definition chunks_Write (b : bytes) : M chunks unit := λ s,
  (Ok tt, Chunks (ch_in s) (ch_out s ++ b)).

#[export] Instance chunks_Stream : Stream chunks := {
  stream_Read := chunks_Read;
  stream_Write := chunks_Write;
  incoming s := concat (ch_in s);
  sent := ch_out;
}.

(** ** Lemmas *)

Lemma next_chunk_Some cs c cs' :
  next_chunk cs = Some (c, cs') → c ≠ [] ∧ concat cs = c ++ concat cs'.
Proof. induction cs as [|[|b c0] cs IH]; naive_solver. Qed.

Lemma next_chunk_None cs : next_chunk cs = None → concat cs = [].
Proof. induction cs as [|[|b c0] cs IH]; naive_solver. Qed.

#[export] Instance chunks_StreamLaws : StreamLaws chunks.
Proof.
  split; simpl.
  - intros n s b s' Hn. unfold chunks_Read.
    destruct (next_chunk (ch_in s)) as [[c cs]|] eqn:E; intros; simplify_eq/=.
    apply next_chunk_Some in E as [Hc ->].
    split; [destruct c, n; (done || lia)|]. rewrite length_take.
    split; [lia|]. by rewrite app_assoc, take_drop.
  - intros n s e s' Hn. unfold chunks_Read.
    destruct (next_chunk (ch_in s)) as [[c cs]|] eqn:E; intros; simplify_eq/=.
    by apply next_chunk_None in E.
  - intros n s w s'. unfold chunks_Read. by destruct (next_chunk (ch_in s)) as [[c cs]|].
  - intros b s s' E. by unfold chunks_Write in E; simplify_eq/=.
  - intros b s e s' E. by unfold chunks_Write in E; simplify_eq/=.
  - intros b s w s'. done.
Qed.

Section framing_lemmas.
Context {S : Type} `{StreamLaws S}.
Implicit Types (s : S) (m : bytes).

(** [ReadFull] does not depend on how the stream is cut: it returns the next [n]
    bytes when there are that many, and an error otherwise. *)
Lemma ReadFull_loop_spec fuel n s :
  (n ≤ fuel)%nat →
  ∃ s', sent s' = sent s ∧
  if decide (n ≤ length (incoming s))%nat
  then ReadFull_loop fuel n s = (Ok (take n (incoming s)), s') ∧ incoming s' = drop n (incoming s)
  else ∃ e, ReadFull_loop fuel n s = (Err e, s') ∧ incoming s' = [].
Proof.
  revert n s. induction fuel as [|fuel IH]; intros [|n] s Hf; try lia;
    [by exists s; rewrite decide_True by lia..|].
  cbn [ReadFull_loop]. unfold mbind, M_bind.
  destruct (stream_Read (Datatypes.S n) s) as [[b|e|w] s1] eqn:E.
  - apply Read_Ok in E as (Hb & Hlen & Hin & Hs); [|lia].
    assert (0 < length b)%nat by (destruct b; simpl; [done|lia]).
    destruct (IH (Datatypes.S n - length b)%nat s1) as (s2 & Hs2 & IH2); [lia|].
    exists s2. split; [congruence|]. rewrite Hin, length_app. case_decide.
    + rewrite decide_True by lia. destruct IH2 as [-> ->]. split.
      * rewrite take_app_ge by lia. done.
      * by rewrite drop_app_ge by lia.
    + rewrite decide_False by lia. destruct IH2 as (e & -> & ->). eauto.
  - apply Read_Err in E as (Hin & Hin1 & Hs); [|lia].
    exists s1. rewrite Hin. split; [done|]. rewrite decide_False by (simpl; lia). eauto.
  - by apply Read_no_panic in E.
Qed.

Lemma ReadFull_Ok n s b rest :
  incoming s = b ++ rest → length b = n →
  ∃ s', ReadFull n s = (Ok b, s') ∧ incoming s' = rest ∧ sent s' = sent s.
Proof.
  intros Hin Hlen. destruct (ReadFull_loop_spec n n s) as (s' & Hs & IH); [lia|].
  rewrite Hin, length_app, decide_True in IH by lia. destruct IH as [H1 H2].
  exists s'. unfold ReadFull. rewrite H1, H2, <-Hlen, take_app_length, drop_app_length. done.
Qed.

Lemma ReadFull_short n s :
  (length (incoming s) < n)%nat → ∃ e s', ReadFull n s = (Err e, s') ∧ incoming s' = [].
Proof.
  intros Hlen. destruct (ReadFull_loop_spec n n s) as (s' & Hs & IH); [lia|].
  rewrite decide_False in IH by lia. destruct IH as (e & ? & ?). eauto.
Qed.

Lemma ReadFull_inv n s b s' :
  ReadFull n s = (Ok b, s') → incoming s = b ++ incoming s' ∧ length b = n.
Proof.
  intros E. destruct (ReadFull_loop_spec n n s) as (s2 & _ & IH); [lia|].
  unfold ReadFull in E. case_decide.
  - destruct IH as [E2 Hin]. rewrite E2 in E. simplify_eq.
    rewrite Hin, take_drop, length_take. split; [done|lia].
  - destruct IH as (e & E2 & _). congruence.
Qed.

(** One frame at the head of the stream is read whole. *)
Lemma quicTransport_ReadMessage_frame s m rest :
  incoming s = frame m ++ rest → Z.of_nat (length m) < 2 ^ 32 →
  ∃ s', quicTransport_ReadMessage s = (Ok m, s') ∧ incoming s' = rest.
Proof.
  intros Hin Hm. unfold frame in Hin. rewrite <-app_assoc in Hin.
  destruct (ReadFull_Ok 4 s _ _ Hin) as (s1 & E1 & Hin1 & _); [apply PutUint32BE_length|].
  destruct (ReadFull_Ok (length m) s1 _ _ Hin1 eq_refl) as (s2 & E2 & Hin2 & _).
  exists s2. split; [|done]. unfold quicTransport_ReadMessage.
  rewrite (bind_run _ _ _ _ _ E1), Uint32BE_PutUint32BE.
  unfold uint32. rewrite Z.mod_small by lia. by rewrite Nat2Z.id.
Qed.

Lemma QUICConn_ReadMessage_frame s m rest :
  incoming s = frame m ++ rest → Z.of_nat (length m) ≤ quicMaxMsgSize →
  ∃ s', QUICConn_ReadMessage s = (Ok m, s') ∧ incoming s' = rest.
Proof.
  unfold quicMaxMsgSize. intros Hin Hm. unfold frame in Hin. rewrite <-app_assoc in Hin.
  destruct (ReadFull_Ok 4 s _ _ Hin) as (s1 & E1 & Hin1 & _); [apply PutUint32BE_length|].
  destruct (ReadFull_Ok (length m) s1 _ _ Hin1 eq_refl) as (s2 & E2 & Hin2 & _).
  exists s2. split; [|done]. unfold QUICConn_ReadMessage.
  rewrite (bind_run _ _ _ _ _ (wrap_run _ _ _ _ _ E1)), Uint32BE_PutUint32BE.
  unfold uint32. rewrite Z.mod_small by lia. unfold quicMaxMsgSize.
  rewrite (proj2 (Z.ltb_ge _ _)) by lia. rewrite Nat2Z.id.
  by rewrite (wrap_run _ _ _ _ _ E2).
Qed.

Lemma write_frame s m s' :
  Z.of_nat (length m) < 2 ^ 32 →
  QUICConn_WriteMessage m s = (Ok tt, s') → sent s' = sent s ++ frame m.
Proof.
  intros Hm E. unfold QUICConn_WriteMessage in E.
  apply bind_Ok_inv in E as ([] & s1 & E1%wrap_Ok_inv & E2%wrap_Ok_inv).
  apply Write_Ok in E1 as [E1 _]. apply Write_Ok in E2 as [E2 _].
  rewrite E2, E1. unfold frame, uint32. by rewrite Z.mod_small, <-app_assoc by lia.
Qed.

Lemma write_all_frames ms s s' :
  Forall (λ m, Z.of_nat (length m) < 2 ^ 32) ms →
  write_all QUICConn_WriteMessage ms s = (Ok tt, s') →
  sent s' = sent s ++ concat (frame <$> ms).
Proof.
  intros Hms. revert s. induction Hms as [|m ms Hm Hms IH]; intros s E.
  - apply (f_equal snd) in E. simpl in E. subst. by rewrite app_nil_r.
  - cbn in E. apply bind_Ok_inv in E as ([] & s1 & E1 & E2).
    apply write_frame in E1; [|done]. rewrite (IH _ E2), E1, fmap_cons. cbn [concat]. by rewrite app_assoc.
Qed.

Lemma read_all_frames ms s rest :
  Forall (λ m, Z.of_nat (length m) ≤ quicMaxMsgSize) ms →
  incoming s = concat (frame <$> ms) ++ rest →
  ∃ s', read_all QUICConn_ReadMessage (length ms) s = (Ok ms, s') ∧ incoming s' = rest.
Proof.
  intros Hms. revert s. induction Hms as [|m ms Hm Hms IH]; intros s Hin; [by exists s|].
  rewrite fmap_cons in Hin. cbn [concat] in Hin. rewrite <-app_assoc in Hin.
  destruct (QUICConn_ReadMessage_frame _ _ _ Hin Hm) as (s1 & E1 & Hin1).
  destruct (IH _ Hin1) as (s2 & E2 & Hin2). exists s2. split; [|done].
  cbn. rewrite (bind_run _ _ _ _ _ E1). by rewrite (bind_run _ _ _ _ _ E2).
Qed.

End framing_lemmas.

(** ** Properties *)

(** C9: the messages written to a QUIC connection by [WriteMessage] are
    the messages [ReadMessage] returns at the other end, in order and without
    residue, however the stream is cut into reads, as long as each is at most
    [quicMaxMsgSize] bytes. *)
Theorem quic_messages_roundtrip {S R : Type} `{StreamLaws S} `{StreamLaws R}
    (ms : list bytes) (s s' : S) (r : R) :
  Forall (λ m, Z.of_nat (length m) ≤ quicMaxMsgSize) ms →
  write_all QUICConn_WriteMessage ms s = (Ok tt, s') →
  sent s ++ incoming r = sent s' →
  ∃ r', read_all QUICConn_ReadMessage (length ms) r = (Ok ms, r') ∧ incoming r' = [].
Proof.
  intros Hms E Hr. apply write_all_frames in E.
  - rewrite E in Hr. apply app_inv_head in Hr.
    apply read_all_frames; [done|]. by rewrite app_nil_r.
  - eapply Forall_impl; [exact Hms|]. unfold quicMaxMsgSize. intros m ?. simpl in *. lia.
Qed.

Lemma quic_messages_roundtrip_witness :
  ∃ r', read_all QUICConn_ReadMessage 2
          (Chunks [[x00; x00]; [x00]; [x02; x61]; [x62; x00; x00; x00; x00]] [])
        = (Ok [[x61; x62]; []], r') ∧ incoming r' = [].
Proof.
  apply (quic_messages_roundtrip [[x61; x62]; []] (Chunks [] [])
           (Chunks [] [x00; x00; x00; x02; x61; x62; x00; x00; x00; x00])).
  - repeat constructor; vm_compute; congruence.
  - reflexivity.
  - reflexivity.
Defined.

(** Whatever arrives, [ReadMessage] either fails or returns exactly
    the payload announced by the length prefix, at most [quicMaxMsgSize] bytes,
    and leaves the rest of the stream unread: a truncated or oversized frame is
    never delivered. *)
Theorem quic_read_sound {S : Type} `{StreamLaws S} (s s' : S) (m : bytes) :
  QUICConn_ReadMessage s = (Ok m, s') →
  incoming s = frame m ++ incoming s' ∧ Z.of_nat (length m) ≤ quicMaxMsgSize.
Proof.
  intros E. apply bind_Ok_inv in E as (lenBuf & s1 & E1%wrap_Ok_inv & E2).
  apply ReadFull_inv in E1 as [Hin1 Hlen1]. cbv zeta beta in E2.
  destruct (quicMaxMsgSize <? Uint32BE lenBuf) eqn:Hmax; [done|].
  apply wrap_Ok_inv, ReadFull_inv in E2 as [Hin2 Hlen2].
  pose proof (Uint32BE_range _ Hlen1). apply Z.ltb_ge in Hmax.
  unfold frame. rewrite Hlen2, Z2Nat.id by lia. split; [|done].
  rewrite PutUint32BE_Uint32BE by done. by rewrite Hin1, Hin2, app_assoc.
Qed.

Lemma quic_read_sound_witness :
  incoming (Chunks [[x00; x00; x00]; [x01; x61; x62]] []) =
    frame [x61] ++ incoming (Chunks [[x62]] []) ∧
  Z.of_nat (length [x61]) ≤ quicMaxMsgSize.
Proof.
  apply (quic_read_sound (Chunks [[x00; x00; x00]; [x01; x61; x62]] []) (Chunks [[x62]] []) [x61]).
  reflexivity.
Defined.

(** The size limit is enforced by the reader only: a message
    longer than the limit (and shorter than 4 GiB) is written without an error,
    and the reader rejects it with its payload still unread, so the stream is no
    longer at a frame boundary. *)
Theorem quic_oversized_rejected {S R : Type} `{StreamLaws S} `{StreamLaws R}
    (m rest : bytes) (s s' : S) (r : R) :
  quicMaxMsgSize < Z.of_nat (length m) < 2 ^ 32 →
  QUICConn_WriteMessage m s = (Ok tt, s') →
  sent s ++ incoming r = sent s' ++ rest →
  ∃ r', QUICConn_ReadMessage r = (Err (Errorf "quic message too large: %d"), r') ∧
        incoming r' = m ++ rest.
Proof.
  intros Hm E Hr. apply write_frame in E; [|lia]. rewrite E, <-app_assoc in Hr.
  apply app_inv_head in Hr. unfold frame in Hr. rewrite <-app_assoc in Hr.
  destruct (ReadFull_Ok 4 r _ _ Hr) as (r1 & E1 & Hin1 & _); [apply PutUint32BE_length|].
  exists r1. split; [|done]. unfold QUICConn_ReadMessage.
  rewrite (bind_run _ _ _ _ _ (wrap_run _ _ _ _ _ E1)), Uint32BE_PutUint32BE.
  unfold uint32. rewrite Z.mod_small by lia. by rewrite (proj2 (Z.ltb_lt _ _)) by lia.
Qed.

Definition big_message : bytes := replicate (Z.to_nat (quicMaxMsgSize + 1)) x00.

Lemma big_message_length : Z.of_nat (length big_message) = quicMaxMsgSize + 1.
Proof.
  unfold big_message. rewrite length_replicate. unfold quicMaxMsgSize. rewrite Z2Nat.id; lia.
Qed.

#[local] Opaque big_message.

Lemma chunks_WriteMessage m : Z.of_nat (length m) < 2 ^ 32 →
  QUICConn_WriteMessage m (Chunks [] []) = (Ok tt, Chunks [] (frame m)).
Proof.
  intros Hm. unfold QUICConn_WriteMessage, frame, uint32. rewrite Z.mod_small by lia. done.
Qed.

Lemma chunks_incoming_one m : incoming (Chunks [m] []) = m.
Proof. apply app_nil_r. Qed.

Lemma quic_oversized_rejected_witness :
  ∃ r', QUICConn_ReadMessage (Chunks [frame big_message] []) =
          (Err (Errorf "quic message too large: %d"), r') ∧
        incoming r' = big_message ++ [].
Proof.
  apply (quic_oversized_rejected big_message [] (Chunks [] []) (Chunks [] (frame big_message))).
  - rewrite big_message_length. unfold quicMaxMsgSize. lia.
  - apply chunks_WriteMessage. rewrite big_message_length. unfold quicMaxMsgSize. lia.
  - rewrite chunks_incoming_one, app_nil_r. reflexivity.
Defined.
