(* ===== verification/ConnPool.v ===== *)
(** * The connection pool of a session

    [proto-core/transport/transport.go] and [proto-core/transport/pool.go].  The
    pool is a map from connection ids to entries under one mutex, so each method
    is one atomic step on [ConnPool].  A connection is a parameter of the model;
    the pool only asks for its transport [Type]. *)
From S2P Require Import Prelude.

Local Open Scope Z_scope.

(** [transport.Type], a string type: the three constants and any other value. *)
Inductive Type_ : Type :=
| TypeWebSocket
| TypeQUIC
| TypeGRPC
| TypeOther (s : string).

#[export] Instance Type_eq_dec : EqDecision Type_.
Proof. solve_decision. Defined.

Definition DefaultMaxConns : Z := 5.

(** [transportPriority[t]]: 0 for a type missing from the map. *)
Definition transportPriority (t : Type_) : Z :=
  match t with
  | TypeQUIC => 3
  | TypeWebSocket => 2
  | TypeGRPC => 1
  | TypeOther _ => 0
  end.

Section pool.
Context {Conn : Type} (conn_Type : Conn → Type_).

Record poolEntry := PoolEntry { conn : Conn; lastPacketSeq : Z }.

Record ConnPool := mkConnPool { conns : gmap string poolEntry; maxConns : Z }.

Definition NewConnPool (maxConns : Z) : ConnPool :=
  {| conns := ∅; maxConns := if maxConns <=? 0 then DefaultMaxConns else maxConns |}.

Definition ConnPool_Count (p : ConnPool) : Z := Z.of_nat (size (conns p)).

Definition ConnPool_Add (id : string) (c : Conn) : M ConnPool unit := λ p,
  if maxConns p <=? Z.of_nat (size (conns p))
  then (Err (Errorf "connection pool full: max %d"), p)
  else (Ok tt, {| conns := <[id := PoolEntry c 0]> (conns p); maxConns := maxConns p |}).

Definition ConnPool_Remove (id : string) (p : ConnPool) : ConnPool :=
  {| conns := delete id (conns p); maxConns := maxConns p |}.

Definition ConnPool_UpdateSeq (id : string) (seq : Z) (p : ConnPool) : ConnPool :=
  match conns p !! id with
  | Some e => {| conns := <[id := PoolEntry (conn e) seq]> (conns p); maxConns := maxConns p |}
  | None => p
  end.

(** The body of the loop of [Best] on the best entry found so far. *)
Definition Best_step (best : option (string * poolEntry)) (x : string * poolEntry) :
    option (string * poolEntry) :=
  match best with
  | None => Some x
  | Some (_, bestEntry) =>
      let entry := x.2 in
      if lastPacketSeq bestEntry <? lastPacketSeq entry then Some x
      else if lastPacketSeq entry =? lastPacketSeq bestEntry then
        if transportPriority (conn_Type (conn bestEntry)) <? transportPriority (conn_Type (conn entry))
        then Some x else best
      else best
  end.

(** [Best] ranging over the map in the order [order], which Go leaves open. *)
Definition ConnPool_Best (order : list (string * poolEntry)) : option (Conn * string) :=
  match foldl Best_step None order with
  | Some (id, e) => Some (conn e, id)
  | None => None
  end.

Definition ConnPool_All (order : list (string * poolEntry)) : list string := order.*1.

(** One call of a method of the pool. *)
Inductive pool_step : ConnPool → ConnPool → Prop :=
| step_Add id c p r p' : ConnPool_Add id c p = (r, p') → pool_step p p'
| step_Remove id p : pool_step p (ConnPool_Remove id p)
| step_UpdateSeq id seq p : pool_step p (ConnPool_UpdateSeq id seq p).

(** A pool in use: its capacity is positive and never exceeded. *)
Definition pool_ok (p : ConnPool) : Prop :=
  0 < maxConns p ∧ Z.of_nat (size (conns p)) ≤ maxConns p.

(** The order in which [Best] prefers entries: the most recent packet, then the
    transport. *)
Definition rank (e : poolEntry) : Z * Z :=
  (lastPacketSeq e, transportPriority (conn_Type (conn e))).

Definition rank_le (a b : Z * Z) : Prop := a.1 < b.1 ∨ (a.1 = b.1 ∧ a.2 ≤ b.2).

(** ** Lemmas *)

Lemma rank_le_refl a : rank_le a a.
Proof. right. lia. Qed.

Lemma rank_le_trans a b c : rank_le a b → rank_le b c → rank_le a c.
Proof. unfold rank_le. lia. Qed.

Lemma rank_le_antisym a b : rank_le a b → rank_le b a → a = b.
Proof. destruct a, b. unfold rank_le. simpl. intros. f_equal; lia. Qed.

(** One round keeps the better of the two candidates. *)
Lemma Best_step_max b x :
  ∃ y, Best_step (Some b) x = Some y ∧ (y = b ∨ y = x) ∧
       rank_le (rank b.2) (rank y.2) ∧ rank_le (rank x.2) (rank y.2).
Proof.
  destruct b as [bid be]. unfold Best_step, rank_le, rank. simpl.
  destruct (Z.ltb_spec (lastPacketSeq be) (lastPacketSeq x.2)); [exists x; naive_solver lia|].
  destruct (Z.eqb_spec (lastPacketSeq x.2) (lastPacketSeq be));
    [|exists (bid, be); simpl; naive_solver lia].
  destruct (Z.ltb_spec (transportPriority (conn_Type (conn be)))
    (transportPriority (conn_Type (conn x.2))));
    [exists x|exists (bid, be)]; simpl; naive_solver lia.
Qed.

Lemma Best_foldl_max l b :
  ∃ y, foldl Best_step (Some b) l = Some y ∧ y ∈ b :: l ∧
       ∀ x, x ∈ b :: l → rank_le (rank x.2) (rank y.2).
Proof.
  revert b. induction l as [|x l IH]; intros b; cbn [foldl].
  - exists b. split; [done|]. split; [set_solver|].
    intros x ->%list_elem_of_singleton. apply rank_le_refl.
  - destruct (Best_step_max b x) as (y & -> & Hy & Hb & Hx).
    destruct (IH y) as (z & Hz & Hin & Hmax). exists z. split; [done|].
    split; [set_solver|]. intros e He.
    assert (rank_le (rank y.2) (rank z.2)) by (apply Hmax; set_solver).
    rewrite !elem_of_cons in He. destruct He as [->|[->|He]];
      eauto using rank_le_trans. apply Hmax. set_solver.
Qed.

Lemma pool_step_ok p p' : pool_ok p → pool_step p p' → pool_ok p'.
Proof.
  intros [Hpos Hsz] Hst.
  inversion Hst as [id c ? r ? E|id|id seq]; subst; split; simpl; try done.
  - unfold ConnPool_Add in E. case_match; by simplify_eq/=.
  - unfold ConnPool_Add in E. case_match eqn:Hfull; simplify_eq/=; [done|].
    apply Z.leb_gt in Hfull. pose proof (map_size_insert_le (conns p) id (PoolEntry c 0)). lia.
  - pose proof (map_size_delete_le (conns p) id). lia.
  - unfold ConnPool_UpdateSeq. by case_match.
  - unfold ConnPool_UpdateSeq. case_match eqn:Hid; simpl; [|done].
    by rewrite map_size_insert_Some.
Qed.

End pool.

(** ** Properties *)

(** A pool created by [NewConnPool] and used through its methods in
    any order and by any number of callers never holds more connections than its
    capacity, which is positive (5 when the caller asked for none). *)
Theorem pool_capacity_invariant {Conn : Type} (n : Z) (p : @ConnPool Conn) :
  rtc pool_step (NewConnPool n) p →
  0 < maxConns p ∧ ConnPool_Count p ≤ maxConns p.
Proof.
  apply (rtc_invariant _ pool_ok); [apply pool_step_ok|].
  unfold pool_ok, NewConnPool, DefaultMaxConns. simpl. rewrite map_size_empty.
  case_match; lia.
Qed.

Lemma pool_capacity_invariant_witness :
  0 < maxConns (ConnPool_UpdateSeq "a" 7 (NewConnPool (Conn:=unit) 0)) ∧
  ConnPool_Count (ConnPool_UpdateSeq "a" 7 (NewConnPool (Conn:=unit) 0))
    ≤ maxConns (ConnPool_UpdateSeq "a" 7 (NewConnPool (Conn:=unit) 0)).
Proof. apply (pool_capacity_invariant 0). apply rtc_once. constructor. Defined.


Definition example_pool : @ConnPool Type_ := mkConnPool
  {[ "a" := PoolEntry TypeWebSocket 4; "b" := PoolEntry TypeQUIC 4; "c" := PoolEntry TypeGRPC 1 ]} 5.


(** [Add] refuses exactly when the pool is full and then changes
    nothing, also for an id that is already registered; otherwise the entry is
    stored with sequence number 0 and the other entries are kept. *)
Theorem pool_add_spec {Conn : Type} (id : string) (c : Conn) (p : ConnPool) :
  match ConnPool_Add id c p with
  | (Ok _, p') => ConnPool_Count p < maxConns p ∧ conns p' !! id = Some (PoolEntry c 0) ∧
      (∀ id', id' ≠ id → conns p' !! id' = conns p !! id') ∧
      (conns p !! id = None → ConnPool_Count p' = ConnPool_Count p + 1)
  | (Err _, p') => maxConns p ≤ ConnPool_Count p ∧ p' = p
  | (Panic _, _) => False
  end.
Proof.
  unfold ConnPool_Add, ConnPool_Count. destruct (Z.leb_spec (maxConns p) (Z.of_nat (size (conns p)))).
  - done.
  - simpl. split; [done|]. split; [apply lookup_insert_eq|]. split.
    + intros id' Hne. by rewrite lookup_insert_ne.
    + intros Hnone. rewrite map_size_insert_None by done. lia.
Qed.
