(* ===== verification/Crypto.v ===== *)
(** * Symmetric encryption of the session layer

    [proto-core/crypto/aead.go], [rekey.go] and [zeroize.go].  The ciphers of
    golang.org/x/crypto (ChaCha20-Poly1305, HKDF) are parameters: the class
    [ChaCha20Poly1305] with its laws, and the class [HKDF]. *)
From S2P Require Import Prelude Bytes.

Local Open Scope Z_scope.

(** ** Parameters *)

Definition KeySize : nat := 32.
Definition NonceSize : nat := 12.

(** A cipher keyed with 32 bytes: [Seal] and [Open] take key, nonce, text and
    additional data. *)
Class ChaCha20Poly1305 := {
  Seal : bytes → bytes → bytes → bytes → result bytes;
  Open : bytes → bytes → bytes → bytes → result bytes;
}.

(** The library panics on texts of about 256 GiB and more. *)
Definition plaintext_fits (p : bytes) : Prop := Z.of_nat (length p) ≤ 2 ^ 38 - 64.
Definition ciphertext_fits (c : bytes) : Prop := Z.of_nat (length c) ≤ 2 ^ 38 - 48.

Class ChaCha20Poly1305Laws `{ChaCha20Poly1305} : Prop := {
  Seal_Ok k n p a : length n = NonceSize → plaintext_fits p → ∃ c, Seal k n p a = Ok c;
  Open_no_panic k n c a w : length n = NonceSize → ciphertext_fits c → Open k n c a ≠ Panic w;
  Open_bad_nonce k n c a : length n ≠ NonceSize →
    Open k n c a = Panic "chacha20poly1305: bad nonce length passed to Open";
  Open_Seal k n p a c : Seal k n p a = Ok c → Open k n c a = Ok p;
  Open_tidy k n p a c : Open k n c a = Ok p → Seal k n p a = Ok c;
}.

(** [hkdf.New(sha256.New, secret, salt, info)] read into [n] bytes. *)
Class HKDF := { hkdf_read : bytes → bytes → bytes → nat → result bytes }.

Class HKDFLaws `{HKDF} : Prop := {
  hkdf_length secret salt info n : (n ≤ 255 * 32)%nat →
    ∃ okm, hkdf_read secret salt info n = Ok okm ∧ length okm = n;
}.

(** ** Operations *)

(** The cipher is represented by its key. *)
Definition NewAEAD (key : bytes) : result bytes :=
  if bool_decide (length key = KeySize) then Ok key
  else Err (Errorf "invalid key size: expected %d, got %d").

Definition BuildNonce (seq : Z) : bytes := replicate 4 x00 ++ PutUint64LE seq.

Definition BuildAAD (sessionID : bytes) (seq : Z) : bytes := sessionID ++ PutUint64LE seq.

Definition EncryptAEAD `{ChaCha20Poly1305} (aead sessionID : bytes) (seq : Z) (plaintext : bytes) :
    result bytes :=
  let nonce := BuildNonce seq in
  let aad := BuildAAD sessionID seq in
  Seal aead nonce plaintext aad.

Definition DecryptAEAD `{ChaCha20Poly1305} (aead sessionID : bytes) (seq : Z) (ciphertext : bytes) :
    result bytes :=
  let nonce := BuildNonce seq in
  let aad := BuildAAD sessionID seq in
  match Open aead nonce ciphertext aad with
  | Err e => Err (Wrap "aead decrypt" e)
  | r => r
  end.

Definition rekeyInfo : bytes := bytes_of_string "proto-rekey".
Definition rekeyLen : nat := 32.

Definition Rekey `{HKDF} (currentKey : bytes) : result bytes :=
  if bool_decide (length currentKey = 0%nat) then Err (Errorf "rekey: empty current key")
  else match hkdf_read currentKey [] rekeyInfo rekeyLen with
       | Err e => Err (Wrap "rekey hkdf" e)
       | r => r
       end.

(** The contents of the slice after [Zeroize(b)]. *)
Definition Zeroize (b : bytes) : bytes := replicate (length b) x00.

(** ** A toy cipher that satisfies the laws: the text behind its key, nonce and
    additional data *)

Definition toy_Seal (k n p a : bytes) : result bytes :=
  if bool_decide (length n = NonceSize) then Ok ((k ++ n ++ a) ++ p)
  else Panic "chacha20poly1305: bad nonce length passed to Seal".

Definition toy_Open (k n c a : bytes) : result bytes :=
  if bool_decide (length n = NonceSize) then
    let hd := k ++ n ++ a in
    if bool_decide (take (length hd) c = hd) then Ok (drop (length hd) c)
    else Err (Errorf "chacha20poly1305: message authentication failed")
  else Panic "chacha20poly1305: bad nonce length passed to Open".

Definition toy_chacha : ChaCha20Poly1305 := {| Seal := toy_Seal; Open := toy_Open |}.

Definition toy_hkdf : HKDF :=
  {| hkdf_read secret salt info n := Ok (take n (secret ++ salt ++ info ++ replicate n x00)) |}.

(** ** Lemmas *)

Lemma toy_chacha_laws : @ChaCha20Poly1305Laws toy_chacha.
Proof.
  split; simpl; unfold toy_Seal, toy_Open.
  - intros k n p a Hn _. rewrite bool_decide_true by done. eauto.
  - intros k n c a w Hn _. rewrite bool_decide_true by done. by case_match.
  - intros k n c a Hn. by rewrite bool_decide_false.
  - intros k n p a c E. case_bool_decide; simplify_eq.
    by rewrite take_app_length, bool_decide_true, drop_app_length.
  - intros k n p a c E. case_bool_decide; [|done]. case_bool_decide as Hhd; simplify_eq.
    rewrite <-Hhd at 1. by rewrite take_drop.
Qed.

Lemma toy_hkdf_laws : @HKDFLaws toy_hkdf.
Proof.
  split. intros secret salt info n _. eexists. split; [done|].
  rewrite length_take, !length_app, length_replicate. lia.
Qed.

Lemma BuildNonce_length seq : length (BuildNonce seq) = NonceSize.
Proof. unfold BuildNonce. by rewrite length_app, length_replicate, PutUint64LE_length. Qed.

Lemma BuildAAD_inj sid1 seq1 sid2 seq2 :
  0 ≤ seq1 < 2 ^ 64 → 0 ≤ seq2 < 2 ^ 64 →
  BuildAAD sid1 seq1 = BuildAAD sid2 seq2 → sid1 = sid2 ∧ seq1 = seq2.
Proof.
  intros H1 H2 H. apply app_inj_2 in H as [-> H%PutUint64LE_inj]; [done|done|done|].
  by rewrite !PutUint64LE_length.
Qed.

Lemma BuildNonce_inj seq1 seq2 :
  0 ≤ seq1 < 2 ^ 64 → 0 ≤ seq2 < 2 ^ 64 → BuildNonce seq1 = BuildNonce seq2 → seq1 = seq2.
Proof. intros ?? H%app_inv_head. by apply PutUint64LE_inj. Qed.

Lemma NewAEAD_Ok key aead : NewAEAD key = Ok aead → aead = key ∧ length key = KeySize.
Proof. unfold NewAEAD. case_bool_decide; by intros [= ->]. Qed.

Lemma NewAEAD_length key : length key = KeySize → NewAEAD key = Ok key.
Proof. intros. unfold NewAEAD. by rewrite bool_decide_true. Qed.

Lemma Rekey_length `{HKDFLaws} key : key ≠ [] → ∃ k', Rekey key = Ok k' ∧ length k' = KeySize.
Proof.
  intros Hk. unfold Rekey. rewrite bool_decide_false by (by rewrite length_zero_iff_nil).
  destruct (hkdf_length key [] rekeyInfo rekeyLen) as (k' & -> & Hlen); [unfold rekeyLen; lia|].
  eauto.
Qed.

Section aead.
Context `{ChaCha20Poly1305Laws}.

Lemma EncryptAEAD_Ok aead sid seq pt : plaintext_fits pt → ∃ ct, EncryptAEAD aead sid seq pt = Ok ct.
Proof. apply Seal_Ok, BuildNonce_length. Qed.

Lemma DecryptAEAD_EncryptAEAD aead sid seq pt ct :
  EncryptAEAD aead sid seq pt = Ok ct → DecryptAEAD aead sid seq ct = Ok pt.
Proof. unfold EncryptAEAD, DecryptAEAD. by intros ->%Open_Seal. Qed.

Lemma DecryptAEAD_tidy aead sid seq pt ct :
  DecryptAEAD aead sid seq ct = Ok pt → EncryptAEAD aead sid seq pt = Ok ct.
Proof.
  unfold EncryptAEAD, DecryptAEAD. destruct (Open _ _ _ _) eqn:E; intros [= ->].
  by apply Open_tidy.
Qed.

Lemma DecryptAEAD_no_panic aead sid seq ct w : ciphertext_fits ct → DecryptAEAD aead sid seq ct ≠ Panic w.
Proof.
  intros Hct. unfold DecryptAEAD. destruct (Open _ _ _ _) eqn:E; try done.
  exfalso. by eapply Open_no_panic in E; [|apply BuildNonce_length|].
Qed.

End aead.

(** ** Properties *)



(** Within a key, two distinct 64-bit sequence numbers never share a
    nonce, and the additional data of a message determines both its session and
    its sequence number. *)
Theorem nonce_and_aad_unique (sid1 sid2 : bytes) (seq1 seq2 : Z) :
  0 ≤ seq1 < 2 ^ 64 → 0 ≤ seq2 < 2 ^ 64 →
  (BuildNonce seq1 = BuildNonce seq2 ↔ seq1 = seq2) ∧
  (BuildAAD sid1 seq1 = BuildAAD sid2 seq2 ↔ sid1 = sid2 ∧ seq1 = seq2) ∧
  length (BuildNonce seq1) = NonceSize.
Proof.
  intros H1 H2. split; [|split].
  - split; [by apply BuildNonce_inj | by intros ->].
  - split; [by apply BuildAAD_inj | by intros [-> ->]].
  - apply BuildNonce_length.
Qed.

Lemma nonce_and_aad_unique_witness :
  (BuildNonce 1 = BuildNonce 256 ↔ 1 = 256) ∧
  (BuildAAD [x01] 1 = BuildAAD [] 256 ↔ [x01] = [] ∧ 1 = 256) ∧
  length (BuildNonce 1) = NonceSize.
Proof. apply (nonce_and_aad_unique [x01] [] 1 256); lia. Defined.
