(* ===== verification/SenderKeys.v ===== *)
(** * Sender keys: group end-to-end encryption

    [server/internal/senderkeys]: the HMAC ratchet, signing and encryption of a
    group message, distribution of a key to the other members, and the rotation
    policy.  HMAC-SHA256, Ed25519 and the random source are parameters (classes
    [HMAC] and [Ed25519], and the random bytes an argument); the cipher is that
    of [Crypto]. *)
From S2P Require Import Prelude Bytes Crypto.

Local Open Scope Z_scope.

(** ** Parameters *)

Class HMAC := { hmacSHA256 : bytes → bytes → bytes }.

Class HMACLaws `{HMAC} : Prop := {
  hmac_length k d : length (hmacSHA256 k d) = 32%nat;
}.

(** [ed25519.Sign] and [ed25519.Verify]; both panic on a key of the wrong length.
    [ed_pair pub priv]: the two come from one [ed25519.GenerateKey]. *)
Class Ed25519 := {
  Sign : bytes → bytes → result bytes;
  Verify : bytes → bytes → bytes → result bool;
  ed_pair : bytes → bytes → Prop;
}.

Definition PublicKeySize : nat := 32.

Class Ed25519Laws `{Ed25519} : Prop := {
  Sign_Ok pub priv m : ed_pair pub priv → ∃ sig, Sign priv m = Ok sig;
  Verify_Sign pub priv m sig : ed_pair pub priv → Sign priv m = Ok sig → Verify pub m sig = Ok true;
  Verify_total pub m sig : length pub = PublicKeySize → ∃ b, Verify pub m sig = Ok b;
  Verify_bad_key pub m sig : length pub ≠ PublicKeySize →
    Verify pub m sig = Panic "ed25519: bad public key length";
}.

(** ** keypair.go *)

Record SenderKey := mkSenderKey {
  sk_KeyID : Z;
  sk_ChainKey : bytes;
  sk_SigningKey : bytes;
  sk_PublicKey : bytes;
}.

(** [rand_chain] and [rand_pair] are the outcomes of [rand.Read] into 32 bytes
    and of [ed25519.GenerateKey]. *)
Definition GenerateSenderKey (rand_chain : result bytes) (rand_pair : result (bytes * bytes))
    (keyID : Z) : result SenderKey :=
  match rand_chain with
  | Err e => Err (Wrap "generate chain_key" e)
  | Panic s => Panic s
  | Ok chainKey =>
      match rand_pair with
      | Err e => Err (Wrap "generate ed25519" e)
      | Panic s => Panic s
      | Ok (pub, priv) => Ok (mkSenderKey keyID chainKey priv pub)
      end
  end.

Definition PublicMaterial (sk : SenderKey) : bytes * bytes := (sk_ChainKey sk, sk_PublicKey sk).

(** ** ratchet.go *)

Section senderkeys.
Context `{HMAC}.

(** The next chain key and the message key. *)
Definition Ratchet (chainKey : bytes) : bytes * bytes :=
  (hmacSHA256 chainKey (bytes_of_string "ratchet"), hmacSHA256 chainKey (bytes_of_string "message")).

(** The loop of [RatchetN] from the chain key [current]. *)
Fixpoint RatchetN_loop (current : bytes) (n : nat) : bytes * list bytes :=
  match n with
  | O => (current, [])
  | S n =>
      let '(next, mk) := Ratchet current in
      let '(final, mks) := RatchetN_loop next n in
      (final, mk :: mks)
  end.

(** [make([][]byte, n)] panics on a negative length. *)
Definition RatchetN (chainKey : bytes) (n : Z) : result (bytes * list bytes) :=
  if n <? 0 then Panic "makeslice: len out of range"
  else Ok (RatchetN_loop chainKey (Z.to_nat n)).

(** ** encrypt.go *)

Record EncryptedMessage := mkEncryptedMessage {
  em_KeyID : Z;
  em_Ciphertext : bytes;
  em_Nonce : bytes;
  em_Signature : bytes;
}.

Context `{ChaCha20Poly1305} `{Ed25519}.

(** [chacha20poly1305.New] *)
Definition chacha_New (key : bytes) : result bytes :=
  if bool_decide (length key = KeySize) then Ok key
  else Err (Errorf "chacha20poly1305: bad key length").

(** [rand_nonce] is the outcome of [rand.Read] into the 12-byte nonce. *)
Definition Encrypt (rand_nonce : result bytes) (chainKey signingKey : bytes) (keyID : Z)
    (plaintext : bytes) : result (EncryptedMessage * bytes) :=
  let '(nextChain, messageKey) := Ratchet chainKey in
  match chacha_New messageKey with
  | Err e => Err (Wrap "chacha20poly1305" e)
  | Panic s => Panic s
  | Ok aead =>
      match rand_nonce with
      | Err e => Err (Wrap "nonce" e)
      | Panic s => Panic s
      | Ok nonce =>
          match Seal aead nonce plaintext [] with
          | Err e => Err e
          | Panic s => Panic s
          | Ok ciphertext =>
              match Sign signingKey ciphertext with
              | Err e => Err e
              | Panic s => Panic s
              | Ok signature =>
                  Ok (mkEncryptedMessage keyID ciphertext nonce signature, nextChain)
              end
          end
      end
  end.

(** ** decrypt.go *)

Definition Decrypt (chainKey publicKey : bytes) (msg : EncryptedMessage) : result (bytes * bytes) :=
  match Verify publicKey (em_Ciphertext msg) (em_Signature msg) with
  | Err e => Err e
  | Panic s => Panic s
  | Ok false => Err (Errorf "invalid signature")
  | Ok true =>
      let '(nextChain, messageKey) := Ratchet chainKey in
      match chacha_New messageKey with
      | Err e => Err (Wrap "chacha20poly1305" e)
      | Panic s => Panic s
      | Ok aead =>
          match Open aead (em_Nonce msg) (em_Ciphertext msg) [] with
          | Err e => Err (Wrap "decrypt" e)
          | Panic s => Panic s
          | Ok plaintext => Ok (plaintext, nextChain)
          end
      end
  end.

(** A message together with the nonce the random source will deliver for it. *)
Definition with_nonce (p : bytes * bytes) : result bytes * bytes := (Ok p.1, p.2).

(** A sender encrypting a sequence of messages, and a receiver decrypting them in
    order, each feeding the returned chain key to the next call. *)
Fixpoint encrypt_all (chainKey signingKey : bytes) (keyID : Z) (pts : list (result bytes * bytes)) :
    result (list EncryptedMessage * bytes) :=
  match pts with
  | [] => Ok ([], chainKey)
  | (nonce, pt) :: pts =>
      match Encrypt nonce chainKey signingKey keyID pt with
      | Ok (msg, next) =>
          match encrypt_all next signingKey keyID pts with
          | Ok (msgs, final) => Ok (msg :: msgs, final)
          | r => r
          end
      | Err e => Err e
      | Panic s => Panic s
      end
  end.

Fixpoint decrypt_all (chainKey publicKey : bytes) (msgs : list EncryptedMessage) :
    result (list bytes * bytes) :=
  match msgs with
  | [] => Ok ([], chainKey)
  | msg :: msgs =>
      match Decrypt chainKey publicKey msg with
      | Ok (pt, next) =>
          match decrypt_all next publicKey msgs with
          | Ok (pts, final) => Ok (pt :: pts, final)
          | r => r
          end
      | Err e => Err e
      | Panic s => Panic s
      end
  end.

End senderkeys.

(** ** distribution.go *)

Record SenderKeyDistribution := mkSenderKeyDistribution {
  skd_GroupId : slice;
  skd_SenderId : slice;
  skd_KeyId : Z;
  skd_ChainKey : bytes;
  skd_SigningKey : bytes;
}.

Definition ToDistribution (groupID senderID : slice) (sk : SenderKey) : SenderKeyDistribution :=
  mkSenderKeyDistribution groupID senderID (sk_KeyID sk) (sk_ChainKey sk) (sk_PublicKey sk).

Definition FromDistribution (dist : SenderKeyDistribution) : Z * bytes * bytes :=
  (skd_KeyId dist, skd_ChainKey dist, skd_SigningKey dist).

(** ** rotation.go *)

Inductive RotationEvent := RotationMemberRemoved | RotationMemberAdded | RotationTimerExpired.

#[export] Instance RotationEvent_eq_dec : EqDecision RotationEvent.
Proof. solve_decision. Defined.

Definition NeedsFullRotation (event : RotationEvent) : bool :=
  bool_decide (event = RotationMemberRemoved).

Definition NeedsDistribution (event : RotationEvent) : bool :=
  bool_decide (event = RotationMemberAdded).

(** ** Toy parameters that satisfy the laws *)

Definition toy_hmac : HMAC := {| hmacSHA256 k d := take 32 (d ++ k ++ replicate 32 x00) |}.

Definition toy_ed25519 : Ed25519 := {|
  Sign priv m := Ok (priv ++ m);
  Verify pub m sig :=
    if bool_decide (length pub = PublicKeySize) then Ok (bool_decide (sig = pub ++ m))
    else Panic "ed25519: bad public key length";
  ed_pair pub priv := pub = priv ∧ length pub = PublicKeySize;
|}.

(** ** Lemmas *)

Lemma toy_hmac_laws : @HMACLaws toy_hmac.
Proof.
  split. intros k d. cbn [hmacSHA256 toy_hmac]. rewrite length_take, !length_app, length_replicate. lia.
Qed.

Lemma toy_ed25519_laws : @Ed25519Laws toy_ed25519.
Proof.
  split; simpl.
  - eauto.
  - intros pub priv m sig [-> Hlen] [= <-]. by rewrite !bool_decide_true.
  - intros pub m sig Hlen. rewrite bool_decide_true by done. eauto.
  - intros pub m sig Hlen. by rewrite bool_decide_false.
Qed.

Section senderkeys_lemmas.
Context `{HMACLaws} `{ChaCha20Poly1305Laws} `{Ed25519Laws}.

Lemma chacha_New_message_key chainKey :
  chacha_New (Ratchet chainKey).2 = Ok (Ratchet chainKey).2.
Proof. unfold chacha_New. by rewrite bool_decide_true by apply hmac_length. Qed.

Lemma Encrypt_Ok nonce chainKey pub priv keyID pt :
  ed_pair pub priv → length nonce = NonceSize → plaintext_fits pt →
  ∃ msg, Encrypt (Ok nonce) chainKey priv keyID pt = Ok (msg, (Ratchet chainKey).1).
Proof.
  intros Hpair Hn Hpt. unfold Encrypt. cbn [Ratchet].
  change (hmacSHA256 chainKey (bytes_of_string "message")) with (Ratchet chainKey).2.
  rewrite chacha_New_message_key.
  destruct (Seal_Ok (Ratchet chainKey).2 nonce pt [] Hn Hpt) as [c ->].
  destruct (Sign_Ok pub priv c Hpair) as [sig ->]. eauto.
Qed.

Lemma Encrypt_inv nonce chainKey priv keyID pt msg next :
  Encrypt nonce chainKey priv keyID pt = Ok (msg, next) →
  next = (Ratchet chainKey).1 ∧ nonce = Ok (em_Nonce msg) ∧
  Seal (Ratchet chainKey).2 (em_Nonce msg) pt [] = Ok (em_Ciphertext msg) ∧
  Sign priv (em_Ciphertext msg) = Ok (em_Signature msg).
Proof.
  unfold Encrypt. cbn [Ratchet].
  change (hmacSHA256 chainKey (bytes_of_string "message")) with (Ratchet chainKey).2.
  rewrite chacha_New_message_key. intros E. repeat case_match; by simplify_eq/=.
Qed.

Lemma Decrypt_Encrypt nonce chainKey pub priv keyID pt msg next :
  ed_pair pub priv →
  Encrypt nonce chainKey priv keyID pt = Ok (msg, next) →
  Decrypt chainKey pub msg = Ok (pt, next).
Proof.
  intros Hpair (-> & -> & Hc & Hsig)%Encrypt_inv. unfold Decrypt. cbn [Ratchet].
  rewrite (Verify_Sign _ _ _ _ Hpair Hsig).
  change (hmacSHA256 chainKey (bytes_of_string "message")) with (Ratchet chainKey).2.
  by rewrite chacha_New_message_key, (Open_Seal _ _ _ _ _ Hc).
Qed.

Lemma decrypt_all_encrypt_all pub priv keyID pts chainKey msgs final :
  ed_pair pub priv →
  encrypt_all chainKey priv keyID pts = Ok (msgs, final) →
  decrypt_all chainKey pub msgs = Ok (pts.*2, final) ∧
  final = (RatchetN_loop chainKey (length pts)).1.
Proof.
  intros Hpair. revert chainKey msgs final.
  induction pts as [|[nonce pt] pts IH]; intros chainKey msgs final E; simpl in E.
  { by simplify_eq/=. }
  destruct (Encrypt nonce chainKey priv keyID pt) as [[msg next]| |] eqn:E1; simplify_eq.
  destruct (encrypt_all next priv keyID pts) as [[msgs' final']| |] eqn:E2; simplify_eq.
  apply IH in E2 as [E2 ->]. pose proof (Encrypt_inv _ _ _ _ _ _ _ E1) as [-> _].
  simpl. rewrite (Decrypt_Encrypt _ _ _ _ _ _ _ _ Hpair E1), E2.
  split; [done|]. by destruct (RatchetN_loop _ _).
Qed.

End senderkeys_lemmas.

Section ratchet_lemmas.
Context `{HMAC}.

Lemma RatchetN_loop_length chainKey n : length (RatchetN_loop chainKey n).2 = n.
Proof.
  revert chainKey. induction n as [|n IH]; intros chainKey; [done|]. simpl.
  specialize (IH (hmacSHA256 chainKey (bytes_of_string "ratchet"))).
  destruct (RatchetN_loop _ n). simpl in *. by f_equal.
Qed.

Lemma RatchetN_loop_iter chainKey n :
  (RatchetN_loop chainKey n).1 = Nat.iter n (λ c, (Ratchet c).1) chainKey.
Proof.
  revert chainKey. induction n as [|n IH]; intros chainKey; [done|].
  rewrite Nat.iter_succ_r, <-IH. simpl. by destruct (RatchetN_loop _ n).
Qed.

Lemma RatchetN_loop_add chainKey n m :
  RatchetN_loop chainKey (n + m) =
  ((RatchetN_loop (RatchetN_loop chainKey n).1 m).1,
   (RatchetN_loop chainKey n).2 ++ (RatchetN_loop (RatchetN_loop chainKey n).1 m).2).
Proof.
  revert chainKey. induction n as [|n IH]; intros chainKey; simpl.
  - by destruct (RatchetN_loop chainKey m).
  - rewrite IH. by destruct (RatchetN_loop _ n).
Qed.

Lemma RatchetN_loop_lookup chainKey n i :
  (i < n)%nat →
  (RatchetN_loop chainKey n).2 !! i = Some (Ratchet (Nat.iter i (λ c, (Ratchet c).1) chainKey)).2.
Proof.
  intros Hi. replace n with (i + S (n - S i))%nat by lia.
  rewrite RatchetN_loop_add. simpl. rewrite lookup_app_r by (rewrite RatchetN_loop_length; lia).
  rewrite RatchetN_loop_length, Nat.sub_diag, RatchetN_loop_iter.
  by destruct (RatchetN_loop _ (n - S i)).
Qed.

End ratchet_lemmas.

(** ** Properties *)

(** C11: a member who received a sender's key distribution decrypts, in
    order, every message the sender encrypts from that point on (encryption
    never fails when the nonces could be drawn), and the two chain keys stay
    equal: both are the sender's chain key advanced once per message. *)
Theorem group_session_roundtrip `{HMACLaws} `{ChaCha20Poly1305Laws} `{Ed25519Laws}
    (groupID senderID : slice) (sk : SenderKey) (pts : list (bytes * bytes)) :
  ed_pair (sk_PublicKey sk) (sk_SigningKey sk) →
  Forall (λ p, length p.1 = NonceSize ∧ plaintext_fits p.2) pts →
  let '(_, chainKey, publicKey) := FromDistribution (ToDistribution groupID senderID sk) in
  ∃ msgs final,
    encrypt_all (sk_ChainKey sk) (sk_SigningKey sk) (sk_KeyID sk) (with_nonce <$> pts)
      = Ok (msgs, final) ∧
    decrypt_all chainKey publicKey msgs = Ok (pts.*2, final) ∧
    final = Nat.iter (length pts) (λ c, (Ratchet c).1) (sk_ChainKey sk).
Proof.
  intros Hpair Hnonces. simpl.
  assert (∃ msgs final, encrypt_all (sk_ChainKey sk) (sk_SigningKey sk) (sk_KeyID sk)
    (with_nonce <$> pts) = Ok (msgs, final)) as (msgs & final & E).
  { generalize (sk_ChainKey sk) as c. induction Hnonces as [|[n pt] pts [Hn Hpt] _ IH]; intros c; [by eauto|].
    destruct (Encrypt_Ok n c _ _ (sk_KeyID sk) pt Hpair Hn Hpt) as [msg E].
    rewrite fmap_cons. cbn [encrypt_all with_nonce fst snd]. rewrite E. destruct (IH (Ratchet c).1) as (msgs & final & ->). eauto. }
  exists msgs, final. split; [done|].
  destruct (decrypt_all_encrypt_all _ _ _ _ _ _ _ Hpair E) as [-> ->].
  rewrite length_fmap, RatchetN_loop_iter. split; [|done]. do 2 f_equal.
  rewrite <-list_fmap_compose. by apply list_fmap_ext.
Qed.

Definition toy_senderkey : SenderKey :=
  mkSenderKey 1 (replicate 32 x05) (replicate 32 x09) (replicate 32 x09).

Lemma group_session_roundtrip_witness :
  let _ := toy_hmac in let _ := toy_chacha in let _ := toy_ed25519 in
  ∃ msgs final,
    encrypt_all (sk_ChainKey toy_senderkey) (sk_SigningKey toy_senderkey) 1
      (with_nonce <$> [(replicate 12 x01, [x61]); (replicate 12 x02, [x62])]) = Ok (msgs, final) ∧
    decrypt_all (sk_ChainKey toy_senderkey) (sk_PublicKey toy_senderkey) msgs = Ok ([[x61]; [x62]], final) ∧
    final = Nat.iter 2 (λ c, (Ratchet c).1) (sk_ChainKey toy_senderkey).
Proof.
  apply (@group_session_roundtrip toy_hmac toy_hmac_laws toy_chacha toy_chacha_laws
    toy_ed25519 toy_ed25519_laws None None toy_senderkey
    [(replicate 12 x01, [x61]); (replicate 12 x02, [x62])]).
  - done.
  - by repeat constructor.
Defined.

(** [RatchetN] computes exactly what repeated calls of [Ratchet]
    compute (the [i]-th message key belongs to the chain key after [i] steps),
    it can be resumed from the chain key it returns, and a negative count
    panics. *)
Theorem RatchetN_spec `{HMAC} (chainKey : bytes) (n m : nat) :
  (∃ final keys, RatchetN chainKey (Z.of_nat n) = Ok (final, keys) ∧
    length keys = n ∧ final = Nat.iter n (λ c, (Ratchet c).1) chainKey ∧
    (∀ i, (i < n)%nat → keys !! i = Some (Ratchet (Nat.iter i (λ c, (Ratchet c).1) chainKey)).2) ∧
    RatchetN chainKey (Z.of_nat (n + m)) =
      prod_map id (app keys) <$> RatchetN final (Z.of_nat m)) ∧
  RatchetN chainKey (- Z.of_nat (S n)) = Panic "makeslice: len out of range".
Proof.
  assert (HR : ∀ c k, RatchetN c (Z.of_nat k) = Ok (RatchetN_loop c k)).
  { intros c k. unfold RatchetN. rewrite (proj2 (Z.ltb_ge _ _)) by lia. by rewrite Nat2Z.id. }
  split.
  - exists (RatchetN_loop chainKey n).1, (RatchetN_loop chainKey n).2.
    rewrite !HR, RatchetN_loop_length, RatchetN_loop_add.
    split; [by destruct (RatchetN_loop chainKey n)|]. split; [done|].
    split; [apply RatchetN_loop_iter|]. split; [intros i; apply RatchetN_loop_lookup|].
    simpl. by destruct (RatchetN_loop _ m).
  - unfold RatchetN. by rewrite (proj2 (Z.ltb_lt _ _)) by lia.
Qed.

(** The signature covers the ciphertext only.  A message whose nonce
    was replaced by one of another length still verifies and then panics in the
    receiver, and so does any message under a distributed public key of the wrong
    length: neither is reported as an error. *)
Theorem decrypt_panics_on_malformed `{HMACLaws} `{ChaCha20Poly1305Laws} `{Ed25519Laws}
    (nonce chainKey pub priv : bytes) (keyID : Z) (pt bad : bytes) (msg : EncryptedMessage) (next : bytes) :
  ed_pair pub priv →
  Encrypt (Ok nonce) chainKey priv keyID pt = Ok (msg, next) →
  length bad ≠ NonceSize →
  Decrypt chainKey pub (mkEncryptedMessage (em_KeyID msg) (em_Ciphertext msg) bad (em_Signature msg))
    = Panic "chacha20poly1305: bad nonce length passed to Open" ∧
  ∀ key, length key ≠ PublicKeySize →
    Decrypt chainKey key msg = Panic "ed25519: bad public key length".
Proof.
  intros Hpair (-> & _ & Hc & Hsig)%Encrypt_inv Hbad. split.
  - unfold Decrypt. cbn [Ratchet em_Ciphertext em_Signature em_Nonce].
    rewrite (Verify_Sign _ _ _ _ Hpair Hsig).
    change (hmacSHA256 chainKey (bytes_of_string "message")) with (Ratchet chainKey).2.
    by rewrite chacha_New_message_key, Open_bad_nonce.
  - intros key Hkey. unfold Decrypt. by rewrite Verify_bad_key.
Qed.

Lemma decrypt_panics_on_malformed_witness :
  let _ := toy_hmac in let _ := toy_chacha in let _ := toy_ed25519 in
  ∃ msg next,
    Encrypt (Ok (replicate 12 x01)) (replicate 32 x05) (replicate 32 x09) 1 [x61] = Ok (msg, next) ∧
    Decrypt (replicate 32 x05) (replicate 32 x09)
      (mkEncryptedMessage (em_KeyID msg) (em_Ciphertext msg) [] (em_Signature msg))
      = Panic "chacha20poly1305: bad nonce length passed to Open" ∧
    ∀ key, length key ≠ PublicKeySize →
      Decrypt (replicate 32 x05) key msg = Panic "ed25519: bad public key length".
Proof.
  eexists _, _. split; [reflexivity|].
  apply (@decrypt_panics_on_malformed toy_hmac toy_hmac_laws toy_chacha toy_chacha_laws
    toy_ed25519 toy_ed25519_laws (replicate 12 x01) (replicate 32 x05) (replicate 32 x09)
    (replicate 32 x09) 1 [x61] [] _ (@Ratchet toy_hmac (replicate 32 x05)).1).
  - done.
  - reflexivity.
  - done.
Defined.
