(* ===== verification/Redis.v ===== *)
(** * The Redis server and its client, a parameter

    The session store, the duplicate filter and the sender-key cache talk to Redis
    through go-redis.  Neither is part of the repository: the class [RedisClient]
    is a client connection, [RedisLaws] what the code relies on.  A command that
    succeeds has the documented effect ([apply_cmd]) on the keyspace; one that
    returns an error may or may not have been executed; a pipeline that returns an
    error may have executed any part of its commands. *)
From S2P Require Import Prelude.

Local Open Scope Z_scope.

(** ** The keyspace *)

Inductive rvalue : Type :=
| RString (s : string)
| RHash (h : gmap string string)
| RSet (s : gset string).

(** A value with its expiry instant, when it has one. *)
Record rentry := REntry { rval : rvalue; rexp : option Z }.

Notation keyspace := (gmap string rentry).

Definition expired (now : Z) (e : rentry) : bool :=
  match rexp e with None => false | Some t => t <=? now end.

(** What a client sees at [now]. *)
Definition live (now : Z) (ks : keyspace) (k : string) : option rentry :=
  match ks !! k with
  | Some e => if expired now e then None else Some e
  | None => None
  end.

(** ** Commands *)

Inductive rcmd : Type :=
| HSET (key : string) (fields : list (string * string))
| HGET (key field : string)
| HGETALL (key : string)
| HDEL (key field : string)
| SADD (key member : string)
| SREM (key member : string)
| SMEMBERS (key : string)
| EXPIRE (key : string) (ttl : Z)
| DEL (key : string)
| SETNX (key value : string) (ttl : Z).

Inductive rreply : Type :=
| RepOk
| RepNil
| RepBool (b : bool)
| RepBulk (s : string)
| RepMap (h : gmap string string)
| RepList (l : list string)
| RepWrongType.

(** A hash or set that becomes empty is removed with its key. *)
Definition store_hash (k : string) (h : gmap string string) (exp : option Z) (ks : keyspace) : keyspace :=
  if bool_decide (h = ∅) then delete k ks else <[k := REntry (RHash h) exp]> ks.

Definition store_set (k : string) (s : gset string) (exp : option Z) (ks : keyspace) : keyspace :=
  if bool_decide (s = ∅) then delete k ks else <[k := REntry (RSet s) exp]> ks.

Definition apply_cmd (now : Z) (c : rcmd) (ks : keyspace) : rreply * keyspace :=
  match c with
  | HSET k fields =>
      match live now ks k with
      | None => (RepOk, <[k := REntry (RHash (foldr (λ f, insert f.1 f.2) ∅ (rev fields))) None]> ks)
      | Some (REntry (RHash h) exp) =>
          (RepOk, <[k := REntry (RHash (foldr (λ f, insert f.1 f.2) h (rev fields))) exp]> ks)
      | Some _ => (RepWrongType, ks)
      end
  | HGET k f =>
      match live now ks k with
      | None => (RepNil, ks)
      | Some (REntry (RHash h) _) => (match h !! f with Some v => RepBulk v | None => RepNil end, ks)
      | Some _ => (RepWrongType, ks)
      end
  | HGETALL k =>
      match live now ks k with
      | None => (RepMap ∅, ks)
      | Some (REntry (RHash h) _) => (RepMap h, ks)
      | Some _ => (RepWrongType, ks)
      end
  | HDEL k f =>
      match live now ks k with
      | None => (RepOk, ks)
      | Some (REntry (RHash h) exp) => (RepOk, store_hash k (delete f h) exp ks)
      | Some _ => (RepWrongType, ks)
      end
  | SADD k m =>
      match live now ks k with
      | None => (RepOk, <[k := REntry (RSet {[m]}) None]> ks)
      | Some (REntry (RSet s) exp) => (RepOk, <[k := REntry (RSet ({[m]} ∪ s)) exp]> ks)
      | Some _ => (RepWrongType, ks)
      end
  | SREM k m =>
      match live now ks k with
      | None => (RepOk, ks)
      | Some (REntry (RSet s) exp) => (RepOk, store_set k (s ∖ {[m]}) exp ks)
      | Some _ => (RepWrongType, ks)
      end
  | SMEMBERS k =>
      match live now ks k with
      | None => (RepList [], ks)
      | Some (REntry (RSet s) _) => (RepList (elements s), ks)
      | Some _ => (RepWrongType, ks)
      end
  | EXPIRE k ttl =>
      match live now ks k with
      | None => (RepBool false, ks)
      | Some (REntry v _) =>
          (RepBool true, if ttl <=? 0 then delete k ks else <[k := REntry v (Some (now + ttl))]> ks)
      end
  | DEL k => (RepOk, delete k ks)
  | SETNX k v ttl =>
      match live now ks k with
      | None => (RepBool true, <[k := REntry (RString v) (Some (now + ttl))]> ks)
      | Some _ => (RepBool false, ks)
      end
  end.

Definition apply_all (now : Z) (cs : list rcmd) (ks : keyspace) : keyspace :=
  foldl (λ ks c, (apply_cmd now c ks).2) ks cs.

(** Whether no command of a pipeline is answered with an error. *)
Fixpoint accepts (now : Z) (cs : list rcmd) (ks : keyspace) : Prop :=
  match cs with
  | [] => True
  | c :: cs => (apply_cmd now c ks).1 ≠ RepWrongType ∧ accepts now cs (apply_cmd now c ks).2
  end.

(** Two replies that differ at most in the order of a set's members. *)
Definition same_reply (r1 r2 : rreply) : Prop :=
  match r1, r2 with
  | RepList l1, RepList l2 => l1 ≡ₚ l2
  | _, _ => r1 = r2
  end.

(** ** The client *)

(** [rdata] is the keyspace of the server behind the connection; a call made at
    [now] executes at [now]. *)
Class RedisClient (C : Type) := {
  rdata : C → keyspace;
  rdo : Z → rcmd → M C rreply;
  rpipe : Z → list rcmd → M C unit;
}.

Class RedisLaws (C : Type) `{RedisClient C} : Prop := {
  rdo_Ok now cmd c r c' : rdo now cmd c = (Ok r, c') →
    same_reply r (apply_cmd now cmd (rdata c)).1 ∧ r ≠ RepWrongType ∧
    rdata c' = (apply_cmd now cmd (rdata c)).2;
  rdo_Err now cmd c e c' : rdo now cmd c = (Err e, c') →
    rdata c' = rdata c ∨ rdata c' = (apply_cmd now cmd (rdata c)).2;
  rdo_no_panic now cmd c w c' : rdo now cmd c ≠ (Panic w, c');
  rpipe_Ok now cmds c c' : rpipe now cmds c = (Ok tt, c') →
    accepts now cmds (rdata c) ∧ rdata c' = apply_all now cmds (rdata c);
  rpipe_Err now cmds c e c' : rpipe now cmds c = (Err e, c') →
    ∃ done, sublist done cmds ∧ rdata c' = apply_all now done (rdata c);
  rpipe_no_panic now cmds c w c' : rpipe now cmds c ≠ (Panic w, c');
}.

(** A server that is up: it answers every command that it does not refuse. *)
Definition redis_serving {C} `{RedisClient C} (up : C → Prop) : Prop := ∀ now cmd c,
  up c → (apply_cmd now cmd (rdata c)).1 ≠ RepWrongType → ∃ r c', rdo now cmd c = (Ok r, c') ∧ up c'.

(** The typed methods of go-redis used by the sources. *)
Section methods.
Context {C : Type} `{RedisClient C}.

Definition rHSet (now : Z) (k : string) (fields : list (string * string)) : M C unit :=
  _ ← rdo now (HSET k fields); mret tt.

Definition rHDel (now : Z) (k f : string) : M C unit := _ ← rdo now (HDEL k f); mret tt.

Definition rDel (now : Z) (k : string) : M C unit := _ ← rdo now (DEL k); mret tt.

Definition rHGetAll (now : Z) (k : string) : M C (gmap string string) :=
  r ← rdo now (HGETALL k);
  match r with RepMap h => mret h | _ => throw (Errorf "redis: unexpected reply") end.

(** [None] is [redis.Nil]. *)
Definition rHGet (now : Z) (k f : string) : M C (option string) :=
  r ← rdo now (HGET k f);
  match r with
  | RepBulk v => mret (Some v)
  | RepNil => mret None
  | _ => throw (Errorf "redis: unexpected reply")
  end.

Definition rSMembers (now : Z) (k : string) : M C (list string) :=
  r ← rdo now (SMEMBERS k);
  match r with RepList l => mret l | _ => throw (Errorf "redis: unexpected reply") end.

Definition rSetNX (now : Z) (k v : string) (ttl : Z) : M C bool :=
  r ← rdo now (SETNX k v ttl);
  match r with RepBool b => mret b | _ => throw (Errorf "redis: unexpected reply") end.

End methods.

(** ** An in-memory server with scripted faults *)

Record MemRedis := mkMemRedis { mem_keys : keyspace; mem_faults : list fault }.

Definition mem_rdo (now : Z) (cmd : rcmd) : M MemRedis rreply := λ s,
  let '(r, ks) := apply_cmd now cmd (mem_keys s) in
  let rest := tail (mem_faults s) in
  match default NoFault (head (mem_faults s)) with
  | RequestLost => (Err (Errorf "connection reset"), mkMemRedis (mem_keys s) rest)
  | ReplyLost => (Err (Errorf "i/o timeout"), mkMemRedis ks rest)
  | NoFault =>
      match r with
      | RepWrongType => (Err (Errorf "WRONGTYPE"), mkMemRedis ks rest)
      | _ => (Ok r, mkMemRedis ks rest)
      end
  end.

#[export] Instance accepts_dec now cs ks : Decision (accepts now cs ks).
Proof.
  revert ks. induction cs as [|c cs IH]; intros ks; simpl; [apply _|].
  destruct (IH (apply_cmd now c ks).2); [|right; tauto].
  destruct ((apply_cmd now c ks).1) eqn:E;
    solve [left; split; done | right; intros [? ?]; done].
Defined.

Definition mem_rpipe (now : Z) (cmds : list rcmd) : M MemRedis unit := λ s,
  let ks := apply_all now cmds (mem_keys s) in
  let rest := tail (mem_faults s) in
  match default NoFault (head (mem_faults s)) with
  | RequestLost => (Err (Errorf "connection reset"), mkMemRedis (mem_keys s) rest)
  | ReplyLost => (Err (Errorf "i/o timeout"), mkMemRedis ks rest)
  | NoFault =>
      if bool_decide (accepts now cmds (mem_keys s)) then (Ok tt, mkMemRedis ks rest)
      else (Err (Errorf "WRONGTYPE"), mkMemRedis ks rest)
  end.

#[export] Instance MemRedis_client : RedisClient MemRedis :=
  {| rdata := mem_keys; rdo := mem_rdo; rpipe := mem_rpipe |}.

(** ** Lemmas *)

Lemma same_reply_refl r : same_reply r r.
Proof. destruct r; simpl; reflexivity. Qed.

#[export] Instance MemRedis_laws : RedisLaws MemRedis.
Proof.
  split; simpl; unfold mem_rdo, mem_rpipe; intros.
  - destruct (apply_cmd now cmd (mem_keys c)) as [r0 ks] eqn:E.
    repeat case_match; simplify_eq/=; (split_and!; [reflexivity|done|done]).
  - destruct (apply_cmd now cmd (mem_keys c)) as [r0 ks] eqn:E.
    repeat case_match; simplify_eq/=; eauto.
  - destruct (apply_cmd now cmd (mem_keys c)) as [r0 ks]. repeat case_match; naive_solver.
  - repeat case_match; simplify_eq/=; by case_bool_decide; simplify_eq/=.
  - repeat case_match; try case_bool_decide; simplify_eq/=;
      first [by exists cmds | by exists []; split; [apply sublist_nil_l|]].
  - repeat case_match; naive_solver.
Qed.

Lemma mem_serving : redis_serving (λ c : MemRedis, mem_faults c = []).
Proof.
  intros now cmd [ks fs] Hfs Hw. simpl in *. subst fs. unfold mem_rdo. simpl.
  destruct (apply_cmd now cmd ks) as [[] ks']; simpl in *; by eauto.
Qed.

Lemma live_insert now ks k e : live now (<[k := e]> ks) k = if expired now e then None else Some e.
Proof. unfold live. by rewrite lookup_insert_eq. Qed.

Lemma live_insert_ne now ks k k' e : k ≠ k' → live now (<[k := e]> ks) k' = live now ks k'.
Proof. intros. unfold live. by rewrite lookup_insert_ne. Qed.

Lemma live_delete now ks k : live now (delete k ks) k = None.
Proof. unfold live. by rewrite lookup_delete_eq. Qed.

Lemma live_delete_ne now ks k k' : k ≠ k' → live now (delete k ks) k' = live now ks k'.
Proof. intros. unfold live. by rewrite lookup_delete_ne. Qed.

Lemma live_Some now ks k e : live now ks k = Some e → ks !! k = Some e ∧ expired now e = false.
Proof. unfold live. destruct (ks !! k); [|done]. case_match; naive_solver. Qed.

(** A command changes only the key it names. *)
Definition cmd_key (c : rcmd) : string :=
  match c with
  | HSET k _ | HGET k _ | HGETALL k | HDEL k _ | SADD k _ | SREM k _
  | SMEMBERS k | EXPIRE k _ | DEL k | SETNX k _ _ => k
  end.

Lemma apply_cmd_other now c ks k : cmd_key c ≠ k → (apply_cmd now c ks).2 !! k = ks !! k.
Proof.
  destruct c; simpl; intros Hne; unfold store_hash, store_set; repeat case_match; simpl;
    by rewrite ?lookup_insert_ne, ?lookup_delete_ne.
Qed.

Lemma apply_all_other now cs ks k :
  Forall (λ c, cmd_key c ≠ k) cs → apply_all now cs ks !! k = ks !! k.
Proof.
  intros Hcs. revert ks. induction Hcs as [|c cs Hc Hcs IH]; intros ks; [done|].
  unfold apply_all in *. simpl. by rewrite IH, apply_cmd_other.
Qed.

Section methods_lemmas.
Context {C : Type} `{RedisLaws C}.
Implicit Types c : C.

Lemma rdo_read_data now cmd c r c' :
  (∀ ks, (apply_cmd now cmd ks).2 = ks) → rdo now cmd c = (r, c') → rdata c' = rdata c.
Proof.
  intros Hread E. destruct r.
  - apply rdo_Ok in E as (_ & _ & ->). apply Hread.
  - apply rdo_Err in E as [->| ->]; [done|apply Hread].
  - by apply rdo_no_panic in E.
Qed.

(** The hash seen at a key: empty when the key is missing. *)
Definition hash_at (now : Z) (ks : keyspace) (k : string) : option (gmap string string) :=
  match live now ks k with
  | None => Some ∅
  | Some (REntry (RHash h) _) => Some h
  | Some _ => None
  end.

Lemma rHGetAll_spec now k c r c' :
  rHGetAll now k c = (r, c') →
  rdata c' = rdata c ∧
  match r with
  | Ok h => hash_at now (rdata c) k = Some h
  | Err _ => True
  | Panic _ => False
  end.
Proof.
  unfold rHGetAll, mbind, M_bind, throw, mret, M_ret. destruct (rdo now (HGETALL k) c) as [r1 c1] eqn:E.
  assert (Hd : rdata c1 = rdata c).
  { eapply rdo_read_data; [|done]. intros ks. simpl. by repeat case_match. }
  destruct r1 as [rep|e|w].
  - apply rdo_Ok in E as (Hr & Hw & _). intros E2.
    unfold hash_at. simpl in Hr. destruct (live now (rdata c) k) as [[[|h|s0] exp]|]; destruct rep; simplify_eq/=; try done.
  - intros [= <- <-]. done.
  - by apply rdo_no_panic in E.
Qed.

Lemma rSMembers_spec now k c r c' :
  rSMembers now k c = (r, c') →
  rdata c' = rdata c ∧
  match r with
  | Ok l => match live now (rdata c) k with
            | None => l = []
            | Some (REntry (RSet s) _) => l ≡ₚ elements s
            | Some _ => False
            end
  | Err _ => True
  | Panic _ => False
  end.
Proof.
  unfold rSMembers, mbind, M_bind, throw, mret, M_ret. destruct (rdo now (SMEMBERS k) c) as [r1 c1] eqn:E.
  assert (Hd : rdata c1 = rdata c).
  { eapply rdo_read_data; [|done]. intros ks. simpl. by repeat case_match. }
  destruct r1 as [rep|e|w].
  - apply rdo_Ok in E as (Hr & Hw & _). intros E2.
    simpl in Hr.
    destruct (live now (rdata c) k) as [[[|h|s0] exp]|]; destruct rep; simplify_eq/=; try done.
    split; [done|]. by apply Permutation_nil_r.
  - intros [= <- <-]. done.
  - by apply rdo_no_panic in E.
Qed.

Lemma rSetNX_spec now k v ttl c r c' :
  rSetNX now k v ttl c = (r, c') →
  let stored := <[k := REntry (RString v) (Some (now + ttl))]> (rdata c) in
  match r with
  | Ok true => live now (rdata c) k = None ∧ rdata c' = stored
  | Ok false => is_Some (live now (rdata c) k) ∧ rdata c' = rdata c
  | Err _ => rdata c' = rdata c ∨ (live now (rdata c) k = None ∧ rdata c' = stored)
  | Panic _ => False
  end.
Proof.
  unfold rSetNX, mbind, M_bind, throw, mret, M_ret. destruct (rdo now (SETNX k v ttl) c) as [r1 c1] eqn:E.
  destruct r1 as [rep|e|w].
  - apply rdo_Ok in E as (Hr & Hw & Hd). simpl in Hr, Hd.
    destruct (live now (rdata c) k) eqn:Hl; simpl in Hr, Hd;
      destruct rep; simplify_eq/=; intros [= <- <-]; eauto.
  - apply rdo_Err in E. simpl in E. intros [= <- <-].
    destruct (live now (rdata c) k) eqn:Hl; simpl in E; tauto.
  - by apply rdo_no_panic in E.
Qed.

(** Success and failure of a command without a reply of interest. *)
Lemma rdo_unit_spec now cmd c r c' :
  (rdo now cmd ≫= λ _, mret tt) c = (r, c') →
  match r with
  | Ok _ => rdata c' = (apply_cmd now cmd (rdata c)).2 ∧ (apply_cmd now cmd (rdata c)).1 ≠ RepWrongType
  | Err _ => rdata c' = rdata c ∨ rdata c' = (apply_cmd now cmd (rdata c)).2
  | Panic _ => False
  end.
Proof.
  unfold mbind, M_bind. destruct (rdo now cmd c) as [r1 c1] eqn:E. destruct r1 as [rep|e|w].
  - apply rdo_Ok in E as (Hr & Hw & Hd). intros [= <- <-]. split; [done|].
    intros Hx. rewrite Hx in Hr. by destruct rep.
  - apply rdo_Err in E. by intros [= <- <-].
  - by apply rdo_no_panic in E.
Qed.

End methods_lemmas.
