(* ===== verification/Postgres.v ===== *)
(** * The PostgreSQL server and its connection pool, a parameter

    The stores send SQL to PostgreSQL through pgxpool.  A statement is modelled in
    the component that owns it, as a function from the contents of the tables to a
    result and new contents, translated from its SQL text; the pool that carries it
    is the class [PgPool].  [PgLaws]: a call that succeeds executed its statement
    atomically; one that returns an error executed it completely or not at all (the
    reply may be lost after the statement was committed); a transaction changes the
    tables when it is committed. *)
From S2P Require Import Prelude.
From stdpp Require Export sorting.

(** A statement on tables [DB]; a constraint violation is an [Err] that leaves the
    tables unchanged. *)
Definition stmt (DB A : Type) : Type := DB → result A * DB.

Class PgPool (P DB : Type) := {
  pgdata : P → DB;
  pg_exec : ∀ {A : Type}, stmt DB A → M P A;
  pg_Begin : M P DB;
  pg_TxExec : ∀ {A : Type}, stmt DB A → DB → M P (A * DB);
  pg_Commit : DB → M P unit;
}.

Class PgLaws (P DB : Type) `{PgPool P DB} : Prop := {
  pg_exec_Ok A (q : stmt DB A) p a p' : pg_exec q p = (Ok a, p') → q (pgdata p) = (Ok a, pgdata p');
  pg_exec_Err A (q : stmt DB A) p e p' : pg_exec q p = (Err e, p') →
    pgdata p' = pgdata p ∨ pgdata p' = (q (pgdata p)).2;
  pg_exec_no_panic A (q : stmt DB A) p w p' : pg_exec q p ≠ (Panic w, p');
  pg_Begin_Ok p db p' : pg_Begin p = (Ok db, p') → db = pgdata p ∧ pgdata p' = pgdata p;
  pg_Begin_Err p e p' : pg_Begin p = (Err e, p') → pgdata p' = pgdata p;
  pg_Begin_no_panic p w p' : pg_Begin p ≠ (Panic w, p');
  pg_TxExec_Ok A (q : stmt DB A) db p a db' p' : pg_TxExec q db p = (Ok (a, db'), p') →
    q db = (Ok a, db') ∧ pgdata p' = pgdata p;
  pg_TxExec_Err A (q : stmt DB A) db p e p' : pg_TxExec q db p = (Err e, p') → pgdata p' = pgdata p;
  pg_TxExec_no_panic A (q : stmt DB A) db p w p' : pg_TxExec q db p ≠ (Panic w, p');
  pg_Commit_Ok db p p' : pg_Commit db p = (Ok tt, p') → pgdata p' = db;
  pg_Commit_Err db p e p' : pg_Commit db p = (Err e, p') → pgdata p' = pgdata p ∨ pgdata p' = db;
  pg_Commit_no_panic db p w p' : pg_Commit db p ≠ (Panic w, p');
}.

(** A server that is up: it executes what it is sent, in a transaction or not, and answers. *)
Record pg_serving {P DB} `{PgPool P DB} (up : P → Prop) : Prop := {
  serving_exec A (q : stmt DB A) p : up p → (∀ why, (q (pgdata p)).1 ≠ Panic why) →
    ∃ p', pg_exec q p = ((q (pgdata p)).1, p') ∧ up p';
  serving_Begin p : up p → ∃ p', pg_Begin p = (Ok (pgdata p), p') ∧ up p';
  serving_TxExec A (q : stmt DB A) db p : up p → (∀ why, (q db).1 ≠ Panic why) →
    ∃ r p', pg_TxExec q db p = (r, p') ∧ up p' ∧
      match (q db).1 with Ok a => r = Ok (a, (q db).2) | Err e => r = Err e | Panic _ => False end;
  serving_Commit db p : up p → ∃ p', pg_Commit db p = (Ok tt, p') ∧ up p';
}.

(** The server refuses NULL in a NOT NULL column. *)
Definition not_null_violation (column : string) : error :=
  Wrap "null value violates not-null constraint" (Errorf column).

Definition unique_violation (index : string) : error :=
  Wrap "duplicate key value violates unique constraint" (Errorf index).

(** [timestamptz] keeps microseconds. *)
Definition pg_time (t : Z) : Z := (t / Microsecond * Microsecond)%Z.

(** A text value: the server refuses the character NUL.  The strings that reach it
    come from protobuf and JSON decoders and are valid UTF-8. *)
Fixpoint text_ok (s : string) : bool :=
  match s with
  | EmptyString => true
  | String c s => negb (Ascii.eqb c Ascii.zero) && text_ok s
  end.

Definition text_violation : error := Errorf "invalid byte sequence for encoding UTF8: 0x00".

(** The number of characters of a UTF-8 string: its bytes that do not continue
    another one. *)
Fixpoint char_length (s : string) : nat :=
  match s with
  | EmptyString => 0
  | String (Ascii.Ascii _ _ _ _ _ _ b6 b7) s => (if b7 && negb b6 then 0 else 1) + char_length s
  end.

(** A statement that changes the tables, or fails without changing them. *)
Definition update_stmt {DB} (f : DB → DB) : stmt DB unit := λ db, (Ok tt, f db).

Definition query_stmt {DB A} (f : DB → A) : stmt DB A := λ db, (Ok (f db), db).

(** [CREATE TABLE IF NOT EXISTS] and [CREATE INDEX IF NOT EXISTS]: the tables of a model
    are there from the start, and the statement leaves them as they are. *)
Definition migrate_stmt {DB} : stmt DB unit := query_stmt (λ _, tt).

(** [ORDER BY key]: the server returns the rows in the order of the key; which of
    the rows with equal keys comes first is left to it.  [ORDER BY key DESC] is the
    order of the opposite key. *)
Class SqlOrder := { order_by : ∀ {A : Type}, (A → Z) → list A → list A }.

Class SqlOrderLaws `{SqlOrder} : Prop := {
  order_by_perm A (key : A → Z) l : order_by key l ≡ₚ l;
  order_by_sorted A (key : A → Z) l : StronglySorted (λ a b, (key a ≤ key b)%Z) (order_by key l);
}.

(** ** An in-memory server with scripted faults *)

Record MemPg (DB : Type) := mkMemPg { mem_db : DB; mem_pgfaults : list fault }.
Arguments mkMemPg {DB} _ _.
Arguments mem_db {DB} _.
Arguments mem_pgfaults {DB} _.

(** [stmt] answers like the server; a fault loses the request or the reply. *)
Definition mem_call {DB A} (run : DB → result A * DB) : M (MemPg DB) A := λ s,
  let rest := tail (mem_pgfaults s) in
  match default NoFault (head (mem_pgfaults s)) with
  | RequestLost => (Err (Errorf "connection reset"), mkMemPg (mem_db s) rest)
  | ReplyLost => (Err (Errorf "i/o timeout"), mkMemPg (run (mem_db s)).2 rest)
  | NoFault =>
      match run (mem_db s) with
      | (Panic _, _) => (Err (Errorf "server error"), mkMemPg (mem_db s) rest)
      | (r, db) => (r, mkMemPg db rest)
      end
  end.

#[export] Instance MemPg_pool DB : PgPool (MemPg DB) DB := {|
  pgdata := mem_db;
  pg_exec A q := mem_call q;
  pg_Begin := mem_call (λ db, (Ok db, db));
  pg_TxExec A q db := mem_call (λ d, (match (q db).1 with
                                      | Ok a => Ok (a, (q db).2)
                                      | Err e => Err e
                                      | Panic w => Panic w
                                      end, d));
  pg_Commit db := mem_call (λ _, (Ok tt, db));
|}.

Definition key_le {A} (key : A → Z) (a b : A) : Prop := (key a ≤ key b)%Z.

#[export] Instance key_le_dec {A} (key : A → Z) : RelDecision (key_le key).
Proof. intros a b. unfold key_le. apply _. Defined.

#[export] Instance stable_order : SqlOrder := {| order_by A key l := merge_sort (key_le key) l |}.

(** ** Lemmas *)

#[export] Instance stable_order_laws : SqlOrderLaws.
Proof.
  split; intros A key l; simpl; [apply merge_sort_Permutation|].
  assert (Transitive (key_le key)) by (intros a b c; unfold key_le; lia).
  assert (Total (key_le key)) by (intros a b; unfold key_le; lia).
  apply (StronglySorted_merge_sort (key_le key)).
Qed.

Lemma elem_of_order_by `{SqlOrderLaws} {A} (key : A → Z) l x : x ∈ order_by key l ↔ x ∈ l.
Proof. by rewrite order_by_perm. Qed.

Lemma order_by_take_sorted `{SqlOrderLaws} {A} (key : A → Z) n l :
  StronglySorted (λ a b, (key a ≤ key b)%Z) (take n (order_by key l)).
Proof. eapply StronglySorted_app_1_l. rewrite take_drop. apply order_by_sorted. Qed.

Lemma mem_call_spec {DB A} (run : DB → result A * DB) s r s' :
  mem_call run s = (r, s') →
  match r with
  | Ok a => run (mem_db s) = (Ok a, mem_db s')
  | Err _ => mem_db s' = mem_db s ∨ mem_db s' = (run (mem_db s)).2
  | Panic _ => False
  end.
Proof.
  unfold mem_call. intros E. repeat case_match; simplify_eq/=; eauto.
Qed.

#[export] Instance MemPg_laws DB : PgLaws (MemPg DB) DB.
Proof.
  split; simpl; intros; repeat match goal with
    | H : mem_call _ _ = _ |- _ => apply mem_call_spec in H; simpl in H
    | |- mem_call _ _ ≠ _ => intros ?
    end; try naive_solver.
  destruct (q db) as [[] ?] eqn:?; naive_solver.
Qed.

Lemma MemPg_serving DB : pg_serving (λ p : MemPg DB, mem_pgfaults p = []).
Proof.
  split; simpl; intros; destruct p as [d fs]; simpl in *; subst fs; unfold mem_call; simpl; [| |..].
  - destruct (q d) as [[a|e|why] d'] eqn:E; simpl in *; [by eexists..|naive_solver].
  - by eexists.
  - destruct (q db) as [[a|e|why] d'] eqn:E; simpl in *; [by eexists _, _..|naive_solver].
  - by eexists.
Qed.

Section pg_lemmas.
Context {P DB : Type} `{PgLaws P DB}.

(** A call by its outcome. *)
Lemma pg_exec_spec {A} (q : stmt DB A) p r p' :
  pg_exec q p = (r, p') →
  match r with
  | Ok a => q (pgdata p) = (Ok a, pgdata p')
  | Err _ => pgdata p' = pgdata p ∨ pgdata p' = (q (pgdata p)).2
  | Panic _ => False
  end.
Proof.
  destruct r; intros E; [by eapply pg_exec_Ok|by eapply pg_exec_Err|].
  by eapply pg_exec_no_panic in E.
Qed.

(** A statement on a server that is up; one that fails changes nothing. *)
Lemma serving_exec_data {A} (up : P → Prop) (q : stmt DB A) p :
  pg_serving up → up p → (∀ why, (q (pgdata p)).1 ≠ Panic why) →
  (∀ e, (q (pgdata p)).1 = Err e → (q (pgdata p)).2 = pgdata p) →
  ∃ p', pg_exec q p = ((q (pgdata p)).1, p') ∧ up p' ∧ pgdata p' = (q (pgdata p)).2.
Proof.
  intros Hup Hp Hnp Herr. destruct (serving_exec _ Hup _ q p Hp Hnp) as (p' & E & Hp'). exists p'. split_and!; [done..|].
  apply pg_exec_spec in E. destruct (q (pgdata p)) as [[a|e|why] d']; simpl in *.
  - by injection E.
  - rewrite (Herr e) in * by done. by destruct E.
  - by destruct (Hnp why).
Qed.

(** A query leaves the tables alone, also when it fails. *)
Lemma pg_query_spec {A} (f : DB → A) p r p' :
  pg_exec (query_stmt f) p = (r, p') →
  pgdata p' = pgdata p ∧
  match r with Ok a => a = f (pgdata p) | Err _ => True | Panic _ => False end.
Proof.
  intros E%pg_exec_spec. destruct r; simpl in E; [|naive_solver|done].
  unfold query_stmt in E. by simplify_eq/=.
Qed.

Lemma pg_migrate_spec p r p' : pg_exec migrate_stmt p = (r, p') → pgdata p' = pgdata p.
Proof. intros E. by apply pg_query_spec in E as [-> _]. Qed.

(** An update is applied when it succeeds, and perhaps when it fails. *)
Lemma pg_update_spec (f : DB → DB) p r p' :
  pg_exec (update_stmt f) p = (r, p') →
  match r with
  | Ok _ => pgdata p' = f (pgdata p)
  | Err _ => pgdata p' = pgdata p ∨ pgdata p' = f (pgdata p)
  | Panic _ => False
  end.
Proof.
  intros E%pg_exec_spec. destruct r; [|done|done]. unfold update_stmt in E. by simplify_eq/=.
Qed.

(** An invariant of the tables that a statement keeps is kept by its call. *)
Lemma pg_exec_keeps {A} (I : DB → Prop) (q : stmt DB A) p r p' :
  (∀ d, I d → I (q d).2) → pg_exec q p = (r, p') → I (pgdata p) → I (pgdata p').
Proof.
  intros Hq E%pg_exec_spec HI. apply Hq in HI as HI'. destruct r; [by rewrite E in HI'| |done].
  by destruct E as [->| ->].
Qed.

End pg_lemmas.
