(* ===== verification/SessionMachine.v ===== *)
(** * The session state machine

    [proto-core/session/model.go] (statuses, transports, configuration) and
    [proto-core/session/machine.go].  [Status] and [TransportType] are Go string
    types, so any string is a value of them. *)
From S2P Require Import Prelude.

Local Open Scope Z_scope.

(** ** model.go *)

Notation Status := string (only parsing).

Definition StatusConnecting : Status := "connecting".
Definition StatusActive : Status := "active".
Definition StatusSleeping : Status := "sleeping".
Definition StatusExpired : Status := "expired".

Notation TransportType := string (only parsing).

Definition TransportWebSocket : TransportType := "websocket".
Definition TransportQUIC : TransportType := "quic".
Definition TransportGRPC : TransportType := "grpc".

(** A single transport connection within a session. *)
Record Connection := mkConnection {
  ConnectionID : string;
  Transport : TransportType;
  GatewayID : string;
  RemoteAddr : string;
  ConnectedAt : Z;
  LastPacketSeq : Z;
}.

Record Session := mkSession {
  SessionID : slice;
  UserID : slice;
  DeviceID : slice;
  Status_ : Status;
  CryptoState : slice;
  CreatedAt : Z;
  LastActive : Z;
  ExpiresAt : Z;
  Connections : list Connection;
}.

(** [s.Status = st] on the shared session object. *)
Definition set_Status (st : Status) (s : Session) : Session :=
  mkSession (SessionID s) (UserID s) (DeviceID s) st (CryptoState s)
    (CreatedAt s) (LastActive s) (ExpiresAt s) (Connections s).

Record Config := mkConfig {
  IdleTimeout : Z;
  ExpiryTimeout : Z;
  HandshakeTimeout : Z;
  MaxConnections : Z;
}.

Definition DefaultConfig : Config :=
  mkConfig (5 * Minute) (24 * Hour) (30 * Second) 5.

(** ** machine.go *)

Inductive Event :=
| EventHandshakeOK
| EventHandshakeFail
| EventPacketReceived
| EventIdleTimeout
| EventExpiryTimeout
| EventExplicitLogout
| EventOther (n : Z).

#[export] Instance Event_eq_dec : EqDecision Event.
Proof. solve_decision. Defined.

Definition Event_String (e : Event) : string :=
  match e with
  | EventHandshakeOK => "HandshakeOK"
  | EventHandshakeFail => "HandshakeFail"
  | EventPacketReceived => "PacketReceived"
  | EventIdleTimeout => "IdleTimeout"
  | EventExpiryTimeout => "ExpiryTimeout"
  | EventExplicitLogout => "ExplicitLogout"
  | EventOther _ => "Event(%d)"
  end.

Definition ErrInvalidTransition : error := Errorf "invalid session state transition".

Record transitionResult := mkTransitionResult { next : Status; destroyed : bool }.

(** [transitions[current]] *)
Definition transitions (current : Status) : option (Event → option transitionResult) :=
  if bool_decide (current = StatusConnecting) then
    Some (λ e, match e with
               | EventHandshakeOK => Some (mkTransitionResult StatusActive false)
               | EventHandshakeFail => Some (mkTransitionResult "" true)
               | _ => None
               end)
  else if bool_decide (current = StatusActive) then
    Some (λ e, match e with
               | EventPacketReceived => Some (mkTransitionResult StatusActive false)
               | EventIdleTimeout => Some (mkTransitionResult StatusSleeping false)
               | EventExplicitLogout => Some (mkTransitionResult StatusExpired false)
               | _ => None
               end)
  else if bool_decide (current = StatusSleeping) then
    Some (λ e, match e with
               | EventPacketReceived => Some (mkTransitionResult StatusActive false)
               | EventExpiryTimeout => Some (mkTransitionResult StatusExpired false)
               | _ => None
               end)
  else None.

(** The new status and whether the session is to be destroyed. *)
Definition Transition (current : Status) (event : Event) : result (Status * bool) :=
  match transitions current with
  | None => Err (Wrap "no transitions from status %q" ErrInvalidTransition)
  | Some events =>
      match events event with
      | None => Err (Wrap "event %s not valid in status %q" ErrInvalidTransition)
      | Some r => Ok (next r, destroyed r)
      end
  end.

(** ** The machine as a relation *)

(** A session is either in a status or gone. *)
Inductive phase := InStatus (s : Status) | Destroyed.

(** The edges of the session life cycle. *)
Inductive edge : phase → Event → phase → Prop :=
| edge_ok : edge (InStatus StatusConnecting) EventHandshakeOK (InStatus StatusActive)
| edge_fail : edge (InStatus StatusConnecting) EventHandshakeFail Destroyed
| edge_packet : edge (InStatus StatusActive) EventPacketReceived (InStatus StatusActive)
| edge_idle : edge (InStatus StatusActive) EventIdleTimeout (InStatus StatusSleeping)
| edge_logout : edge (InStatus StatusActive) EventExplicitLogout (InStatus StatusExpired)
| edge_wake : edge (InStatus StatusSleeping) EventPacketReceived (InStatus StatusActive)
| edge_expire : edge (InStatus StatusSleeping) EventExpiryTimeout (InStatus StatusExpired).

(** What a successful [Transition] leads to. *)
Definition phase_of (r : Status * bool) : phase :=
  if r.2 then Destroyed else InStatus r.1.

Inductive machine_step : phase → phase → Prop :=
| machine_step_intro s e r :
    Transition s e = Ok r → machine_step (InStatus s) (phase_of r).

(** ** Lemmas *)

Lemma Transition_cases s e :
  (∃ r, Transition s e = Ok r ∧ edge (InStatus s) e (phase_of r)) ∨
  (∃ err, Transition s e = Err err ∧ error_Is err ErrInvalidTransition = true ∧
          ∀ q, ¬ edge (InStatus s) e q).
Proof.
  unfold Transition, transitions.
  repeat case_bool_decide; subst; destruct e; simpl;
    first [ left; eexists; split; [reflexivity|]; constructor
          | right; eexists; split; [reflexivity|]; split;
            [by apply error_Is_Wrap, error_Is_refl | by inversion 1 ] ].
Qed.

Lemma Transition_edge s e r : Transition s e = Ok r ↔ edge (InStatus s) e (phase_of r) ∧
  (r.2 = true → r.1 = "").
Proof.
  split.
  - intros E. destruct (Transition_cases s e) as [(r' & E' & He)|(err & E' & _)]; [|congruence].
    assert (r = r') as -> by congruence. split; [done|].
    revert E'. unfold Transition, transitions.
    repeat case_bool_decide; destruct e; simpl; intros; simplify_eq/=; done.
  - intros [He Hd]. destruct r as [n d]. unfold phase_of in He. simpl in *.
    destruct d; inversion He; subst; try done. by rewrite Hd.
Qed.

(** ** Properties *)

(** [Transition] accepts exactly the seven edges of the life cycle and
    moves along them; every other combination of status (any string) and event is
    refused with an error that is [ErrInvalidTransition]. *)
Theorem transition_table_exact (s : Status) (e : Event) :
  match Transition s e with
  | Ok r => edge (InStatus s) e (phase_of r)
  | Err err => error_Is err ErrInvalidTransition = true ∧ ∀ q, ¬ edge (InStatus s) e q
  | Panic _ => False
  end.
Proof.
  by destruct (Transition_cases s e) as [(r & -> & He)|(err & -> & Hi & Hn)].
Qed.

(** A new session only ever goes through the four declared statuses
    or is destroyed.  Only a session still connecting can be destroyed, a session
    that left that status never returns to it, and [expired] is final. *)
Theorem session_lifecycle (p : phase) :
  rtc machine_step (InStatus StatusConnecting) p →
  (p = InStatus StatusConnecting ∨ p = Destroyed ∨
   p = InStatus StatusActive ∨ p = InStatus StatusSleeping ∨ p = InStatus StatusExpired) ∧
  (∀ q, machine_step p q →
     q ≠ InStatus StatusConnecting ∧ p ≠ InStatus StatusExpired ∧
     (q = Destroyed → p = InStatus StatusConnecting)).
Proof.
  intros Hp.
  assert (Hedge : ∀ a b, machine_step a b → ∃ e, edge a e b).
  { intros a b Hab. inversion Hab as [s e r E]; subst. exists e.
    by apply Transition_edge in E as [E _]. }
  split.
  - revert Hp. apply (rtc_invariant _ (λ p, p = InStatus StatusConnecting ∨ p = Destroyed ∨
      p = InStatus StatusActive ∨ p = InStatus StatusSleeping ∨ p = InStatus StatusExpired)); [|eauto].
    intros a b _ (e & He)%Hedge. inversion He; subst; auto 10.
  - intros q (e & He)%Hedge. inversion He; subst; done.
Qed.

Lemma session_lifecycle_witness :
  (InStatus StatusSleeping = InStatus StatusConnecting ∨ InStatus StatusSleeping = Destroyed ∨
   InStatus StatusSleeping = InStatus StatusActive ∨ InStatus StatusSleeping = InStatus StatusSleeping ∨
   InStatus StatusSleeping = InStatus StatusExpired) ∧
  (∀ q, machine_step (InStatus StatusSleeping) q →
     q ≠ InStatus StatusConnecting ∧ InStatus StatusSleeping ≠ InStatus StatusExpired ∧
     (q = Destroyed → InStatus StatusSleeping = InStatus StatusConnecting)).
Proof.
  apply (session_lifecycle (InStatus StatusSleeping)).
  eapply rtc_l; [exact (machine_step_intro StatusConnecting EventHandshakeOK _ eq_refl)|].
  eapply rtc_l; [exact (machine_step_intro StatusActive EventIdleTimeout _ eq_refl)|].
  apply rtc_refl.
Defined.

(** The comment of [Transition] announces the status [expired] for a session to be
    destroyed; the table has no status there and the call returns the empty one. *)
Lemma handshake_fail_status : Transition StatusConnecting EventHandshakeFail = Ok ("", true).
Proof. reflexivity. Qed.
