(* ===== verification/SessionStore.v ===== *)
(** * The session stores

    [proto-core/session/redis_store.go] (the hot store, Redis hashes, sets and
    expiry times) and [proto-core/session/pg_store.go] (the durable store, a SQL
    table).  Every operation runs at an instant [now], which stands for
    [time.Now()], for the clock of the Redis server and for [NOW()].  The JSON text
    of a connection is a parameter, the class [ConnCodec]. *)
From S2P Require Import Prelude Bytes Redis Postgres SessionMachine.
From Stdlib Require Import Ascii.

Local Open Scope Z_scope.

(** ** redis_store.go *)

(** [NewRedisStore]: the expiry time of session records. *)
Definition NewRedisStore (ttl : Z) : Z := if ttl =? 0 then 24 * Hour else ttl.

Definition sessionKey (id : bytes) : string := "session:" +:+ EncodeToString id.
Definition connKey (id : bytes) : string := sessionKey id +:+ ":connections".
Definition userSessionsKey (uid : bytes) : string := "user:" +:+ EncodeToString uid +:+ ":sessions".

Record connJSON := mkConnJSON {
  cj_transport : string;
  cj_gateway_id : string;
  cj_remote_addr : string;
  cj_connected_at : Z;
  cj_last_packet_seq : Z;
}.

(** [json.Marshal] and [json.Unmarshal] of a [connJSON]. *)
Class ConnCodec := {
  conn_marshal : connJSON → result string;
  conn_unmarshal : string → option connJSON;
}.

(** A string of ASCII characters, which JSON carries unchanged. *)
Fixpoint is_ascii (s : string) : bool :=
  match s with
  | EmptyString => true
  | String (Ascii _ _ _ _ _ _ _ b7) s => negb b7 && is_ascii s
  end.

Definition cj_ok (cj : connJSON) : Prop :=
  is_ascii (cj_transport cj) = true ∧ is_ascii (cj_gateway_id cj) = true ∧
  is_ascii (cj_remote_addr cj) = true ∧
  MinInt64 ≤ cj_connected_at cj ≤ MaxInt64 ∧ 0 ≤ cj_last_packet_seq cj < 2 ^ 64.

Class ConnCodecLaws `{ConnCodec} : Prop := {
  conn_roundtrip cj : cj_ok cj → ∃ s, conn_marshal cj = Ok s ∧ conn_unmarshal s = Some cj;
}.

Definition conn_to_json (c : Connection) : connJSON :=
  mkConnJSON (Transport c) (GatewayID c) (RemoteAddr c) (Unix (ConnectedAt c)) (LastPacketSeq c).

Definition conn_of_json (id : string) (cj : connJSON) : Connection :=
  mkConnection id (cj_transport cj) (cj_gateway_id cj) (cj_remote_addr cj)
    (FromUnix (cj_connected_at cj)) (cj_last_packet_seq cj).

(** The fields of the hash of a session. *)
Definition session_fields (s : Session) : list (string * string) := [
  ("user_id", EncodeToString (sbytes (UserID s)));
  ("device_id", EncodeToString (sbytes (DeviceID s)));
  ("status", Status_ s);
  ("crypto_state", EncodeToString (sbytes (CryptoState s)));
  ("created_at", FormatInt (Unix (CreatedAt s)));
  ("last_active", FormatInt (Unix (LastActive s)));
  ("expires_at", FormatInt (Unix (ExpiresAt s)))
].

(** [vals["field"]]: the empty string when the field is missing. *)
Definition field (vals : gmap string string) (f : string) : string := default "" (vals !! f).

(** The slice [hex.DecodeString] returns when its error is dropped. *)
Definition decoded (s : string) : slice := Some (DecodeString s).1.

Definition session_of_fields (sessionID : slice) (vals : gmap string string)
    (conns : list Connection) : Session :=
  mkSession sessionID (decoded (field vals "user_id")) (decoded (field vals "device_id"))
    (field vals "status") (decoded (field vals "crypto_state"))
    (FromUnix (ParseInt (field vals "created_at")))
    (FromUnix (ParseInt (field vals "last_active")))
    (FromUnix (ParseInt (field vals "expires_at"))) conns.

(** The commands of the pipelines. *)
Definition create_cmds (ttl : Z) (s : Session) : list rcmd :=
  let key := sessionKey (sbytes (SessionID s)) in
  [ HSET key (session_fields s); EXPIRE key ttl;
    SADD (userSessionsKey (sbytes (UserID s))) (EncodeToString (sbytes (SessionID s))) ].

Definition touch_cmds (now ttl : Z) (sessionID : bytes) : list rcmd :=
  [ HSET (sessionKey sessionID) [("last_active", FormatInt (Unix now))];
    EXPIRE (sessionKey sessionID) ttl ].

Definition delete_cmds (sessionID userID : bytes) : list rcmd :=
  [ DEL (sessionKey sessionID); DEL (connKey sessionID);
    SREM (userSessionsKey userID) (EncodeToString sessionID) ].

(** A Go loop that appends the entries that parse and skips the others. *)
Definition parse_connections `{ConnCodec} (vals : list (string * string)) : list Connection :=
  omap (λ kv, conn_of_json kv.1 <$> conn_unmarshal kv.2) vals.

Section redis_store.
Context {C : Type} `{RedisClient C} `{ConnCodec} `{RangeOrder}.

Definition RedisStore_Create (now ttl : Z) (s : Session) : M C unit :=
  rpipe now (create_cmds ttl s).

Definition RedisStore_GetConnections (now : Z) (sessionID : slice) : M C (list Connection) :=
  vals ← rHGetAll now (connKey (sbytes sessionID));
  mret (parse_connections (range vals)).

Definition RedisStore_Get (now : Z) (sessionID : slice) : M C Session :=
  let key := sessionKey (sbytes sessionID) in
  vals ← wrap "redis hgetall" (rHGetAll now key);
  if bool_decide (size vals = 0%nat) then throw (Errorf "session not found: %s")
  else
    r ← attempt (RedisStore_GetConnections now sessionID);
    let conns := default [] r.2 in
    mret (session_of_fields sessionID vals conns).

Definition RedisStore_UpdateStatus (now : Z) (sessionID : slice) (status : Status) : M C unit :=
  rHSet now (sessionKey (sbytes sessionID)) [("status", status)].

Definition RedisStore_UpdateCryptoState (now : Z) (sessionID cryptoState : slice) : M C unit :=
  rHSet now (sessionKey (sbytes sessionID)) [("crypto_state", EncodeToString (sbytes cryptoState))].

Definition RedisStore_UpdateLastActive (now ttl : Z) (sessionID : slice) : M C unit :=
  rpipe now (touch_cmds now ttl (sbytes sessionID)).

Definition RedisStore_Delete (now : Z) (sessionID : slice) : M C unit :=
  s ← RedisStore_Get now sessionID;
  rpipe now (delete_cmds (sbytes sessionID) (sbytes (UserID s))).

Definition RedisStore_AddConnection (now : Z) (sessionID : slice) (conn : Connection) : M C unit :=
  data ← lift (conn_marshal (conn_to_json conn));
  rHSet now (connKey (sbytes sessionID)) [(ConnectionID conn, data)].

Definition RedisStore_RemoveConnection (now : Z) (sessionID : slice) (connectionID : string) : M C unit :=
  rHDel now (connKey (sbytes sessionID)) connectionID.

Definition RedisStore_GetUserSessions (now : Z) (userID : slice) : M C (list slice) :=
  members ← rSMembers now (userSessionsKey (sbytes userID));
  mret (decoded <$> members).

End redis_store.

(** ** pg_store.go *)

(** A row of the table [sessions]; the columns are NOT NULL. *)
Record session_row := mkSessionRow {
  row_user_id : bytes;
  row_device_id : bytes;
  row_crypto_state : bytes;
  row_status : string;
  row_created_at : Z;
  row_updated_at : Z;
  row_expires_at : Z;
}.

(** The table, by its primary key [session_id]. *)
Notation sessions := (gmap (list byte) session_row).

(** [CHECK (status IN (...))] *)
Definition status_check (status : string) : bool :=
  bool_decide (status = "connecting") || bool_decide (status = "active") ||
  bool_decide (status = "sleeping") || bool_decide (status = "expired").

Definition check_violation : error := Errorf "new row violates check constraint on status".

(** [INSERT INTO sessions ... VALUES (...)]: a nil slice is sent as NULL. *)
Definition insert_session (s : Session) : stmt sessions unit := λ db,
  match SessionID s, UserID s, DeviceID s, CryptoState s with
  | Some sid, Some uid, Some did, Some cs =>
      if negb (status_check (Status_ s)) then (Err check_violation, db)
      else match db !! sid with
           | Some _ => (Err (unique_violation "sessions_pkey"), db)
           | None => (Ok tt, <[sid := mkSessionRow uid did cs (Status_ s) (pg_time (CreatedAt s))
                                        (pg_time (CreatedAt s)) (pg_time (ExpiresAt s))]> db)
           end
  | _, _, _, _ => (Err (not_null_violation "sessions"), db)
  end.

(** [WHERE session_id = $1]: no row matches NULL. *)
Definition row_of (sessionID : slice) (db : sessions) : option session_row :=
  sid ← sessionID; db !! sid.

Definition alter_row (f : session_row → session_row) (sessionID : slice) (db : sessions) : sessions :=
  match sessionID with Some sid => alter f sid db | None => db end.

Definition row_set_status (now : Z) (st : string) (r : session_row) : session_row :=
  mkSessionRow (row_user_id r) (row_device_id r) (row_crypto_state r) st
    (row_created_at r) (pg_time now) (row_expires_at r).

Definition row_set_crypto (now : Z) (cs : bytes) (r : session_row) : session_row :=
  mkSessionRow (row_user_id r) (row_device_id r) cs (row_status r)
    (row_created_at r) (pg_time now) (row_expires_at r).

Definition row_touch (now : Z) (r : session_row) : session_row :=
  mkSessionRow (row_user_id r) (row_device_id r) (row_crypto_state r) (row_status r)
    (row_created_at r) (pg_time now) (row_expires_at r).

Definition session_of_row (sid : bytes) (r : session_row) : Session :=
  mkSession (Some sid) (Some (row_user_id r)) (Some (row_device_id r)) (row_status r)
    (Some (row_crypto_state r)) (row_created_at r) (row_updated_at r) (row_expires_at r) [].

(** [UPDATE sessions SET status = $2 ...]: the check applies to updated rows only. *)
Definition update_status_stmt (now : Z) (sessionID : slice) (status : string) : stmt sessions unit := λ db,
  match row_of sessionID db with
  | None => (Ok tt, db)
  | Some _ =>
      if status_check status then (Ok tt, alter_row (row_set_status now status) sessionID db)
      else (Err check_violation, db)
  end.

Definition update_crypto_stmt (now : Z) (sessionID cryptoState : slice) : stmt sessions unit := λ db,
  match row_of sessionID db, cryptoState with
  | None, _ => (Ok tt, db)
  | Some _, Some cs => (Ok tt, alter_row (row_set_crypto now cs) sessionID db)
  | Some _, None => (Err (not_null_violation "crypto_state"), db)
  end.

Section pg_store.
Context {P : Type} `{PgPool P sessions}.

Definition PGStore_Migrate : M P unit := pg_exec migrate_stmt.

Definition PGStore_Create (s : Session) : M P unit := pg_exec (insert_session s).

Definition PGStore_Get (sessionID : slice) : M P Session :=
  r ← wrap "session not found" (pg_exec (query_stmt (row_of sessionID)));
  match r, sessionID with
  | Some row, Some sid => mret (session_of_row sid row)
  | _, _ => throw (Wrap "session not found" (Errorf "no rows in result set"))
  end.

Definition PGStore_UpdateStatus (now : Z) (sessionID : slice) (status : Status) : M P unit :=
  pg_exec (update_status_stmt now sessionID status).

Definition PGStore_UpdateCryptoState (now : Z) (sessionID cryptoState : slice) : M P unit :=
  pg_exec (update_crypto_stmt now sessionID cryptoState).

Definition PGStore_UpdateLastActive (now : Z) (sessionID : slice) : M P unit :=
  pg_exec (update_stmt (alter_row (row_touch now) sessionID)).

Definition PGStore_Delete (sessionID : slice) : M P unit :=
  pg_exec (update_stmt (λ db, match sessionID with Some sid => delete sid db | None => db end)).

(** The durable store keeps no connections. *)
Definition PGStore_AddConnection (_ : slice) (_ : Connection) : M P unit := mret tt.
Definition PGStore_RemoveConnection (_ : slice) (_ : string) : M P unit := mret tt.
Definition PGStore_GetConnections (_ : slice) : M P (list Connection) := mret [].

(** [WHERE user_id = $1 AND status != 'expired'] *)
Definition PGStore_GetUserSessions (userID : slice) : M P (list slice) :=
  pg_exec (query_stmt (λ db : sessions,
    Some <$> (filter (λ '(_, r), Some (row_user_id r) = userID ∧ row_status r ≠ "expired")
                (map_to_list db)).*1)).

End pg_store.

(** ** Lemmas: keys *)

#[export] Instance sessionKey_inj : Inj (=) (=) sessionKey.
Proof. intros a b H. unfold sessionKey in H. by simplify_eq. Qed.

Lemma connKey_unfold id : connKey id = "session:" +:+ (EncodeToString id +:+ ":connections").
Proof. reflexivity. Qed.

#[export] Instance connKey_inj : Inj (=) (=) connKey.
Proof.
  intros a b H. rewrite !connKey_unfold in H. apply (inj (String.app "session:")) in H.
  by apply hex_colon_inj in H as [? _].
Qed.

#[export] Instance userSessionsKey_inj : Inj (=) (=) userSessionsKey.
Proof.
  intros a b H. unfold userSessionsKey in H. apply (inj (String.app "user:")) in H.
  by apply hex_colon_inj in H as [? _].
Qed.

Lemma sessionKey_connKey a b : sessionKey a ≠ connKey b.
Proof.
  rewrite connKey_unfold. intros H%(inj (String.app "session:")). by apply hex_no_colon in H.
Qed.

Lemma sessionKey_userKey a b : sessionKey a ≠ userSessionsKey b.
Proof. done. Qed.

Lemma connKey_userKey a b : connKey a ≠ userSessionsKey b.
Proof. done. Qed.

#[export] Hint Resolve sessionKey_connKey sessionKey_userKey connKey_userKey : fproto.

(** ** Lemmas: the Redis store *)

(** What a stored session reads back as: nil slices become empty ones and the
    times lose their fraction of a second. *)
Definition redis_view (s : Session) (conns : list Connection) : Session :=
  mkSession (SessionID s) (Some (sbytes (UserID s))) (Some (sbytes (DeviceID s))) (Status_ s)
    (Some (sbytes (CryptoState s))) (FromUnix (Unix (CreatedAt s)))
    (FromUnix (Unix (LastActive s))) (FromUnix (Unix (ExpiresAt s))) conns.

(** Times whose seconds fit an [int64], as every [time.Time] of a Unix clock. *)
Definition times_ok (s : Session) : Prop :=
  MinInt64 ≤ Unix (CreatedAt s) ≤ MaxInt64 ∧ MinInt64 ≤ Unix (LastActive s) ≤ MaxInt64 ∧
  MinInt64 ≤ Unix (ExpiresAt s) ≤ MaxInt64.

Lemma decoded_hex b : decoded (EncodeToString b) = Some b.
Proof. unfold decoded. by rewrite DecodeString_EncodeToString. Qed.

(** Writing the fields of a session over any hash. *)
Definition write_fields (fields : list (string * string)) (h : gmap string string) : gmap string string :=
  foldr (λ f, insert f.1 f.2) h (rev fields).

Lemma write_fields_nonempty fields h : fields ≠ [] → write_fields fields h ≠ ∅.
Proof.
  unfold write_fields. intros Hf. destruct (rev fields) as [|f l] eqn:E.
  - apply (f_equal length) in E. rewrite length_rev in E. by destruct fields.
  - simpl. apply insert_non_empty.
Qed.

Lemma session_fields_read s h conns :
  times_ok s →
  session_of_fields (SessionID s) (write_fields (session_fields s) h) conns = redis_view s conns.
Proof.
  intros (Hc & Hl & He). unfold session_of_fields, redis_view, field, write_fields. simpl.
  rewrite !lookup_insert. simpl. rewrite !decoded_hex, !ParseInt_FormatInt by done. done.
Qed.

(** [HSET] writes the fields over the hash at the key, or is refused. *)
Lemma HSET_cases now key fields (ks : keyspace) :
  (∃ h exp, hash_at now ks key = Some h ∧
     live now (apply_cmd now (HSET key fields) ks).2 key = Some (REntry (RHash (write_fields fields h)) exp)) ∨
  ((apply_cmd now (HSET key fields) ks).1 = RepWrongType ∧ (apply_cmd now (HSET key fields) ks).2 = ks).
Proof.
  unfold hash_at. cbn [apply_cmd]. destruct (live now ks key) as [[[|h|] exp]|] eqn:Hl; cbn [fst snd].
  - by right.
  - left. exists h, exp. rewrite live_insert. apply live_Some in Hl as [_ Hx].
    unfold expired in *. simpl in *. by rewrite Hx.
  - by right.
  - left. exists ∅, None. by rewrite live_insert.
Qed.

(** What [HSET] writes has the expiry of the hash that was there, or none. *)
Lemma HSET_live now t key fields (ks : keyspace) :
  (apply_cmd now (HSET key fields) ks).1 ≠ RepWrongType →
  (∀ e, ks !! key = Some e → expired now e = false → expired t e = false) →
  ∃ h exp, live t (apply_cmd now (HSET key fields) ks).2 key = Some (REntry (RHash (write_fields fields h)) exp).
Proof.
  intros Hw Ht. cbn [apply_cmd] in *. destruct (live now ks key) as [[[|h|] exp]|] eqn:Hl; cbn [fst snd] in *; [done| |done|].
  - exists h, exp. rewrite live_insert. apply live_Some in Hl as [Hk Hx]. apply Ht in Hk; [|done].
    unfold expired in *. simpl in *. by rewrite Hk.
  - exists ∅, None. by rewrite live_insert.
Qed.

Section redis_lemmas.
Context {C : Type} `{RedisLaws C} `{ConnCodec} `{RangeOrder}.
Implicit Types c : C.

Lemma GetConnections_spec now sid c r c' :
  RedisStore_GetConnections now sid c = (r, c') →
  rdata c' = rdata c ∧
  match r with
  | Ok conns => ∃ vals, hash_at now (rdata c) (connKey (sbytes sid)) = Some vals ∧
                        conns = parse_connections (range vals)
  | Err _ => True
  | Panic _ => False
  end.
Proof.
  unfold RedisStore_GetConnections, mbind, M_bind, mret, M_ret.
  destruct (rHGetAll _ _ c) as [r1 c1] eqn:E. apply rHGetAll_spec in E as [Hd Hr].
  destruct r1; intros [= <- <-]; eauto.
Qed.

Lemma Get_spec now sid c r c' :
  RedisStore_Get now sid c = (r, c') →
  rdata c' = rdata c ∧
  match r with
  | Ok s => ∃ vals conns, hash_at now (rdata c) (sessionKey (sbytes sid)) = Some vals ∧ vals ≠ ∅ ∧
              s = session_of_fields sid vals conns ∧
              (conns = [] ∨ ∃ cvals, hash_at now (rdata c) (connKey (sbytes sid)) = Some cvals ∧
                              conns = parse_connections (range cvals))
  | Err e => (e = Errorf "session not found: %s" ∧
              hash_at now (rdata c) (sessionKey (sbytes sid)) = Some ∅) ∨
             ∃ e', e = Wrap "redis hgetall" e'
  | Panic _ => False
  end.
Proof.
  unfold RedisStore_Get. unfold mbind at 1, M_bind at 1. unfold wrap.
  destruct (rHGetAll _ _ c) as [r1 c1] eqn:E. apply rHGetAll_spec in E as [Hd Hr].
  destruct r1 as [vals|e|w]; [|by intros [= <- <-]; eauto|done].
  case_bool_decide as Hsz.
  { unfold throw. intros [= <- <-]. apply map_size_empty_iff in Hsz as ->. eauto. }
  assert (vals ≠ ∅) by (by intros ->).
  unfold mbind, M_bind, attempt, mret, M_ret.
  destruct (RedisStore_GetConnections now sid c1) as [r2 c2] eqn:E2.
  apply GetConnections_spec in E2 as [Hd2 Hr2]. rewrite Hd in Hr2, Hd2.
  destruct r2; [| |done]; intros [= <- <-]; (split; [done|]); eexists _, _;
    (split_and!; [done|done|done|]); naive_solver.
Qed.

(** A record written by [Create] is there until its expiry time. *)
Lemma Create_spec now ttl s c c' :
  RedisStore_Create now ttl s c = (Ok tt, c') → 0 < ttl →
  let key := sessionKey (sbytes (SessionID s)) in
  let ukey := userSessionsKey (sbytes (UserID s)) in
  (∃ h, rdata c' !! key = Some (REntry (RHash (write_fields (session_fields s) h)) (Some (now + ttl)))) ∧
  (∃ m exp, live now (rdata c') ukey = Some (REntry (RSet m) exp) ∧
            EncodeToString (sbytes (SessionID s)) ∈ m) ∧
  (∀ k, k ≠ key → k ≠ ukey → rdata c' !! k = rdata c !! k).
Proof.
  intros E Httl key ukey. apply rpipe_Ok in E as [Hacc Hd].
  unfold create_cmds in *. fold key ukey in Hacc, Hd. cbn [accepts] in Hacc. destruct Hacc as (Ha1 & _ & Ha3 & _).
  assert (Hks1 : ∃ h exp, (apply_cmd now (HSET key (session_fields s)) (rdata c)).2 =
     <[key := REntry (RHash (write_fields (session_fields s) h)) exp]> (rdata c) ∧
     expired now (REntry (RHash (write_fields (session_fields s) h)) exp) = false).
  { clear Ha3 Hd. simpl in *. destruct (live now (rdata c) key) as [[[|h|] exp]|] eqn:Hl; try done;
      eexists _, _; (split; [done|]); [|done].
    by apply live_Some in Hl as [_ ?]. }
  destruct Hks1 as (h & exp & Hks1 & Hexp).
  unfold apply_all in Hd. cbn [foldl] in Hd. rewrite Hks1 in Hd, Ha3.
  cbn [apply_cmd snd] in Hd, Ha3. rewrite live_insert, Hexp in Hd, Ha3. cbn [snd] in Hd, Ha3.
  rewrite (proj2 (Z.leb_gt _ _)) in Hd, Ha3 by done. rewrite insert_insert_eq in Hd, Ha3.
  assert (Hne : key ≠ ukey) by done.
  rewrite live_insert_ne in Hd, Ha3 by done. split_and!.
  - exists h. rewrite Hd. repeat case_match; simpl; try done; rewrite ?lookup_insert_ne by done;
      by rewrite lookup_insert_eq.
  - rewrite Hd. destruct (live now (rdata c) ukey) as [[[| |m] uexp]|] eqn:Hu; try done; simpl.
    + eexists _, uexp. split; [|apply elem_of_union_l, elem_of_singleton_2, eq_refl].
      rewrite live_insert. by apply live_Some in Hu as [_ Hu]; unfold expired in *; simpl in *; rewrite Hu.
    + eexists _, None. split; [by rewrite live_insert|set_solver].
  - intros k Hk Huk. rewrite Hd. repeat case_match; simpl; by rewrite ?lookup_insert_ne.
Qed.

End redis_lemmas.

Lemma range_empty `{RangeOrderLaws} {V} : range (∅ : gmap string V) = [].
Proof. apply Permutation_nil. symmetry. by rewrite range_perm, map_to_list_empty. Qed.

(** A toy codec that satisfies the laws: the record encoded as a number. *)
Definition cj_tuple (cj : connJSON) : string * string * string * Z * Z :=
  (cj_transport cj, cj_gateway_id cj, cj_remote_addr cj, cj_connected_at cj, cj_last_packet_seq cj).

Definition toy_unmarshal (s : string) : option connJSON :=
  d ← DecimalString.NilZero.int_of_string s;
  match Z.of_int d with
  | Zpos p => (λ '(t, g, r, a, l), mkConnJSON t g r a l) <$> decode p
  | _ => None
  end.

Definition toy_codec : ConnCodec := {|
  conn_marshal cj := Ok (FormatInt (Zpos (encode (cj_tuple cj))));
  conn_unmarshal := toy_unmarshal;
|}.

Lemma toy_codec_laws : @ConnCodecLaws toy_codec.
Proof.
  split. intros cj _. eexists. split; [done|]. simpl. unfold toy_unmarshal, FormatInt.
  destruct (Z_to_int_nonnil (Zpos (encode (cj_tuple cj)))).
  rewrite DecimalString.NilZero.isi by done. cbn [mbind option_bind].
  rewrite DecimalZ.of_to, decode_encode. by destruct cj.
Qed.

(** ** Properties *)

Section redis_properties.
Context {C : Type} `{RedisLaws C} `{ConnCodec} `{RangeOrderLaws}.

(** A session written by [Create] is read back by [Get] until its
    expiry time, with the same fields up to whole seconds (and no connections
    when none were registered), and never afterwards; the only other outcome is
    a transport error. *)
Theorem redis_create_get (t0 t ttl : Z) (s : Session) (c c1 c2 c3 : C) (r : result Session) :
  0 < ttl → times_ok s →
  RedisStore_Create t0 ttl s c = (Ok tt, c1) →
  rdata c2 = rdata c1 →
  live t (rdata c) (connKey (sbytes (SessionID s))) = None →
  RedisStore_Get t (SessionID s) c2 = (r, c3) →
  match r with
  | Ok s' => t < t0 + ttl ∧ s' = redis_view s []
  | Err e => (t0 + ttl ≤ t ∧ e = Errorf "session not found: %s") ∨
             ∃ e', e = Wrap "redis hgetall" e'
  | Panic _ => False
  end.
Proof.
  intros Httl Htimes Ec Hd Hconn Eg.
  destruct (Create_spec _ _ _ _ _ Ec Httl) as ((h & Hkey) & _ & Hother).
  apply Get_spec in Eg as [_ Hr]. rewrite Hd in Hr.
  assert (Hhash : hash_at t (rdata c1) (sessionKey (sbytes (SessionID s))) =
    if t0 + ttl <=? t then Some ∅ else Some (write_fields (session_fields s) h)).
  { unfold hash_at, live. rewrite Hkey. unfold expired. simpl. by destruct (t0 + ttl <=? t). }
  assert (Hch : hash_at t (rdata c1) (connKey (sbytes (SessionID s))) = Some ∅).
  { unfold hash_at, live. rewrite Hother; [|apply not_eq_sym, sessionKey_connKey|done].
    unfold live in Hconn. by rewrite Hconn. }
  rewrite Hhash in Hr. destruct r as [s'|e|w]; [| |done].
  - destruct Hr as (vals & conns & Hv & Hne & -> & Hcs).
    destruct (Z.leb_spec (t0 + ttl) t); [by simplify_eq|].
    split; [done|]. simplify_eq. rewrite session_fields_read by done. f_equal.
    destruct Hcs as [->|(cvals & Hcv & ->)]; [done|].
    rewrite Hch in Hcv. simplify_eq. by rewrite range_empty.
  - destruct Hr as [[-> Hv]|?]; [|by right]. left. split; [|done].
    destruct (Z.leb_spec (t0 + ttl) t); [done|]. exfalso. simplify_eq.
    by apply (write_fields_nonempty (session_fields s) h).
Qed.

End redis_properties.

Definition example_session : Session :=
  mkSession (Some [xaa; xbb]) (Some [x01]) (Some [x02]) StatusConnecting None
    (1700000000 * Second + 5) (1700000000 * Second + 5) (1700086400 * Second) [].

Lemma redis_create_get_witness :
  let _ := toy_codec in
  ∃ c1 r c3,
    RedisStore_Create 0 Hour example_session (mkMemRedis ∅ []) = (Ok tt, c1) ∧
    RedisStore_Get 5 (Some [xaa; xbb]) c1 = (r, c3) ∧
    match r with
    | Ok s' => 5 < 0 + Hour ∧ s' = redis_view example_session []
    | Err e => (0 + Hour ≤ 5 ∧ e = Errorf "session not found: %s") ∨
               ∃ e', e = Wrap "redis hgetall" e'
    | Panic _ => False
    end.
Proof.
  intros codec. destruct (RedisStore_Create 0 Hour example_session (mkMemRedis ∅ [])) as [r1 c1] eqn:E.
  assert (r1 = Ok tt) as -> by (change r1 with (r1, c1).1; rewrite <-E; vm_compute; reflexivity).
  destruct (RedisStore_Get 5 (Some [xaa; xbb]) c1) as [r c3] eqn:Eg.
  exists c1, r, c3. split; [done|]. split; [exact Eg|].
  apply (redis_create_get 0 5 Hour example_session (mkMemRedis ∅ []) c1 c1 c3 r).
  - reflexivity.
  - vm_compute. repeat split; discriminate.
  - exact E.
  - reflexivity.
  - reflexivity.
  - exact Eg.
Defined.
