(* ===== verification/SessionManager.v ===== *)
(** * The session manager

    [proto-core/session/manager.go]: session life cycle over the Redis store and,
    when it is configured, the PostgreSQL store.  The manager's world is the two
    connections; a nil [pg] is [mw_pg = None]. *)
From S2P Require Import Prelude Bytes Redis Postgres SessionMachine SessionStore.

Local Open Scope Z_scope.

Record MgrW (C P : Type) := mkMgr { mw_redis : C; mw_pg : option P }.
Arguments mkMgr {C P} _ _.
Arguments mw_redis {C P} _.
Arguments mw_pg {C P} _.

Section manager.
Context {C P : Type} `{RedisClient C} `{PgPool P sessions} `{ConnCodec} `{RangeOrder}.
(** The configuration and the expiry time of the Redis store. *)
Context (cfg : Config) (ttl : Z).

(** [m.redis.f()] *)
Definition on_redis {A} (m : M C A) : M (MgrW C P) A :=
  zoom mw_redis (λ c w, mkMgr c (mw_pg w)) m.

(** [if m.pg != nil { m.pg.f() }] *)
Definition when_pg (m : M P unit) : M (MgrW C P) unit := λ w,
  match mw_pg w with
  | None => (Ok tt, w)
  | Some p => let '(r, p') := m p in (r, mkMgr (mw_redis w) (Some p'))
  end.

(** [rnd] is the outcome of [rand.Read] into the 16 bytes of the session id. *)
Definition Manager_CreateSession (now : Z) (rnd : result bytes) (userID deviceID : slice) :
    M (MgrW C P) Session :=
  sessionID ← wrap "generate session id" (lift rnd);
  let s := mkSession (Some sessionID) userID deviceID StatusConnecting None
             now now (now + ExpiryTimeout cfg) [] in
  _ ← wrap "redis create" (on_redis (RedisStore_Create now ttl s));
  _ ← when_pg (wrap "pg create" (PGStore_Create s));
  mret s.

Definition Manager_GetSession (now : Z) (sessionID : slice) : M (MgrW C P) Session := λ w,
  match on_redis (RedisStore_Get now sessionID) w with
  | (Err e, w') =>
      match mw_pg w' with
      | None => (Err e, w')
      | Some p => let '(r, p') := PGStore_Get sessionID p in (r, mkMgr (mw_redis w') (Some p'))
      end
  | r => r
  end.

(** The two ends of [TransitionSession]: the session is destroyed, or its status
    is stored.  [None] is the nil session of a destroyed one.  [clock] gives the instants
    of the calls that [TransitionSession] makes, one after the other. *)
Definition destroy_session (now : Z) (sessionID : slice) : M (MgrW C P) (option Session) :=
  _ ← wrap "delete session" (on_redis (RedisStore_Delete now sessionID));
  _ ← when_pg (ignore (PGStore_Delete sessionID));
  mret None.

Definition store_status (clock : nat → Z) (sessionID : slice) (event : Event) (next : Status) (s : Session) :
    M (MgrW C P) (option Session) :=
  _ ← wrap "redis update status" (on_redis (RedisStore_UpdateStatus (clock 1%nat) sessionID next));
  _ ← (if bool_decide (event = EventPacketReceived)
       then ignore (on_redis (RedisStore_UpdateLastActive (clock 2%nat) ttl sessionID)) else mret tt);
  _ ← when_pg (ignore (PGStore_UpdateStatus (clock 3%nat) sessionID next));
  mret (Some (set_Status next s)).

Definition Manager_TransitionSession (clock : nat → Z) (sessionID : slice) (event : Event) :
    M (MgrW C P) (option Session) :=
  s ← on_redis (RedisStore_Get (clock 0%nat) sessionID);
  '(next, destroyed) ← lift (Transition (Status_ s) event);
  if (destroyed : bool) then destroy_session (clock 1%nat) sessionID
  else store_status clock sessionID event next s.

Definition Manager_UpdateCryptoState (now : Z) (sessionID cryptoState : slice) : M (MgrW C P) unit :=
  _ ← on_redis (RedisStore_UpdateCryptoState now sessionID cryptoState);
  when_pg (PGStore_UpdateCryptoState now sessionID cryptoState).

(** The first half of [RegisterConnection]: the number of connections found, and
    whether another one may be added. *)
Definition register_check (now : Z) (sessionID : slice) : M (MgrW C P) (Z + Z) :=
  existing ← on_redis (RedisStore_GetConnections now sessionID);
  let n := Z.of_nat (length existing) in
  mret (if MaxConnections cfg <=? n then inl n else inr n).

(** The count, and the error the call returns with it. *)
Definition Manager_RegisterConnection (now : Z) (sessionID : slice) (conn : Connection) :
    M (MgrW C P) (Z * option error) :=
  r ← attempt (register_check now sessionID);
  match r with
  | (Some e, _) => mret (0, Some e)
  | (None, Some (inl n)) => mret (n, Some (Errorf "max connections (%d) reached"))
  | (None, Some (inr n)) =>
      a ← attempt (on_redis (RedisStore_AddConnection now sessionID conn));
      match a.1 with
      | Some e => mret (0, Some e)
      | None => mret (n + 1, None)
      end
  | (None, None) => mret (0, None)
  end.

Definition Manager_UnregisterConnection (now : Z) (sessionID : slice) (connectionID : string) :
    M (MgrW C P) unit := on_redis (RedisStore_RemoveConnection now sessionID connectionID).

Definition Manager_GetUserSessions (now : Z) (userID : slice) : M (MgrW C P) (list slice) :=
  on_redis (RedisStore_GetUserSessions now userID).

End manager.

(** ** Concurrent registrations *)

(** Calls of [RegisterConnection] in flight: each has passed its check and is about
    to add its connection. *)
Inductive register_step {C P} `{RedisClient C} `{ConnCodec} `{RangeOrder} (cfg : Config) (now : Z) (sid : slice) :
    MgrW C P * list Connection → MgrW C P * list Connection → Prop :=
| register_checked w conn n w' pending :
    register_check cfg now sid w = (Ok (inr n), w') →
    register_step cfg now sid (w, pending) (w', conn :: pending)
| register_added w conn w' pending :
    on_redis (RedisStore_AddConnection now sid conn) w = (Ok tt, w') →
    register_step cfg now sid (w, conn :: pending) (w', pending).

(** ** The abstract state of a session *)

(** The phase of the life cycle a keyspace shows for a session at [now]. *)
Definition phase_at (now : Z) (ks : keyspace) (sessionID : slice) : phase :=
  match hash_at now ks (sessionKey (sbytes sessionID)) with
  | Some vals => if bool_decide (vals = ∅) then Destroyed else InStatus (field vals "status")
  | None => Destroyed
  end.

(** A session that is there at [t] does not expire until [t']. *)
Definition lasts (t t' : Z) (ks : keyspace) (sessionID : slice) : Prop :=
  ∀ e, ks !! sessionKey (sbytes sessionID) = Some e → expired t e = false → expired t' e = false.

(** The connections of a session: every entry is readable and there are at most
    [max] of them. *)
Definition conns_wf_hash `{ConnCodec} (max : Z) (vals : gmap string string) : Prop :=
  map_Forall (λ _ v, is_Some (conn_unmarshal v)) vals ∧ Z.of_nat (size vals) ≤ max.

Definition conns_wf `{ConnCodec} (max now : Z) (ks : keyspace) (sessionID : slice) : Prop :=
  ∃ vals, hash_at now ks (connKey (sbytes sessionID)) = Some vals ∧ conns_wf_hash max vals.

(** ** Lemmas *)

Lemma length_omap_total {A B} (f : A → option B) l :
  Forall (λ x, is_Some (f x)) l → length (omap f l) = length l.
Proof. induction 1 as [|x l [y Hy] _ IH]; csimpl; [done|]. rewrite Hy. simpl. by rewrite IH. Qed.

Lemma parse_connections_length `{ConnCodec} `{RangeOrderLaws} (vals : gmap string string) :
  map_Forall (λ _ v, is_Some (conn_unmarshal v)) vals →
  length (parse_connections (range vals)) = size vals.
Proof.
  intros Hv. unfold parse_connections. rewrite length_omap_total, range_length; [done|].
  apply Forall_forall. intros [k v] Hin. rewrite range_perm in Hin.
  apply elem_of_map_to_list, Hv in Hin as [cj Hcj]. simpl. by rewrite Hcj.
Qed.

Section manager_lemmas.
Context {C P : Type} `{RedisLaws C} `{PgLaws P sessions} `{ConnCodec} `{RangeOrder}.
Context (cfg : Config) (ttl : Z).
Implicit Types w : MgrW C P.

Lemma on_redis_run {A} (m : M C A) w r c' :
  m (mw_redis w) = (r, c') → on_redis m w = (r, mkMgr c' (mw_pg w)).
Proof. unfold on_redis, zoom. by intros ->. Qed.

Lemma on_redis_inv {A} (m : M C A) w r w' :
  on_redis (P:=P) m w = (r, w') →
  ∃ c', m (mw_redis w) = (r, c') ∧ w' = mkMgr c' (mw_pg w).
Proof. unfold on_redis, zoom. destruct (m (mw_redis w)). naive_solver. Qed.

(** The PostgreSQL side never touches Redis. *)
Lemma when_pg_redis (m : M P unit) w r w' :
  when_pg m w = (r, w') → mw_redis w' = mw_redis w.
Proof. unfold when_pg. repeat case_match; naive_solver. Qed.

Lemma when_pg_ignore_Ok (m : M P unit) w r w' :
  (∀ p s p', m p ≠ (Panic s, p')) → when_pg (ignore m) w = (r, w') → r = Ok tt.
Proof.
  intros Hm. unfold when_pg, ignore. destruct (mw_pg w) as [p|]; [|naive_solver].
  destruct (m p) as [[] p'] eqn:E; naive_solver.
Qed.

(** The phase after the pipelines and commands of the manager. *)
Lemma phase_at_status now ks sid vals exp :
  live now ks (sessionKey (sbytes sid)) = Some (REntry (RHash vals) exp) → vals ≠ ∅ →
  phase_at now ks sid = InStatus (field vals "status").
Proof.
  intros Hl Hne. unfold phase_at, hash_at. rewrite Hl. by rewrite bool_decide_false.
Qed.

Lemma phase_at_missing now ks sid :
  ks !! sessionKey (sbytes sid) = None → phase_at now ks sid = Destroyed.
Proof. intros Hk. unfold phase_at, hash_at, live. by rewrite Hk. Qed.

(** Any part of the pipeline of [UpdateLastActive] keeps the status. *)
Lemma touch_cmd_phase now t cmd sid vals exp ks :
  0 < ttl → cmd ∈ touch_cmds t ttl (sbytes sid) →
  live now ks (sessionKey (sbytes sid)) = Some (REntry (RHash vals) exp) → vals ≠ ∅ →
  ∃ vals' exp', live now (apply_cmd now cmd ks).2 (sessionKey (sbytes sid)) = Some (REntry (RHash vals') exp') ∧
    vals' ≠ ∅ ∧ field vals' "status" = field vals "status".
Proof.
  intros Httl Hcmd Hl Hne. unfold touch_cmds in Hcmd.
  rewrite !elem_of_cons, elem_of_nil in Hcmd. destruct Hcmd as [->|[->|[]]]; cbn [apply_cmd]; rewrite Hl; cbn [snd].
  - eexists _, exp. split_and!; [|apply insert_non_empty|].
    + rewrite live_insert. apply live_Some in Hl as [_ Hx]. unfold expired in *. simpl in *. by rewrite Hx.
    + unfold field. simpl. by rewrite lookup_insert_ne.
  - rewrite (proj2 (Z.leb_gt _ _)) by done. eexists vals, _. rewrite live_insert.
    unfold expired. simpl. rewrite (proj2 (Z.leb_gt _ _)) by lia. done.
Qed.

Lemma touch_phase now t cmds sid vals exp ks :
  0 < ttl → cmds ⊆ touch_cmds t ttl (sbytes sid) →
  live now ks (sessionKey (sbytes sid)) = Some (REntry (RHash vals) exp) → vals ≠ ∅ →
  ∃ vals' exp', live now (apply_all now cmds ks) (sessionKey (sbytes sid)) = Some (REntry (RHash vals') exp') ∧
    vals' ≠ ∅ ∧ field vals' "status" = field vals "status".
Proof.
  intros Httl. revert vals exp ks. induction cmds as [|cmd cmds IH]; intros vals exp ks Hsub Hl Hne.
  { eauto. }
  destruct (touch_cmd_phase now t cmd sid vals exp ks) as (v1 & e1 & Hl1 & Hne1 & Hs1); [done|set_solver|done|done|].
  destruct (IH v1 e1 (apply_cmd now cmd ks).2) as (v2 & e2 & Hl2 & Hne2 & Hs2); [set_solver|done|done|].
  exists v2, e2. split_and!; [done|done|congruence].
Qed.

Lemma UpdateLastActive_phase now sid (c c' : C) r vals exp :
  0 < ttl → RedisStore_UpdateLastActive now ttl sid c = (r, c') →
  live now (rdata c) (sessionKey (sbytes sid)) = Some (REntry (RHash vals) exp) → vals ≠ ∅ →
  phase_at now (rdata c') sid = InStatus (field vals "status") ∧ ∀ why, r ≠ Panic why.
Proof.
  intros Httl E Hl Hne. unfold RedisStore_UpdateLastActive in E.
  assert (∃ cmds, cmds ⊆ touch_cmds now ttl (sbytes sid) ∧ rdata c' = apply_all now cmds (rdata c) ∧
            ∀ why, r ≠ Panic why) as (cmds & Hsub & Hd & Hr).
  { destruct r as [[]|e|why].
    - apply rpipe_Ok in E as [_ Hd]. by exists (touch_cmds now ttl (sbytes sid)).
    - apply rpipe_Err in E as (cmds & Hsub & Hd). exists cmds.
      split_and!; [|done|done]. intros x Hx. eapply elem_of_sublist; eauto.
    - by apply rpipe_no_panic in E. }
  split; [|done].
  destruct (touch_phase now now cmds sid vals exp (rdata c)) as (v & e & Hl' & Hne' & Hs); [done..|].
  rewrite Hd, (phase_at_status _ _ _ _ _ Hl' Hne'). by rewrite Hs.
Qed.

(** A pipeline of deletions and of commands on other keys. *)
Lemma apply_all_del now cs (ks : keyspace) k :
  Forall (λ c, c = DEL k ∨ cmd_key c ≠ k) cs →
  (apply_all now cs ks !! k = None ∧ DEL k ∈ cs) ∨ apply_all now cs ks !! k = ks !! k.
Proof.
  intros Hcs. revert ks. induction Hcs as [|c cs Hc Hcs IH]; intros ks; [by right|].
  unfold apply_all in *. simpl. destruct Hc as [->|Hne].
  - left. split; [|set_solver]. destruct (IH (apply_cmd now (DEL k) ks).2) as [[Hn _]|Hn]; [done|].
    by simpl in *; rewrite Hn, lookup_delete_eq.
  - destruct (IH (apply_cmd now c ks).2) as [[? ?]| ->]; [left; split; [done|set_solver]|].
    right. by apply apply_cmd_other.
Qed.

Lemma expired_later t t' e : t ≤ t' → expired t e = true → expired t' e = true.
Proof. unfold expired. destruct (rexp e); [|done]. rewrite !Z.leb_le. lia. Qed.

Lemma phase_lasts t t' (ks : keyspace) sid : t ≤ t' → lasts t t' ks sid → phase_at t' ks sid = phase_at t ks sid.
Proof.
  intros Ht Hl. unfold phase_at, hash_at, live. destruct (ks !! sessionKey (sbytes sid)) as [e|] eqn:He; [|done].
  destruct (expired t e) eqn:Hx; [by rewrite (expired_later t t')|]. by rewrite (Hl e).
Qed.

Lemma delete_cmds_session now t sid uid cmds (ks : keyspace) :
  sublist cmds (delete_cmds (sbytes sid) uid) →
  phase_at t (apply_all now cmds ks) sid = phase_at t ks sid ∨
  phase_at t (apply_all now cmds ks) sid = Destroyed.
Proof.
  intros Hsub. destruct (apply_all_del now cmds ks (sessionKey (sbytes sid))) as [[Hn _]|Heq].
  - eapply Forall_sublist; [done|]. unfold delete_cmds.
    rewrite !Forall_cons. split_and!; simpl; [by left|right; apply not_eq_sym, sessionKey_connKey|by right|done].
  - right. by apply phase_at_missing.
  - left. unfold phase_at, hash_at, live. by rewrite Heq.
Qed.

(** [Delete] by its outcome. *)
Lemma Delete_spec now sid (c c' : C) r :
  RedisStore_Delete now sid c = (r, c') →
  match r with
  | Ok _ => ∃ vals, hash_at now (rdata c) (sessionKey (sbytes sid)) = Some vals ∧ vals ≠ ∅ ∧
      rdata c' = apply_all now (delete_cmds (sbytes sid) (sbytes (decoded (field vals "user_id")))) (rdata c)
  | Err _ => rdata c' = rdata c ∨
      ∃ uid cmds, sublist cmds (delete_cmds (sbytes sid) uid) ∧ rdata c' = apply_all now cmds (rdata c)
  | Panic _ => False
  end.
Proof.
  unfold RedisStore_Delete, mbind, M_bind.
  destruct (RedisStore_Get now sid c) as [r1 c1] eqn:Eg. apply Get_spec in Eg as [Hd Hr].
  destruct r1 as [s|e|why]; [|by intros [= <- <-]; left|done].
  destruct Hr as (vals & conns & Hv & Hne & -> & _).
  intros E. destruct r as [[]|e|why].
  - apply rpipe_Ok in E as [_ Hd']. exists vals. by rewrite Hd', Hd.
  - apply rpipe_Err in E as (cmds & Hsub & Hd'). right. eexists _, cmds. by rewrite Hd', Hd.
  - by apply rpipe_no_panic in E.
Qed.

Lemma Delete_Ok_keys now sid uid ks :
  let ks' := apply_all now (delete_cmds sid uid) ks in
  ks' !! sessionKey sid = None ∧ ks' !! connKey sid = None ∧
  (∀ s exp, live now ks' (userSessionsKey uid) = Some (REntry (RSet s) exp) → EncodeToString sid ∉ s) ∧
  (∀ k, k ≠ sessionKey sid → k ≠ connKey sid → k ≠ userSessionsKey uid → ks' !! k = ks !! k).
Proof.
  intros ks'. unfold ks', delete_cmds, apply_all. cbn [foldl].
  cbn [apply_cmd snd]. set (k0 := delete _ (delete _ ks)).
  assert (k0 !! sessionKey sid = None ∧ k0 !! connKey sid = None) as [Hs0 Hc0].
  { subst k0. split; [|apply lookup_delete_eq]. rewrite lookup_delete_ne, lookup_delete_eq; [done|].
    apply not_eq_sym, sessionKey_connKey. }
  split_and!.
  - rewrite <-Hs0. apply (apply_cmd_other now (SREM _ _)). done.
  - rewrite <-Hc0. apply (apply_cmd_other now (SREM _ _)). done.
  - intros s exp. destruct (live now k0 (userSessionsKey uid)) as [[[| |m] ex]|] eqn:Hl; simpl; try congruence.
    unfold store_set. case_bool_decide; [by rewrite live_delete|].
    rewrite live_insert. case_match; [done|]. intros [= <- <-]. set_solver.
  - intros k Hk1 Hk2 Hk3. etrans; [apply (apply_cmd_other now (SREM _ _)); simpl; congruence|].
    subst k0. by rewrite !lookup_delete_ne.
Qed.

Lemma when_pg_ignore_exec (q : stmt sessions unit) w r w' :
  when_pg (ignore (pg_exec q)) w = (r, w') → r = Ok tt ∧ mw_redis w' = mw_redis w.
Proof.
  intros E. split; [|by eapply when_pg_redis]. eapply when_pg_ignore_Ok; [|exact E].
  intros. apply pg_exec_no_panic.
Qed.

(** The two ends of [TransitionSession]. *)
Lemma destroy_session_spec now t sid w r w' :
  destroy_session now sid w = (r, w') →
  let before := phase_at t (rdata (mw_redis w)) sid in
  let after := phase_at t (rdata (mw_redis w')) sid in
  match r with
  | Ok None => after = Destroyed
  | Err _ => after = before ∨ after = Destroyed
  | _ => False
  end.
Proof.
  unfold destroy_session, PGStore_Delete.
  destruct (on_redis (RedisStore_Delete now sid) w) as [r1 w1] eqn:E.
  rewrite (bind_run _ _ _ _ _ (wrap_run _ _ _ _ _ E)).
  apply on_redis_inv in E as (c1 & E & ->). apply Delete_spec in E. destruct r1 as [[]|e|why]; [| |done].
  - destruct E as (vals & _ & _ & Hd). unfold mbind, M_bind.
    destruct (when_pg _ _) as [r2 w2] eqn:E2. apply when_pg_ignore_exec in E2 as [-> Hw2].
    intros [= <- <-]. rewrite Hw2. simpl. rewrite Hd. apply phase_at_missing, Delete_Ok_keys.
  - intros [= <- <-]. simpl. destruct E as [->|(uid & cmds & Hsub & ->)]; [by left|].
    by eapply delete_cmds_session.
Qed.

Lemma UpdateStatus_phase now t sid st (c c' : C) r :
  RedisStore_UpdateStatus now sid st c = (r, c') → lasts now t (rdata c) sid →
  match r with
  | Ok _ => ∃ vals exp, live t (rdata c') (sessionKey (sbytes sid)) = Some (REntry (RHash vals) exp) ∧
              vals ≠ ∅ ∧ field vals "status" = st
  | Err _ => rdata c' = rdata c ∨ phase_at t (rdata c') sid = InStatus st
  | Panic _ => False
  end.
Proof.
  intros E Hlasts. apply rdo_unit_spec in E. set (cmd := HSET _ _) in *.
  assert (Hset : (apply_cmd now cmd (rdata c)).1 ≠ RepWrongType →
    ∃ vals exp, live t (apply_cmd now cmd (rdata c)).2 (sessionKey (sbytes sid)) = Some (REntry (RHash vals) exp) ∧
      vals ≠ ∅ ∧ field vals "status" = st).
  { intros Hw. destruct (HSET_live now t (sessionKey (sbytes sid)) [("status", st)] (rdata c) Hw Hlasts) as (h & exp & Hl).
    eexists _, exp. split_and!; [exact Hl|by apply write_fields_nonempty|].
    unfold field, write_fields. simpl. by rewrite lookup_insert_eq. }
  destruct r as [[]|e|why]; [destruct E as [-> Hw]; by apply Hset| |done].
  destruct E as [->|E]; [by left|].
  assert ((apply_cmd now cmd (rdata c)).1 = RepWrongType ∨ (apply_cmd now cmd (rdata c)).1 ≠ RepWrongType) as [Hw|Hw]
    by (destruct (apply_cmd now cmd (rdata c)).1; by auto).
  - left. rewrite E. unfold cmd in *. cbn [apply_cmd] in *. by repeat case_match.
  - right. rewrite E. destruct (Hset Hw) as (vals & exp & Hl & Hne & Hst). by rewrite (phase_at_status _ _ _ _ _ Hl Hne), Hst.
Qed.

Lemma store_status_spec clock sid ev st s w r w' :
  0 < ttl → lasts (clock 1%nat) (clock 2%nat) (rdata (mw_redis w)) sid →
  store_status ttl clock sid ev st s w = (r, w') →
  let before := phase_at (clock 2%nat) (rdata (mw_redis w)) sid in
  let after := phase_at (clock 2%nat) (rdata (mw_redis w')) sid in
  match r with
  | Ok (Some s') => after = InStatus st ∧ s' = set_Status st s
  | Err _ => after = before ∨ after = InStatus st
  | _ => False
  end.
Proof.
  intros Httl Hlasts. unfold store_status, PGStore_UpdateStatus.
  destruct (on_redis (RedisStore_UpdateStatus (clock 1%nat) sid st) w) as [r1 w1] eqn:E.
  rewrite (bind_run _ _ _ _ _ (wrap_run _ _ _ _ _ E)).
  apply on_redis_inv in E as (c1 & E & ->). apply (UpdateStatus_phase _ (clock 2%nat)) in E; [|done].
  destruct r1 as [[]|e|why]; [|intros [= <- <-]; simpl; by destruct E as [->|E]; auto|done].
  destruct E as (vals & exp & Hl & Hne & Hst).
  set (touch := if bool_decide _ then _ else _).
  destruct (touch (mkMgr c1 (mw_pg w))) as [r2 w2] eqn:E2. rewrite (bind_run _ _ _ _ _ E2).
  assert (r2 = Ok tt ∧ phase_at (clock 2%nat) (rdata (mw_redis w2)) sid = InStatus st) as [-> Hph].
  { subst touch. case_bool_decide.
    - destruct (on_redis (RedisStore_UpdateLastActive (clock 2%nat) ttl sid) (mkMgr c1 (mw_pg w))) as [r3 w3] eqn:E3.
      rewrite (ignore_run _ _ _ _ E3) in E2. apply on_redis_inv in E3 as (c3 & E3 & ->).
      eapply UpdateLastActive_phase in E3 as [Hph Hp]; [|done..]. rewrite Hst in Hph.
      destruct r3; simplify_eq/=; [done..|by edestruct Hp].
    - unfold mret, M_ret in E2. simplify_eq/=. split; [done|]. by eapply phase_at_status. }
  unfold mbind, M_bind. destruct (when_pg _ _) as [r4 w4] eqn:E4.
  apply when_pg_ignore_exec in E4 as [-> Hw4]. intros [= <- <-]. by rewrite Hw4.
Qed.

Lemma Get_phase now sid (c c' : C) r :
  RedisStore_Get now sid c = (r, c') →
  rdata c' = rdata c ∧
  match r with Ok s => phase_at now (rdata c) sid = InStatus (Status_ s) | Err _ => True | Panic _ => False end.
Proof.
  intros [Hd Hr]%Get_spec. split; [done|]. destruct r as [s|e|why]; [|done|done].
  destruct Hr as (vals & conns & Hv & Hne & -> & _). unfold phase_at. rewrite Hv. by rewrite bool_decide_false.
Qed.

Lemma register_check_spec `{!RangeOrderLaws} now sid vals w r w' :
  hash_at now (rdata (mw_redis w)) (connKey (sbytes sid)) = Some vals →
  map_Forall (λ _ v, is_Some (conn_unmarshal v)) vals →
  register_check cfg now sid w = (r, w') →
  rdata (mw_redis w') = rdata (mw_redis w) ∧
  match r with
  | Ok (inl n) => n = Z.of_nat (size vals) ∧ MaxConnections cfg ≤ n
  | Ok (inr n) => n = Z.of_nat (size vals) ∧ n < MaxConnections cfg
  | Err _ => True
  | Panic _ => False
  end.
Proof.
  intros Hvals Hall. unfold register_check.
  destruct (on_redis (RedisStore_GetConnections now sid) w) as [r1 w1] eqn:E1.
  rewrite (bind_run _ _ _ _ _ E1). apply on_redis_inv in E1 as (c1 & E1 & ->).
  apply GetConnections_spec in E1 as [Hd Hr1].
  destruct r1 as [conns|e|why]; [|by intros [= <- <-]|done].
  destruct Hr1 as (vals' & Hv & ->). simplify_eq.
  intros [= <- <-]. split; [done|]. rewrite parse_connections_length by done.
  destruct (Z.leb_spec (MaxConnections cfg) (Z.of_nat (size vals))); done.
Qed.

Lemma AddConnection_spec now sid conn (c c' : C) r :
  RedisStore_AddConnection now sid conn c = (r, c') →
  let key := connKey (sbytes sid) in
  match r with
  | Ok _ => ∃ h data, hash_at now (rdata c) key = Some h ∧ conn_marshal (conn_to_json conn) = Ok data ∧
              hash_at now (rdata c') key = Some (<[ConnectionID conn := data]> h)
  | Err _ => rdata c' = rdata c ∨
             ∃ h data, hash_at now (rdata c) key = Some h ∧ conn_marshal (conn_to_json conn) = Ok data ∧
               hash_at now (rdata c') key = Some (<[ConnectionID conn := data]> h)
  | Panic why => conn_marshal (conn_to_json conn) = Panic why
  end.
Proof.
  unfold RedisStore_AddConnection, mbind, M_bind, lift.
  destruct (conn_marshal (conn_to_json conn)) as [data|e|why] eqn:Em; [|by intros [= <- <-]; left|by intros [= <- <-]].
  intros E. apply rdo_unit_spec in E.
  destruct (HSET_cases now (connKey (sbytes sid)) [(ConnectionID conn, data)] (rdata c))
    as [(h & exp & Hh & Hl)|[Hw Heq]].
  - assert (∀ ks, ks = (apply_cmd now (HSET (connKey (sbytes sid)) [(ConnectionID conn, data)]) (rdata c)).2 →
      hash_at now ks (connKey (sbytes sid)) = Some (<[ConnectionID conn := data]> h)) as Hafter.
    { intros ks ->. unfold hash_at. by rewrite Hl. }
    destruct r as [[]|e|why]; [destruct E as [E _]; eauto 8| |done].
    destruct E as [E|E]; [by left|right; eauto 8].
  - destruct r as [[]|e|why]; [by destruct E| |done].
    left. destruct E as [->| ->]; done.
Qed.

Lemma RegisterConnection_spec `{!RangeOrderLaws} `{!ConnCodecLaws} now sid conn w w' r vals :
  cj_ok (conn_to_json conn) →
  conns_wf (MaxConnections cfg) now (rdata (mw_redis w)) sid →
  hash_at now (rdata (mw_redis w)) (connKey (sbytes sid)) = Some vals →
  Manager_RegisterConnection cfg now sid conn w = (r, w') →
  conns_wf (MaxConnections cfg) now (rdata (mw_redis w')) sid ∧
  ∃ n err, r = Ok (n, err) ∧
    match err with
    | None => n = Z.of_nat (size vals) + 1 ∧ Z.of_nat (size vals) < MaxConnections cfg ∧
              ∃ data, conn_marshal (conn_to_json conn) = Ok data ∧
                hash_at now (rdata (mw_redis w')) (connKey (sbytes sid)) = Some (<[ConnectionID conn := data]> vals)
    | Some e => n = 0 ∨
                (e = Errorf "max connections (%d) reached" ∧ n = MaxConnections cfg ∧
                 Z.of_nat (size vals) = MaxConnections cfg ∧ rdata (mw_redis w') = rdata (mw_redis w))
    end.
Proof.
  intros Hok (vals' & Hvals' & Hall & Hsize) Hvals.
  assert (vals' = vals) as -> by congruence. unfold Manager_RegisterConnection.
  destruct (register_check cfg now sid w) as [r1 w1] eqn:E1.
  rewrite (bind_run _ _ _ _ _ (attempt_run _ _ _ _ E1)).
  eapply register_check_spec in E1 as [Hd Hr1]; [|done..].
  assert (Hsame : conns_wf (MaxConnections cfg) now (rdata (mw_redis w)) sid) by (by exists vals).
  destruct r1 as [[n|n]|e|why]; [..|done].
  - intros [= <- <-]. rewrite Hd. split; [done|]. eexists n, _. split; [done|]. right. split_and!; [done|lia|lia|done].
  - destruct Hr1 as [-> Hlt].
    destruct (on_redis (RedisStore_AddConnection now sid conn) w1) as [r2 w2] eqn:E2.
    rewrite (bind_run _ _ _ _ _ (attempt_run _ _ _ _ E2)).
    apply on_redis_inv in E2 as (c2 & E2 & ->). apply AddConnection_spec in E2. rewrite Hd in E2.
    destruct (conn_roundtrip _ Hok) as (data & Hm & Hu). rewrite Hm in E2.
    assert (Hadd : conns_wf_hash (MaxConnections cfg) (<[ConnectionID conn := data]> vals)).
    { split; [by apply map_Forall_insert_2|]. pose proof (map_size_insert_le vals (ConnectionID conn) data). lia. }
    destruct r2 as [[]|e|why]; [..|done].
    + destruct E2 as (h & d & Hh & [= <-] & Hafter).
      assert (h = vals) as -> by congruence. intros [= <- <-]. simpl.
      split; [by eexists|]. eexists _, _. split; [done|]. split_and!; [done|done|]. exists data. by rewrite Hm.
    + intros [= <- <-]. simpl. split; [|by eexists _, _; split; [done|left]].
      destruct E2 as [->|(h & d & Hh & [= <-] & Hafter)]; [done|]. simplify_eq. by eexists.
  - intros [= <- <-]. rewrite Hd. split; [done|]. eexists _, _. split; [done|]. by left.
Qed.

(** A call on a server that is up. *)
Lemma register_serving `{!RangeOrderLaws} `{!ConnCodecLaws} now sid conn vals (up : C → Prop) w :
  redis_serving up → up (mw_redis w) → cj_ok (conn_to_json conn) →
  hash_at now (rdata (mw_redis w)) (connKey (sbytes sid)) = Some vals →
  map_Forall (λ _ v, is_Some (conn_unmarshal v)) vals →
  (Manager_RegisterConnection cfg now sid conn w).1 =
    Ok (if MaxConnections cfg <=? Z.of_nat (size vals)
        then (Z.of_nat (size vals), Some (Errorf "max connections (%d) reached"))
        else (Z.of_nat (size vals) + 1, None)).
Proof.
  intros Hup Hw Hok Hvals Hall. destruct w as [c p]. simpl in *. unfold Manager_RegisterConnection.
  assert (Hnw : ∀ f, (apply_cmd now (HGETALL (connKey (sbytes sid))) (rdata c)).1 ≠ RepWrongType ∧
                (apply_cmd now (HSET (connKey (sbytes sid)) f) (rdata c)).1 ≠ RepWrongType).
  { intros f. unfold hash_at in Hvals. simpl. by destruct (live now (rdata c) (connKey (sbytes sid))) as [[[| |] ex] |]. }
  destruct (Hup now _ c Hw (proj1 (Hnw []))) as (rep & c1 & E1 & Hw1).
  assert (RedisStore_GetConnections now sid c = (Ok (parse_connections (range vals)), c1) ∧ rdata c1 = rdata c) as [Eg Hd].
  { pose proof (rdo_Ok _ _ _ _ _ E1) as (Hrep & _ & Hd). unfold RedisStore_GetConnections, rHGetAll, mbind, M_bind. rewrite E1.
    unfold hash_at in Hvals. simpl in Hrep, Hd.
    destruct (live now (rdata c) (connKey (sbytes sid))) as [[[|h|] ex] |]; simplify_eq/=; destruct rep; simplify_eq/=; done. }
  assert (Ec : register_check cfg now sid (mkMgr c p) =
    (Ok (if MaxConnections cfg <=? Z.of_nat (size vals) then inl (Z.of_nat (size vals)) else inr (Z.of_nat (size vals))), mkMgr c1 p)).
  { unfold register_check. rewrite (bind_run _ _ _ _ _ (on_redis_run _ (mkMgr c p) _ _ Eg)). simpl. unfold mret, M_ret.
    by rewrite parse_connections_length. }
  rewrite (bind_run _ _ _ _ _ (attempt_run _ _ _ _ Ec)). destruct (MaxConnections cfg <=? Z.of_nat (size vals)); [done|].
  destruct (conn_roundtrip _ Hok) as (data & Hm & _).
  destruct (Hup now (HSET (connKey (sbytes sid)) [(ConnectionID conn, data)]) c1 Hw1) as (rep2 & c2 & E2 & _);
    [rewrite Hd; apply Hnw|].
  assert (Ea : RedisStore_AddConnection now sid conn c1 = (Ok tt, c2)).
  { unfold RedisStore_AddConnection, mbind, M_bind, lift, rHSet, mbind, M_bind. by rewrite Hm, E2. }
  by rewrite (bind_run _ _ _ _ _ (attempt_run _ _ _ _ (on_redis_run _ (mkMgr c1 p) _ _ Ea))).
Qed.

(** [TransitionSession] by its outcome. *)
Lemma TransitionSession_spec clock sid ev w w' r :
  0 < ttl → clock 0%nat ≤ clock 1%nat ≤ clock 2%nat → lasts (clock 0%nat) (clock 2%nat) (rdata (mw_redis w)) sid →
  Manager_TransitionSession ttl clock sid ev w = (r, w') →
  let before := phase_at (clock 0%nat) (rdata (mw_redis w)) sid in
  let after := phase_at (clock 2%nat) (rdata (mw_redis w')) sid in
  match r with
  | Ok (Some s) => edge before ev after ∧ after = InStatus (Status_ s)
  | Ok None => edge before ev after ∧ after = Destroyed
  | Err _ => (after = before ∨ edge before ev after) ∧
             ((∀ q, ¬ edge before ev q) → rdata (mw_redis w') = rdata (mw_redis w))
  | Panic _ => False
  end.
Proof.
  intros Httl Hclock Hlasts. rewrite <-(phase_lasts (clock 0%nat) (clock 2%nat)) by (done || lia). unfold Manager_TransitionSession.
  destruct (on_redis (RedisStore_Get (clock 0%nat) sid) w) as [r1 w1] eqn:E. rewrite (bind_run _ _ _ _ _ E).
  apply on_redis_inv in E as (c1 & [Hd Hr]%Get_phase & ->).
  destruct r1 as [s|e|why]; [|by intros [= <- <-]; simpl; rewrite Hd; auto|done].
  rewrite <-(phase_lasts (clock 0%nat) (clock 2%nat)) in Hr by (done || lia).
  destruct (Transition_cases (Status_ s) ev) as [([nxt []] & -> & He)|(err & -> & _ & Hno)].
  - intros E%(destroy_session_spec _ (clock 2%nat)). simpl in *. rewrite Hd, Hr in E. rewrite Hr.
    destruct r as [[]|e|why]; [done|by rewrite E| |done].
    split; [destruct E as [-> | ->]; auto|]. intros Hn. by apply Hn in He.
  - intros E%store_status_spec; [|done|].
    + simpl in *. rewrite Hd, Hr in E. rewrite Hr.
      destruct r as [[]|e|why]; [destruct E as [-> ->]; done|done| |done].
      split; [destruct E as [-> | ->]; auto|]. intros Hn. by apply Hn in He.
    + simpl. rewrite Hd. intros x Hx Hx1. apply (Hlasts x Hx). destruct (expired (clock 0%nat) x) eqn:H0x; [|done].
      apply (expired_later _ (clock 1%nat)) in H0x; [congruence|lia].
  - intros [= <- <-]. simpl. rewrite Hd. auto.
Qed.

End manager_lemmas.

(** ** Properties *)

Section manager_properties.
Context {C P : Type} `{RedisLaws C} `{PgLaws P sessions} `{ConnCodec} `{RangeOrder}.


(** With a PostgreSQL store configured [CreateSession] always fails:
    the new session has a nil crypto state, which is sent as NULL to a NOT NULL
    column.  No row is inserted, and when Redis had accepted the session its record
    stays there, in status connecting. *)
Theorem create_session_with_pg_fails (cfg : Config) (ttl now : Z) (sid : bytes) (userID deviceID : slice)
    (w w' : MgrW C P) (p : P) (r : result Session) :
  0 < ttl → mw_pg w = Some p →
  Manager_CreateSession cfg ttl now (Ok sid) userID deviceID w = (r, w') →
  ∃ e p', r = Err e ∧ mw_pg w' = Some p' ∧ pgdata p' = pgdata p ∧
    ((∃ e', e = Wrap "redis create" e') ∨
     (∃ e', e = Wrap "pg create" e') ∧
     phase_at now (rdata (mw_redis w')) (Some sid) = InStatus StatusConnecting).
Proof.
  intros Httl Hpg. unfold Manager_CreateSession. unfold mbind at 1, M_bind at 1. simpl.
  set (s := mkSession _ _ _ _ _ _ _ _ _).
  destruct (on_redis (RedisStore_Create now ttl s) w) as [r1 w1] eqn:E.
  rewrite (bind_run _ _ _ _ _ (wrap_run _ _ _ _ _ E)).
  apply on_redis_inv in E as (c1 & E & ->).
  destruct r1 as [[]|e|why]; [| |by apply rpipe_no_panic in E].
  2:{ intros [= <- <-]. eexists _, p. split_and!; [done|done|done|]. left. eauto. }
  unfold mbind, M_bind, when_pg. simpl. rewrite Hpg.
  destruct (PGStore_Create s p) as [r2 p2] eqn:E2. rewrite (wrap_run _ _ _ _ _ E2).
  apply pg_exec_spec in E2. replace (insert_session s (pgdata p))
    with (@Err unit (not_null_violation "sessions"), pgdata p) in E2
    by (subst s; simpl; by destruct userID, deviceID).
  destruct r2; [done| |done]. intros [= <- <-].
  eexists _, p2. split_and!; [done|done|by destruct E2|].
  right. split; [eauto|]. apply Create_spec in E as ((h & Hk) & _); [|done].
  etrans; [apply (phase_at_status _ _ _ (write_fields (session_fields s) h) (Some (now + ttl)))|].
  - unfold live. simpl. simpl in Hk. rewrite Hk. unfold expired. simpl. by rewrite (proj2 (Z.leb_gt _ _)) by lia.
  - by apply write_fields_nonempty.
  - unfold field, write_fields. simpl. by rewrite !lookup_insert.
Qed.

(** After a successful [Delete] the record of the session and its
    connections are gone, its id is no longer in the set of the user the record
    named, and no other key has changed. *)
Theorem redis_delete_erases (now : Z) (sid : slice) (c c' : C) :
  RedisStore_Delete now sid c = (Ok tt, c') →
  ∃ vals, hash_at now (rdata c) (sessionKey (sbytes sid)) = Some vals ∧
    let uid := sbytes (decoded (field vals "user_id")) in
    rdata c' !! sessionKey (sbytes sid) = None ∧ rdata c' !! connKey (sbytes sid) = None ∧
    (∀ s exp, live now (rdata c') (userSessionsKey uid) = Some (REntry (RSet s) exp) →
              EncodeToString (sbytes sid) ∉ s) ∧
    (∀ k, k ≠ sessionKey (sbytes sid) → k ≠ connKey (sbytes sid) → k ≠ userSessionsKey uid →
          rdata c' !! k = rdata c !! k).
Proof.
  intros E. apply Delete_spec in E as (vals & Hv & _ & Hd). exists vals.
  split; [done|]. rewrite Hd. apply Delete_Ok_keys.
Qed.

(** C15: one call of [RegisterConnection] at a time keeps the number of connections of a
    session within [MaxConnections] and its entries readable, whatever fails.  When it
    succeeds the connection is stored, and the count returned is one more than the number
    found.  When it is refused because of the limit, the limit is reached and nothing has
    changed; any other error is returned with a count of 0.  And when Redis answers, the
    call is refused if the limit is reached, and succeeds if it is not. *)
Theorem register_connection_cap {RL : RangeOrderLaws} {CL : ConnCodecLaws} (cfg : Config) (now : Z) (sid : slice)
    (conn : Connection) (w w' : MgrW C P) (r : result (Z * option error)) (vals : gmap string string) :
  cj_ok (conn_to_json conn) →
  conns_wf (MaxConnections cfg) now (rdata (mw_redis w)) sid →
  hash_at now (rdata (mw_redis w)) (connKey (sbytes sid)) = Some vals →
  Manager_RegisterConnection cfg now sid conn w = (r, w') →
  conns_wf (MaxConnections cfg) now (rdata (mw_redis w')) sid ∧
  ∃ n err, r = Ok (n, err) ∧
    match err with
    | None => n = Z.of_nat (size vals) + 1 ∧ Z.of_nat (size vals) < MaxConnections cfg ∧
              ∃ data, conn_marshal (conn_to_json conn) = Ok data ∧
                hash_at now (rdata (mw_redis w')) (connKey (sbytes sid)) = Some (<[ConnectionID conn := data]> vals)
    | Some e => n = 0 ∨
                (e = Errorf "max connections (%d) reached" ∧ n = MaxConnections cfg ∧
                 Z.of_nat (size vals) = MaxConnections cfg ∧ rdata (mw_redis w') = rdata (mw_redis w))
    end ∧
    ∀ up : C → Prop, redis_serving up → up (mw_redis w) →
      if bool_decide (Z.of_nat (size vals) = MaxConnections cfg)
      then n = MaxConnections cfg ∧ err = Some (Errorf "max connections (%d) reached")
      else err = None.
Proof.
  intros Hok Hwf Hvals E. destruct (RegisterConnection_spec _ _ _ _ _ _ _ _ Hok Hwf Hvals E) as [Hwf' (n & err & -> & Herr)].
  split; [done|]. exists n, err. split_and!; [done..|]. intros up Hup Hw. destruct Hwf as (vals' & Hv & Hall & Hsize).
  assert (vals' = vals) as -> by congruence.
  pose proof (register_serving cfg now sid conn vals up w Hup Hw Hok Hvals Hall) as Er. rewrite E in Er. simpl in Er.
  case_bool_decide as Hlim; destruct (Z.leb_spec (MaxConnections cfg) (Z.of_nat (size vals))); simplify_eq; [by split|lia..|done].
Qed.

End manager_properties.

(** ** Witnesses and examples *)

Definition mem_world (ks : keyspace) (rf : list fault) (pg : option (MemPg sessions)) :
    MgrW MemRedis (MemPg sessions) := mkMgr (mkMemRedis ks rf) pg.

(** A world in which a session was created. *)
Definition created_world : MgrW MemRedis (MemPg sessions) :=
  (Manager_CreateSession DefaultConfig Hour 0 (Ok [xaa; xbb]) (Some [x01]) (Some [x02])
     (mem_world ∅ [] None)).2.


Lemma create_session_with_pg_fails_witness :
  let w := mem_world ∅ [] (Some (mkMemPg ∅ [])) in
  ∃ r w' e, Manager_CreateSession DefaultConfig Hour 0 (Ok [xaa; xbb]) (Some [x01]) (Some [x02]) w = (r, w') ∧
    r = Err e.
Proof.
  intros w.
  destruct (Manager_CreateSession DefaultConfig Hour 0 (Ok [xaa; xbb]) (Some [x01]) (Some [x02]) w)
    as [r w'] eqn:E.
  destruct (create_session_with_pg_fails DefaultConfig Hour 0 [xaa; xbb] (Some [x01]) (Some [x02])
              w w' (mkMemPg ∅ []) r eq_refl eq_refl E) as (e & p' & Hr & _).
  exists r, w', e. split; [done|exact Hr].
Defined.

Lemma redis_delete_erases_witness :
  let _ := toy_codec in
  ∃ c', RedisStore_Delete 5 (Some [xaa; xbb]) (mw_redis created_world) = (Ok tt, c') ∧
    rdata c' !! sessionKey [xaa; xbb] = None.
Proof.
  intros codec.
  destruct (RedisStore_Delete 5 (Some [xaa; xbb]) (mw_redis created_world)) as [r c'] eqn:E.
  assert (r = Ok tt) as -> by (change r with (r, c').1; rewrite <-E; vm_compute; reflexivity).
  exists c'. split; [done|].
  destruct (redis_delete_erases 5 (Some [xaa; xbb]) (mw_redis created_world) c' E) as (vals & _ & Hk & _).
  exact Hk.
Defined.

Definition example_conn (id : string) : Connection := mkConnection id "quic" "gw-1" "10.0.0.1:443" 0 0.

(** The first connection of a session is accepted. *)
Lemma register_connection_cap_witness :
  let _ := toy_codec in
  ∃ n w', Manager_RegisterConnection DefaultConfig 5 (Some [xaa; xbb]) (example_conn "c1") created_world = (Ok (n, None), w') ∧
    conns_wf (MaxConnections DefaultConfig) 5 (rdata (mw_redis w')) (Some [xaa; xbb]).
Proof.
  intros codec.
  destruct (Manager_RegisterConnection DefaultConfig 5 (Some [xaa; xbb]) (example_conn "c1") created_world)
    as [r w'] eqn:E.
  assert (Hh : hash_at 5 (rdata (mw_redis created_world)) (connKey (sbytes (Some [xaa; xbb]))) = Some ∅)
    by (vm_compute; reflexivity).
  assert (Hok : cj_ok (conn_to_json (example_conn "c1"))) by (vm_compute; repeat split; discriminate).
  assert (Hwf0 : conns_wf (MaxConnections DefaultConfig) 5 (rdata (mw_redis created_world)) (Some [xaa; xbb])).
  { exists ∅. split; [exact Hh|]. split; [apply map_Forall_empty|vm_compute; discriminate]. }
  destruct (register_connection_cap (CL := toy_codec_laws) DefaultConfig 5 (Some [xaa; xbb])
    (example_conn "c1") created_world w' r ∅ Hok Hwf0 Hh E) as [Hwf (n & err & -> & _ & Hup)].
  assert (Herr := Hup (λ c, mem_faults c = []) mem_serving eq_refl). rewrite bool_decide_false in Herr by (vm_compute; discriminate).
  exists n, w'. rewrite Herr. split; [reflexivity|exact Hwf].
Defined.

Ltac check_then_add c :=
  eapply rtc_l; [eapply (register_checked _ _ _ _ (example_conn c)); vm_compute; reflexivity|].

(** Six calls that all check before any of them adds put six connections on a
    session whose limit is five. *)
Example register_race :
  let _ := toy_codec in
  ∃ (w : MgrW MemRedis unit) vals,
    rtc (register_step DefaultConfig 0 (Some [xaa])) (mkMgr (mkMemRedis ∅ []) None, []) (w, []) ∧
    hash_at 0 (rdata (mw_redis w)) (connKey [xaa]) = Some vals ∧
    MaxConnections DefaultConfig < Z.of_nat (size vals).
Proof.
  intros codec. eexists _, _. split.
  - check_then_add "c1". check_then_add "c2". check_then_add "c3".
    check_then_add "c4". check_then_add "c5". check_then_add "c6".
    do 6 (eapply rtc_l; [eapply register_added; vm_compute; reflexivity|]).
    apply rtc_refl.
  - split; [vm_compute; reflexivity|vm_compute; reflexivity].
Qed.

(** A session that was logged out is still listed by [GetUserSessions]. *)
Example user_sessions_lists_expired :
  let _ := toy_codec in
  let sid := Some [xaa; xbb] in
  let w := (_ ← Manager_TransitionSession Hour (λ _, 5) sid EventHandshakeOK;
            Manager_TransitionSession Hour (λ _, 6) sid EventExplicitLogout) created_world in
  phase_at 7 (rdata (mw_redis w.2)) sid = InStatus StatusExpired ∧
  (Manager_GetUserSessions 7 (Some [x01]) w.2).1 = Ok [sid].
Proof. vm_compute. split; reflexivity. Qed.
