(* ===== verification/SessionContract.v ===== *)
(** * The contract of the session stores

    The interface [Store] of [proto-core/session/store.go] as a class, what it promises as
    [StoreLaws], and its two implementations, [RedisStore] and [PGStore].  A store is a
    map from session ids to records; a record of Redis may also be gone because its
    time is over.  [Manager.GetSession] reads Redis and falls back to PostgreSQL: it is a
    client of the contract. *)
From S2P Require Import Prelude Bytes Redis Postgres SessionMachine SessionStore SessionManager.

Local Open Scope Z_scope.

(** What a store keeps of a session, apart from its times and connections. *)
Record srecord := mkSRecord { sr_user : bytes; sr_device : bytes; sr_status : Status; sr_crypto : bytes }.

Definition record_of (s : Session) : srecord :=
  mkSRecord (sbytes (UserID s)) (sbytes (DeviceID s)) (Status_ s) (sbytes (CryptoState s)).

(** ** The interface *)

(** The methods of [Store], each called at an instant; [store_record] is the record that
    the store shows for a session at an instant. *)
Class Store (W : Type) := {
  store_Create : Z → Session → M W unit;
  store_Get : Z → slice → M W Session;
  store_UpdateStatus : Z → slice → Status → M W unit;
  store_UpdateCryptoState : Z → slice → slice → M W unit;
  store_UpdateLastActive : Z → slice → M W unit;
  store_Delete : Z → slice → M W unit;
  store_AddConnection : Z → slice → Connection → M W unit;
  store_RemoveConnection : Z → slice → string → M W unit;
  store_GetConnections : Z → slice → M W (list Connection);
  store_GetUserSessions : Z → slice → M W (list slice);
  store_record : Z → W → bytes → option srecord;
}.

(** A call that may change the store. *)
Inductive store_op :=
| SCreate (s : Session)
| SUpdateStatus (id : bytes) (status : Status)
| SUpdateCryptoState (id : bytes) (cryptoState : slice)
| SUpdateLastActive (id : bytes)
| SDelete (id : bytes)
| SAddConnection (id : bytes) (conn : Connection)
| SRemoveConnection (id : bytes) (connectionID : string).

(** The session it is about. *)
Definition op_session (op : store_op) : bytes :=
  match op with
  | SCreate s => sbytes (SessionID s)
  | SUpdateStatus id _ | SUpdateCryptoState id _ | SUpdateLastActive id | SDelete id
  | SAddConnection id _ | SRemoveConnection id _ => id
  end.

(** Calls that make sense only for a session that is there. *)
Definition op_updates (op : store_op) : bool :=
  match op with SUpdateStatus _ _ | SUpdateCryptoState _ _ | SUpdateLastActive _ => true | _ => false end.

(** What it does to the record of its session. *)
Definition op_effect (op : store_op) (r : option srecord) : option srecord :=
  match op with
  | SCreate s => Some (record_of s)
  | SUpdateStatus _ status => (λ r, mkSRecord (sr_user r) (sr_device r) status (sr_crypto r)) <$> r
  | SUpdateCryptoState _ cs => (λ r, mkSRecord (sr_user r) (sr_device r) (sr_status r) (sbytes cs)) <$> r
  | SDelete _ => None
  | SUpdateLastActive _ | SAddConnection _ _ | SRemoveConnection _ _ => r
  end.

Section store.
Context {W : Type} `{Store W}.

Definition run_op (now : Z) (op : store_op) : M W unit :=
  match op with
  | SCreate s => store_Create now s
  | SUpdateStatus id status => store_UpdateStatus now (Some id) status
  | SUpdateCryptoState id cs => store_UpdateCryptoState now (Some id) cs
  | SUpdateLastActive id => store_UpdateLastActive now (Some id)
  | SDelete id => store_Delete now (Some id)
  | SAddConnection id conn => store_AddConnection now (Some id) conn
  | SRemoveConnection id connectionID => store_RemoveConnection now (Some id) connectionID
  end.

(** Calls one after the other, whether they fail or not. *)
Fixpoint run_ops (ops : list (Z * store_op)) (w : W) : W :=
  match ops with [] => w | (now, op) :: ops => run_ops ops (run_op now op w).2 end.

(** The calls about a session succeed, and those that update it find it; nothing is
    asked of the calls about other sessions. *)
Fixpoint well_used (id : bytes) (ops : list (Z * store_op)) (w : W) : Prop :=
  match ops with
  | [] => True
  | (now, op) :: ops =>
      (op_session op = id → (run_op now op w).1 = Ok tt ∧ (op_updates op = true → is_Some (store_record now w id))) ∧
      well_used id ops (run_op now op w).2
  end.

End store.

(** The record that calls leave. *)
Definition record_after (id : bytes) (ops : list (Z * store_op)) (r : option srecord) : option srecord :=
  foldl (λ r op, if decide (op_session op.2 = id) then op_effect op.2 r else r) r ops.

(** The contract: a successful call has its effect; no call changes another session; a
    record stays as it is until it is gone; and [Get] returns the record. *)
Class StoreLaws (W : Type) `{Store W} : Prop := {
  op_own now op w w' :
    run_op now op w = (Ok tt, w') → (op_updates op = true → is_Some (store_record now w (op_session op))) →
    store_record now w' (op_session op) = op_effect op (store_record now w (op_session op));
  op_other now op w r w' id t :
    run_op now op w = (r, w') → op_session op ≠ id → store_record t w' id = store_record t w id;
  record_later t t' w id : t ≤ t' → store_record t' w id = store_record t w id ∨ store_record t' w id = None;
  Get_record now id w r w' :
    store_Get now (Some id) w = (r, w') →
    (∀ t id', store_record t w' id' = store_record t w id') ∧
    match r with Ok s => store_record now w id = Some (record_of s) | Err _ => True | Panic _ => False end;
}.

(** A store that keeps its records. *)
Class DurableStore (W : Type) `{Store W} : Prop := {
  record_kept t t' w id : store_record t' w id = store_record t w id;
}.

(** Times that do not go back. *)
Fixpoint ordered (t : Z) (ops : list (Z * store_op)) (t' : Z) : Prop :=
  match ops with [] => t ≤ t' | (now, _) :: ops => t ≤ now ∧ ordered now ops t' end.

Section contract.
Context {W : Type} `{StoreLaws W}.
Implicit Types (w : W) (ops : list (Z * store_op)).

(** A store has the record that the calls about it have left, or the record is gone. *)
Lemma ops_refine id ops t t' w r :
  ordered t ops t' → well_used id ops w → store_record t w id = r ∨ store_record t w id = None →
  store_record t' (run_ops ops w) id = record_after id ops r ∨ store_record t' (run_ops ops w) id = None.
Proof.
  revert t w r. induction ops as [|[now op] ops IH]; intros t w r Ht Hu Hr; simpl in Ht, Hu |- *.
  { destruct (record_later t t' w id Ht) as [->|?]; auto. }
  destruct Ht as [Ht Hts], Hu as [Hop Hu]. unfold record_after. simpl. apply (IH now); [done..|].
  assert (store_record now w id = r ∨ store_record now w id = None) as Hnow.
  { destruct (record_later t now w id Ht) as [->|?]; auto. }
  destruct (run_op now op w) as [o w1] eqn:Eop. simpl in *. destruct (decide (op_session op = id)) as [<-|Hne].
  - destruct (Hop eq_refl) as [-> Hex]. rewrite (op_own _ _ _ _ Eop Hex).
    destruct Hnow as [->|Hnow]; [by left|]. rewrite Hnow in *.
    destruct op; simpl in *; auto; by destruct (Hex eq_refl).
  - by rewrite (op_other _ _ _ _ _ _ _ Eop Hne).
Qed.

(** A durable store has it exactly. *)
Lemma ops_refine_durable `{!DurableStore W} id ops t w :
  well_used id ops w → ∀ t', store_record t' (run_ops ops w) id = record_after id ops (store_record t w id).
Proof.
  revert w. induction ops as [|[now op] ops IH]; intros w Hu t'; simpl in *; [apply record_kept|].
  destruct Hu as [Hop Hu]. rewrite (IH _ Hu). unfold record_after at 2. simpl. unfold record_after. f_equal.
  destruct (run_op now op w) as [o w1] eqn:Eop. simpl in *. destruct (decide (op_session op = id)) as [<-|Hne].
  - destruct (Hop eq_refl) as [-> Hex]. rewrite (record_kept now t), (record_kept now t).
    by rewrite (op_own _ _ _ _ Eop Hex).
  - by rewrite (op_other _ _ _ _ _ _ _ Eop Hne).
Qed.

End contract.

(** ** RedisStore *)

Definition record_of_fields (vals : gmap string string) : srecord :=
  mkSRecord (sbytes (decoded (field vals "user_id"))) (sbytes (decoded (field vals "device_id")))
    (field vals "status") (sbytes (decoded (field vals "crypto_state"))).

(** The record in a keyspace: an empty hash is a missing one. *)
Definition redis_record (now : Z) (ks : keyspace) (id : bytes) : option srecord :=
  match hash_at now ks (sessionKey id) with
  | Some vals => if bool_decide (vals = ∅) then None else Some (record_of_fields vals)
  | None => None
  end.

Definition RedisStore_Store {C} `{RedisClient C} `{ConnCodec} `{RangeOrder} (ttl : Z) : Store C := {|
  store_Create now s := RedisStore_Create now ttl s;
  store_Get := RedisStore_Get;
  store_UpdateStatus := RedisStore_UpdateStatus;
  store_UpdateCryptoState := RedisStore_UpdateCryptoState;
  store_UpdateLastActive now := RedisStore_UpdateLastActive now ttl;
  store_Delete := RedisStore_Delete;
  store_AddConnection := RedisStore_AddConnection;
  store_RemoveConnection := RedisStore_RemoveConnection;
  store_GetConnections := RedisStore_GetConnections;
  store_GetUserSessions := RedisStore_GetUserSessions;
  store_record now c := redis_record now (rdata c);
|}.

(** ** PGStore *)

Definition record_of_row (r : session_row) : srecord :=
  mkSRecord (row_user_id r) (row_device_id r) (row_status r) (row_crypto_state r).

Definition PGStore_Store {P} `{PgPool P sessions} : Store P := {|
  store_Create _ := PGStore_Create;
  store_Get _ := PGStore_Get;
  store_UpdateStatus := PGStore_UpdateStatus;
  store_UpdateCryptoState := PGStore_UpdateCryptoState;
  store_UpdateLastActive := PGStore_UpdateLastActive;
  store_Delete _ := PGStore_Delete;
  store_AddConnection _ := PGStore_AddConnection;
  store_RemoveConnection _ := PGStore_RemoveConnection;
  store_GetConnections _ := PGStore_GetConnections;
  store_GetUserSessions _ := PGStore_GetUserSessions;
  store_record _ p id := record_of_row <$> pgdata p !! id;
|}.

(** ** RedisStore keeps the contract *)

Lemma redis_record_same t (ks ks' : keyspace) id :
  ks' !! sessionKey id = ks !! sessionKey id → redis_record t ks' id = redis_record t ks id.
Proof. intros Hk. unfold redis_record, hash_at, live. by rewrite Hk. Qed.

Lemma redis_record_live t (ks : keyspace) id vals exp :
  live t ks (sessionKey id) = Some (REntry (RHash vals) exp) → vals ≠ ∅ → redis_record t ks id = Some (record_of_fields vals).
Proof. intros Hl Hne. unfold redis_record, hash_at. by rewrite Hl, bool_decide_false. Qed.

Lemma redis_record_inv t (ks : keyspace) id r :
  redis_record t ks id = Some r →
  ∃ vals exp, live t ks (sessionKey id) = Some (REntry (RHash vals) exp) ∧ vals ≠ ∅ ∧ r = record_of_fields vals.
Proof.
  unfold redis_record, hash_at. destruct (live t ks (sessionKey id)) as [[[|h|] exp]|]; [done| |done|by rewrite bool_decide_true].
  case_bool_decide; [done|]. intros [= <-]. by exists h, exp.
Qed.

Section redis.
Context {C : Type} `{RedisLaws C} `{ConnCodec} `{RangeOrder}.
Implicit Types (c : C) (id : bytes).

(** Commands on other keys. *)
Lemma pipe_other now cmds c r c' k :
  rpipe now cmds c = (r, c') → Forall (λ cmd, cmd_key cmd ≠ k) cmds → rdata c' !! k = rdata c !! k.
Proof.
  intros E Hk. destruct r as [[]|e|why].
  - apply rpipe_Ok in E as [_ ->]. by apply apply_all_other.
  - apply rpipe_Err in E as (cmds' & Hsub & ->). apply apply_all_other. by eapply Forall_sublist.
  - by apply rpipe_no_panic in E.
Qed.

Lemma unit_other now cmd c r c' k :
  (rdo now cmd ≫= λ _, mret tt) c = (r, c') → cmd_key cmd ≠ k → rdata c' !! k = rdata c !! k.
Proof.
  intros E Hk. apply rdo_unit_spec in E.
  destruct r; [destruct E as [-> _]|destruct E as [->| ->]|done]; rewrite ?apply_cmd_other; done.
Qed.

(** One field of a record that is there. *)
Lemma set_field now id f v c c' :
  rHSet now (sessionKey id) [(f, v)] c = (Ok tt, c') → is_Some (redis_record now (rdata c) id) →
  ∃ vals, redis_record now (rdata c) id = Some (record_of_fields vals) ∧
    redis_record now (rdata c') id = Some (record_of_fields (<[f := v]> vals)).
Proof.
  intros E [r Hr]. apply rdo_unit_spec in E as [-> Hacc].
  destruct (redis_record_inv _ _ _ _ Hr) as (vals & exp & Hl & Hne & ->). exists vals. split; [done|].
  destruct (HSET_cases now (sessionKey id) [(f, v)] (rdata c)) as [(h & exp' & Hh & Hl')|[? _]]; [|done].
  unfold hash_at in Hh. rewrite Hl in Hh. injection Hh as <-.
  eapply redis_record_live; [exact Hl'|apply insert_non_empty].
Qed.

Lemma redis_touch now ttl id c c' :
  0 < ttl → RedisStore_UpdateLastActive now ttl (Some id) c = (Ok tt, c') → is_Some (redis_record now (rdata c) id) →
  redis_record now (rdata c') id = redis_record now (rdata c) id.
Proof.
  intros Httl E [r Hr]. rewrite Hr. destruct (redis_record_inv _ _ _ _ Hr) as (vals & exp & Hl & Hne & ->).
  apply rpipe_Ok in E as [_ ->]. pose proof (live_Some _ _ _ _ Hl) as [_ Hx]. unfold touch_cmds, apply_all.
  change (sbytes (Some id)) with id. cbn [foldl apply_cmd]. rewrite Hl. cbn [snd]. rewrite live_insert.
  unfold expired in *. simpl in Hx |- *. rewrite Hx. simpl. rewrite (proj2 (Z.leb_gt _ _)) by done.
  erewrite redis_record_live; [| |apply insert_non_empty].
  2: { rewrite live_insert. unfold expired. simpl. by rewrite (proj2 (Z.leb_gt _ _)) by lia. }
  unfold record_of_fields, field. by rewrite !lookup_insert_ne.
Qed.

Lemma redis_create now ttl s c c' :
  0 < ttl → RedisStore_Create now ttl s c = (Ok tt, c') →
  redis_record now (rdata c') (sbytes (SessionID s)) = Some (record_of s).
Proof.
  intros Httl E. destruct (Create_spec _ _ _ _ _ E Httl) as [[h Hk] _].
  rewrite (redis_record_live _ _ _ (write_fields (session_fields s) h) (Some (now + ttl))); [| |by apply write_fields_nonempty].
  2: { unfold live. rewrite Hk. unfold expired. simpl. by rewrite (proj2 (Z.leb_gt _ _)) by lia. }
  unfold record_of_fields, record_of, field, write_fields. simpl. rewrite !lookup_insert. simpl. by rewrite !DecodeString_EncodeToString.
Qed.

Lemma redis_delete now id c c' :
  RedisStore_Delete now (Some id) c = (Ok tt, c') → redis_record now (rdata c') id = None.
Proof.
  intros E. apply Delete_spec in E as (vals & _ & _ & ->).
  destruct (Delete_Ok_keys now id (sbytes (decoded (field vals "user_id"))) (rdata c)) as [Hk _].
  unfold redis_record, hash_at, live. simpl in Hk |- *. rewrite Hk. by rewrite bool_decide_true.
Qed.

(** No call touches the record of another session. *)
Lemma redis_op_other now ttl op c r c' id :
  @run_op C (RedisStore_Store ttl) now op c = (r, c') → op_session op ≠ id → rdata c' !! sessionKey id = rdata c !! sessionKey id.
Proof.
  intros E Hne. assert (∀ k, k = op_session op → sessionKey k ≠ sessionKey id) as Hk by (by intros ? -> ?%(inj sessionKey)).
  destruct op as [s|k st|k cs|k|k|k conn|k cid]; simpl in E, Hk.
  - eapply pipe_other; [exact E|]. unfold create_cmds. repeat constructor; simpl; auto.
  - eapply unit_other; [exact E|simpl; auto].
  - eapply unit_other; [exact E|simpl; auto].
  - eapply pipe_other; [exact E|]. unfold touch_cmds. repeat constructor; simpl; auto.
  - assert (∀ uid cmds, sublist cmds (delete_cmds k uid) → apply_all now cmds (rdata c) !! sessionKey id = rdata c !! sessionKey id) as Hd.
    { intros uid cmds Hsub. apply apply_all_other. eapply Forall_sublist; [exact Hsub|]. unfold delete_cmds.
      repeat constructor; simpl; auto using not_eq_sym, sessionKey_connKey. }
    apply Delete_spec in E. destruct r; [destruct E as (? & _ & _ & ->); by eapply Hd| |done].
    destruct E as [->|(uid & cmds & Hsub & ->)]; [done|by eapply Hd].
  - unfold RedisStore_AddConnection, mbind, M_bind, lift in E. destruct (conn_marshal (conn_to_json conn)); [|by injection E as _ <-..].
    eapply unit_other; [exact E|apply not_eq_sym, sessionKey_connKey].
  - eapply unit_other; [exact E|apply not_eq_sym, sessionKey_connKey].
Qed.

Lemma redis_op_own now ttl op c c' :
  0 < ttl → @run_op C (RedisStore_Store ttl) now op c = (Ok tt, c') →
  (op_updates op = true → is_Some (redis_record now (rdata c) (op_session op))) →
  redis_record now (rdata c') (op_session op) = op_effect op (redis_record now (rdata c) (op_session op)).
Proof.
  intros Httl E Hex. destruct op as [s|k st|k cs|k|k|k conn|k cid]; simpl in E, Hex |- *.
  - by eapply redis_create.
  - destruct (set_field now k _ _ c c' E (Hex eq_refl)) as (vals & -> & ->). simpl.
    unfold record_of_fields, field. by rewrite lookup_insert_eq, !lookup_insert_ne.
  - destruct (set_field now k _ _ c c' E (Hex eq_refl)) as (vals & -> & ->). simpl.
    unfold record_of_fields, field. rewrite lookup_insert_eq, !lookup_insert_ne by done. simpl. by rewrite DecodeString_EncodeToString.
  - by eapply redis_touch; [| |apply Hex].
  - by eapply redis_delete.
  - apply redis_record_same. unfold RedisStore_AddConnection, mbind, M_bind, lift in E.
    destruct (conn_marshal (conn_to_json conn)); [|done..]. eapply unit_other; [exact E|apply not_eq_sym, sessionKey_connKey].
  - apply redis_record_same. eapply unit_other; [exact E|apply not_eq_sym, sessionKey_connKey].
Qed.

Lemma redis_record_later t t' (ks : keyspace) id : t ≤ t' → redis_record t' ks id = redis_record t ks id ∨ redis_record t' ks id = None.
Proof.
  intros Ht. unfold redis_record, hash_at, live. destruct (ks !! sessionKey id) as [e|]; [|by left].
  destruct (expired t' e) eqn:Hx'; [by right; rewrite bool_decide_true|].
  assert (expired t e = false) as ->; [|by left].
  unfold expired in *. destruct (rexp e); [|done]. apply Z.leb_gt in Hx'. apply Z.leb_gt. lia.
Qed.

Lemma redis_store_laws ttl : 0 < ttl → @StoreLaws C (RedisStore_Store ttl).
Proof.
  intros Httl. split; cbn [store_record RedisStore_Store].
  - intros. by eapply redis_op_own.
  - intros. apply redis_record_same. by eapply redis_op_other.
  - intros. by apply redis_record_later.
  - intros now id c r c' E. apply Get_spec in E as [-> Hr]. split; [done|]. destruct r as [s|e|why]; [|done..].
    destruct Hr as (vals & conns & Hv & Hne & -> & _). unfold redis_record. simpl in Hv. by rewrite Hv, bool_decide_false.
Qed.

End redis.

(** ** PGStore keeps the contract *)

Section postgres.
Context {P : Type} `{PgLaws P sessions}.
Implicit Types (p : P) (id : bytes).

(** A statement that keeps a row. *)
Lemma exec_other {A} (q : stmt sessions A) p r p' id :
  pg_exec q p = (r, p') → (∀ db, (q db).2 !! id = db !! id) → pgdata p' !! id = pgdata p !! id.
Proof.
  intros E Hq. destruct r.
  - apply pg_exec_Ok in E. specialize (Hq (pgdata p)). by rewrite E in Hq.
  - by apply pg_exec_Err in E as [->| ->].
  - by apply pg_exec_no_panic in E.
Qed.

Lemma pg_op_other now op p r p' id :
  @run_op P PGStore_Store now op p = (r, p') → op_session op ≠ id → pgdata p' !! id = pgdata p !! id.
Proof.
  intros E Hne. destruct op as [s|k st|k cs|k|k|k conn|k cid]; simpl in E, Hne.
  6-7: by injection E as _ <-.
  all: eapply exec_other; [exact E|]; intros db.
  - unfold insert_session. repeat case_match; simpl; try done. apply lookup_insert_ne. by simplify_option_eq.
  - unfold update_status_stmt. repeat case_match; simpl; try done. by apply lookup_alter_ne.
  - unfold update_crypto_stmt. repeat case_match; simpl; try done. by apply lookup_alter_ne.
  - by apply lookup_alter_ne.
  - by apply lookup_delete_ne.
Qed.

Lemma pg_op_own now op p p' :
  @run_op P PGStore_Store now op p = (Ok tt, p') →
  record_of_row <$> pgdata p' !! op_session op = op_effect op (record_of_row <$> pgdata p !! op_session op).
Proof.
  intros E. destruct op as [s|k st|k cs|k|k|k conn|k cid]; simpl in E |- *.
  6-7: by injection E as <-.
  all: apply pg_exec_Ok in E.
  - unfold insert_session in E.
    destruct (SessionID s) as [sid|], (UserID s) as [uid|] eqn:Hu, (DeviceID s) as [did|] eqn:Hd, (CryptoState s) as [cs|] eqn:Hc; try done.
    destruct (status_check (Status_ s)); [|done]. simpl in E. destruct (pgdata p !! sid); [done|]. injection E as <-.
    simpl. rewrite lookup_insert_eq. unfold record_of. by rewrite Hu, Hd, Hc.
  - unfold update_status_stmt, row_of in E. simpl in E. destruct (pgdata p !! k) eqn:Hk; [|by injection E as <-; rewrite Hk].
    destruct (status_check st); [|done]. injection E as <-. simpl. by rewrite lookup_alter_eq, Hk.
  - unfold update_crypto_stmt, row_of in E. simpl in E. destruct (pgdata p !! k) eqn:Hk; [|by injection E as <-; rewrite Hk].
    destruct cs; [|done]. injection E as <-. simpl. by rewrite lookup_alter_eq, Hk.
  - injection E as <-. simpl. rewrite lookup_alter_eq. by destruct (pgdata p !! k).
  - injection E as <-. by rewrite lookup_delete_eq.
Qed.

Lemma pg_store_laws : @StoreLaws P PGStore_Store.
Proof.
  split; cbn [store_record PGStore_Store].
  - intros. by eapply pg_op_own.
  - intros. f_equal. by eapply pg_op_other.
  - intros. by left.
  - intros now id p r p' E. simpl in E. unfold PGStore_Get in E. step E as r1 p1 E1. apply wrap_inv in E1 as (r0 & E1 & ->).
    assert (pgdata p1 = pgdata p) as Hd.
    { destruct r0; [by apply pg_exec_Ok in E1; injection E1|by apply pg_exec_Err in E1 as []|by apply pg_exec_no_panic in E1]. }
    destruct r0 as [row|e|why]; [|by injection E as <- <-; rewrite Hd|by apply pg_exec_no_panic in E1].
    apply pg_exec_Ok in E1. injection E1 as Hrow _. simpl in Hrow. subst row.
    destruct (pgdata p !! id) as [row|] eqn:Hk; by injection E as <- <-; rewrite Hd.
Qed.

Lemma pg_store_durable : @DurableStore P PGStore_Store.
Proof. by split. Qed.

End postgres.

(** ** Properties *)

(** C39: the two stores never disagree about a session.  Give both the same calls, in any
    order and with whatever failures of the calls about other sessions, where the calls
    about this one succeed and update it only while it is there.  Then whatever
    [GetSession] answers, from Redis or, when Redis fails or its record has expired, from
    PostgreSQL, is the user, device, status and crypto state that the calls have left; and
    it does not find the session only if it was deleted or never created, or if the query
    of PostgreSQL fails. *)
Theorem fallback_agrees {C P} `{RedisLaws C} `{ConnCodec} `{RangeOrder} `{PgLaws P sessions} (ttl t0 t : Z) (id : bytes)
    (ops : list (Z * store_op)) (c : C) (p : P) (r : result Session) (w : MgrW C P) :
  0 < ttl → ordered t0 ops t →
  @well_used C (RedisStore_Store ttl) id ops c → @well_used P PGStore_Store id ops p →
  @store_record C (RedisStore_Store ttl) t0 c id = @store_record P PGStore_Store t0 p id →
  let p' := @run_ops P PGStore_Store ops p in
  let left := record_after id ops (@store_record P PGStore_Store t0 p id) in
  Manager_GetSession t (Some id) (mkMgr (@run_ops C (RedisStore_Store ttl) ops c) (Some p')) = (r, w) →
  match r with
  | Ok s => left = Some (record_of s)
  | Err _ => left = None ∨ ∃ e q, pg_exec (query_stmt (row_of (Some id))) p' = (Err e, q)
  | Panic _ => False
  end.
Proof.
  intros Httl Ht Huc Hup Hsame p' left E. pose proof (redis_store_laws ttl Httl) as HR. pose proof pg_store_laws as HP.
  pose proof (@ops_refine_durable P PGStore_Store HP pg_store_durable id ops t0 p Hup) as Hpg.
  pose proof (@ops_refine C (RedisStore_Store ttl) HR id ops t0 t c _ Ht Huc (or_introl Hsame)) as Hredis.
  unfold Manager_GetSession, on_redis, zoom in E. cbn [mw_redis mw_pg] in E.
  destruct (RedisStore_Get t (Some id) (run_ops ops c)) as [r1 c1] eqn:Eg.
  apply (@Get_record C (RedisStore_Store ttl) HR) in Eg as [_ Hr1]. destruct r1 as [s|e|why]; [| |done].
  { injection E as <- _. rewrite Hr1 in Hredis. destruct Hredis as [Heq|?]; [exact (eq_sym Heq)|done]. }
  simpl in E. destruct (PGStore_Get (Some id) p') as [r2 p2] eqn:Ep. injection E as <- _.
  pose proof (@Get_record P PGStore_Store HP t id p' r2 p2 Ep) as [_ Hr2].
  destruct r2 as [s|e2|why]; [|clear Hr2|done].
  { exact (eq_trans (eq_sym (Hpg t)) Hr2). }
  unfold PGStore_Get in Ep. step Ep as r3 p3 E3. apply wrap_inv in E3 as (r0 & E3 & ->).
  destruct r0 as [row|e3|why]; [left|right; by exists e3, p3|by apply pg_exec_no_panic in E3].
  apply pg_exec_Ok in E3. injection E3 as Hrow _. simpl in Hrow. refine (eq_trans (eq_sym (Hpg t)) _).
  simpl. fold p'. destruct row; [done|]. by rewrite Hrow.
Qed.

(** [UpdateCryptoState] does not look whether the session is there: for a session that has
    expired or was deleted it leaves a record in Redis that has a crypto state but no
    user, no device and no status, and that never expires. *)
Theorem update_makes_ghost {C P} `{RedisLaws C} `{ConnCodec} `{RangeOrder} `{PgLaws P sessions} (now t : Z) (id : bytes) (cs : slice)
    (w w' : MgrW C P) (s : Session) (c : C) :
  live now (rdata (mw_redis w)) (sessionKey id) = None →
  Manager_UpdateCryptoState now (Some id) cs w = (Ok tt, w') →
  RedisStore_Get t (Some id) (mw_redis w') = (Ok s, c) → record_of s = mkSRecord [] [] EmptyString (sbytes cs).
Proof.
  intros Hl E Eg. unfold Manager_UpdateCryptoState in E. step E as r1 w1 E1. destruct r1 as [[]|e|why]; [|done..].
  apply on_redis_inv in E1 as (c1 & E1 & ->). apply when_pg_redis in E. simpl in E. rewrite E in Eg.
  apply rdo_unit_spec in E1 as [Hd _]. cbn [apply_cmd] in Hd. change (sbytes (Some id)) with id in Hd. rewrite Hl in Hd. simpl in Hd.
  apply Get_spec in Eg as [_ (vals & conns & Hv & _ & -> & _)]. rewrite Hd in Hv. unfold hash_at, live in Hv.
  change (sbytes (Some id)) with id in Hv. rewrite lookup_insert_eq in Hv. injection Hv as <-.
  unfold record_of, session_of_fields, field. simpl. rewrite lookup_insert_eq, !lookup_insert_ne, !lookup_empty by done.
  simpl. by rewrite DecodeString_EncodeToString.
Qed.

(** ** Witnesses *)

Definition example_created : Session :=
  mkSession (Some [xaa; xbb]) (Some [x01]) (Some [x02]) StatusConnecting (Some [x07])
    (1700000000 * Second) (1700000000 * Second) (1700086400 * Second) [].

(** A session is created and becomes active; a call about another session fails. *)
Definition example_ops : list (Z * store_op) :=
  [(0, SCreate example_created); (1, SUpdateStatus [xaa; xbb] StatusActive); (2, SDelete [xcc]);
   (3, SUpdateCryptoState [xaa; xbb] (Some [x08; x09]))].

(** The calls about a session, one after the other. *)
Ltac well_used_by_computing :=
  repeat (split; [intros Hid; first [discriminate Hid
                                    |split; [vm_compute; reflexivity
                                            |first [discriminate|intros _; vm_compute; eexists; reflexivity]]]|]);
  exact I.

Local Notation example_redis := (@run_ops MemRedis (@RedisStore_Store _ _ toy_codec _ Hour) example_ops (mkMemRedis ∅ [])).
Local Notation example_pg := (@run_ops (MemPg sessions) PGStore_Store example_ops (mkMemPg ∅ [])).
Local Notation example_get := (@Manager_GetSession MemRedis (MemPg sessions) _ _ toy_codec _ (2 * Hour) (Some [xaa; xbb])
    (mkMgr example_redis (Some example_pg))).

Lemma example_redis_used : @well_used MemRedis (@RedisStore_Store _ _ toy_codec _ Hour) [xaa; xbb] example_ops (mkMemRedis ∅ []).
Proof. well_used_by_computing. Qed.

Lemma example_pg_used : @well_used (MemPg sessions) PGStore_Store [xaa; xbb] example_ops (mkMemPg ∅ []).
Proof. well_used_by_computing. Qed.

Lemma example_empty :
  @store_record MemRedis (@RedisStore_Store _ _ toy_codec _ Hour) 0 (mkMemRedis ∅ []) [xaa; xbb] =
  @store_record (MemPg sessions) PGStore_Store 0 (mkMemPg ∅ []) [xaa; xbb].
Proof. vm_compute. reflexivity. Qed.

Lemma example_found : ∃ s w, example_get = (Ok s, w).
Proof.
  assert (match example_get.1 with Ok _ => true | _ => false end = true) as Hok by (vm_compute; reflexivity).
  destruct example_get as [[s|e|why] w]; [by exists s, w|discriminate..].
Qed.

(** Two hours later Redis has lost the session and PostgreSQL answers. *)
Lemma fallback_agrees_witness :
  ∃ s w, example_get = (Ok s, w) ∧
    record_after [xaa; xbb] example_ops (@store_record (MemPg sessions) PGStore_Store 0 (mkMemPg ∅ []) [xaa; xbb]) = Some (record_of s).
Proof.
  destruct example_found as (s & w & E). exists s, w. split; [exact E|].
  pose proof (@fallback_agrees MemRedis (MemPg sessions) _ _ toy_codec _ _ _ Hour 0 (2 * Hour) [xaa; xbb] example_ops
    (mkMemRedis ∅ []) (mkMemPg ∅ []) (Ok s) w) as Ht.
  apply Ht; [reflexivity|repeat split; discriminate|exact example_redis_used|exact example_pg_used|exact example_empty|exact E].
Defined.

Local Notation example_ghost := (@Manager_UpdateCryptoState MemRedis (MemPg sessions) _ _ 5 (Some [xaa]) (Some [x08])
    (mkMgr (mkMemRedis ∅ []) (Some (mkMemPg ∅ [])))).

Lemma example_ghost_found :
  ∃ w' s c, example_ghost = (Ok tt, w') ∧ @RedisStore_Get _ _ toy_codec _ (24 * Hour) (Some [xaa]) (mw_redis w') = (Ok s, c).
Proof.
  assert (match example_ghost.1 with Ok _ => true | _ => false end = true) as Hok by (vm_compute; reflexivity).
  assert (match (@RedisStore_Get _ _ toy_codec _ (24 * Hour) (Some [xaa]) (mw_redis example_ghost.2)).1 with Ok _ => true | _ => false end = true)
    as Hget by (vm_compute; reflexivity).
  destruct example_ghost as [[[]|e|why] w']; [|discriminate..]. cbn [snd] in Hget. exists w'.
  destruct (RedisStore_Get _ _ (mw_redis w')) as [[s|e|why] c]; [by exists s, c|discriminate..].
Qed.

Lemma update_makes_ghost_witness :
  ∃ w' s c, example_ghost = (Ok tt, w') ∧ @RedisStore_Get _ _ toy_codec _ (24 * Hour) (Some [xaa]) (mw_redis w') = (Ok s, c) ∧
    record_of s = mkSRecord [] [] EmptyString [x08].
Proof.
  destruct example_ghost_found as (w' & s & c & E & Eg). exists w', s, c. split; [exact E|]. split; [exact Eg|].
  exact (@update_makes_ghost MemRedis (MemPg sessions) _ _ toy_codec _ _ _ 5 (24 * Hour) [xaa] (Some [x08])
    (mkMgr (mkMemRedis ∅ []) (Some (mkMemPg ∅ []))) w' s c eq_refl E Eg).
Defined.
