(* ===== verification/SessionRaces.v ===== *)
(** * Concurrent transitions of a session

    [TransitionSession] of [proto-core/session/manager.go] reads a session, asks the
    machine for the next status and writes it, by several commands to Redis and without a
    lock, so that the gateways that serve a session may interleave these commands.  Here
    a call is cut at every command, also inside the pipelines, which are not transactions;
    between two commands time passes and the session may expire. *)
From S2P Require Import Prelude Bytes Redis Postgres SessionMachine SessionStore SessionManager.

Local Open Scope Z_scope.

(** ** A call, command by command *)

(** Where a call is: before [Get], before [UpdateStatus], before [UpdateLastActive] or in
    its pipeline, before the [Get] of [Delete] or in its pipeline.  The calls of
    PostgreSQL, whose outcome is ignored, are left out. *)
Inductive call_pc :=
| CGet (event : Event)
| CStatus (event : Event) (next : Status)
| CActive
| CTouch (cmds : list rcmd)
| CDeleteGet
| CDelete (cmds : list rcmd).

Section races.
Context (ttl : Z) (sid : slice).

(** A command is executed, unless the request is lost. *)
Definition exec_cmd (now : Z) (f : fault) (cmd : rcmd) (ks : keyspace) : keyspace :=
  match f with RequestLost => ks | _ => (apply_cmd now cmd ks).2 end.

(** [Get] by its first command; the second one reads the connections, which no status
    depends on. *)
Definition read_session (now : Z) (f : fault) (ks : keyspace) : option (gmap string string) :=
  match f, hash_at now ks (sessionKey (sbytes sid)) with
  | NoFault, Some vals => if bool_decide (vals = ∅) then None else Some vals
  | _, _ => None
  end.

(** The next command of a call; [None] when the call has returned. *)
Definition call_next (now : Z) (f : fault) (pc : call_pc) (ks : keyspace) : keyspace * option call_pc :=
  match pc with
  | CGet event =>
      (ks, vals ← read_session now f ks;
           match Transition (field vals "status") event with
           | Ok (_, true) => Some CDeleteGet
           | Ok (next, false) => Some (CStatus event next)
           | _ => None
           end)
  | CStatus event next =>
      let cmd := HSET (sessionKey (sbytes sid)) [("status", next)] in
      (exec_cmd now f cmd ks,
       match f, (apply_cmd now cmd ks).1 with
       | NoFault, RepOk => if bool_decide (event = EventPacketReceived) then Some CActive else None
       | _, _ => None
       end)
  | CActive => (ks, Some (CTouch (touch_cmds now ttl (sbytes sid))))
  | CDeleteGet =>
      (ks, vals ← read_session now f ks;
           Some (CDelete (delete_cmds (sbytes sid) (sbytes (decoded (field vals "user_id"))))))
  | CTouch [] | CDelete [] => (ks, None)
  | CTouch (cmd :: cmds) => (exec_cmd now f cmd ks, Some (CTouch cmds))
  | CDelete (cmd :: cmds) => (exec_cmd now f cmd ks, Some (CDelete cmds))
  end.

(** Time passes, a call begins, a call goes on. *)
Inductive transition_step : Z * keyspace * list call_pc → Z * keyspace * list call_pc → Prop :=
| transition_time now now' ks pcs : now ≤ now' → transition_step (now, ks, pcs) (now', ks, pcs)
| transition_begins now event ks pcs : transition_step (now, ks, pcs) (now, ks, pcs ++ [CGet event])
| transition_goes now f i pc pc' ks ks' pcs :
    pcs !! i = Some pc → call_next now f pc ks = (ks', pc') →
    transition_step (now, ks, pcs) (now, ks', match pc' with Some pc' => <[i := pc']> pcs | None => delete i pcs end).

End races.

(** ** Lemmas *)

(** The phases that the machine can lead to, and whether it can leave them at all. *)
Definition leads_to : relation phase := rtc (λ p q, ∃ ev, edge p ev q).
Definition moves (p : phase) : Prop := ∃ q ev q', leads_to p q ∧ edge q ev q'.

Lemma expired_stays p : leads_to (InStatus StatusExpired) p → p = InStatus StatusExpired.
Proof.
  intros Hp. remember (InStatus StatusExpired) as e eqn:He. induction Hp as [x|x y z [ev Hxy] _ IH]; [done|]. subst x. by inversion Hxy.
Qed.

Lemma destroyed_stays p : leads_to Destroyed p → p = Destroyed.
Proof. intros Hp. remember Destroyed as e eqn:He. induction Hp as [x|x y z [ev Hxy] _ IH]; [done|]. subst x. by inversion Hxy. Qed.

Lemma phase_later t t' (ks : keyspace) sid : t ≤ t' → phase_at t' ks sid = phase_at t ks sid ∨ phase_at t' ks sid = Destroyed.
Proof.
  intros Ht. unfold phase_at, hash_at, live. destruct (ks !! sessionKey (sbytes sid)) as [e|]; [|by left].
  destruct (expired t' e) eqn:Hx'; [by right; rewrite bool_decide_true|].
  destruct (expired t e) eqn:Hx; [|by left]. by rewrite (expired_later t t') in Hx'.
Qed.

Section lemmas.
Context (ttl : Z) (sid : slice) (ttl_pos : 0 < ttl).
Implicit Types (ks : keyspace) (pcs : list call_pc).

Lemma read_session_phase now f ks vals :
  read_session sid now f ks = Some vals → phase_at now ks sid = InStatus (field vals "status").
Proof.
  unfold read_session, phase_at. destruct f; [|done..]. destruct (hash_at _ _ _) as [h|]; [|done].
  case_bool_decide; [done|]. by intros [= ->].
Qed.

(** A command that is lost changes nothing. *)
Lemma exec_cmd_phase (Q : phase → Prop) now f cmd ks :
  (phase_at now (apply_cmd now cmd ks).2 sid = phase_at now ks sid ∨ Q (phase_at now (apply_cmd now cmd ks).2 sid)) →
  phase_at now (exec_cmd now f cmd ks) sid = phase_at now ks sid ∨ Q (phase_at now (exec_cmd now f cmd ks) sid).
Proof. destruct f; simpl; auto. Qed.

Lemma hset_phase now fields ks :
  fields ≠ [] →
  let ks' := (apply_cmd now (HSET (sessionKey (sbytes sid)) fields) ks).2 in
  ks' = ks ∨ ∃ h, hash_at now ks (sessionKey (sbytes sid)) = Some h ∧
    phase_at now ks' sid = InStatus (field (write_fields fields h) "status").
Proof.
  intros Hf. destruct (HSET_cases now (sessionKey (sbytes sid)) fields ks) as [(h & exp & Hh & Hl)|[_ Heq]]; [right|by left].
  exists h. split; [done|]. apply (phase_at_status _ _ _ _ _ Hl). by apply write_fields_nonempty.
Qed.

Lemma status_cmd_phase now f next ks :
  let ks' := exec_cmd now f (HSET (sessionKey (sbytes sid)) [("status", next)]) ks in
  phase_at now ks' sid = phase_at now ks sid ∨ phase_at now ks' sid = InStatus next.
Proof.
  apply (exec_cmd_phase (λ p, p = InStatus next)).
  destruct (hset_phase now [("status", next)] ks) as [->|(h & _ & ->)]; [done|by left|right].
  unfold field, write_fields. simpl. by rewrite lookup_insert_eq.
Qed.

(** A command of [UpdateLastActive] on a session that is gone makes a hash without a
    status. *)
Lemma touch_cmd_effect now t f cmd ks :
  cmd ∈ touch_cmds t ttl (sbytes sid) →
  let ks' := exec_cmd now f cmd ks in
  phase_at now ks' sid = phase_at now ks sid ∨ phase_at now ks' sid = InStatus "".
Proof.
  intros Hcmd. apply (exec_cmd_phase (λ p, p = InStatus "")). unfold touch_cmds in Hcmd.
  rewrite !elem_of_cons, elem_of_nil in Hcmd. destruct Hcmd as [->|[->|[]]].
  - edestruct hset_phase as [->|(h & Hh & ->)]; [|by left|]; [done|].
    assert (Hs : field (write_fields [("last_active", FormatInt (Unix t))] h) "status" = field h "status").
    { unfold field, write_fields. simpl. by rewrite lookup_insert_ne. }
    rewrite Hs. unfold phase_at. rewrite Hh. case_bool_decide as He; [right; by rewrite He|by left].
  - left. unfold phase_at, hash_at. cbn [apply_cmd].
    destruct (live now ks (sessionKey (sbytes sid))) as [[v exp]|] eqn:Hl; cbn [snd]; [|by rewrite Hl].
    rewrite (proj2 (Z.leb_gt _ _)) by done. rewrite live_insert. unfold expired. simpl. by rewrite (proj2 (Z.leb_gt _ _)) by lia.
Qed.

Lemma delete_cmd_effect now f uid cmd ks :
  cmd ∈ delete_cmds (sbytes sid) uid →
  let ks' := exec_cmd now f cmd ks in
  phase_at now ks' sid = phase_at now ks sid ∨ phase_at now ks' sid = Destroyed.
Proof.
  intros Hcmd. apply (exec_cmd_phase (λ p, p = Destroyed)).
  apply (delete_cmds_session now now sid uid [cmd]). by apply singleton_sublist_l.
Qed.

(** What the calls in flight may do to a session that was in phase [p0]. *)
Definition call_ok (p0 : phase) (pc : call_pc) : Prop :=
  match pc with
  | CGet _ => True
  | CStatus _ next => ∃ q ev, leads_to p0 q ∧ edge q ev (InStatus next)
  | CActive | CDeleteGet => moves p0
  | CTouch cmds => moves p0 ∧ ∃ t, cmds ⊆ touch_cmds t ttl (sbytes sid)
  | CDelete cmds => moves p0 ∧ ∃ uid, cmds ⊆ delete_cmds (sbytes sid) uid
  end.

Definition phase_ok (p0 ph : phase) : Prop := leads_to p0 ph ∨ ph = Destroyed ∨ ph = InStatus "" ∧ moves p0.

Definition in_machine (p0 : phase) (x : Z * keyspace * list call_pc) : Prop :=
  phase_ok p0 (phase_at x.1.1 x.1.2 sid) ∧ Forall (call_ok p0) x.2.

Lemma phase_ok_same p0 ph ph' q : phase_ok p0 ph → ph' = ph ∨ ph' = q → phase_ok p0 q → phase_ok p0 ph'.
Proof. by intros ? [->| ->]. Qed.

(** A call that has read the session takes an edge of the machine. *)
Lemma call_reads_ok p0 now f ks vals ev next d :
  phase_ok p0 (phase_at now ks sid) → read_session sid now f ks = Some vals →
  Transition (field vals "status") ev = Ok (next, d) →
  ∃ q, leads_to p0 q ∧ edge q ev (phase_of (next, d)).
Proof.
  intros Hok Hr Ht. apply read_session_phase in Hr. rewrite Hr in Hok. apply Transition_edge in Ht as [He _].
  destruct Hok as [Hl|[?|[[= Hs] _]]]; [by eauto|done|]. rewrite Hs in He. by inversion He.
Qed.

Lemma call_next_ok p0 now f pc ks ks' pc' :
  phase_ok p0 (phase_at now ks sid) → call_ok p0 pc → call_next ttl sid now f pc ks = (ks', pc') →
  phase_ok p0 (phase_at now ks' sid) ∧ from_option (call_ok p0) True pc'.
Proof.
  intros Hok Hpc. destruct pc as [ev|ev next| |[|cmd cmds]| |[|cmd cmds]]; simpl; intros [= <- <-].
  - split; [done|]. destruct (read_session sid now f ks) as [vals|] eqn:Hr; [|done]. simpl.
    destruct (Transition (field vals "status") ev) as [[next []]|e|why] eqn:Ht; [| |done..];
      destruct (call_reads_ok _ _ _ _ _ _ _ _ Hok Hr Ht) as (q & Hq & He); simpl; unfold moves; eauto 10.
  - destruct Hpc as (q & e & Hq & He). split.
    + eapply phase_ok_same; [done|apply status_cmd_phase|]. left. eapply rtc_r; [exact Hq|by exists e].
    + assert (moves p0) by (unfold moves; eauto). by repeat case_match.
  - split; [done|]. split; [done|]. by exists now.
  - done.
  - destruct Hpc as [Hm [t Ht]]. split; [|split; [done|exists t; set_solver]].
    eapply phase_ok_same; [done|eapply (touch_cmd_effect now t); set_solver|]. right. by right.
  - split; [done|]. destruct (read_session sid now f ks); [|done]. split; [done|]. by eexists.
  - done.
  - destruct Hpc as [Hm [uid Hu]]. split; [|split; [done|exists uid; set_solver]].
    eapply phase_ok_same; [done|eapply (delete_cmd_effect now f uid); set_solver|]. right. by left.
Qed.

Lemma transition_step_in_machine p0 x y : transition_step ttl sid x y → in_machine p0 x → in_machine p0 y.
Proof.
  intros Hstep [Hph Hpcs]. destruct Hstep as [now now' ks pcs Ht|now ev ks pcs|now f i pc pc' ks ks' pcs Hi E]; simpl in *.
  - split; [|done]. eapply phase_ok_same; [done|by apply phase_later|]. right. by left.
  - split; [done|]. apply Forall_app. split; [done|]. by apply Forall_singleton.
  - apply (call_next_ok p0) in E as [Hph' Hpc']; [|done|by eapply Forall_lookup_1]. split; [done|]. simpl.
    destruct pc'; [by apply Forall_insert|by apply Forall_delete].
Qed.

End lemmas.

(** ** The code *)

(** The calls of [TransitionSession], as they are written, are such sequences of commands. *)
Section code.
Context {C P : Type} `{RedisLaws C} `{PgLaws P sessions} `{ConnCodec} `{RangeOrder}.
Context (ttl : Z) (sid : slice).
Implicit Types (w : MgrW C P) (ks : keyspace).

Local Notation solo t ks pc := (t, ks, option_list pc).

Lemma solo_goes t f pc pc' ks ks' :
  call_next ttl sid t f pc ks = (ks', pc') → transition_step ttl sid (solo t ks (Some pc)) (solo t ks' pc').
Proof.
  intros E. pose proof (transition_goes ttl sid t f 0%nat pc pc' ks ks' [pc] eq_refl E) as Hs. by destruct pc'.
Qed.

(** A pipeline of which some commands were executed. *)
Lemma pipeline_runs (K : list rcmd → call_pc) t cmds executed ks :
  (∀ f cmd rest ks, call_next ttl sid t f (K (cmd :: rest)) ks = (exec_cmd t f cmd ks, Some (K rest))) →
  (∀ f ks, call_next ttl sid t f (K []) ks = (ks, None)) →
  sublist executed cmds → rtc (transition_step ttl sid) (solo t ks (Some (K cmds))) (solo t (apply_all t executed ks) None).
Proof.
  intros Hcons Hnil Hsub. revert ks. induction Hsub as [|cmd l1 l2 _ IH|cmd l1 l2 _ IH]; intros ks.
  - apply rtc_once, (solo_goes t NoFault), Hnil.
  - eapply rtc_l; [apply (solo_goes t NoFault), Hcons|]. apply IH.
  - eapply rtc_l; [apply (solo_goes t RequestLost), Hcons|]. apply IH.
Qed.

Lemma rpipe_executed t cmds (c c' : C) r :
  rpipe t cmds c = (r, c') → ∃ executed, sublist executed cmds ∧ rdata c' = apply_all t executed (rdata c).
Proof.
  intros E. destruct r as [[]|e|why]; [apply rpipe_Ok in E as [_ E]; by eexists|by eapply rpipe_Err|by apply rpipe_no_panic in E].
Qed.

Lemma read_session_Get t (c c' : C) r :
  RedisStore_Get t sid c = (r, c') → rdata c' = rdata c ∧
  match r with
  | Ok s => ∃ vals, read_session sid t NoFault (rdata c) = Some vals ∧ Status_ s = field vals "status" ∧
              UserID s = decoded (field vals "user_id")
  | _ => True
  end.
Proof.
  intros [Hd Hr]%Get_spec. split; [done|]. destruct r as [s| |]; [|done..]. destruct Hr as (vals & conns & Hv & Hne & -> & _).
  exists vals. unfold read_session. by rewrite Hv, bool_decide_false.
Qed.

(** A command that fails was lost before or after it was executed. *)
Lemma status_runs t ev next (c c' : C) r :
  RedisStore_UpdateStatus t sid next c = (r, c') →
  ∃ f, call_next ttl sid t f (CStatus ev next) (rdata c) =
    (rdata c', match r with Ok _ => if bool_decide (ev = EventPacketReceived) then Some CActive else None | _ => None end).
Proof.
  intros E. apply rdo_unit_spec in E. destruct r as [[]|e|why]; [| |done].
  - destruct E as [E Hw]. exists NoFault. cbn [call_next exec_cmd]. rewrite <-E. f_equal. cbn [apply_cmd] in *.
    by destruct (live t (rdata c) (sessionKey (sbytes sid))) as [[[| |] ex] |].
  - destruct E as [->| ->]; [by exists RequestLost|by exists ReplyLost].
Qed.

Lemma delete_runs t (c c' : C) r :
  RedisStore_Delete t sid c = (r, c') →
  rtc (transition_step ttl sid) (solo t (rdata c) (Some CDeleteGet)) (solo t (rdata c') None).
Proof.
  unfold RedisStore_Delete. intros E. step E as r1 c1 E1. apply read_session_Get in E1 as [Hd Hr].
  destruct r1 as [s|e|why]; [|simplify_eq; rewrite Hd; by apply rtc_once, (solo_goes t RequestLost)..].
  destruct Hr as (vals & Hv & _ & Hu). apply rpipe_executed in E as (executed & Hsub & ->). rewrite Hd.
  eapply rtc_l; [|by apply (pipeline_runs CDelete t (delete_cmds (sbytes sid) (sbytes (UserID s))))].
  apply (solo_goes t NoFault). cbn [call_next]. by rewrite Hv, Hu.
Qed.

Lemma time_passes t t' ks pcs : t ≤ t' → rtc (transition_step ttl sid) (t, ks, pcs) (t', ks, pcs).
Proof. intros Ht. by apply rtc_once, transition_time. Qed.

Lemma store_status_runs clock ev next s w w' r :
  clock 1%nat ≤ clock 2%nat → store_status ttl clock sid ev next s w = (r, w') →
  rtc (transition_step ttl sid) (solo (clock 1%nat) (rdata (mw_redis w)) (Some (CStatus ev next)))
    (solo (clock 2%nat) (rdata (mw_redis w')) None).
Proof.
  intros Hclock. unfold store_status, PGStore_UpdateStatus. intros E. step E as r1 w1 E1.
  apply wrap_inv in E1 as (r2 & E1 & ->). apply on_redis_inv in E1 as (c1 & E1 & ->).
  apply (status_runs _ ev) in E1 as [f E1]. eapply rtc_l; [by apply (solo_goes _ f)|].
  destruct r2 as [[]|e|why]; [|simplify_eq; by apply time_passes..].
  etrans; [by apply (time_passes _ (clock 2%nat))|]. step E as r3 w3 E3.
  assert (rtc (transition_step ttl sid) (solo (clock 2%nat) (rdata c1) (if bool_decide (ev = EventPacketReceived) then Some CActive else None))
    (solo (clock 2%nat) (rdata (mw_redis w3)) None) ∧ ∀ why, r3 ≠ Panic why) as [Hrun Hr3].
  { case_bool_decide; [|unfold mret, M_ret in E3; by simplify_eq].
    destruct (on_redis (RedisStore_UpdateLastActive (clock 2%nat) ttl sid) (mkMgr c1 (mw_pg w))) as [r4 w4] eqn:E4.
    rewrite (ignore_run _ _ _ _ E4) in E3. apply on_redis_inv in E4 as (c4 & E4 & ->). unfold RedisStore_UpdateLastActive in E4.
    assert (∀ why, r4 ≠ Panic why) by (intros why ->; by apply rpipe_no_panic in E4).
    apply rpipe_executed in E4 as (executed & Hsub & Hd). injection E3 as <- <-. simpl. rewrite Hd. split; [|by destruct r4].
    eapply rtc_l; [by apply (solo_goes _ NoFault)|]. by apply (pipeline_runs CTouch). }
  destruct r3 as [[]|e|why]; [|simplify_eq; done|by destruct (Hr3 why)].
  step E as r5 w5 E5. apply when_pg_ignore_exec in E5 as [-> Hw5]. unfold mret, M_ret in E. simplify_eq. by rewrite Hw5.
Qed.

Lemma TransitionSession_runs clock ev w w' r :
  clock 0%nat ≤ clock 1%nat ≤ clock 2%nat → Manager_TransitionSession ttl clock sid ev w = (r, w') →
  rtc (transition_step ttl sid) (clock 0%nat, rdata (mw_redis w), []) (clock 2%nat, rdata (mw_redis w'), []).
Proof.
  intros Hclock. unfold Manager_TransitionSession. intros E. eapply rtc_l; [apply (transition_begins _ _ _ ev)|].
  step E as r1 w1 E1. apply on_redis_inv in E1 as (c1 & E1 & ->). apply read_session_Get in E1 as [Hd Hr].
  destruct r1 as [s|e|why]; [|simplify_eq/=; rewrite Hd..].
  2,3: eapply rtc_l; [by apply (solo_goes _ RequestLost (CGet ev) None)|apply time_passes; lia].
  destruct Hr as (vals & Hv & Hs & _). rewrite <-Hd.
  assert (Hget : call_next ttl sid (clock 0%nat) NoFault (CGet ev) (rdata c1) =
    (rdata c1, match Transition (Status_ s) ev with Ok (_, true) => Some CDeleteGet | Ok (next, false) => Some (CStatus ev next) | _ => None end)).
  { cbn [call_next]. rewrite Hd, Hv. simpl. by rewrite <-Hs. }
  eapply rtc_l; [by apply (solo_goes _ NoFault (CGet ev))|]. clear Hget.
  unfold mbind, M_bind, lift in E. destruct (Transition (Status_ s) ev) as [[next []]|e|why].
  - etrans; [apply (time_passes _ (clock 1%nat)); lia|]. etrans; [|apply (time_passes (clock 1%nat)); lia].
    unfold destroy_session, PGStore_Delete in E. step E as r2 w2 E2. apply wrap_inv in E2 as (r3 & E2 & ->).
    apply on_redis_inv in E2 as (c2 & E2 & ->). apply delete_runs in E2.
    destruct r3 as [[]|e|why]; [|by simplify_eq..]. step E as r4 w4 E4. apply when_pg_ignore_exec in E4 as [-> Hw4].
    unfold mret, M_ret in E. simplify_eq. by rewrite Hw4.
  - etrans; [apply (time_passes _ (clock 1%nat)); lia|]. apply store_status_runs in E; [done|lia].
  - simplify_eq. apply time_passes. simpl. lia.
  - simplify_eq. apply time_passes. simpl. lia.
Qed.

End code.

(** ** Schedules *)

(** A schedule of steps, to be run. *)
Inductive action := Wait (until : Z) | Begin (event : Event) | Go (i : nat) (f : fault).

Definition act (ttl : Z) (sid : slice) (x : Z * keyspace * list call_pc) (a : action) : Z * keyspace * list call_pc :=
  let '(now, ks, pcs) := x in
  match a with
  | Wait t => (now `max` t, ks, pcs)
  | Begin ev => (now, ks, pcs ++ [CGet ev])
  | Go i f =>
      match pcs !! i with
      | None => x
      | Some pc =>
          let '(ks', pc') := call_next ttl sid now f pc ks in
          (now, ks', match pc' with Some pc' => <[i := pc']> pcs | None => delete i pcs end)
      end
  end.

Lemma schedule_runs ttl sid x acts : rtc (transition_step ttl sid) x (foldl (act ttl sid) x acts).
Proof.
  revert x. induction acts as [|a acts IH]; intros x; [apply rtc_refl|]. simpl.
  etrans; [|apply IH]. destruct x as [[now ks] pcs]. destruct a as [t|ev|i f]; simpl.
  - apply rtc_once, transition_time. lia.
  - apply rtc_once, transition_begins.
  - destruct (pcs !! i) as [pc|] eqn:Hi; [|done]. destruct (call_next ttl sid now f pc ks) as [ks' pc'] eqn:E.
    apply rtc_once. by apply (transition_goes _ _ now f i pc pc').
Qed.

(** ** Properties *)

(** C34: several calls of [TransitionSession] at once.  Every call is a sequence of
    commands, which the commands of other calls may separate.  However many calls move a
    session, whichever of their commands are lost and whenever the session expires, it is
    in a status that the machine leads to from where it was, or gone, or a hash that has no
    status: this is left by a call that stores the time of the last packet after the
    session has expired or was destroyed.  A session that had expired (in the machine's
    sense) or was gone before the calls began does not come back. *)
Theorem concurrent_transitions {C P} `{RedisLaws C} `{PgLaws P sessions} `{ConnCodec} `{RangeOrder}
    (ttl now now' : Z) (sid : slice) (ks ks' : keyspace) (pcs : list call_pc) :
  0 < ttl → rtc (transition_step ttl sid) (now, ks, []) (now', ks', pcs) →
  let before := phase_at now ks sid in
  let after := phase_at now' ks' sid in
  (leads_to before after ∨ after = Destroyed ∨ after = InStatus "") ∧
  (before = InStatus StatusExpired → after = InStatus StatusExpired ∨ after = Destroyed) ∧
  (before = Destroyed → after = Destroyed) ∧
  ∀ clock ev (w w' : MgrW C P) r, clock 0%nat ≤ clock 1%nat ≤ clock 2%nat → Manager_TransitionSession ttl clock sid ev w = (r, w') →
    rtc (transition_step ttl sid) (clock 0%nat, rdata (mw_redis w), []) (clock 2%nat, rdata (mw_redis w'), []).
Proof.
  intros Httl Hrun before after. assert (phase_ok before after) as Hafter.
  { assert (in_machine ttl sid before (now', ks', pcs)) as [Hm _]; [|exact Hm].
    eapply rtc_invariant; [intros; by eapply transition_step_in_machine| |exact Hrun]. split; [left; apply rtc_refl|done]. }
  split_and!.
  - destruct Hafter as [?|[?|[? _]]]; auto.
  - intros Hb. rewrite Hb in Hafter. destruct Hafter as [Hl|[?|[_ (q & ev & q' & Hq & He)]]]; [left; by apply expired_stays|by right|].
    apply expired_stays in Hq as ->. by inversion He.
  - intros Hb. rewrite Hb in Hafter. destruct Hafter as [Hl|[?|[_ (q & ev & q' & Hq & He)]]]; [by apply destroyed_stays|done|].
    apply destroyed_stays in Hq as ->. by inversion He.
  - intros. by eapply TransitionSession_runs.
Qed.

(** ** Witnesses and examples *)

Local Notation example_sid := (Some [xaa; xbb]).

(** A session that is active, and expires after an hour. *)
Definition active_keys : keyspace :=
  let _ := toy_codec in
  rdata (mw_redis (Manager_TransitionSession Hour (λ _, 5) example_sid EventHandshakeOK created_world).2).

(** A packet and a logout at the same time: both have read the session as active, the
    logout has stored its status and has returned. *)
Definition logged_out : Z * keyspace * list call_pc :=
  foldl (act Hour example_sid) (5, active_keys, [])
    [Begin EventPacketReceived; Begin EventExplicitLogout; Go 0 NoFault; Go 1 NoFault; Go 1 NoFault].

Lemma concurrent_transitions_witness :
  phase_at 5 active_keys example_sid = InStatus StatusActive ∧
  let after := phase_at logged_out.1.1 logged_out.1.2 example_sid in
  leads_to (InStatus StatusActive) after ∨ after = Destroyed ∨ after = InStatus "".
Proof.
  assert (Ha : phase_at 5 active_keys example_sid = InStatus StatusActive) by (vm_compute; reflexivity).
  split; [exact Ha|]. rewrite <-Ha.
  pose proof (schedule_runs Hour example_sid (5, active_keys, [])
    [Begin EventPacketReceived; Begin EventExplicitLogout; Go 0 NoFault; Go 1 NoFault; Go 1 NoFault]) as Hrun.
  fold logged_out in Hrun. destruct logged_out as [[now' ks'] pcs].
  exact (proj1 (@concurrent_transitions MemRedis (MemPg sessions) _ _ _ _ toy_codec _ Hour 5 now' example_sid active_keys ks' pcs
    eq_refl Hrun)).
Defined.

(** A logout can be undone: the packet stores the status that it has computed from what it
    had read, after the logout has returned. *)
Example logout_undone :
  phase_at 5 logged_out.1.2 example_sid = InStatus StatusExpired ∧
  phase_at 5 (act Hour example_sid logged_out (Go 0 NoFault)).1.2 example_sid = InStatus StatusActive.
Proof. vm_compute. split; reflexivity. Qed.

(** A session that expires while a packet is handled leaves a hash without a status, which
    every event is refused for. *)
Example status_lost :
  let x := foldl (act Hour example_sid) (5, active_keys, [])
    [Begin EventPacketReceived; Go 0 NoFault; Go 0 NoFault; Wait (2 * Hour); Go 0 NoFault; Go 0 NoFault; Go 0 NoFault; Go 0 NoFault] in
  x.2 = [] ∧ phase_at (2 * Hour) x.1.2 example_sid = InStatus "".
Proof. vm_compute. split; reflexivity. Qed.
