(* ===== verification/Grpc.v ===== *)
(** * gRPC status errors

    [google.golang.org/grpc/codes] and [status.Errorf], as the service handlers use
    them: an error carries a code, and the chain of the error it reports is lost
    (its text is formatted with [%v]). *)
From S2P Require Import Prelude.

Inductive Code :=
| Unknown | InvalidArgument | NotFound | FailedPrecondition | ResourceExhausted
| Internal | Unimplemented | Unavailable | Unauthenticated | AlreadyExists | DeadlineExceeded.

#[export] Instance Code_eq_dec : EqDecision Code.
Proof. solve_decision. Defined.

Definition Code_String (c : Code) : string :=
  match c with
  | Unknown => "Unknown" | InvalidArgument => "InvalidArgument" | NotFound => "NotFound"
  | FailedPrecondition => "FailedPrecondition" | ResourceExhausted => "ResourceExhausted"
  | Internal => "Internal" | Unimplemented => "Unimplemented" | Unavailable => "Unavailable"
  | Unauthenticated => "Unauthenticated" | AlreadyExists => "AlreadyExists"
  | DeadlineExceeded => "DeadlineExceeded"
  end.

(** [status.Errorf(c, msg, ...)] *)
Definition status_Errorf (c : Code) (msg : string) : error :=
  Wrap ("rpc error: code = " +:+ Code_String c) (Errorf msg).

(** [if err != nil { return nil, status.Errorf(c, msg, err) }] *)
Definition status_wrap {W A} (c : Code) (msg : string) (m : M W A) : M W A := λ w,
  match m w with
  | (Err _, w') => (Err (status_Errorf c msg), w')
  | r => r
  end.

#[export] Instance Code_String_inj : Inj (=) (=) Code_String.
Proof. by intros [] []. Qed.

(** The code and the text of a status error can be read back. *)
Lemma status_Errorf_inj c1 c2 m1 m2 : status_Errorf c1 m1 = status_Errorf c2 m2 → c1 = c2 ∧ m1 = m2.
Proof. unfold status_Errorf. intros [= H ->]. by apply (inj Code_String) in H as ->. Qed.

Lemma status_wrap_run {W A} c msg (m : M W A) w r w' :
  m w = (r, w') →
  status_wrap c msg m w = (match r with Err _ => Err (status_Errorf c msg) | _ => r end, w').
Proof. unfold status_wrap. intros ->. by destruct r. Qed.

Lemma status_wrap_inv {W A} c msg (m : M W A) w r w' :
  status_wrap c msg m w = (r, w') →
  ∃ r0, m w = (r0, w') ∧ r = match r0 with Err _ => Err (status_Errorf c msg) | _ => r0 end.
Proof. unfold status_wrap. destruct (m w) as [[] ?]; intros [= <- <-]; eauto. Qed.
