(* ===== verification/SessionGrpc.v ===== *)
(** * The session service

    [server/internal/sessiongrpc/server.go]: the gRPC handlers in front of the
    session manager, with the conversions between the manager's types and the
    messages of [proto/fproto/v1/session_service.proto].  Timestamps are kept as
    nanoseconds. *)
From S2P Require Import Prelude Bytes Redis Postgres SessionMachine SessionStore SessionManager Grpc.

Local Open Scope Z_scope.

(** [enum SessionStatus] and [enum TransportType]: open enumerations over int32. *)
Definition SessionStatus_SESSION_STATUS_UNSPECIFIED : Z := 0.
Definition SessionStatus_CONNECTING : Z := 1.
Definition SessionStatus_ACTIVE : Z := 2.
Definition SessionStatus_SLEEPING : Z := 3.
Definition SessionStatus_EXPIRED : Z := 4.

Definition TransportType_TRANSPORT_TYPE_UNSPECIFIED : Z := 0.
Definition TransportType_WEBSOCKET : Z := 1.
Definition TransportType_QUIC : Z := 2.
Definition TransportType_GRPC : Z := 3.

Record pb_Connection := mkPbConnection {
  pbc_ConnectionId : string;
  pbc_Transport : Z;
  pbc_GatewayId : string;
  pbc_RemoteAddr : string;
  pbc_ConnectedAt : Z;
  pbc_LastPacketSeq : Z;
}.

Record pb_Session := mkPbSession {
  pbs_SessionId : slice;
  pbs_UserId : slice;
  pbs_DeviceId : slice;
  pbs_Status : Z;
  pbs_CryptoState : slice;
  pbs_CreatedAt : Z;
  pbs_LastActive : Z;
  pbs_ExpiresAt : Z;
  pbs_Connections : list pb_Connection;
}.

Definition statusToProto (s : Status) : Z :=
  if bool_decide (s = StatusConnecting) then SessionStatus_CONNECTING
  else if bool_decide (s = StatusActive) then SessionStatus_ACTIVE
  else if bool_decide (s = StatusSleeping) then SessionStatus_SLEEPING
  else if bool_decide (s = StatusExpired) then SessionStatus_EXPIRED
  else SessionStatus_SESSION_STATUS_UNSPECIFIED.

Definition statusToEvent (s : Z) : result Event :=
  if s =? SessionStatus_ACTIVE then Ok EventHandshakeOK
  else if s =? SessionStatus_SLEEPING then Ok EventIdleTimeout
  else if s =? SessionStatus_EXPIRED then Ok EventExplicitLogout
  else Err ErrInvalidTransition.

Definition transportToProto (t : TransportType) : Z :=
  if bool_decide (t = TransportWebSocket) then TransportType_WEBSOCKET
  else if bool_decide (t = TransportQUIC) then TransportType_QUIC
  else if bool_decide (t = TransportGRPC) then TransportType_GRPC
  else TransportType_TRANSPORT_TYPE_UNSPECIFIED.

Definition protoToTransport (t : Z) : TransportType :=
  if t =? TransportType_WEBSOCKET then TransportWebSocket
  else if t =? TransportType_QUIC then TransportQUIC
  else if t =? TransportType_GRPC then TransportGRPC
  else TransportWebSocket.

Definition connectionToProto (c : Connection) : pb_Connection :=
  mkPbConnection (ConnectionID c) (transportToProto (Transport c)) (GatewayID c) (RemoteAddr c)
    (ConnectedAt c) (LastPacketSeq c).

Definition sessionToProto (s : Session) : pb_Session :=
  mkPbSession (SessionID s) (UserID s) (DeviceID s) (statusToProto (Status_ s)) (CryptoState s)
    (CreatedAt s) (LastActive s) (ExpiresAt s) (connectionToProto <$> Connections s).

Section server.
Context {C P : Type} `{RedisClient C} `{PgPool P sessions} `{ConnCodec} `{RangeOrder}.
Context (cfg : Config) (ttl : Z).

Definition SessionServer_CreateSession (now : Z) (rnd : result bytes) (UserId DeviceId : slice) :
    M (MgrW C P) (slice * pb_Session) :=
  s ← status_wrap Internal "create session: %v" (Manager_CreateSession cfg ttl now rnd UserId DeviceId);
  mret (SessionID s, sessionToProto s).

Definition SessionServer_GetSession (now : Z) (SessionId : slice) : M (MgrW C P) pb_Session :=
  s ← status_wrap NotFound "session not found: %v" (Manager_GetSession now SessionId);
  mret (sessionToProto s).

Definition SessionServer_UpdateSessionStatus (clock : nat → Z) (SessionId : slice) (Status : Z) :
    M (MgrW C P) pb_Session :=
  event ← status_wrap InvalidArgument "%v" (lift (statusToEvent Status));
  s ← status_wrap FailedPrecondition "transition: %v" (Manager_TransitionSession ttl clock SessionId event);
  match s with
  | None => throw (status_Errorf NotFound "session destroyed")
  | Some s => mret (sessionToProto s)
  end.

Definition SessionServer_RegisterConnection (now : Z) (SessionId : slice) (ConnectionId : string)
    (Transport : Z) (GatewayId RemoteAddr : string) : M (MgrW C P) Z :=
  let conn := mkConnection ConnectionId (protoToTransport Transport) GatewayId RemoteAddr now 0 in
  '(count, err) ← Manager_RegisterConnection cfg now SessionId conn;
  match err with
  | Some _ => throw (status_Errorf ResourceExhausted "%v")
  | None => mret (uint32 count)
  end.

Definition SessionServer_UnregisterConnection (now : Z) (SessionId : slice) (ConnectionId : string) :
    M (MgrW C P) unit :=
  status_wrap Internal "%v" (Manager_UnregisterConnection now SessionId ConnectionId).

Definition SessionServer_RouteToSession : M (MgrW C P) unit :=
  throw (status_Errorf Unimplemented "route_to_session not implemented yet").

End server.

(** ** Lemmas *)

Lemma statusToEvent_Ok st ev :
  statusToEvent st = Ok ev → ∀ s q, edge (InStatus s) ev (InStatus q) → statusToProto q = st.
Proof.
  unfold statusToEvent. repeat case_match; intros [= <-] s q He; inversion He; subst; simpl;
    repeat match goal with H : (_ =? _) = true |- _ => apply Z.eqb_eq in H; subst end; done.
Qed.

(** The events a client can cause through the service. *)
Lemma statusToEvent_events st ev :
  statusToEvent st = Ok ev → ev = EventHandshakeOK ∨ ev = EventIdleTimeout ∨ ev = EventExplicitLogout.
Proof. unfold statusToEvent. repeat case_match; intros [= <-]; auto. Qed.

(** ** Properties *)

Section server_properties.
Context {C P : Type} `{RedisLaws C} `{PgLaws P sessions} `{ConnCodec} `{RangeOrder}.

(** A successful [UpdateSessionStatus] has moved the stored session
    along an edge of the machine to the status that was asked for, and returns it;
    a status other than ACTIVE, SLEEPING and EXPIRED is refused as invalid, and any
    other failure is a failed precondition: the reply "session destroyed" never
    occurs. *)
Theorem update_status_rpc (ttl : Z) (clock : nat → Z) (sid : slice) (st : Z) (w w' : MgrW C P) (r : result pb_Session) :
  0 < ttl → clock 0%nat ≤ clock 1%nat ≤ clock 2%nat → lasts (clock 0%nat) (clock 2%nat) (rdata (mw_redis w)) sid →
  SessionServer_UpdateSessionStatus ttl clock sid st w = (r, w') →
  let before := phase_at (clock 0%nat) (rdata (mw_redis w)) sid in
  let after := phase_at (clock 2%nat) (rdata (mw_redis w')) sid in
  match r with
  | Ok s => pbs_Status s = st ∧ (∃ ev q, edge before ev after ∧ after = InStatus q ∧ statusToProto q = st)
  | Err e => (after = before ∨ ∃ ev, edge before ev after) ∧
             (e = status_Errorf InvalidArgument "%v" ∧ statusToEvent st = Err ErrInvalidTransition ∧ w' = w ∨
              e = status_Errorf FailedPrecondition "transition: %v" ∧ ∃ ev, statusToEvent st = Ok ev)
  | Panic _ => False
  end.
Proof.
  intros Httl Hclock Hlasts. unfold SessionServer_UpdateSessionStatus.
  destruct (statusToEvent st) as [ev|e|why] eqn:Hev.
  - unfold mbind at 1, M_bind at 1. simpl.
    destruct (Manager_TransitionSession ttl clock sid ev w) as [r1 w1] eqn:E.
    rewrite (bind_run _ _ _ _ _ (status_wrap_run _ _ _ _ _ _ E)).
    apply TransitionSession_spec in E; [|done..].
    destruct r1 as [[s|]|e|why]; [| | |done].
    + destruct E as [He Ha]. intros [= <- <-]. rewrite Ha in *.
      assert (Hst : statusToProto (Status_ s) = st).
      { destruct (phase_at (clock 0%nat) (rdata (mw_redis w)) sid) eqn:Hb; [|by inversion He].
        by eapply statusToEvent_Ok. }
      split; [done|]. eauto.
    + destruct E as [He Ha]. rewrite Ha in He.
      apply statusToEvent_events in Hev as [->|[->| ->]]; inversion He.
    + destruct E as [He _]. intros [= <- <-]. split; [|by eauto]. destruct He; eauto.
  - assert (e = ErrInvalidTransition) as ->.
    { revert Hev. unfold statusToEvent. repeat case_match; naive_solver. }
    intros [= <- <-]. split; [left; apply phase_lasts; [lia|done]|]. by left.
  - revert Hev. unfold statusToEvent. by repeat case_match.
Qed.

(** The service cannot wake, log out or expire a sleeping session:
    every [UpdateSessionStatus] on one fails and leaves Redis unchanged. *)
Theorem sleeping_session_is_stuck (ttl : Z) (clock : nat → Z) (sid : slice) (st : Z) (w w' : MgrW C P) (r : result pb_Session) :
  0 < ttl → clock 0%nat ≤ clock 1%nat ≤ clock 2%nat → lasts (clock 0%nat) (clock 2%nat) (rdata (mw_redis w)) sid →
  phase_at (clock 0%nat) (rdata (mw_redis w)) sid = InStatus StatusSleeping →
  SessionServer_UpdateSessionStatus ttl clock sid st w = (r, w') →
  (∃ e, r = Err e) ∧ rdata (mw_redis w') = rdata (mw_redis w).
Proof.
  intros Httl Hclock Hlasts Hb. unfold SessionServer_UpdateSessionStatus.
  destruct (statusToEvent st) as [ev|e|why] eqn:Hev.
  - unfold mbind at 1, M_bind at 1. simpl.
    destruct (Manager_TransitionSession ttl clock sid ev w) as [r1 w1] eqn:E.
    rewrite (bind_run _ _ _ _ _ (status_wrap_run _ _ _ _ _ _ E)).
    apply TransitionSession_spec in E; [|done..]. rewrite Hb in E.
    assert (Hno : ∀ q, ¬ edge (InStatus StatusSleeping) ev q).
    { intros q. apply statusToEvent_events in Hev as [->|[->| ->]]; by inversion 1. }
    destruct r1 as [[s|]|e|why]; [by destruct E as [?%Hno _]..| |done].
    intros [= <- <-]. split; [eauto|]. by apply E.
  - intros [= <- <-]. eauto.
  - revert Hev. unfold statusToEvent. by repeat case_match.
Qed.

End server_properties.

(** A session put to sleep. *)
Definition sleeping_world : MgrW MemRedis (MemPg sessions) :=
  let _ := toy_codec in
  ((_ ← Manager_TransitionSession Hour (λ _, 5) (Some [xaa; xbb]) EventHandshakeOK;
    Manager_TransitionSession Hour (λ _, 6) (Some [xaa; xbb]) EventIdleTimeout) created_world).2.

Lemma update_status_rpc_witness :
  let _ := toy_codec in
  ∃ s w', SessionServer_UpdateSessionStatus Hour (λ _, 5) (Some [xaa; xbb]) SessionStatus_ACTIVE created_world = (Ok s, w') ∧
    pbs_Status s = SessionStatus_ACTIVE.
Proof.
  intros codec.
  destruct (SessionServer_UpdateSessionStatus Hour (λ _, 5) (Some [xaa; xbb]) SessionStatus_ACTIVE created_world)
    as [r w'] eqn:E.
  assert (∃ s, r = Ok s) as (s & ->).
  { change r with (r, w').1. rewrite <-E. eexists. vm_compute. reflexivity. }
  exists s, w'. split; [done|].
  exact (proj1 (update_status_rpc Hour (λ _, 5) (Some [xaa; xbb]) SessionStatus_ACTIVE created_world w' (Ok s) eq_refl
    (conj (Z.le_refl _) (Z.le_refl _)) (λ e _ He, He) E)).
Defined.

Lemma sleeping_session_is_stuck_witness :
  let _ := toy_codec in
  ∃ e w', SessionServer_UpdateSessionStatus Hour (λ _, 7) (Some [xaa; xbb]) SessionStatus_ACTIVE sleeping_world = (Err e, w').
Proof.
  intros codec.
  destruct (SessionServer_UpdateSessionStatus Hour (λ _, 7) (Some [xaa; xbb]) SessionStatus_ACTIVE sleeping_world)
    as [r w'] eqn:E.
  assert (Hb : phase_at 7 (rdata (mw_redis sleeping_world)) (Some [xaa; xbb]) = InStatus StatusSleeping)
    by (vm_compute; reflexivity).
  destruct (sleeping_session_is_stuck Hour (λ _, 7) (Some [xaa; xbb]) SessionStatus_ACTIVE sleeping_world w' r
              eq_refl (conj (Z.le_refl _) (Z.le_refl _)) (λ e _ He, He) Hb E) as [[e ->] _].
  by exists e, w'.
Defined.
