(* ===== verification/Messages.v ===== *)
(** * Application messages

    The messages of [proto/fproto/v1/app_message.proto] and the files it imports, as
    the structs that the protobuf compiler generates for them.  A nil pointer in a
    [oneof] case is [None]; a bytes field is a slice; an enumeration is open.  The
    binary encoding is a parameter ([AppCodec]): the protobuf runtime. *)
From S2P Require Import Prelude Bytes.

Local Open Scope Z_scope.

(** ** chat.proto *)

Record Attachment := mkAttachment {
  at_MimeType : string;
  at_Url : string;
  at_SizeBytes : Z;
  at_Thumbnail : slice;
}.

Record ChatMessage := mkChat {
  chat_ConversationId : slice;
  chat_SenderId : slice;
  chat_RecipientId : slice;
  chat_GroupId : slice;
  chat_Action : Z;
  chat_Text : string;
  chat_ReplyTo : slice;
  chat_Attachments : list Attachment;
}.

(** ** command.proto *)

Definition Command_COMMAND_TYPE_UNSPECIFIED : Z := 0.
Definition Command_CREATE_GROUP : Z := 1.
Definition Command_ADD_MEMBER : Z := 2.
Definition Command_REMOVE_MEMBER : Z := 3.
Definition Command_UPDATE_GROUP_SETTINGS : Z := 4.
Definition Command_BAN_MEMBER : Z := 5.
Definition Command_DELETE_MESSAGE : Z := 6.

(** [Command_CommandType.String]: the name, or the number when it has none. *)
Definition CommandType_String (t : Z) : string :=
  match t with
  | 0 => "COMMAND_TYPE_UNSPECIFIED"
  | 1 => "CREATE_GROUP"
  | 2 => "ADD_MEMBER"
  | 3 => "REMOVE_MEMBER"
  | 4 => "UPDATE_GROUP_SETTINGS"
  | 5 => "BAN_MEMBER"
  | 6 => "DELETE_MESSAGE"
  | _ => FormatInt t
  end.

Record Command := mkCommand {
  cmd_Type : Z;
  cmd_TargetId : slice;
  cmd_Payload : slice;
}.

(** ** media.proto *)

Record MediaChunk := mkMediaChunk {
  mc_StreamId : slice;
  mc_ChunkIndex : Z;
  mc_TotalChunks : Z;
  mc_Data : slice;
  mc_Hash : slice;
  mc_MimeType : string;
  mc_TotalSize : Z;
}.

(** ** ack.proto *)

Record Ack := mkAck { ack_AckMessageId : slice; ack_Status : Z }.
Record Ping := mkPing { ping_TimestampMs : Z }.
Record Pong := mkPong { pong_EchoTimestampMs : Z; pong_ServerTimestampMs : Z }.

(** ** sync.proto *)

Record SyncRequest := mkSyncRequest { sr_LastSeenMessageId : slice; sr_MaxMessages : Z }.

Record SenderKeyDistributionMsg := mkSenderKeyMsg {
  skm_GroupId : slice;
  skm_SenderId : slice;
  skm_KeyId : Z;
  skm_ChainKey : slice;
  skm_SigningKey : slice;
}.

(** ** signaling.proto *)

Record SDPMessage := mkSDP { sdp_Sdp : string; sdp_Type : string }.
Record IceCandidate := mkIce { ice_Candidate : string; ice_SdpMid : string; ice_SdpMLineIndex : Z }.
Record StreamControl := mkStreamControl {
  sc_Action : Z;
  sc_StreamId : slice;
  sc_ParticipantIds : list slice;
}.

Inductive SignalingContent :=
| Signaling_Offer (sdp : option SDPMessage)
| Signaling_Answer (sdp : option SDPMessage)
| Signaling_IceCandidate (ice : option IceCandidate)
| Signaling_StreamControl (sc : option StreamControl).

Record SignalingMessage := mkSignaling {
  sig_RecipientId : slice;
  sig_StreamId : slice;
  sig_Content : option SignalingContent;
}.

(** ** app_message.proto *)

Inductive AppBody :=
| AppMessage_Chat (c : option ChatMessage)
| AppMessage_Command (c : option Command)
| AppMessage_Media (m : option MediaChunk)
| AppMessage_Ack (a : option Ack)
| AppMessage_Ping (p : option Ping)
| AppMessage_Pong (p : option Pong)
| AppMessage_SenderKey (sk : option SenderKeyDistributionMsg)
| AppMessage_SyncRequest (s : option SyncRequest)
| AppMessage_Signaling (s : option SignalingMessage).

Record AppMessage := mkAppMessage {
  MessageId : slice;
  Timestamp : option Z;
  Body : option AppBody;
}.

(** [msg.GetChat()]: nil unless the body is a chat message. *)
Definition GetChat (m : AppMessage) : option ChatMessage :=
  match Body m with Some (AppMessage_Chat c) => c | _ => None end.

(** ** The codec *)

(** [proto.Marshal] and [proto.Unmarshal]. *)
Class AppCodec := {
  app_marshal : AppMessage → result bytes;
  app_unmarshal : bytes → result AppMessage;
}.

(** A bytes field as decoding produces it: nil when it is empty. *)
Definition canonical_slice (s : slice) : Prop := s ≠ Some [].

(** The ranges of the protobuf integer types. *)
Definition is_int32 (z : Z) : Prop := - 2 ^ 31 ≤ z < 2 ^ 31.
Definition is_uint64 (z : Z) : Prop := 0 ≤ z < 2 ^ 64.

(** A [Timestamp] message: seconds as an int64, nanoseconds within the second. *)
Definition is_timestamp (t : option Z) : Prop :=
  match t with Some t => - 2 ^ 63 ≤ Unix t < 2 ^ 63 | None => True end.

(** The messages that decoding gives back exactly: bytes fields that are nil when
    empty and the message of the [oneof] case present.  Stated for the bodies whose
    fields the services read. *)
Definition canonical (m : AppMessage) : Prop :=
  canonical_slice (MessageId m) ∧ is_timestamp (Timestamp m) ∧
  match Body m with
  | Some (AppMessage_Chat (Some c)) =>
      canonical_slice (chat_ConversationId c) ∧ canonical_slice (chat_SenderId c) ∧
      canonical_slice (chat_RecipientId c) ∧ canonical_slice (chat_GroupId c) ∧
      canonical_slice (chat_ReplyTo c) ∧ is_int32 (chat_Action c) ∧
      Forall (λ a, canonical_slice (at_Thumbnail a) ∧ is_uint64 (at_SizeBytes a)) (chat_Attachments c)
  | Some (AppMessage_Command (Some c)) =>
      is_int32 (cmd_Type c) ∧ canonical_slice (cmd_TargetId c) ∧ canonical_slice (cmd_Payload c)
  | Some (AppMessage_Ack (Some a)) => canonical_slice (ack_AckMessageId a) ∧ is_int32 (ack_Status a)
  | _ => False
  end.

Class AppCodecLaws `{AppCodec} : Prop := {
  app_roundtrip m b : canonical m → app_marshal m = Ok b → app_unmarshal b = Ok m;
  app_marshal_no_panic m why : app_marshal m ≠ Panic why;
  app_unmarshal_no_panic b why : app_unmarshal b ≠ Panic why;
}.

(** ** frame.proto *)

Record Frame := mkFrame {
  fr_SessionId : slice;
  fr_Seq : Z;
  fr_Ack : Z;
  fr_EncryptedPayload : slice;
}.

Class FrameCodec := {
  frame_marshal : Frame → result bytes;
  frame_unmarshal : bytes → result Frame;
}.

Definition canonical_frame (f : Frame) : Prop :=
  canonical_slice (fr_SessionId f) ∧ is_uint64 (fr_Seq f) ∧ is_uint64 (fr_Ack f) ∧
  canonical_slice (fr_EncryptedPayload f).

Class FrameCodecLaws `{FrameCodec} : Prop := {
  frame_roundtrip f b : canonical_frame f → frame_marshal f = Ok b → frame_unmarshal b = Ok f;
  frame_unmarshal_no_panic b why : frame_unmarshal b ≠ Panic why;
}.

(** ** A toy codec

    It encodes chat messages, commands and acknowledgements, each as the bits of a
    number. *)

Fixpoint bits_of_pos (p : positive) : bytes :=
  match p with xH => [] | xO p => x00 :: bits_of_pos p | xI p => x01 :: bits_of_pos p end.

Fixpoint pos_of_bits (b : bytes) : positive :=
  match b with [] => xH | x00 :: b => xO (pos_of_bits b) | _ :: b => xI (pos_of_bits b) end.

Notation chat_tuple := (slice * slice * slice * slice * Z * string * slice * list (string * string * Z * slice))%type.
Notation command_tuple := (Z * slice * slice)%type.
Notation ack_tuple := (slice * Z)%type.

Definition toy_tuple (m : AppMessage) : option (slice * option Z * (chat_tuple + command_tuple + ack_tuple)) :=
  match Body m with
  | Some (AppMessage_Chat (Some c)) =>
      Some (MessageId m, Timestamp m,
        inl $ inl (chat_ConversationId c, chat_SenderId c, chat_RecipientId c, chat_GroupId c, chat_Action c,
             chat_Text c, chat_ReplyTo c,
             (λ a, (at_MimeType a, at_Url a, at_SizeBytes a, at_Thumbnail a)) <$> chat_Attachments c))
  | Some (AppMessage_Command (Some c)) =>
      Some (MessageId m, Timestamp m, inl $ inr (cmd_Type c, cmd_TargetId c, cmd_Payload c))
  | Some (AppMessage_Ack (Some a)) =>
      Some (MessageId m, Timestamp m, inr (ack_AckMessageId a, ack_Status a))
  | _ => None
  end.

Definition of_toy_tuple (t : slice * option Z * (chat_tuple + command_tuple + ack_tuple)) : AppMessage :=
  let '(mid, ts, body) := t in
  mkAppMessage mid ts (Some match body with
    | inl (inl (cv, sd, rc, gr, ac, tx, rp, ats)) =>
        AppMessage_Chat (Some (mkChat cv sd rc gr ac tx rp ((λ '(m, u, s, th), mkAttachment m u s th) <$> ats)))
    | inl (inr (ty, tg, pl)) => AppMessage_Command (Some (mkCommand ty tg pl))
    | inr (mid, st) => AppMessage_Ack (Some (mkAck mid st))
    end).

Definition toy_app_codec : AppCodec := {|
  app_marshal m := match toy_tuple m with
                   | Some t => Ok (bits_of_pos (encode t))
                   | None => Err (Errorf "unsupported message")
                   end;
  app_unmarshal b := match decode (pos_of_bits b) with
                     | Some t => Ok (of_toy_tuple t)
                     | None => Err (Errorf "proto: cannot parse invalid wire-format data")
                     end;
|}.

Lemma pos_of_bits_of_pos p : pos_of_bits (bits_of_pos p) = p.
Proof. induction p as [p IH|p IH|]; simpl; by rewrite ?IH. Qed.

Lemma of_toy_tuple_inv m t : toy_tuple m = Some t → of_toy_tuple t = m.
Proof.
  destruct m as [mid ts [[[c|]|[c|]| |[c|]| | | | | ]|]]; try done; unfold toy_tuple; simpl; intros [= <-]; simpl.
  - destruct c as [cv sd rc gr ac tx rp ats]. simpl. do 5 f_equal.
    rewrite <-list_fmap_compose. etrans; [|apply list_fmap_id]. apply list_fmap_ext. by intros i [] _.
  - by destruct c.
  - by destruct c.
Qed.

Lemma toy_app_codec_laws : @AppCodecLaws toy_app_codec.
Proof.
  split; simpl.
  - intros m b _. destruct (toy_tuple m) as [t|] eqn:Ht; [|done]. intros [= <-].
    by rewrite pos_of_bits_of_pos, decode_encode, (of_toy_tuple_inv m t).
  - intros m why. by destruct (toy_tuple m).
  - intros b why. by destruct (decode _).
Qed.

Definition toy_frame_codec : FrameCodec := {|
  frame_marshal f :=
    Ok (bits_of_pos (encode (fr_SessionId f, fr_Seq f, fr_Ack f, fr_EncryptedPayload f)));
  frame_unmarshal b :=
    match decode (pos_of_bits b) with
    | Some (sid, sq, ak, p) => Ok (mkFrame sid sq ak p)
    | None => Err (Errorf "proto: cannot parse invalid wire-format data")
    end;
|}.

Lemma toy_frame_codec_laws : @FrameCodecLaws toy_frame_codec.
Proof.
  split; simpl.
  - intros [] b _ [= <-]. by rewrite pos_of_bits_of_pos, decode_encode.
  - intros b why. by destruct (decode _) as [[[[]]]|].
Qed.

(** A chat message to one user. *)
Definition example_chat (mid sender recipient : bytes) (text : string) : AppMessage :=
  mkAppMessage (Some mid) None
    (Some (AppMessage_Chat (Some (mkChat None (Some sender) (Some recipient) None 1 text None [])))).
