(* ===== verification/Kafka.v ===== *)
(** * Kafka

    [server/internal/kafka]: topic names and their creation, the producer, the
    headers that carry trace context and the consumer loop.  The broker behind
    sarama is a parameter, [KafkaCluster]: a producer call that returns an error may
    have appended the record or not. *)
From S2P Require Import Prelude Bytes.

Local Open Scope Z_scope.

(** ** topics.go *)

Definition UserPartitions : Z := 128.
Definition GroupPartitions : Z := 64.
Definition CommandPartitions : Z := 32.
Definition EventPartitions : Z := 64.
Definition MediaEventPartitions : Z := 32.
Definition DeadLetterParts : Z := 8.

Definition TopicCommands : string := "commands".
Definition TopicEvents : string := "events".
Definition TopicMediaEvents : string := "media-events".
Definition TopicDeadLetter : string := "dead-letter".

Definition UserTopic (userID : bytes) : string := "user-" +:+ EncodeToString userID.
Definition GroupTopic (groupID : bytes) : string := "group-" +:+ EncodeToString groupID.

Record TopicSpec := mkTopicSpec {
  ts_Name : string;
  ts_Partitions : Z;
  ts_Replicas : Z;
  ts_Retention : string;
}.

Definition StaticTopics (replicas : Z) : list TopicSpec := [
  mkTopicSpec TopicCommands CommandPartitions replicas "604800000";
  mkTopicSpec TopicEvents EventPartitions replicas "7776000000";
  mkTopicSpec TopicMediaEvents MediaEventPartitions replicas "2592000000";
  mkTopicSpec TopicDeadLetter DeadLetterParts replicas "7776000000"
].

(** [sarama.TopicDetail] *)
Record TopicDetail := mkTopicDetail {
  NumPartitions : Z;
  ReplicationFactor : Z;
  ConfigEntries : gmap string string;
}.

(** [sarama.RecordHeader] and [sarama.ProducerMessage]; a nil key or value is [None]. *)
Record RecordHeader := mkHeader { h_Key : bytes; h_Value : bytes }.

Record ProducerMessage := mkProducerMessage {
  pm_Topic : string;
  pm_Key : slice;
  pm_Value : slice;
  pm_Headers : list RecordHeader;
}.

(** The broker: the topics it has and the records it holds, oldest first. *)
Class KafkaCluster (K : Type) := {
  ktopics : K → gmap string TopicDetail;
  klog : K → list ProducerMessage;
  ListTopics : M K (gmap string TopicDetail);
  CreateTopic : string → TopicDetail → M K unit;
  sp_SendMessage : ProducerMessage → M K (Z * Z);
}.

Class KafkaLaws (K : Type) `{KafkaCluster K} : Prop := {
  ListTopics_Ok k t k' : ListTopics k = (Ok t, k') → t = ktopics k;
  ListTopics_data k r k' : ListTopics k = (r, k') → ktopics k' = ktopics k ∧ klog k' = klog k;
  ListTopics_no_panic k why k' : ListTopics k ≠ (Panic why, k');
  CreateTopic_Ok name d k k' : CreateTopic name d k = (Ok tt, k') →
    ktopics k !! name = None ∧ ktopics k' = <[name := d]> (ktopics k);
  CreateTopic_Err name d k e k' : CreateTopic name d k = (Err e, k') →
    ktopics k' = ktopics k ∨ (ktopics k !! name = None ∧ ktopics k' = <[name := d]> (ktopics k));
  CreateTopic_log name d k r k' : CreateTopic name d k = (r, k') → klog k' = klog k;
  CreateTopic_no_panic name d k why k' : CreateTopic name d k ≠ (Panic why, k');
  SendMessage_Ok m k a k' : sp_SendMessage m k = (Ok a, k') → klog k' = klog k ++ [m];
  SendMessage_Err m k e k' : sp_SendMessage m k = (Err e, k') → klog k' = klog k ∨ klog k' = klog k ++ [m];
  SendMessage_no_panic m k why k' : sp_SendMessage m k ≠ (Panic why, k');
}.

Section topics.
Context {K : Type} `{KafkaCluster K}.

Definition detail_of (spec : TopicSpec) : TopicDetail :=
  mkTopicDetail (ts_Partitions spec) (ts_Replicas spec)
    (if bool_decide (ts_Retention spec = "") then ∅ else {[ "retention.ms" := ts_Retention spec ]}).

(** The body of the loop of [EnsureTopics]; [existing] is the list read once, before
    the loop. *)
Definition ensure_topic (existing : gmap string TopicDetail) (spec : TopicSpec) : M K unit :=
  match existing !! ts_Name spec with
  | Some _ => mret tt
  | None => wrap "create topic %s" (CreateTopic (ts_Name spec) (detail_of spec))
  end.

Definition EnsureTopics (specs : list TopicSpec) : M K unit :=
  existing ← wrap "list topics" ListTopics;
  for_each (ensure_topic existing) specs.

Definition EnsureDynamicTopic (name : string) (partitions replicas : Z) : M K unit :=
  existing ← wrap "list topics" ListTopics;
  match existing !! name with
  | Some _ => mret tt
  | None =>
      CreateTopic name (mkTopicDetail partitions replicas {[ "retention.ms" := "2592000000" ]})
  end.

End topics.

(** ** tracing.go *)

Fixpoint ProducerHeaderCarrier_Get (headers : list RecordHeader) (key : bytes) : bytes :=
  match headers with
  | [] => []
  | h :: hs => if bool_decide (h_Key h = key) then h_Value h else ProducerHeaderCarrier_Get hs key
  end.

(** The first header with the key is overwritten; otherwise one is appended. *)
Fixpoint ProducerHeaderCarrier_Set (key value : bytes) (headers : list RecordHeader) : list RecordHeader :=
  match headers with
  | [] => [mkHeader key value]
  | h :: hs => if bool_decide (h_Key h = key) then mkHeader (h_Key h) value :: hs
               else h :: ProducerHeaderCarrier_Set key value hs
  end.

Definition ProducerHeaderCarrier_Keys (headers : list RecordHeader) : list bytes := h_Key <$> headers.

(** The consumer's headers are pointers, possibly nil. *)
Fixpoint ConsumerHeaderCarrier_Get (headers : list (option RecordHeader)) (key : bytes) : bytes :=
  match headers with
  | [] => []
  | Some h :: hs => if bool_decide (h_Key h = key) then h_Value h else ConsumerHeaderCarrier_Get hs key
  | None :: hs => ConsumerHeaderCarrier_Get hs key
  end.

Definition ConsumerHeaderCarrier_Set (key value : bytes) (headers : list (option RecordHeader)) :
    list (option RecordHeader) := headers.

Definition ConsumerHeaderCarrier_Keys (headers : list (option RecordHeader)) : list bytes :=
  omap (fmap h_Key) headers.

(** The OpenTelemetry propagator: the pairs it sets for a context, and what it makes
    of a context and a way to read headers. *)
Class Propagator (Ctx : Type) := {
  background : Ctx;
  inject_pairs : Ctx → list (bytes * bytes);
  extract : Ctx → (bytes → bytes) → Ctx;
}.

Definition InjectTraceContext {Ctx} `{Propagator Ctx} (ctx : Ctx) (headers : list RecordHeader) :
    list RecordHeader :=
  foldl (λ hs kv, ProducerHeaderCarrier_Set kv.1 kv.2 hs) headers (inject_pairs ctx).

Definition ExtractTraceContext {Ctx} `{Propagator Ctx} (ctx : Ctx) (headers : list (option RecordHeader)) :
    Ctx := extract ctx (ConsumerHeaderCarrier_Get headers).

(** ** producer.go *)

Section producer.
Context {K Ctx : Type} `{KafkaCluster K} `{Propagator Ctx}.

Definition Producer_SendWithContext (ctx : Ctx) (topic : string) (key value : slice) : M K (Z * Z) :=
  sp_SendMessage (mkProducerMessage topic key value (InjectTraceContext ctx [])).

Definition Producer_Send (topic : string) (key value : slice) : M K (Z * Z) :=
  Producer_SendWithContext background topic key value.

End producer.

(** [Producer.Close] under its mutex: the flag, and whether the sarama producer is
    closed by this call. *)
Definition Producer_Close {K} (sp_Close : M K unit) : M (K * bool) unit := λ '(k, closed),
  if (closed : bool) then (Ok tt, (k, true))
  else let '(r, k') := sp_Close k in (r, (k', true)).

(** ** consumer.go *)

Record ConsumerMessage := mkConsumerMessage {
  cm_Topic : string;
  cm_Partition : Z;
  cm_Offset : Z;
  cm_Key : slice;
  cm_Value : slice;
  cm_Headers : list (option RecordHeader);
}.

(** A consumer session on one partition: the next offset marked for commit.  sarama
    never moves it backwards. *)
Definition MarkMessage (msg : ConsumerMessage) (marked : Z) : Z :=
  if marked <? cm_Offset msg + 1 then cm_Offset msg + 1 else marked.

Section consumer.
Context {W : Type} (handler : ConsumerMessage → M W unit).

(** The loop of [ConsumeClaim] over the messages the claim delivers; the spans and
    log lines are left out.  A panic of the handler ends it. *)
Fixpoint ConsumeClaim (msgs : list ConsumerMessage) : M (W * Z) unit := λ '(w, marked),
  match msgs with
  | [] => (Ok tt, (w, marked))
  | msg :: rest =>
      match handler msg w with
      | (Err _, w') => ConsumeClaim rest (w', marked)
      | (Ok _, w') => ConsumeClaim rest (w', MarkMessage msg marked)
      | (Panic why, w') => (Panic why, (w', marked))
      end
  end.

End consumer.

(** ** An in-memory broker with scripted faults *)

Record MemKafka := mkMemKafka {
  mk_topics : gmap string TopicDetail;
  mk_log : list ProducerMessage;
  mk_faults : list fault;
}.

Definition mk_ListTopics : M MemKafka (gmap string TopicDetail) := λ k,
  let k' := mkMemKafka (mk_topics k) (mk_log k) (tail (mk_faults k)) in
  match default NoFault (head (mk_faults k)) with
  | NoFault => (Ok (mk_topics k), k')
  | _ => (Err (Errorf "broker unavailable"), k')
  end.

Definition mk_CreateTopic (name : string) (d : TopicDetail) : M MemKafka unit := λ k,
  let rest := tail (mk_faults k) in
  let same := mkMemKafka (mk_topics k) (mk_log k) rest in
  let added := mkMemKafka (<[name := d]> (mk_topics k)) (mk_log k) rest in
  match mk_topics k !! name, default NoFault (head (mk_faults k)) with
  | Some _, _ => (Err (Errorf "topic already exists"), same)
  | None, NoFault => (Ok tt, added)
  | None, RequestLost => (Err (Errorf "connection reset"), same)
  | None, ReplyLost => (Err (Errorf "i/o timeout"), added)
  end.

Definition mk_SendMessage (m : ProducerMessage) : M MemKafka (Z * Z) := λ k,
  let rest := tail (mk_faults k) in
  let same := mkMemKafka (mk_topics k) (mk_log k) rest in
  let sent := mkMemKafka (mk_topics k) (mk_log k ++ [m]) rest in
  match default NoFault (head (mk_faults k)) with
  | NoFault => (Ok (0, Z.of_nat (length (mk_log k))), sent)
  | RequestLost => (Err (Errorf "connection reset"), same)
  | ReplyLost => (Err (Errorf "i/o timeout"), sent)
  end.

#[export] Instance MemKafka_cluster : KafkaCluster MemKafka := {|
  ktopics := mk_topics;
  klog := mk_log;
  ListTopics := mk_ListTopics;
  CreateTopic := mk_CreateTopic;
  sp_SendMessage := mk_SendMessage;
|}.

(** A propagator that carries one header. *)
#[export] Instance toy_propagator : Propagator bytes := {|
  background := [];
  inject_pairs ctx := if bool_decide (ctx = []) then [] else [([x74], ctx)];
  extract ctx get := get [x74];
|}.

(** ** Lemmas *)

#[export] Instance MemKafka_laws : KafkaLaws MemKafka.
Proof.
  split; simpl; unfold mk_ListTopics, mk_CreateTopic, mk_SendMessage; intros;
    repeat case_match; simplify_eq/=; eauto.
Qed.

#[export] Instance UserTopic_inj : Inj (=) (=) UserTopic.
Proof. intros a b H. unfold UserTopic in H. by simplify_eq. Qed.

#[export] Instance GroupTopic_inj : Inj (=) (=) GroupTopic.
Proof. intros a b H. unfold GroupTopic in H. by simplify_eq. Qed.

Lemma UserTopic_GroupTopic a b : UserTopic a ≠ GroupTopic b.
Proof. done. Qed.

Definition static_topic (t : string) : Prop :=
  t = TopicCommands ∨ t = TopicEvents ∨ t = TopicMediaEvents ∨ t = TopicDeadLetter.

Lemma UserTopic_not_static u : ¬ static_topic (UserTopic u).
Proof. by intros [|[|[|]]]. Qed.

Lemma GroupTopic_not_static g : ¬ static_topic (GroupTopic g).
Proof. by intros [|[|[|]]]. Qed.

Section kafka_lemmas.
Context {K : Type} `{KafkaLaws K}.

Lemma SendMessage_log m (k : K) r k' :
  sp_SendMessage m k = (r, k') →
  match r with
  | Ok _ => klog k' = klog k ++ [m]
  | Err _ => klog k' = klog k ∨ klog k' = klog k ++ [m]
  | Panic _ => False
  end.
Proof.
  destruct r; [by apply SendMessage_Ok|by apply SendMessage_Err|intros E; by apply SendMessage_no_panic in E].
Qed.

(** One topic of [EnsureTopics]. *)
Lemma ensure_topic_Ok existing spec (k k' : K) :
  ensure_topic existing spec k = (Ok tt, k') →
  ktopics k' = match existing !! ts_Name spec with
               | Some _ => ktopics k
               | None => <[ts_Name spec := detail_of spec]> (ktopics k)
               end ∧
  klog k' = klog k.
Proof.
  unfold ensure_topic. destruct (existing !! ts_Name spec); [by intros [= <-]|].
  intros E%wrap_Ok_inv. split; [by apply CreateTopic_Ok in E as [_ ?]|by eapply CreateTopic_log].
Qed.

(** The topics after a successful loop. *)
Lemma ensure_loop_Ok existing specs (k k' : K) name :
  NoDup (ts_Name <$> specs) →
  for_each (ensure_topic existing) specs k = (Ok tt, k') →
  ktopics k' !! name =
    match existing !! name, list_find (λ s, ts_Name s = name) specs with
    | None, Some (_, spec) => Some (detail_of spec)
    | _, _ => ktopics k !! name
    end.
Proof.
  revert k. induction specs as [|spec specs IH]; intros k Hnd E.
  { simpl in E. unfold mret, M_ret in E. simplify_eq. simpl. by destruct (existing !! name). }
  simpl in E. apply bind_Ok_inv in E as ([] & k1 & E1 & E2).
  apply NoDup_cons in Hnd as [Hni Hnd]. apply ensure_topic_Ok in E1 as [E1 _].
  rewrite (IH k1 Hnd E2). simpl. rewrite E1. case_decide as Hn.
  - subst name. assert (list_find (λ s, ts_Name s = ts_Name spec) specs = None) as ->.
    { apply list_find_None, Forall_forall. intros s Hs Heq. apply Hni. rewrite <-Heq.
      by apply list_elem_of_fmap_2. }
    destruct (existing !! ts_Name spec); [done|]. by rewrite lookup_insert_eq.
  - destruct (existing !! name) eqn:He; [|].
    + destruct (existing !! ts_Name spec); [done|]. by rewrite lookup_insert_ne.
    + destruct (list_find (λ s, ts_Name s = name) specs) as [[]|]; simpl; [done|].
      destruct (existing !! ts_Name spec); [done|]. by rewrite lookup_insert_ne.
Qed.

End kafka_lemmas.

Lemma carrier_get_set hs k v k' :
  ProducerHeaderCarrier_Get (ProducerHeaderCarrier_Set k v hs) k' =
  if bool_decide (k = k') then v else ProducerHeaderCarrier_Get hs k'.
Proof.
  induction hs as [|h hs IH]; simpl; [by repeat case_bool_decide|].
  destruct (decide (h_Key h = k)) as [<-|Hne].
  - rewrite (bool_decide_true (h_Key h = h_Key h)) by done. simpl. by case_bool_decide.
  - rewrite (bool_decide_false (h_Key h = k)) by done. simpl. rewrite IH. repeat case_bool_decide; naive_solver.
Qed.

(** The consumer reads the headers the producer wrote. *)
Lemma carrier_consumer hs k :
  ConsumerHeaderCarrier_Get (Some <$> hs) k = ProducerHeaderCarrier_Get hs k.
Proof. induction hs as [|h hs IH]; simpl; [done|]. by case_bool_decide. Qed.

(** The value a list of settings leaves at a key. *)
Fixpoint last_value (pairs : list (bytes * bytes)) (k : bytes) : option bytes :=
  match pairs with
  | [] => None
  | (k', v) :: ps => match last_value ps k with
                     | Some v' => Some v'
                     | None => if bool_decide (k' = k) then Some v else None
                     end
  end.

Lemma inject_get pairs hs k :
  ProducerHeaderCarrier_Get (foldl (λ hs kv, ProducerHeaderCarrier_Set kv.1 kv.2 hs) hs pairs) k =
  default (ProducerHeaderCarrier_Get hs k) (last_value pairs k).
Proof.
  revert hs. induction pairs as [|[k' v] pairs IH]; intros hs; [done|]. simpl.
  rewrite IH. destruct (last_value pairs k); simpl; [done|]. rewrite carrier_get_set. by case_bool_decide.
Qed.

Lemma MarkMessage_ge msg marked : marked ≤ MarkMessage msg marked ∧ cm_Offset msg < MarkMessage msg marked.
Proof. unfold MarkMessage. destruct (Z.ltb_spec marked (cm_Offset msg + 1)); lia. Qed.

Section consumer_lemmas.
Context {W : Type} (handler : ConsumerMessage → M W unit).

Lemma ConsumeClaim_app msgs1 msgs2 s s' :
  ConsumeClaim handler (msgs1 ++ msgs2) s = (Ok tt, s') →
  ∃ s1, ConsumeClaim handler msgs1 s = (Ok tt, s1) ∧ ConsumeClaim handler msgs2 s1 = (Ok tt, s').
Proof.
  revert s. induction msgs1 as [|m msgs1 IH]; intros [w mk] E; [by eexists|].
  simpl in *. destruct (handler m w) as [[[]|e|why] w1]; [by apply IH in E..|done].
Qed.

Lemma ConsumeClaim_ge msgs s s' r : ConsumeClaim handler msgs s = (r, s') → s.2 ≤ s'.2.
Proof.
  revert s. induction msgs as [|m msgs IH]; intros [w mk] E; simpl in *; [by simplify_eq|].
  destruct (handler m w) as [[[]|e|why] w1]; [apply IH in E..|by simplify_eq]; simpl in E; [|done].
  pose proof (MarkMessage_ge m mk). lia.
Qed.

End consumer_lemmas.

(** ** Properties *)

(** After a successful [EnsureTopics] every topic of the list exists, the
    ones that were missing with the partitions, replicas and retention of their
    specification; topics that existed keep their settings, and no other topic is
    created.  The static topics have distinct names, so this covers them. *)
Theorem ensure_topics_spec {K} `{KafkaLaws K} (specs : list TopicSpec) (k k' : K) (name : string) :
  NoDup (ts_Name <$> specs) →
  EnsureTopics specs k = (Ok tt, k') →
  ktopics k' !! name =
    match ktopics k !! name, list_find (λ s, ts_Name s = name) specs with
    | None, Some (_, spec) => Some (detail_of spec)
    | r, _ => r
    end.
Proof.
  intros Hnd E. apply bind_Ok_inv in E as (existing & k1 & E1%wrap_Ok_inv & E2).
  pose proof (ListTopics_Ok _ _ _ E1) as ->. apply ListTopics_data in E1 as [Hk1 _].
  rewrite (ensure_loop_Ok _ _ _ _ name Hnd E2), Hk1.
  destruct (ktopics k !! name) eqn:Hn; [done|].
  by destruct (list_find _ specs) as [[]|].
Qed.

Lemma ensure_topics_spec_witness :
  ∃ k', EnsureTopics (StaticTopics 3) (mkMemKafka ∅ [] []) = (Ok tt, k') ∧
    ktopics k' !! TopicEvents = Some (mkTopicDetail 64 3 {[ "retention.ms" := "7776000000" ]}).
Proof.
  destruct (EnsureTopics (StaticTopics 3) (mkMemKafka ∅ [] [])) as [r k'] eqn:E.
  assert (r = Ok tt) as -> by (change r with (r, k').1; rewrite <-E; vm_compute; reflexivity).
  exists k'. split; [done|].
  assert (Hnd : NoDup (ts_Name <$> StaticTopics 3)) by (apply (bool_decide_unpack _); vm_compute; exact I).
  rewrite (ensure_topics_spec (StaticTopics 3) (mkMemKafka ∅ [] []) k' TopicEvents Hnd E).
  vm_compute. reflexivity.
Defined.

(** The trace context survives the trip: what a consumer reads for a key
    from the headers of a message is the last value that the producer's propagator
    set for it, and the empty string when it set none. *)
Theorem trace_headers_roundtrip {Ctx} `{Propagator Ctx} (ctx : Ctx) (k : bytes) :
  ConsumerHeaderCarrier_Get (Some <$> InjectTraceContext ctx []) k = default [] (last_value (inject_pairs ctx) k).
Proof. unfold InjectTraceContext. by rewrite carrier_consumer, inject_get. Qed.

(** A message whose handler returns an error is passed over as soon as a
    later message of the claim succeeds: the marked offset is then beyond it. *)
Theorem failed_message_passed_over {W} (handler : ConsumerMessage → M W unit)
    (pre mid post : list ConsumerMessage) (bad good : ConsumerMessage) (w w1 w2 w' : W) (m0 m1 m2 marked : Z)
    (e : error) :
  ConsumeClaim handler pre (w, m0) = (Ok tt, (w1, m1)) →
  (handler bad w1).1 = Err e →
  ConsumeClaim handler mid ((handler bad w1).2, m1) = (Ok tt, (w2, m2)) →
  (handler good w2).1 = Ok tt →
  cm_Offset bad < cm_Offset good →
  ConsumeClaim handler (pre ++ bad :: mid ++ good :: post) (w, m0) = (Ok tt, (w', marked)) →
  cm_Offset bad < marked.
Proof.
  intros Epre Ebad Emid Egood Hoff E.
  apply ConsumeClaim_app in E as (s1 & E1 & E). rewrite Epre in E1. simplify_eq. simpl in E.
  destruct (handler bad w1) as [rb wb]. simplify_eq/=.
  apply ConsumeClaim_app in E as (s2 & E2 & E). rewrite Emid in E2. simplify_eq. simpl in E.
  destruct (handler good w2) as [rg wg]. simplify_eq/=.
  apply ConsumeClaim_ge in E. simpl in E. pose proof (MarkMessage_ge good m2). lia.
Qed.

Lemma failed_message_passed_over_witness :
  let h (m : ConsumerMessage) : M unit unit :=
    if cm_Offset m =? 7 then throw (Errorf "insert failed") else mret tt in
  let bad := mkConsumerMessage "user-01" 0 7 None None [] in
  let good := mkConsumerMessage "user-01" 0 8 None None [] in
  cm_Offset bad < (ConsumeClaim h [bad; good] (tt, 7)).2.2.
Proof.
  intros h bad good.
  exact (failed_message_passed_over h [] [] [] bad good tt tt tt tt 7 7 7 9 (Errorf "insert failed")
           eq_refl eq_refl eq_refl eq_refl eq_refl eq_refl).
Defined.
