(* ===== verification/Outbox.v ===== *)
(** * The transactional outbox

    [server/internal/outbox]: messages are inserted into a table, and a relay polls
    it and publishes the pending rows to Kafka, moving a row that keeps failing to
    the dead-letter topic.  [relay_next] cuts the relay into the calls it makes, so
    that several relays and the clients that insert rows can be interleaved. *)
From S2P Require Import Prelude Bytes Postgres Kafka.

Local Open Scope Z_scope.

Module Outbox.

(** ** model.go *)

Definition StatusPending : string := "pending".
Definition StatusPublished : string := "published".
Definition StatusFailed : string := "failed".

Record Entry := mkEntry {
  ID : Z;
  MessageID : slice;
  Topic : string;
  PartitionKey : slice;
  Payload : slice;
  Status : string;
  RetryCount : Z;
  CreatedAt : Z;
  PublishedAt : option Z;
}.

(** ** store.go *)

(** A row of the table [outbox]. *)
Record row := mkRow {
  row_message_id : bytes;
  row_topic : string;
  row_partition_key : bytes;
  row_payload : bytes;
  row_status : string;
  row_retry_count : Z;
  row_created_at : Z;
  row_published_at : option Z;
}.

(** The table by its primary key, and the sequence of the BIGSERIAL column. *)
Record db := mkDb { rows : gmap Z row; next_id : Z }.

(** [message_id BYTEA UNIQUE] *)
Definition has_message (message_id : bytes) (d : db) : bool :=
  bool_decide (map_Exists (λ _ r, row_message_id r = message_id) (rows d)).

(** A failed insert has still used up a number of the sequence. *)
Definition insert_stmt (now : Z) (e : Entry) : stmt db unit := λ d,
  let burnt := mkDb (rows d) (next_id d + 1) in
  match MessageID e, PartitionKey e, Payload e with
  | Some mid, Some key, Some payload =>
      if has_message mid d then (Err (unique_violation "outbox_message_id_key"), burnt)
      else (Ok tt, mkDb (<[next_id d := mkRow mid (Topic e) key payload StatusPending 0 (pg_time now) None]>
                           (rows d)) (next_id d + 1))
  | _, _, _ => (Err (not_null_violation "outbox"), burnt)
  end.

Definition entry_of_row (id : Z) (r : row) : Entry :=
  mkEntry id (Some (row_message_id r)) (row_topic r) (Some (row_partition_key r)) (Some (row_payload r))
    (row_status r) (row_retry_count r) (row_created_at r) (row_published_at r).

Definition alter_rows (f : row → row) (id : Z) (d : db) : db := mkDb (alter f id (rows d)) (next_id d).

Definition set_published (now : Z) (r : row) : row :=
  mkRow (row_message_id r) (row_topic r) (row_partition_key r) (row_payload r) StatusPublished
    (row_retry_count r) (row_created_at r) (Some (pg_time now)).

Definition set_failed (r : row) : row :=
  mkRow (row_message_id r) (row_topic r) (row_partition_key r) (row_payload r) StatusFailed
    (row_retry_count r) (row_created_at r) (row_published_at r).

Definition add_retry (r : row) : row :=
  mkRow (row_message_id r) (row_topic r) (row_partition_key r) (row_payload r) (row_status r)
    (row_retry_count r + 1) (row_created_at r) (row_published_at r).

(** [retry_count INT]: the addition fails when it overflows. *)
Definition increment_stmt (id : Z) : stmt db unit := λ d,
  match rows d !! id with
  | Some r => if row_retry_count r =? 2 ^ 31 - 1 then (Err (Errorf "integer out of range"), d)
              else (Ok tt, alter_rows add_retry id d)
  | None => (Ok tt, d)
  end.

(** [WHERE status = 'pending' ORDER BY created_at LIMIT limit] *)
Definition pending_entries `{SqlOrder} (limit : Z) (d : db) : list Entry :=
  take (Z.to_nat limit)
    (order_by CreatedAt
       ((λ '(id, r), entry_of_row id r) <$>
          filter (λ '(_, r), row_status r = StatusPending) (map_to_list (rows d)))).

Section store.
Context {P : Type} `{PgPool P db} `{SqlOrder}.

Definition Store_Migrate : M P unit := pg_exec migrate_stmt.

Definition Store_Insert (now : Z) (e : Entry) : M P unit := pg_exec (insert_stmt now e).

Definition Store_FetchPending (limit : Z) : M P (list Entry) := pg_exec (query_stmt (pending_entries limit)).

Definition Store_MarkPublished (now id : Z) : M P unit :=
  pg_exec (update_stmt (alter_rows (set_published now) id)).

Definition Store_MarkFailed (id : Z) : M P unit := pg_exec (update_stmt (alter_rows set_failed id)).

Definition Store_IncrementRetry (id : Z) : M P unit := pg_exec (increment_stmt id).

Definition Store_GetByMessageID (messageID : slice) : M P Entry :=
  r ← wrap "outbox entry not found"
        (pg_exec (query_stmt (λ d, head (filter (λ e, MessageID e = messageID ∧ messageID ≠ None)
                                           ((λ '(id, r), entry_of_row id r) <$> map_to_list (rows d))))));
  match r with
  | Some e => mret e
  | None => throw (Wrap "outbox entry not found" (Errorf "no rows in result set"))
  end.

End store.

(** ** relay.go *)

Definition DefaultPollInterval : Z := 500 * Millisecond.
Definition DefaultBatchSize : Z := 100.
Definition MaxRetries : Z := 5.

(** What the relay talks to: the pool of the store and the producer. *)
Record RelayW (P K : Type) := mkRelayW { rl_pg : P; rl_kafka : K }.
Arguments mkRelayW {P K} _ _.
Arguments rl_pg {P K} _.
Arguments rl_kafka {P K} _.

Section relay.
Context {P K Ctx : Type} `{PgPool P db} `{SqlOrder} `{KafkaCluster K} `{Propagator Ctx}.

Definition on_pg {A} (m : M P A) : M (RelayW P K) A := zoom rl_pg (λ p w, mkRelayW p (rl_kafka w)) m.
Definition on_kafka {A} (m : M K A) : M (RelayW P K) A := zoom rl_kafka (λ k w, mkRelayW (rl_pg w) k) m.

Definition Relay_publish (now : Z) (e : Entry) : M (RelayW P K) unit :=
  _ ← on_kafka (Producer_Send (Topic e) (PartitionKey e) (Payload e));
  on_pg (Store_MarkPublished now (ID e)).

Definition Relay_PublishOne (now : Z) (e : Entry) : M (RelayW P K) unit := Relay_publish now e.

Definition Relay_sendToDeadLetter (e : Entry) : M (RelayW P K) unit :=
  r ← attempt (on_kafka (Producer_Send TopicDeadLetter (Some (bytes_of_string (Topic e))) (Payload e)));
  match r.1 with
  | Some _ => mret tt
  | None => ignore (on_pg (Store_MarkFailed (ID e)))
  end.

(** The body of the loop of [poll]. *)
Definition Relay_poll_entry (now : Z) (e : Entry) : M (RelayW P K) unit :=
  r ← attempt (Relay_publish now e);
  match r.1 with
  | None => mret tt
  | Some _ =>
      _ ← ignore (on_pg (Store_IncrementRetry (ID e)));
      if MaxRetries <=? RetryCount e + 1 then Relay_sendToDeadLetter e else mret tt
  end.

Definition Relay_poll (now batch : Z) : M (RelayW P K) unit :=
  r ← attempt (on_pg (Store_FetchPending batch));
  match r with
  | (None, Some entries) => for_each (Relay_poll_entry now) entries
  | _ => mret tt
  end.

(** [Run]: one [poll] for each tick that the ticker delivers before the context is
    cancelled. *)
Definition Relay_Run (ticks : list Z) : M (RelayW P K) unit :=
  for_each (λ now, Relay_poll now DefaultBatchSize) ticks.

(** ** The relay call by call *)

(** Where a relay is: waiting for a tick, about to publish the first entry of a
    list, or between the calls for one entry. *)
Inductive relay_pc :=
| RIdle
| RWork (es : list Entry)
| RMark (e : Entry) (es : list Entry)
| RRetry (e : Entry) (es : list Entry)
| RDead (e : Entry) (es : list Entry)
| RBury (e : Entry) (es : list Entry).

Definition relay_next (now batch : Z) (pc : relay_pc) : M (RelayW P K) relay_pc :=
  match pc with
  | RIdle =>
      r ← attempt (on_pg (Store_FetchPending batch));
      mret (match r with (None, Some es) => RWork es | _ => RIdle end)
  | RWork [] => mret RIdle
  | RWork (e :: es) =>
      r ← attempt (on_kafka (Producer_Send (Topic e) (PartitionKey e) (Payload e)));
      mret (match r.1 with None => RMark e es | Some _ => RRetry e es end)
  | RMark e es =>
      r ← attempt (on_pg (Store_MarkPublished now (ID e)));
      mret (match r.1 with None => RWork es | Some _ => RRetry e es end)
  | RRetry e es =>
      _ ← ignore (on_pg (Store_IncrementRetry (ID e)));
      mret (if MaxRetries <=? RetryCount e + 1 then RDead e es else RWork es)
  | RDead e es =>
      r ← attempt (on_kafka (Producer_Send TopicDeadLetter (Some (bytes_of_string (Topic e))) (Payload e)));
      mret (match r.1 with None => RBury e es | Some _ => RWork es end)
  | RBury e es =>
      _ ← ignore (on_pg (Store_MarkFailed (ID e)));
      mret (RWork es)
  end.

(** The relays of a deployment and the clients that insert entries, interleaved. *)
Inductive outbox_step : RelayW P K * list relay_pc → RelayW P K * list relay_pc → Prop :=
| step_relay i pc pc' now batch w w' pcs :
    pcs !! i = Some pc →
    relay_next now batch pc w = (Ok pc', w') →
    outbox_step (w, pcs) (w', <[i := pc']> pcs)
| step_insert now e r w w' pcs :
    on_pg (Store_Insert now e) w = (r, w') →
    outbox_step (w, pcs) (w', pcs).

End relay.

(** ** What a row promises *)

(** The part of a row that never changes. *)
Definition content (r : row) : bytes * string * bytes * bytes * Z :=
  (row_message_id r, row_topic r, row_partition_key r, row_payload r, row_created_at r).

Section promises.
Context {Ctx : Type} `{Propagator Ctx}.

(** The record published for an entry, and the one sent to the dead-letter topic. *)
Definition sent (e : Entry) : ProducerMessage :=
  mkProducerMessage (Topic e) (PartitionKey e) (Payload e) (InjectTraceContext background []).

Definition dead (e : Entry) : ProducerMessage :=
  mkProducerMessage TopicDeadLetter (Some (bytes_of_string (Topic e))) (Payload e)
    (InjectTraceContext background []).

(** A row marked published was published, a row marked failed is in the dead-letter
    topic. *)
Definition row_delivered (log : list ProducerMessage) (id : Z) (r : row) : Prop :=
  (row_status r = StatusPublished → sent (entry_of_row id r) ∈ log) ∧
  (row_status r = StatusFailed → dead (entry_of_row id r) ∈ log).

Definition delivered (d : db) (log : list ProducerMessage) : Prop := map_Forall (row_delivered log) (rows d).

(** The sequence is ahead of every row. *)
Definition ids_fresh (d : db) : Prop := map_Forall (λ id _, id < next_id d) (rows d).

(** An entry read from the table: its row is still there with the same content. *)
Definition tracks (d : db) (e : Entry) : Prop :=
  ∃ r, rows d !! ID e = Some r ∧ sent (entry_of_row (ID e) r) = sent e ∧ dead (entry_of_row (ID e) r) = dead e.

Definition pc_ok (d : db) (log : list ProducerMessage) (pc : relay_pc) : Prop :=
  match pc with
  | RIdle => True
  | RWork es => Forall (tracks d) es
  | RMark e es => tracks d e ∧ Forall (tracks d) es ∧ sent e ∈ log
  | RRetry e es | RDead e es => tracks d e ∧ Forall (tracks d) es
  | RBury e es => tracks d e ∧ Forall (tracks d) es ∧ dead e ∈ log
  end.

(** What every call guarantees to the others: rows stay, with their content, and
    records are only appended. *)
Definition evolves (d d' : db) : Prop :=
  ∀ id r, rows d !! id = Some r → ∃ r', rows d' !! id = Some r' ∧ content r' = content r.

Definition table_ok (d : db) (log : list ProducerMessage) : Prop := delivered d log ∧ ids_fresh d.

(** ** Lemmas *)

#[export] Instance evolves_preorder : PreOrder evolves.
Proof.
  split; [intros d id r ?; eauto|]. intros d1 d2 d3 H1 H2 id r (r2 & Hr2 & Hc2)%H1.
  apply H2 in Hr2 as (r3 & ? & ?). exists r3. by split; [|congruence].
Qed.

Lemma content_messages id r r' :
  content r' = content r →
  sent (entry_of_row id r') = sent (entry_of_row id r) ∧ dead (entry_of_row id r') = dead (entry_of_row id r).
Proof. unfold content, sent, dead. intros [= H1 H2 H3 H4 H5]. simpl. by rewrite H2, H3, H4. Qed.

Lemma tracks_evolves d d' e : evolves d d' → tracks d e → tracks d' e.
Proof.
  intros Hev (r & Hr & Hs & Hd). apply Hev in Hr as (r' & Hr' & Hc). exists r'.
  apply (content_messages (ID e)) in Hc as [-> ->]. done.
Qed.

Lemma pc_ok_evolves d d' log log' pc : evolves d d' → log ⊆ log' → pc_ok d log pc → pc_ok d' log' pc.
Proof.
  intros Hev Hlog. assert (∀ es, Forall (tracks d) es → Forall (tracks d') es) as Hes.
  { intros es He. eapply Forall_impl; [exact He|]. eauto using tracks_evolves. }
  destruct pc; simpl; naive_solver eauto using tracks_evolves.
Qed.

Lemma row_delivered_log log log' id r : log ⊆ log' → row_delivered log id r → row_delivered log' id r.
Proof. unfold row_delivered. set_solver. Qed.

Lemma table_ok_log d log log' : log ⊆ log' → table_ok d log → table_ok d log'.
Proof.
  intros Hlog [Hd Hf]. split; [|done].
  intros id r Hr. eapply row_delivered_log; [done|]. by apply Hd.
Qed.

(** A change of one row that keeps its content and does not claim a delivery that
    did not happen. *)
Definition honest (log : list ProducerMessage) (id : Z) (f : row → row) (d : db) : Prop :=
  ∀ r, rows d !! id = Some r → content (f r) = content r ∧ (row_delivered log id r → row_delivered log id (f r)).

Lemma alter_rows_ok log id f d :
  honest log id f d → evolves d (alter_rows f id d) ∧ (table_ok d log → table_ok (alter_rows f id d) log).
Proof.
  intros Hf. split.
  - intros id' r Hr. simpl. destruct (decide (id = id')) as [<-|Hne].
    + exists (f r). rewrite lookup_alter_eq, Hr. simpl. split; [done|]. by apply Hf.
    + exists r. by rewrite lookup_alter_ne.
  - intros [Hd Hfr]. split; intros id' r' Hr'; simpl in *.
    + destruct (decide (id = id')) as [<-|Hne].
      * rewrite lookup_alter_eq in Hr'. destruct (rows d !! id) as [r|] eqn:Hr; [|done].
        simplify_eq/=. apply Hf; [done|]. by apply Hd.
      * rewrite lookup_alter_ne in Hr' by done. by apply Hd.
    + destruct (decide (id = id')) as [<-|Hne].
      * rewrite lookup_alter_eq in Hr'. destruct (rows d !! id) as [r|] eqn:Hr; [|done]. by eapply Hfr.
      * rewrite lookup_alter_ne in Hr' by done. by eapply Hfr.
Qed.

Lemma honest_published log now e d : tracks d e → sent e ∈ log → honest log (ID e) (set_published now) d.
Proof.
  intros (r0 & Hr0 & Hs & _) Hlog r Hr. assert (r0 = r) as -> by congruence. split; [done|]. intros _. split; [|done].
  intros _. destruct (content_messages (ID e) r (set_published now r)) as [-> _]; [done|]. by rewrite Hs.
Qed.

Lemma honest_failed log e d : tracks d e → dead e ∈ log → honest log (ID e) set_failed d.
Proof.
  intros (r0 & Hr0 & _ & Hs) Hlog r Hr. assert (r0 = r) as -> by congruence. split; [done|]. intros _. split; [done|].
  intros _. destruct (content_messages (ID e) r (set_failed r)) as [_ ->]; [done|]. by rewrite Hs.
Qed.

Lemma honest_retry log id d : honest log id add_retry d.
Proof. intros r Hr. split; [done|]. intros [H1 H2]. split; [exact H1|exact H2]. Qed.

Lemma increment_ok log id d :
  evolves d (increment_stmt id d).2 ∧ (table_ok d log → table_ok (increment_stmt id d).2 log).
Proof.
  unfold increment_stmt. destruct (rows d !! id) as [r|]; [|done].
  destruct (row_retry_count r =? 2 ^ 31 - 1); [done|]. apply alter_rows_ok, honest_retry.
Qed.

Lemma insert_ok log now e d :
  ids_fresh d → evolves d (insert_stmt now e d).2 ∧ (table_ok d log → table_ok (insert_stmt now e d).2 log).
Proof.
  intros Hfr.
  assert (Hburnt : evolves d (mkDb (rows d) (next_id d + 1)) ∧
            (table_ok d log → table_ok (mkDb (rows d) (next_id d + 1)) log)).
  { split; [intros id r ?; eauto|]. intros [Hd _]. split; [done|]. intros id r Hr. apply Hfr in Hr. simpl in *. lia. }
  unfold insert_stmt. destruct (MessageID e), (PartitionKey e), (Payload e); try done.
  destruct (has_message _ d); [done|]. simpl. split.
  - intros id r Hr. exists r. simpl. rewrite lookup_insert_ne; [done|]. apply Hfr in Hr. lia.
  - intros [Hd _]. split.
    + apply map_Forall_insert_2; [by split|done].
    + apply map_Forall_insert_2; [simpl; lia|]. intros id r Hr. apply Hfr in Hr. simpl in *. lia.
Qed.

Lemma pending_tracks `{SqlOrderLaws} limit d : Forall (tracks d) (pending_entries limit d).
Proof.
  apply Forall_forall. intros e He. unfold pending_entries in He.
  apply elem_of_take in He as (i & Hi & _). apply list_elem_of_lookup_2 in Hi.
  rewrite elem_of_order_by in Hi. apply list_elem_of_fmap in Hi as ([id r] & -> & Hi).
  apply list_elem_of_filter in Hi as [_ Hi]. apply elem_of_map_to_list in Hi. by exists r.
Qed.

End promises.

Section relay_lemmas.
Context {P K Ctx : Type} `{PgLaws P db} `{SqlOrderLaws} `{KafkaLaws K} `{Propagator Ctx}.
Implicit Types w : RelayW P K.

(** The table and the log of a world. *)
Definition table w : db := pgdata (rl_pg w).
Definition records w : list ProducerMessage := klog (rl_kafka w).

Lemma send_spec topic key value w r w' :
  attempt (on_kafka (Producer_Send topic key value)) w = (r, w') →
  let m := mkProducerMessage topic key value (InjectTraceContext background []) in
  ∃ e a, r = Ok (e, a) ∧ rl_pg w' = rl_pg w ∧
    (records w' = records w ∨ records w' = records w ++ [m]) ∧ (e = None → records w' = records w ++ [m]).
Proof.
  unfold attempt, on_kafka, zoom, Producer_Send, Producer_SendWithContext, records.
  destruct (sp_SendMessage _ (rl_kafka w)) as [r1 k1] eqn:E. apply SendMessage_log in E.
  destruct r1 as [a|e|why]; [| |done]; intros [= <- <-]; eexists _, _; split_and!; try done; by right.
Qed.

Lemma exec_spec (q : stmt db unit) w r w' :
  attempt (on_pg (pg_exec q)) w = (r, w') →
  ∃ e a, r = Ok (e, a) ∧ rl_kafka w' = rl_kafka w ∧
    (table w' = table w ∨ table w' = (q (table w)).2) ∧ (e = None → q (table w) = (Ok tt, table w')).
Proof.
  unfold attempt, on_pg, zoom, table. destruct (pg_exec q (rl_pg w)) as [r1 p1] eqn:E. apply pg_exec_spec in E.
  destruct r1 as [[]|e|why]; [| |done]; intros [= <- <-]; eexists _, _; split_and!; try done.
  right. by rewrite E.
Qed.

Lemma fetch_spec limit w r w' :
  attempt (on_pg (Store_FetchPending limit)) w = (r, w') →
  ∃ e a, r = Ok (e, a) ∧ rl_kafka w' = rl_kafka w ∧ table w' = table w ∧
    (e = None → a = Some (pending_entries limit (table w))).
Proof.
  unfold attempt, on_pg, zoom, table, Store_FetchPending.
  destruct (pg_exec _ (rl_pg w)) as [r1 p1] eqn:E. apply pg_query_spec in E as [Hd Hr].
  destruct r1 as [a|e|why]; [| |done]; intros [= <- <-]; eexists _, _; split_and!; try done. by subst a.
Qed.

(** What a call does for the others and for the table. *)
Definition call_ok w w' : Prop :=
  evolves (table w) (table w') ∧ records w `prefix_of` records w' ∧
  (table_ok (table w) (records w) → table_ok (table w') (records w')).

Lemma call_send w w' (m : ProducerMessage) :
  rl_pg w' = rl_pg w → records w' = records w ∨ records w' = records w ++ [m] → call_ok w w'.
Proof.
  unfold call_ok, table. intros -> [Hl|Hl]; rewrite Hl; (split_and!; [done|eauto using prefix_app_r|]).
  - done.
  - apply table_ok_log. set_solver.
Qed.

Lemma call_exec (q : stmt db unit) w w' :
  rl_kafka w' = rl_kafka w → table w' = table w ∨ table w' = (q (table w)).2 →
  evolves (table w) (q (table w)).2 ∧
    (table_ok (table w) (records w) → table_ok (q (table w)).2 (records w)) →
  call_ok w w'.
Proof.
  unfold call_ok, records. intros -> Hd [Hev Hok]. destruct Hd as [->| ->]; by split_and!.
Qed.

Lemma call_pc_ok w w' pc :
  call_ok w w' → pc_ok (table w) (records w) pc → pc_ok (table w') (records w') pc.
Proof.
  intros (Hev & Hpre & _). apply pc_ok_evolves; [done|]. intros x Hx. by eapply elem_of_prefix.
Qed.

Lemma relay_next_ok now batch pc w r w' :
  table_ok (table w) (records w) → pc_ok (table w) (records w) pc →
  relay_next now batch pc w = (r, w') →
  ∃ pc', r = Ok pc' ∧ call_ok w w' ∧ pc_ok (table w') (records w') pc'.
Proof.
  intros Hok Hpc E. destruct pc as [|[|e es]|e es|e es|e es|e es]; simpl in E.
  - step E as r1 w1 E1.
    apply fetch_spec in E1 as (e & a & -> & Hk & Hd & Ha). unfold mret, M_ret in E. simplify_eq/=.
    assert (Hc : call_ok w w'). { unfold call_ok, records. by rewrite Hk, Hd. }
    eexists. split; [done|]. split; [done|].
    destruct e; [done|]. rewrite Ha, Hd by done. apply pending_tracks.
  - unfold mret, M_ret in E. simplify_eq/=. exists RIdle. split_and!; done.
  - step E as r1 w1 E1.
    apply send_spec in E1 as (err & a & -> & Hp & Hl & Hs). unfold mret, M_ret in E. simplify_eq/=.
    assert (Hc : call_ok w w') by (by eapply call_send).
    eexists. split; [done|]. split; [done|]. apply (call_pc_ok _ _ (RWork (e :: es)) Hc) in Hpc. inversion Hpc; subst.
    destruct err; [done|]. simpl. split_and!; [done|done|]. rewrite Hs by done. set_solver.
  - step E as r1 w1 E1.
    apply exec_spec in E1 as (err & a & -> & Hk & Hd & _). unfold mret, M_ret in E. simplify_eq/=.
    destruct Hpc as (He & Hes & Hs).
    assert (Hc : call_ok w w').
    { apply (call_exec (update_stmt (alter_rows (set_published now) (ID e)))); [done|done|].
      by apply alter_rows_ok, honest_published. }
    eexists. split; [done|]. split; [done|]. destruct (call_pc_ok _ _ (RRetry e es) Hc (conj He Hes)) as [??].
    by destruct err.
  - step E as r1 w1 E1.
    apply ignore_attempt in E1 as (r2 & E1 & Hr). apply exec_spec in E1 as (err & a & -> & Hk & Hd & _).
    rewrite (Hr _ eq_refl) in E. unfold mret, M_ret in E. simplify_eq/=.
    assert (Hc : call_ok w w') by (apply (call_exec (increment_stmt (ID e))); [done|done|apply increment_ok]).
    eexists. split; [done|]. split; [done|]. apply (call_pc_ok _ _ (RRetry e es) Hc) in Hpc.
    destruct (MaxRetries <=? RetryCount e + 1); [done|]. apply Hpc.
  - step E as r1 w1 E1.
    apply send_spec in E1 as (err & a & -> & Hp & Hl & Hs). unfold mret, M_ret in E. simplify_eq/=.
    assert (Hc : call_ok w w') by (by eapply call_send).
    eexists. split; [done|]. split; [done|]. apply (call_pc_ok _ _ (RDead e es) Hc) in Hpc as [??].
    destruct err; [done|]. simpl. split_and!; [done|done|]. rewrite Hs by done. set_solver.
  - step E as r1 w1 E1.
    apply ignore_attempt in E1 as (r2 & E1 & Hr). apply exec_spec in E1 as (err & a & -> & Hk & Hd & _).
    rewrite (Hr _ eq_refl) in E. unfold mret, M_ret in E. simplify_eq/=. destruct Hpc as (He & Hes & Hs).
    assert (Hc : call_ok w w').
    { apply (call_exec (update_stmt (alter_rows set_failed (ID e)))); [done|done|].
      by apply alter_rows_ok, honest_failed. }
    eexists. split; [done|]. split; [done|]. by apply (call_pc_ok _ _ (RWork es) Hc).
Qed.

(** The invariant of a deployment. *)
Definition system_ok (s : RelayW P K * list relay_pc) : Prop :=
  table_ok (table s.1) (records s.1) ∧ Forall (pc_ok (table s.1) (records s.1)) s.2.

Lemma outbox_step_ok s s' : system_ok s → outbox_step s s' → system_ok s' ∧ call_ok s.1 s'.1.
Proof.
  intros [Hok Hpcs] Hstep.
  assert (∀ w w' pcs, call_ok w w' → Forall (pc_ok (table w) (records w)) pcs →
            Forall (pc_ok (table w') (records w')) pcs) as Hstable.
  { intros w w' pcs Hc HF. eapply Forall_impl; [exact HF|]. eauto using call_pc_ok. }
  destruct Hstep as [i pc pc' now batch w w' pcs Hi E|now e r w w' pcs E]; simpl in *.
  - apply relay_next_ok in E as (? & [= <-] & Hc & Hpc'); [|done|by eapply Forall_lookup_1].
    split; [|done]. split; simpl; [by apply Hc|]. apply Forall_insert; [by eapply Hstable|done].
  - assert (Hc : call_ok w w').
    { destruct (attempt (on_pg (Store_Insert now e)) w) as [r1 w1] eqn:E1.
      assert (w1 = w') as -> by (revert E E1; unfold attempt; destruct (on_pg _ w) as [[]]; naive_solver).
      apply exec_spec in E1 as (err & a & _ & Hk & Hd & _).
      apply (call_exec (insert_stmt now e)); [done|done|]. apply insert_ok, Hok. }
    split; [|done]. split; simpl; [by apply Hc|by eapply Hstable].
Qed.

Lemma call_ok_refl w : call_ok w w.
Proof. by split_and!. Qed.

Lemma call_ok_trans w1 w2 w3 : call_ok w1 w2 → call_ok w2 w3 → call_ok w1 w3.
Proof. intros (?&?&?) (?&?&?). split_and!; [by etrans|by etrans|auto]. Qed.

Lemma outbox_steps_ok s s' : system_ok s → rtc outbox_step s s' → system_ok s' ∧ call_ok s.1 s'.1.
Proof.
  intros Hs Hrtc. induction Hrtc as [s|s1 s2 s3 H12 _ IH]; [done|].
  apply outbox_step_ok in H12 as [Hs2 Hc]; [|done]. destruct (IH Hs2) as [Hs3 Hc'].
  split; [done|]. by eapply call_ok_trans.
Qed.

(** ** One relay alone *)

Lemma relay_step1 now batch pc pc' w w' :
  relay_next now batch pc w = (Ok pc', w') → outbox_step (w, [pc]) (w', [pc']).
Proof. intros E. by apply (step_relay 0 pc pc' now batch w w' [pc]). Qed.

Lemma dead_letter_steps e es w r w' :
  Relay_sendToDeadLetter e w = (r, w') →
  r = Ok tt ∧ rtc outbox_step (w, [RDead e es]) (w', [RWork es]).
Proof.
  unfold Relay_sendToDeadLetter. intros E. step E as r1 w1 E1.
  pose proof (send_spec _ _ _ _ _ _ E1) as (err & a & -> & _). simpl in E. destruct err.
  - unfold mret, M_ret in E. simplify_eq. split; [done|]. apply rtc_once, (relay_step1 0 0).
    simpl. by rewrite (bind_run _ _ _ _ _ E1).
  - apply ignore_attempt in E as Ea. destruct Ea as (r2 & Ea & Hr). apply exec_spec in Ea as (? & ? & -> & _).
    rewrite (Hr _ eq_refl) in *. split; [done|]. eapply rtc_l; [apply (relay_step1 0 0)|apply rtc_once, (relay_step1 0 0)].
    + simpl. by rewrite (bind_run _ _ _ _ _ E1).
    + simpl. by rewrite (bind_run _ _ _ _ _ E).
Qed.

Lemma retry_steps e es w r w' :
  (_ ← ignore (on_pg (Store_IncrementRetry (ID e)));
   if MaxRetries <=? RetryCount e + 1 then Relay_sendToDeadLetter e else mret tt) w = (r, w') →
  r = Ok tt ∧ rtc outbox_step (w, [RRetry e es]) (w', [RWork es]).
Proof.
  intros E. step E as r1 w1 E1. apply ignore_attempt in E1 as Ea. destruct Ea as (r2 & Ea & Hr).
  apply exec_spec in Ea as (? & ? & -> & _). rewrite (Hr _ eq_refl) in *.
  assert (Hs : outbox_step (w, [RRetry e es])
                 (w1, [if MaxRetries <=? RetryCount e + 1 then RDead e es else RWork es])).
  { apply (relay_step1 0 0). simpl. by rewrite (bind_run _ _ _ _ _ E1). }
  destruct (MaxRetries <=? RetryCount e + 1).
  - eapply dead_letter_steps in E as [-> Hd]. split; [done|]. by eapply rtc_l.
  - unfold mret, M_ret in E. simplify_eq. split; [done|]. by apply rtc_once.
Qed.

Lemma poll_entry_steps now e es w r w' :
  Relay_poll_entry now e w = (r, w') →
  r = Ok tt ∧ rtc outbox_step (w, [RWork (e :: es)]) (w', [RWork es]).
Proof.
  unfold Relay_poll_entry, Relay_publish. intros E. step E as r1 w1 E1.
  rewrite attempt_bind in E1.
  destruct (attempt (on_kafka (Producer_Send (Topic e) (PartitionKey e) (Payload e))) w) as [ra wa] eqn:Ea.
  pose proof (send_spec _ _ _ _ _ _ Ea) as (err & a & -> & _).
  assert (Hs : outbox_step (w, [RWork (e :: es)]) (wa, [match err with None => RMark e es | _ => RRetry e es end])).
  { apply (relay_step1 now 0). simpl. by rewrite (bind_run _ _ _ _ _ Ea). }
  rewrite (bind_run _ _ _ _ _ Ea) in E1. destruct err as [err|].
  - unfold mret, M_ret in E1. simplify_eq/=. apply (retry_steps e es) in E as [-> Hr]. split; [done|]. by eapply rtc_l.
  - assert (∃ x, a = Some x) as [x ->].
    { unfold attempt in Ea. destruct (on_kafka _ w) as [[] ?]; naive_solver. }
    pose proof (exec_spec _ _ _ _ E1) as (err & a' & -> & _).
    assert (Hs' : outbox_step (wa, [RMark e es]) (w1, [match err with None => RWork es | _ => RRetry e es end])).
    { apply (relay_step1 now 0). simpl. by rewrite (bind_run _ _ _ _ _ E1). }
    simpl in E. destruct err as [err|].
    + apply (retry_steps e es) in E as [-> Hr]. split; [done|]. by do 2 (eapply rtc_l; [done|]).
    + unfold mret, M_ret in E. simplify_eq. split; [done|]. eapply rtc_l; [done|]. by apply rtc_once.
Qed.

Lemma poll_loop_steps now es w r w' :
  for_each (Relay_poll_entry now) es w = (r, w') →
  r = Ok tt ∧ rtc outbox_step (w, [RWork es]) (w', [RIdle]).
Proof.
  revert w. induction es as [|e es IH]; intros w E; simpl in E.
  - unfold mret, M_ret in E. simplify_eq. split; [done|]. apply rtc_once. by apply (relay_step1 0 0).
  - step E as r1 w1 E1. apply (poll_entry_steps _ _ es) in E1 as [-> Hs].
    apply IH in E as [-> Hs']. split; [done|]. by etrans.
Qed.

End relay_lemmas.

(** ** A poll on servers that answer *)

(** Kafka takes some of the records and refuses the others. *)
Definition broker_answers {K} `{KafkaCluster K} (accepts : ProducerMessage → bool) (up : K → Prop) : Prop := ∀ m k,
  up k → ∃ r k', sp_SendMessage m k = (r, k') ∧ up k' ∧
    if accepts m then ∃ a, r = Ok a else ∃ e, r = Err e ∧ klog k' = klog k.

Section poll_spec.
Context {Ctx : Type} `{Propagator Ctx}.

(** The batch of a poll: pending rows, the oldest first, as many as the limit allows, and
    none is left out for a younger one. *)
Definition oldest_pending (limit : Z) (d : db) (ids : list Z) : Prop :=
  NoDup ids ∧ Z.of_nat (length ids) ≤ limit ∧
  Forall (λ id, ∃ r, rows d !! id = Some r ∧ row_status r = "pending") ids ∧
  StronglySorted (λ i j, ∀ r r', rows d !! i = Some r → rows d !! j = Some r' → row_created_at r ≤ row_created_at r') ids ∧
  ∀ id r, rows d !! id = Some r → row_status r = "pending" → id ∉ ids →
    Z.of_nat (length ids) = limit ∧
    Forall (λ j, ∀ r', rows d !! j = Some r' → row_created_at r' ≤ row_created_at r) ids.

Definition record_of (topic : string) (key payload : bytes) : ProducerMessage :=
  mkProducerMessage topic (Some key) (Some payload) (InjectTraceContext background []).

(** A row with another status, count of retries and time of publication. *)
Definition with_state (status : string) (retries : Z) (published : option Z) (r : row) : row :=
  mkRow (row_message_id r) (row_topic r) (row_partition_key r) (row_payload r) status retries (row_created_at r) published.

(** What a poll does for a row: the records that Kafka gets, and the row afterwards.  A row
    that is refused for the fifth time is sent to the topic ["dead-letter"], keyed by its
    own topic; one that is refused there too stays pending.  The counter is an INT. *)
Definition polled (accepts : ProducerMessage → bool) (now : Z) (r : row) : list ProducerMessage * row :=
  let n := if row_retry_count r =? 2 ^ 31 - 1 then row_retry_count r else row_retry_count r + 1 in
  let m := record_of (row_topic r) (row_partition_key r) (row_payload r) in
  let dl := record_of "dead-letter" (bytes_of_string (row_topic r)) (row_payload r) in
  if accepts m then ([m], with_state "published" (row_retry_count r) (Some (pg_time now)) r)
  else if (4 <=? row_retry_count r) && accepts dl then ([dl], with_state "failed" n (row_published_at r) r)
  else ([], with_state (row_status r) n (row_published_at r) r).

End poll_spec.

Section pending_lemmas.
Context `{SqlOrderLaws}.

Lemma StronglySorted_fmap_in {A B} (R : relation A) (S : relation B) (f : A → B) l :
  StronglySorted R l → (∀ a b, a ∈ l → b ∈ l → R a b → S (f a) (f b)) → StronglySorted S (f <$> l).
Proof.
  induction 1 as [|a l Hl IH Ha]; intros Hf; [constructor|]. simpl. constructor; [apply IH; set_solver|].
  apply Forall_fmap, Forall_forall. intros b Hb. rewrite Forall_forall in Ha. apply Hf; set_solver.
Qed.

(** The batch that the query returns. *)
Lemma pending_rows limit d :
  Forall (λ e, ∃ r, rows d !! ID e = Some r ∧ e = entry_of_row (ID e) r ∧ row_status r = "pending") (pending_entries limit d).
Proof.
  apply Forall_forall. intros e He. unfold pending_entries in He. apply elem_of_take in He as (i & Hi & _).
  apply list_elem_of_lookup_2 in Hi. rewrite elem_of_order_by in Hi.
  apply list_elem_of_fmap in Hi as ([id r] & -> & Hi). apply list_elem_of_filter in Hi as [Hst Hi].
  apply elem_of_map_to_list in Hi. by exists r.
Qed.

Lemma pending_oldest limit d : 0 ≤ limit → oldest_pending limit d (ID <$> pending_entries limit d).
Proof.
  intros Hl. pose proof (pending_rows limit d) as Hrows. unfold pending_entries in *.
  set (l := (λ '(id, r), entry_of_row id r) <$> filter (λ '(_, r), row_status r = StatusPending) (map_to_list (rows d))) in *.
  assert (Hlen : Z.of_nat (length (take (Z.to_nat limit) (order_by CreatedAt l))) ≤ limit) by (rewrite length_take; lia).
  assert (Hat : ∀ e r, e ∈ take (Z.to_nat limit) (order_by CreatedAt l) → rows d !! ID e = Some r → CreatedAt e = row_created_at r).
  { intros e r He Hr. rewrite Forall_forall in Hrows. destruct (Hrows e He) as (r' & Hr' & -> & _). simpl in *. congruence. }
  split_and!.
  - eapply sublist_NoDup; [|apply fmap_sublist, sublist_take]. rewrite order_by_perm. unfold l.
    rewrite <-list_fmap_compose, (list_fmap_ext _ fst) by (by intros ? [] ?).
    eapply sublist_NoDup; [apply (NoDup_fst_map_to_list (rows d))|apply fmap_sublist, sublist_filter].
  - by rewrite length_fmap.
  - apply Forall_fmap. eapply Forall_impl; [exact Hrows|]. naive_solver.
  - eapply StronglySorted_fmap_in; [apply order_by_take_sorted|]. intros e e' He He' Hle r r' Hr Hr'.
    by rewrite <-(Hat e r), <-(Hat e' r').
  - intros id r Hr Hst Hni. rewrite length_fmap.
    assert (Hd : entry_of_row id r ∈ drop (Z.to_nat limit) (order_by CreatedAt l)).
    { assert (Hin : entry_of_row id r ∈ order_by CreatedAt l).
      { rewrite elem_of_order_by. apply list_elem_of_fmap. exists (id, r). split; [done|].
        apply list_elem_of_filter. split; [done|]. by apply elem_of_map_to_list. }
      rewrite <-(take_drop (Z.to_nat limit)) in Hin. apply elem_of_app in Hin as [Hin|]; [|done].
      destruct Hni. by apply (list_elem_of_fmap_2 ID) in Hin. }
    split.
    + rewrite length_take. assert (drop (Z.to_nat limit) (order_by CreatedAt l) ≠ []) as Hne by (by intros Heq; rewrite Heq in Hd; apply not_elem_of_nil in Hd).
      destruct (Nat.le_gt_cases (length (order_by CreatedAt l)) (Z.to_nat limit)) as [Hle|?]; [|lia]. by rewrite drop_ge in Hne.
    + apply Forall_fmap, Forall_forall. intros e He r' Hr'. rewrite <-(Hat e r' He Hr').
      change (row_created_at r) with (CreatedAt (entry_of_row id r)).
      eapply (StronglySorted_app_1_elem_of (λ a b, CreatedAt a ≤ CreatedAt b)); [|exact He|exact Hd].
      rewrite take_drop. apply order_by_sorted.
Qed.

End pending_lemmas.

Section poll_lemmas.
Context {P K Ctx : Type} `{PgLaws P db} `{SqlOrderLaws} `{KafkaLaws K} `{Propagator Ctx}.
Context (up_pg : P → Prop) (up_kafka : K → Prop) (accepts : ProducerMessage → bool).
Context (Hpg : pg_serving up_pg) (Hkafka : broker_answers accepts up_kafka).
Implicit Types w : RelayW P K.

Definition up w : Prop := up_pg (rl_pg w) ∧ up_kafka (rl_kafka w).

(** A statement that does not panic, and changes nothing when it fails. *)
Lemma exec_serving (q : stmt db unit) w :
  up w → (∀ why, (q (table w)).1 ≠ Panic why) → (∀ e, (q (table w)).1 = Err e → (q (table w)).2 = table w) →
  ∃ w', on_pg (pg_exec q) w = ((q (table w)).1, w') ∧ up w' ∧ table w' = (q (table w)).2 ∧ records w' = records w.
Proof.
  intros [Hp Hk] Hnp Herr. destruct (serving_exec_data _ q _ Hpg Hp Hnp Herr) as (p' & E & Hup & Hd).
  exists (mkRelayW p' (rl_kafka w)). unfold on_pg, zoom. by rewrite E.
Qed.

Lemma send_answers topic key value w :
  up w → let m := mkProducerMessage topic key value (InjectTraceContext background []) in
  ∃ r w', on_kafka (Producer_Send topic key value) w = (r, w') ∧ up w' ∧ table w' = table w ∧
    if accepts m then (∃ a, r = Ok a) ∧ records w' = records w ++ [m] else (∃ e, r = Err e) ∧ records w' = records w.
Proof.
  intros [Hp Hk] m. destruct (Hkafka m _ Hk) as (r & k' & E & Hup & Hr). exists r, (mkRelayW (rl_pg w) k').
  unfold on_kafka, zoom, Producer_Send, Producer_SendWithContext. fold m. rewrite E. split_and!; [done..|].
  apply SendMessage_log in E. unfold records. simpl. destruct (accepts m); destruct Hr as [? Hr].
  - subst r. by split; [eauto|].
  - destruct Hr as [-> ?]. by split; [eauto|].
Qed.

Lemma alter_row f id r (d : db) : rows d !! id = Some r → rows (alter_rows f id d) = <[id := f r]> (rows d).
Proof.
  intros Hr. simpl. apply map_eq. intros j. destruct (decide (j = id)) as [->|Hne].
  - by rewrite lookup_alter_eq, Hr, lookup_insert_eq.
  - by rewrite lookup_alter_ne, lookup_insert_ne.
Qed.

Lemma increment_row id r (d : db) : rows d !! id = Some r →
  rows (increment_stmt id d).2 = <[id := with_state (row_status r)
    (if row_retry_count r =? 2 ^ 31 - 1 then row_retry_count r else row_retry_count r + 1) (row_published_at r) r]> (rows d).
Proof.
  intros Hr. unfold increment_stmt. rewrite Hr. destruct (row_retry_count r =? 2 ^ 31 - 1).
  - simpl. rewrite insert_id; [done|]. rewrite Hr. by destruct r.
  - simpl snd. by erewrite alter_row.
Qed.

(** An update of one row. *)
Lemma update_row f id r w :
  up w → rows (table w) !! id = Some r →
  ∃ w', on_pg (pg_exec (update_stmt (alter_rows f id))) w = (Ok tt, w') ∧ up w' ∧
    rows (table w') = <[id := f r]> (rows (table w)) ∧ records w' = records w.
Proof.
  intros Hup Hr. destruct (exec_serving (update_stmt (alter_rows f id)) w Hup) as (w' & E & Hup' & Ht & Hrec); [done..|].
  exists w'. split_and!; [done..| |done]. rewrite Ht. by apply alter_row.
Qed.

Lemma retry_row id r w :
  up w → rows (table w) !! id = Some r →
  ∃ w', ignore (on_pg (Store_IncrementRetry id)) w = (Ok tt, w') ∧ up w' ∧
    rows (table w') = rows (increment_stmt id (table w)).2 ∧ records w' = records w.
Proof.
  intros Hup Hr. destruct (exec_serving (increment_stmt id) w Hup) as (w' & E & Hup' & Ht & Hrec).
  - unfold increment_stmt. rewrite Hr. by destruct (_ =? _).
  - unfold increment_stmt. rewrite Hr. by destruct (_ =? _).
  - exists w'. unfold Store_IncrementRetry. rewrite (ignore_run _ _ _ _ E), Ht. split_and!; [|done..].
    unfold increment_stmt. rewrite Hr. by destruct (_ =? _).
Qed.

(** The fifth failure. *)
Lemma dead_letter_row id r e w :
  up w → rows (table w) !! id = Some r → ID e = id → Topic e = row_topic r → Payload e = Some (row_payload r) →
  let dl := record_of "dead-letter" (bytes_of_string (row_topic r)) (row_payload r) in
  ∃ w', Relay_sendToDeadLetter e w = (Ok tt, w') ∧ up w' ∧
    rows (table w') = (if accepts dl then <[id := set_failed r]> (rows (table w)) else rows (table w)) ∧
    records w' = records w ++ (if accepts dl then [dl] else []).
Proof.
  intros Hup Hr Hid Ht Hp dl. unfold Relay_sendToDeadLetter. rewrite Hid, Ht, Hp.
  destruct (send_answers TopicDeadLetter (Some (bytes_of_string (row_topic r))) (Some (row_payload r)) w Hup)
    as (rs & w1 & E1 & Hup1 & Ht1 & Hs).
  change (mkProducerMessage TopicDeadLetter _ _ _) with dl in Hs. destruct (accepts dl); destruct Hs as [[x ->] Hrec].
  - destruct (update_row set_failed id r w1 Hup1) as (w2 & E2 & Hup2 & Ht2 & Hrec2); [by rewrite Ht1|].
    exists w2. split; [|by rewrite Ht2, Ht1, Hrec2].
    rewrite (bind_run _ _ _ _ _ (attempt_run _ _ _ _ E1)). simpl. unfold Store_MarkFailed. by rewrite (ignore_run _ _ _ _ E2).
  - exists w1. rewrite app_nil_r, Ht1. split_and!; [|done..]. by rewrite (bind_run _ _ _ _ _ (attempt_run _ _ _ _ E1)).
Qed.

Lemma poll_row now id r w :
  up w → rows (table w) !! id = Some r →
  ∃ w', Relay_poll_entry now (entry_of_row id r) w = (Ok tt, w') ∧ up w' ∧
    rows (table w') = <[id := (polled accepts now r).2]> (rows (table w)) ∧
    records w' = records w ++ (polled accepts now r).1.
Proof.
  intros Hup Hr. unfold Relay_poll_entry, Relay_publish, polled. cbn [Topic PartitionKey Payload ID RetryCount entry_of_row].
  destruct (send_answers (row_topic r) (Some (row_partition_key r)) (Some (row_payload r)) w Hup)
    as (rs & w1 & E1 & Hup1 & Ht1 & Hs). fold (record_of (row_topic r) (row_partition_key r) (row_payload r)) in Hs.
  destruct (accepts (record_of _ _ _)); destruct Hs as [[x ->] Hrec].
  - destruct (update_row (set_published now) id r w1 Hup1) as (w2 & E2 & Hup2 & Ht2 & Hrec2); [by rewrite Ht1|].
    exists w2. split; [|by rewrite Ht2, Ht1, Hrec2].
    assert (E : (on_kafka (Producer_Send (row_topic r) (Some (row_partition_key r)) (Some (row_payload r)));;
                 on_pg (Store_MarkPublished now id)) w = (Ok tt, w2)).
    { rewrite (bind_run _ _ _ _ _ E1). exact E2. }
    by rewrite (bind_run _ _ _ _ _ (attempt_run _ _ _ _ E)).
  - assert (E : (on_kafka (Producer_Send (row_topic r) (Some (row_partition_key r)) (Some (row_payload r)));;
                 on_pg (Store_MarkPublished now id)) w = (Err x, w1)) by (by rewrite (bind_run _ _ _ _ _ E1)).
    rewrite (bind_run _ _ _ _ _ (attempt_run _ _ _ _ E)). simpl. clear E.
    destruct (retry_row id r w1 Hup1) as (w2 & E2 & Hup2 & Ht2 & Hrec2); [by rewrite Ht1|].
    rewrite (increment_row _ r) in Ht2 by (by rewrite Ht1). rewrite (bind_run _ _ _ _ _ E2). simpl.
    unfold MaxRetries. replace (5 <=? row_retry_count r + 1) with (4 <=? row_retry_count r)
      by (destruct (Z.leb_spec 4 (row_retry_count r)), (Z.leb_spec 5 (row_retry_count r + 1)); lia).
    destruct (4 <=? row_retry_count r); simpl.
    + assert (Hr2 := lookup_insert_eq (rows (table w1)) id (with_state (row_status r)
        (if row_retry_count r =? 2 ^ 31 - 1 then row_retry_count r else row_retry_count r + 1) (row_published_at r) r)).
      rewrite <-Ht2 in Hr2.
      destruct (dead_letter_row id _ (entry_of_row id r) w2 Hup2 Hr2) as (w3 & E3 & Hup3 & Ht3 & Hrec3); [done..|]. exists w3. split; [done|]. split; [done|].
      simpl in Ht3, Hrec3. rewrite Ht3, Hrec3, Hrec2, Hrec, Ht2, Ht1.
      destruct (accepts _); [|done]. by rewrite insert_insert_eq.
    + exists w2. by rewrite Ht2, Ht1, Hrec2, Hrec, app_nil_r.
Qed.

(** The rows of a batch, one after the other. *)
Lemma poll_rows now es w :
  up w → NoDup (ID <$> es) → Forall (λ e, ∃ r, rows (table w) !! ID e = Some r ∧ e = entry_of_row (ID e) r) es →
  ∃ w', for_each (Relay_poll_entry now) es w = (Ok tt, w') ∧
    records w' = records w ++ concat ((λ id, from_option (λ r, (polled accepts now r).1) [] (rows (table w) !! id)) <$> (ID <$> es)) ∧
    ∀ id, rows (table w') !! id =
      (λ r, if bool_decide (id ∈ ID <$> es) then (polled accepts now r).2 else r) <$> rows (table w) !! id.
Proof.
  revert w. induction es as [|e es IH]; intros w Hup Hnd Hes.
  { exists w. simpl. rewrite app_nil_r. split_and!; [done..|]. intros id. by destruct (rows (table w) !! id). }
  apply NoDup_cons in Hnd as [Hni Hnd]. apply Forall_cons in Hes as [(r & Hr & He) Hes].
  destruct (poll_row now (ID e) r w Hup Hr) as (w1 & E1 & Hup1 & Ht1 & Hrec1). rewrite <-He in E1.
  assert (Hother : ∀ id, id ∈ ID <$> es → rows (table w1) !! id = rows (table w) !! id).
  { intros id Hid. rewrite Ht1. apply lookup_insert_ne. by intros <-. }
  destruct (IH w1 Hup1 Hnd) as (w2 & E2 & Hrec2 & Ht2).
  { rewrite !Forall_forall in *. intros x Hx. rewrite Hother by (by apply list_elem_of_fmap_2). by apply Hes. }
  exists w2. split; [|split].
  - cbn [for_each]. rewrite (bind_run _ _ _ _ _ E1). exact E2.
  - rewrite Hrec2, Hrec1, <-app_assoc. cbn [fmap list_fmap concat]. rewrite Hr. simpl. do 3 f_equal.
    apply list_fmap_ext. intros i id Hid. rewrite Hother; [done|]. by eapply list_elem_of_lookup_2.
  - intros id. rewrite Ht2, Ht1. cbn [fmap list_fmap]. destruct (decide (id = ID e)) as [->|Hne].
    + rewrite lookup_insert_eq, Hr. simpl. by rewrite bool_decide_false, bool_decide_true by (done || set_solver).
    + rewrite lookup_insert_ne by done.
      by rewrite (bool_decide_ext (id ∈ ID e :: (ID <$> es)) (id ∈ ID <$> es)) by set_solver.
Qed.

End poll_lemmas.

(** ** Properties *)

Section properties.
Context {P K Ctx : Type} `{PgLaws P db} `{SqlOrderLaws} `{KafkaLaws K} `{Propagator Ctx}.

(** C6: nothing is lost, whatever fails and however the calls of any number of
    relays and of the clients that insert rows interleave.  A row marked published
    was published, with its topic, key and payload; a row marked failed is in the
    dead-letter topic; rows are never removed and keep their content; records are
    only ever appended. *)
Theorem outbox_no_loss (w w' : RelayW P K) (n : nat) (pcs : list relay_pc) :
  table_ok (table w) (records w) →
  rtc outbox_step (w, replicate n RIdle) (w', pcs) →
  delivered (table w') (records w') ∧ evolves (table w) (table w') ∧ records w `prefix_of` records w'.
Proof.
  intros Hok Hrtc. apply outbox_steps_ok in Hrtc as [[[Hd _] _] (Hev & Hpre & _)]; [done|].
  split; [done|]. by apply Forall_replicate.
Qed.

(** [poll] always returns, without an error or a panic, and what it does is a
    sequence of calls of one relay: the interleaved model covers the code. *)
Theorem poll_refines_steps (now batch : Z) (w w' : RelayW P K) (r : result unit) :
  Relay_poll now batch w = (r, w') →
  r = Ok tt ∧ rtc outbox_step (w, [RIdle]) (w', [RIdle]).
Proof.
  unfold Relay_poll. intros E. step E as r1 w1 E1.
  pose proof (fetch_spec _ _ _ _ E1) as (e & a & -> & _ & _ & Ha).
  assert (Hs : outbox_step (w, [RIdle]) (w1, [match e, a with None, Some es => RWork es | _, _ => RIdle end])).
  { apply (relay_step1 now batch). simpl. rewrite (bind_run _ _ _ _ _ E1). by destruct e, a. }
  destruct e as [e|].
  - unfold mret, M_ret in E. simplify_eq. split; [done|]. by apply rtc_once.
  - rewrite Ha in * by done. apply poll_loop_steps in E as [-> Hr]. split; [done|]. by eapply rtc_l.
Qed.


End properties.

(** ** Witnesses and examples *)

Definition example_row : row := mkRow [x01] "user-0a" [x0a] [x68; x69] StatusPending 0 0 None.

Definition example_db : db := mkDb {[ 1 := example_row ]} 2.

Definition example_world (pf kf : list fault) : RelayW (MemPg db) MemKafka :=
  mkRelayW (mkMemPg example_db pf) (mkMemKafka ∅ [] kf).

Lemma example_table_ok pf kf : table_ok (table (example_world pf kf)) (records (example_world pf kf)).
Proof. split; apply map_Forall_singleton; [by split|done]. Qed.

Lemma outbox_no_loss_witness :
  ∃ w' pcs, rtc outbox_step (example_world [] [], replicate 2 RIdle) (w', pcs) ∧
    row_status <$> rows (table w') !! 1 = Some StatusPublished ∧ delivered (table w') (records w').
Proof.
  assert (Hsteps : ∃ w' pcs, rtc outbox_step (example_world [] [], replicate 2 RIdle) (w', pcs) ∧
            row_status <$> rows (table w') !! 1 = Some StatusPublished).
  { eexists _, _. split.
    - eapply rtc_l; [apply (step_relay 0 RIdle (RWork [entry_of_row 1 example_row]) 9 100); reflexivity|].
      eapply rtc_l; [eapply (step_relay 0 _ _ 9 100); reflexivity|].
      eapply rtc_l; [eapply (step_relay 0 _ _ 9 100); reflexivity|]. apply rtc_refl.
    - reflexivity. }
  destruct Hsteps as (w' & pcs & Hsteps & Hrow). exists w', pcs. split_and!; [exact Hsteps|exact Hrow|].
  exact (proj1 (outbox_no_loss (example_world [] []) w' 2 pcs (example_table_ok [] []) Hsteps)).
Defined.

Lemma poll_refines_steps_witness :
  let w := example_world [NoFault; RequestLost] [] in
  rtc outbox_step (w, [RIdle]) ((Relay_poll 9 100 w).2, [RIdle]).
Proof.
  intros w. destruct (Relay_poll 9 100 w) as [r w'] eqn:E.
  exact (proj2 (poll_refines_steps 9 100 w w' r E)).
Defined.

(** A broker that refuses the records of one topic. *)
Definition takes (m : ProducerMessage) : bool := negb (bool_decide (pm_Topic m = "user-0a")).

#[local] Instance picky_broker : KafkaCluster (list ProducerMessage) := {|
  ktopics _ := ∅;
  klog log := log;
  ListTopics log := (Ok ∅, log);
  CreateTopic _ _ log := (Err (Errorf "not authorized"), log);
  sp_SendMessage m log := if takes m then (Ok (0, 0), log ++ [m]) else (Err (Errorf "not authorized"), log);
|}.

#[local] Instance picky_broker_laws : KafkaLaws (list ProducerMessage).
Proof. split; simpl; intros; repeat case_match; simplify_eq; eauto. Qed.

Definition polled_db : db := mkDb {[ 1 := mkRow [x01] "user-0a" [x0a] [x68] StatusPending 4 7 None;
                                     2 := mkRow [x02] "user-0b" [x0b] [x69] StatusPending 0 3 None ]} 3.


(** A message whose row cannot be marked is published again on every poll, and ends
    in the dead-letter topic although it was delivered five times. *)
Example published_and_dead_lettered :
  let pf := concat (replicate 5 [NoFault; RequestLost; NoFault]) in
  let w := (Relay_Run [1; 2; 3; 4; 5] (example_world pf [])).2 in
  records w = replicate 5 (sent (entry_of_row 1 example_row)) ++ [dead (entry_of_row 1 example_row)] ∧
  row_status <$> rows (table w) !! 1 = Some StatusFailed.
Proof. vm_compute. split; reflexivity. Qed.

End Outbox.
