(* ===== verification/Dispatcher.v ===== *)
(** * The dispatcher

    [server/internal/dispatcher]: routing of application messages to Kafka topics
    ([router.go]), their insertion into the outbox ([dispatcher.go]) and the gRPC
    handler ([grpc_server.go]). *)
From S2P Require Import Prelude Bytes Postgres Kafka Messages Grpc Outbox.

Local Open Scope Z_scope.

(** ** router.go *)

Record Route := mkRoute { Topic : string; PartitionKey : slice }.

Definition routeChat (chat : option ChatMessage) : result Route :=
  match chat with
  | None => Err (Errorf "nil chat message")
  | Some chat =>
      if (0 <? slen (chat_GroupId chat))%nat then
        Ok (mkRoute ("group-" +:+ EncodeToString (sbytes (chat_GroupId chat))) (chat_GroupId chat))
      else if (0 <? slen (chat_RecipientId chat))%nat then
        Ok (mkRoute ("user-" +:+ EncodeToString (sbytes (chat_RecipientId chat))) (chat_RecipientId chat))
      else Err (Errorf "chat message has no recipient_id or group_id")
  end.

Definition routeCommand (cmd : option Command) : result Route :=
  match cmd with
  | None => Err (Errorf "nil command")
  | Some cmd => Ok (mkRoute TopicCommands (Some (bytes_of_string (CommandType_String (cmd_Type cmd)))))
  end.

Definition routeMedia (media : option MediaChunk) : result Route :=
  match media with
  | None => Err (Errorf "nil media chunk")
  | Some media => Ok (mkRoute TopicMediaEvents (mc_StreamId media))
  end.

Definition routeSenderKey (sk : option SenderKeyDistributionMsg) : result Route :=
  match sk with
  | None => Err (Errorf "nil sender key distribution")
  | Some sk =>
      if (slen (skm_SenderId sk) =? 0)%nat then Err (Errorf "sender key has no sender_id")
      else Ok (mkRoute TopicEvents (skm_GroupId sk))
  end.

Definition routeSignaling (sig : option SignalingMessage) : result Route :=
  match sig with
  | None => Err (Errorf "nil signaling message")
  | Some sig =>
      if (slen (sig_RecipientId sig) =? 0)%nat then Err (Errorf "signaling has no recipient_id")
      else Ok (mkRoute ("user-" +:+ EncodeToString (sbytes (sig_RecipientId sig))) (sig_RecipientId sig))
  end.

Definition RouteMessage (msg : option AppMessage) : result Route :=
  match msg with
  | None => Err (Errorf "nil message")
  | Some msg =>
      match Body msg with
      | Some (AppMessage_Chat c) => routeChat c
      | Some (AppMessage_Command c) => routeCommand c
      | Some (AppMessage_Media m) => routeMedia m
      | Some (AppMessage_SenderKey sk) => routeSenderKey sk
      | Some (AppMessage_Signaling s) => routeSignaling s
      | _ => Ok (mkRoute TopicEvents (MessageId msg))
      end
  end.

(** ** dispatcher.go, grpc_server.go *)

Section dispatcher.
Context {P : Type} `{PgPool P Outbox.db} `{AppCodec}.

(** The entry of a message; [Insert] sets the other columns. *)
Definition entry_of (MessageId : slice) (route : Route) (payload : bytes) : Outbox.Entry :=
  Outbox.mkEntry 0 MessageId (Topic route) (PartitionKey route) (Some payload) "" 0 0 None.

Definition Dispatcher_Dispatch (now : Z) (senderID : slice) (msg : option AppMessage) : M P unit :=
  route ← wrap "route" (lift (RouteMessage msg));
  match msg with
  | None => panic "nil pointer dereference"
  | Some msg =>
      payload ← wrap "marshal" (lift (app_marshal msg));
      wrap "outbox insert" (Outbox.Store_Insert now (entry_of (MessageId msg) route payload))
  end.

(** The reply is the pair of [Success] and [AckMessageId]. *)
Definition DispatcherServer_Dispatch (now : Z) (SenderId : slice) (Message : option AppMessage) :
    M P (bool * slice) :=
  match Message with
  | None => throw (status_Errorf InvalidArgument "message is required")
  | Some msg =>
      _ ← status_wrap Internal "dispatch: %v" (Dispatcher_Dispatch now SenderId (Some msg));
      mret (true, MessageId msg)
  end.

End dispatcher.

(** ** Addressees *)

(** Whom a message is for: a user ([inl]), a group ([inr]), or nobody in particular. *)
Definition addressee (m : AppMessage) : option (bytes + bytes) :=
  match Body m with
  | Some (AppMessage_Chat (Some c)) =>
      match chat_GroupId c, chat_RecipientId c with
      | Some (b :: bs), _ => Some (inr (b :: bs))
      | _, Some (b :: bs) => Some (inl (b :: bs))
      | _, _ => None
      end
  | Some (AppMessage_Signaling (Some s)) =>
      match sig_RecipientId s with Some (b :: bs) => Some (inl (b :: bs)) | _ => None end
  | _ => None
  end.

(** The topic of an addressee. *)
Definition addressee_topic (a : bytes + bytes) : string :=
  match a with inl u => UserTopic u | inr g => GroupTopic g end.

(** ** Lemmas *)

#[export] Instance addressee_topic_inj : Inj (=) (=) addressee_topic.
Proof.
  intros [u|g] [u'|g']; simpl; [|by intros ?%UserTopic_GroupTopic|intros H; by apply eq_sym, UserTopic_GroupTopic in H|].
  - by intros ->%(inj UserTopic).
  - by intros ->%(inj GroupTopic).
Qed.

Lemma addressee_topic_not_static a : ¬ static_topic (addressee_topic a).
Proof. destruct a; [apply UserTopic_not_static|apply GroupTopic_not_static]. Qed.

(** Where a message goes: to the topic of its addressee, or to a static topic. *)
Lemma RouteMessage_topic m r :
  RouteMessage (Some m) = Ok r →
  match addressee m with
  | Some a => Topic r = addressee_topic a ∧ PartitionKey r = Some (match a with inl x | inr x => x end)
  | None => static_topic (Topic r) ∧ Topic r ≠ TopicDeadLetter
  end.
Proof.
  unfold RouteMessage, addressee, static_topic.
  destruct (Body m) as [[[c|]|[c|]|[c|]| | | |[sk|]| |[sg|]]|];
    cbn [routeChat routeCommand routeMedia routeSenderKey routeSignaling]; intros E; simplify_eq/=; try naive_solver.
  - destruct (chat_GroupId c) as [[|? ?]|], (chat_RecipientId c) as [[|? ?]|]; simplify_eq/=; done.
  - destruct (slen (skm_SenderId sk) =? 0)%nat; simplify_eq/=. naive_solver.
  - destruct (sig_RecipientId sg) as [[|? ?]|]; simplify_eq/=; done.
Qed.

(** A message with an addressee is routed. *)
Lemma addressee_routed m a : addressee m = Some a → ∃ r, RouteMessage (Some m) = Ok r.
Proof.
  unfold addressee, RouteMessage. destruct (Body m) as [[[c|]| | | | | | | |[sg|]]|]; try done; simpl.
  - destruct (chat_GroupId c) as [[|? ?]|], (chat_RecipientId c) as [[|? ?]|]; simpl; eauto; done.
  - destruct (sig_RecipientId sg) as [[|? ?]|]; simpl; eauto; done.
Qed.

Section dispatcher_lemmas.
Context {P : Type} `{PgLaws P Outbox.db} `{AppCodecLaws}.

(** [Insert] by its outcome. *)
Lemma Insert_spec now e (p p' : P) r :
  Outbox.Store_Insert now e p = (r, p') →
  let d := pgdata p in
  let d' := pgdata p' in
  match r with
  | Ok _ => ∃ mid key payload,
      Outbox.MessageID e = Some mid ∧ Outbox.PartitionKey e = Some key ∧ Outbox.Payload e = Some payload ∧
      Outbox.has_message mid d = false ∧
      Outbox.rows d' = <[Outbox.next_id d := Outbox.mkRow mid (Outbox.Topic e) key payload
                            Outbox.StatusPending 0 (pg_time now) None]> (Outbox.rows d)
  | Err _ => Outbox.rows d' = Outbox.rows d ∨ Outbox.rows d' = Outbox.rows (Outbox.insert_stmt now e d).2
  | Panic _ => False
  end.
Proof.
  intros E%pg_exec_spec. simpl. destruct r as [[]|err|why]; [| |done].
  - unfold Outbox.insert_stmt in E.
    destruct (Outbox.MessageID e), (Outbox.PartitionKey e), (Outbox.Payload e); simplify_eq/=.
    destruct (Outbox.has_message _ (pgdata p)) eqn:Hm; simplify_eq/=.
    eexists _, _, _. split_and!; [done..|]. by rewrite <-E.
  - by destruct E as [->| ->]; [left|right].
Qed.

End dispatcher_lemmas.

(** The handler by its outcome. *)
Lemma DispatcherServer_Dispatch_spec {P} `{PgLaws P Outbox.db} `{AppCodecLaws} (now : Z) (sender : slice)
    (m : AppMessage) (p p' : P) (r : result (bool * slice)) :
  DispatcherServer_Dispatch now sender (Some m) p = (r, p') →
  let d := pgdata p in
  let d' := pgdata p' in
  let added row := Outbox.rows d' = <[Outbox.next_id d := row]> (Outbox.rows d) in
  match r with
  | Ok (ok, ack) => ok = true ∧ ack = MessageId m ∧
      ∃ mid key route payload,
        MessageId m = Some mid ∧ RouteMessage (Some m) = Ok route ∧ PartitionKey route = Some key ∧
        app_marshal m = Ok payload ∧ Outbox.has_message mid d = false ∧
        added (Outbox.mkRow mid (Topic route) key payload Outbox.StatusPending 0 (pg_time now) None)
  | Err e => e = status_Errorf Internal "dispatch: %v" ∧ (Outbox.rows d' = Outbox.rows d ∨ ∃ row, added row)
  | Panic _ => False
  end.
Proof.
  unfold DispatcherServer_Dispatch. intros E.
  assert (∃ r1, Dispatcher_Dispatch now sender (Some m) p = (r1, p') ∧
    r = match r1 with Ok _ => Ok (true, MessageId m) | Err _ => Err (status_Errorf Internal "dispatch: %v")
        | Panic s => Panic s end) as (r1 & E1 & ->).
  { step E as r1 p1 E1. unfold status_wrap in E1. destruct (Dispatcher_Dispatch now sender (Some m) p) as [[[]|e|s] p2];
      simplify_eq/=; try (unfold mret, M_ret in E; simplify_eq); eauto. }
  unfold Dispatcher_Dispatch in E1. step E1 as r2 p2 E2. unfold wrap, lift in E2.
  destruct (RouteMessage (Some m)) as [route|e|s] eqn:Hroute; simplify_eq/=.
  - step E1 as r3 p3 E3. unfold wrap, lift in E3. destruct (app_marshal m) as [payload|e|s] eqn:Hm; simplify_eq/=.
    + destruct (Outbox.Store_Insert now (entry_of (MessageId m) route payload) p3) as [r4 p4] eqn:E4.
      rewrite (wrap_run _ _ _ _ _ E4) in E1. apply Insert_spec in E4. simplify_eq.
      destruct r4 as [[]|e|s]; [| |done].
      * destruct E4 as (mid & key & pl & Hmid & Hkey & [= <-] & Hno & Hrows). split_and!; [done..|].
        eexists mid, key, route, payload. done.
      * split; [done|]. destruct E4 as [->|E4]; [by left|]. rewrite E4. unfold Outbox.insert_stmt.
        repeat case_match; simpl; eauto.
    + split; [done|]. by left.
    + by apply app_marshal_no_panic in Hm.
  - split; [done|]. by left.
  - exfalso. revert Hroute. clear. unfold RouteMessage, routeChat, routeCommand, routeMedia, routeSenderKey, routeSignaling.
    by repeat case_match.
Qed.

(** ** Properties *)



(** A dispatched message is in the outbox.  When [Dispatch] succeeds, one
    row was added, pending, with the message's id (which no row had before), its
    route's topic and key and its encoding, and the reply acknowledges that id; when
    it fails, at most that row was added and no row was changed. *)
Theorem dispatch_enqueues {P} `{PgLaws P Outbox.db} `{AppCodecLaws} (now : Z) (sender : slice)
    (m : AppMessage) (p p' : P) (r : result (bool * slice)) :
  DispatcherServer_Dispatch now sender (Some m) p = (r, p') →
  let d := pgdata p in
  let d' := pgdata p' in
  let added row := Outbox.rows d' = <[Outbox.next_id d := row]> (Outbox.rows d) in
  match r with
  | Ok (ok, ack) => ok = true ∧ ack = MessageId m ∧
      ∃ mid key route payload,
        MessageId m = Some mid ∧ RouteMessage (Some m) = Ok route ∧ PartitionKey route = Some key ∧
        app_marshal m = Ok payload ∧ Outbox.has_message mid d = false ∧
        added (Outbox.mkRow mid (Topic route) key payload Outbox.StatusPending 0 (pg_time now) None)
  | Err e => e = status_Errorf Internal "dispatch: %v" ∧ (Outbox.rows d' = Outbox.rows d ∨ ∃ row, added row)
  | Panic _ => False
  end.
Proof. apply DispatcherServer_Dispatch_spec. Qed.

Lemma dispatch_enqueues_witness :
  let codec := toy_app_codec in
  ∃ p', DispatcherServer_Dispatch 7 (Some [x02]) (Some (example_chat [x01] [x02] [x0a] "hi"))
          (mkMemPg (Outbox.mkDb ∅ 1) []) = (Ok (true, Some [x01]), p').
Proof.
  intros codec.
  destruct (DispatcherServer_Dispatch 7 (Some [x02]) (Some (example_chat [x01] [x02] [x0a] "hi"))
              (mkMemPg (Outbox.mkDb ∅ 1) [])) as [r p'] eqn:E.
  pose proof (@dispatch_enqueues _ _ _ codec toy_app_codec_laws 7 (Some [x02])
                (example_chat [x01] [x02] [x0a] "hi") (mkMemPg (Outbox.mkDb ∅ 1) []) p' r E) as Hspec.
  assert (∃ ok ack, r = Ok (ok, ack)) as (ok & ack & ->).
  { change r with (r, p').1. rewrite <-E. eexists _, _. vm_compute. reflexivity. }
  destruct Hspec as (-> & -> & _). by exists p'.
Defined.
