(* ===== verification/Inbox.v ===== *)
(** * The inbox

    [server/internal/inbox]: the table of messages received for each user, with at
    most one row for a user and a message id. *)
From S2P Require Import Prelude Bytes Postgres.

Local Open Scope Z_scope.

Module Inbox.

(** ** model.go *)

Record Entry := mkEntry {
  ID : Z;
  UserID : slice;
  MessageID : slice;
  ConversationID : slice;
  SenderID : slice;
  Payload : slice;
  Delivered : bool;
  Read : bool;
  CreatedAt : Z;
}.

(** ** store.go *)

(** A row of the table [inbox]; only [conversation_id] may be NULL. *)
Record row := mkRow {
  row_user_id : bytes;
  row_message_id : bytes;
  row_conversation_id : slice;
  row_sender_id : bytes;
  row_payload : bytes;
  row_delivered : bool;
  row_read : bool;
  row_created_at : Z;
}.

Record db := mkDb { rows : gmap Z row; next_id : Z }.

(** The row of a user and a message id: [UNIQUE(user_id, message_id)]. *)
Definition is_row (u m : bytes) (r : row) : Prop := row_user_id r = u ∧ row_message_id r = m.

#[export] Instance is_row_dec u m r : Decision (is_row u m r).
Proof. unfold is_row. apply _. Defined.

(** The NOT NULL columns are checked before the conflict; a number of the sequence is
    used up in every case. *)
Definition insert_stmt (now : Z) (e : Entry) : stmt db unit := λ d,
  let burnt := mkDb (rows d) (next_id d + 1) in
  match UserID e, MessageID e, SenderID e, Payload e with
  | Some u, Some m, Some s, Some p =>
      if bool_decide (map_Exists (λ _ r, is_row u m r) (rows d)) then (Ok tt, burnt)
      else (Ok tt, mkDb (<[next_id d := mkRow u m (ConversationID e) s p false false (pg_time now)]> (rows d))
                     (next_id d + 1))
  | _, _, _, _ => (Err (not_null_violation "inbox"), burnt)
  end.

Definition entry_of_row (id : Z) (r : row) : Entry :=
  mkEntry id (Some (row_user_id r)) (Some (row_message_id r)) (row_conversation_id r) (Some (row_sender_id r))
    (Some (row_payload r)) (row_delivered r) (row_read r) (row_created_at r).

(** The entries of a table. *)
Definition entries (d : db) : list Entry := (λ '(id, r), entry_of_row id r) <$> map_to_list (rows d).

(** [WHERE user_id = $1]: nothing equals NULL. *)
Definition of_user (userID : slice) (e : Entry) : Prop := userID ≠ None ∧ UserID e = userID.

#[export] Instance of_user_dec userID e : Decision (of_user userID e).
Proof. unfold of_user. apply _. Defined.

Definition alter_rows (f : row → row) (id : Z) (d : db) : db := mkDb (alter f id (rows d)) (next_id d).

Definition set_delivered (r : row) : row :=
  mkRow (row_user_id r) (row_message_id r) (row_conversation_id r) (row_sender_id r) (row_payload r)
    true (row_read r) (row_created_at r).

Definition set_read (r : row) : row :=
  mkRow (row_user_id r) (row_message_id r) (row_conversation_id r) (row_sender_id r) (row_payload r)
    (row_delivered r) true (row_created_at r).

Section queries.
Context `{SqlOrder}.

(** [... WHERE user_id = $1 AND delivered = FALSE ORDER BY created_at LIMIT $2] *)
Definition undelivered (userID : slice) (limit : Z) (d : db) : list Entry :=
  take (Z.to_nat limit)
    (order_by CreatedAt (filter (λ e, of_user userID e ∧ Delivered e = false) (entries d))).

(** [... WHERE user_id = $1 AND conversation_id = $2 AND id > $3
     ORDER BY created_at DESC LIMIT $4] *)
Definition history (userID conversationID : slice) (afterID limit : Z) (d : db) : list Entry :=
  take (Z.to_nat limit)
    (order_by (λ e, - CreatedAt e)
       (filter (λ e, of_user userID e ∧ conversationID ≠ None ∧ ConversationID e = conversationID ∧ afterID < ID e)
          (entries d))).

(** [SELECT created_at FROM inbox WHERE user_id = $1 AND message_id = $2 LIMIT 1]:
    NULL when there is no such row. *)
Definition created_at_of (userID messageID : slice) (d : db) : option Z :=
  CreatedAt <$> head (filter (λ e, of_user userID e ∧ messageID ≠ None ∧ MessageID e = messageID) (entries d)).

(** [... WHERE user_id = $1 AND created_at > (subquery) ORDER BY created_at LIMIT $3]:
    no row is later than NULL. *)
Definition after_message (userID lastSeenMessageID : slice) (limit : Z) (d : db) : list Entry :=
  match created_at_of userID lastSeenMessageID d with
  | None => []
  | Some t => take (Z.to_nat limit) (order_by CreatedAt (filter (λ e, of_user userID e ∧ t < CreatedAt e) (entries d)))
  end.

End queries.

Section store.
Context {P : Type} `{PgPool P db} `{SqlOrder}.

Definition Store_Migrate : M P unit := pg_exec migrate_stmt.

Definition Store_Insert (now : Z) (e : Entry) : M P unit := pg_exec (insert_stmt now e).

(** The errors of [rows.Scan] and [rows.Err] are returned as they are; a failed
    [Query] is wrapped. *)
Definition Store_query (q : db → list Entry) : M P (list Entry) := wrap "inbox query" (pg_exec (query_stmt q)).

Definition Store_GetUndelivered (userID : slice) (limit : Z) : M P (list Entry) :=
  Store_query (undelivered userID limit).

Definition Store_GetHistory (userID conversationID : slice) (afterID limit : Z) : M P (list Entry) :=
  Store_query (history userID conversationID afterID limit).

Definition Store_GetAfterMessageID (userID lastSeenMessageID : slice) (limit : Z) : M P (list Entry) :=
  Store_query (after_message userID lastSeenMessageID limit).

Definition Store_MarkDelivered (id : Z) : M P unit := pg_exec (update_stmt (alter_rows set_delivered id)).

Definition Store_MarkRead (id : Z) : M P unit := pg_exec (update_stmt (alter_rows set_read id)).

Definition Store_Count (userID : slice) : M P Z :=
  pg_exec (query_stmt (λ d, Z.of_nat (length (filter (of_user userID) (entries d))))).

End store.

(** ** Invariant *)

(** One row for a user and a message id; the sequence is ahead of the rows. *)
Definition inbox_ok (d : db) : Prop :=
  map_Forall (λ id _, id < next_id d) (rows d) ∧
  ∀ i j r s, rows d !! i = Some r → rows d !! j = Some s →
    row_user_id r = row_user_id s → row_message_id r = row_message_id s → i = j.

(** ** Lemmas *)

Lemma elem_of_entries e d : e ∈ entries d ↔ ∃ id r, rows d !! id = Some r ∧ e = entry_of_row id r.
Proof.
  unfold entries. rewrite list_elem_of_fmap. split.
  - intros ([id r] & -> & Hin). apply elem_of_map_to_list in Hin. eauto.
  - intros (id & r & Hr & ->). exists (id, r). by rewrite elem_of_map_to_list.
Qed.

Lemma insert_stmt_ok now e d : inbox_ok d → inbox_ok (insert_stmt now e d).2.
Proof.
  intros [Hfr Hun].
  assert (inbox_ok (mkDb (rows d) (next_id d + 1))) as Hburnt.
  { split; [|done]. intros id r Hr. apply Hfr in Hr. simpl in *. lia. }
  unfold insert_stmt. destruct (UserID e) as [u|], (MessageID e) as [m|], (SenderID e), (Payload e); try done.
  case_bool_decide as Hex; [done|]. split; simpl.
  - apply map_Forall_insert_2; [simpl; lia|]. intros id r Hr. apply Hfr in Hr. simpl in *. lia.
  - intros i j r s Hi Hj Hu Hm. apply lookup_insert_Some in Hi as [[<- <-]|[Hi1 Hi2]];
      apply lookup_insert_Some in Hj as [[<- <-]|[Hj1 Hj2]]; simpl in *; [done| | |by eapply Hun].
    + exfalso. apply Hex. exists j, s. by split.
    + exfalso. apply Hex. exists i, r. by split.
Qed.

Lemma alter_inbox_ok f id d :
  (∀ r, row_user_id (f r) = row_user_id r ∧ row_message_id (f r) = row_message_id r) →
  inbox_ok d → inbox_ok (alter_rows f id d).
Proof.
  intros Hf [Hfr Hun].
  assert (∀ i r, rows (alter_rows f id d) !! i = Some r → ∃ r0, rows d !! i = Some r0 ∧
            row_user_id r = row_user_id r0 ∧ row_message_id r = row_message_id r0) as Hback.
  { intros i r Hr. simpl in Hr. destruct (decide (id = i)) as [->|Hne].
    - rewrite lookup_alter_eq in Hr. destruct (rows d !! i) as [r0|]; simplify_eq/=. exists r0. by destruct (Hf r0).
    - rewrite lookup_alter_ne in Hr by done. eauto. }
  split.
  - intros i r Hr. apply Hback in Hr as (r0 & Hr0 & _). by apply (Hfr i r0).
  - intros i j r s Hi Hj Hu Hm. apply Hback in Hi as (r0 & Hr0 & Hu0 & Hm0).
    apply Hback in Hj as (s0 & Hs0 & Hu1 & Hm1). apply (Hun i j r0 s0); congruence.
Qed.

(** ** The operations that change the table, with any outcome *)

Inductive inbox_step {P} `{PgPool P db} : P → P → Prop :=
| step_insert now e p r p' : Store_Insert now e p = (r, p') → inbox_step p p'
| step_delivered id p r p' : Store_MarkDelivered id p = (r, p') → inbox_step p p'
| step_read id p r p' : Store_MarkRead id p = (r, p') → inbox_step p p'.

Lemma insert_row now e d :
  match UserID e, MessageID e, SenderID e, Payload e with
  | Some u, Some m, Some s, Some pl =>
      (insert_stmt now e d).1 = Ok tt ∧
      ((∃ id r, rows d !! id = Some r ∧ is_row u m r ∧ rows (insert_stmt now e d).2 = rows d) ∨
       rows (insert_stmt now e d).2 =
         <[next_id d := mkRow u m (ConversationID e) s pl false false (pg_time now)]> (rows d))
  | _, _, _, _ => (insert_stmt now e d).1 ≠ Ok tt ∧ rows (insert_stmt now e d).2 = rows d
  end.
Proof.
  unfold insert_stmt. destruct (UserID e) as [u|], (MessageID e) as [m|], (SenderID e), (Payload e); try done.
  case_bool_decide as Hex; (split; [done|]); [left|by right]. destruct Hex as (id & r & Hr & Hi). eauto.
Qed.

(** ** Properties *)

(** Whatever operations run and fail, the inbox holds at most one row for a
    user and a message id. *)
Theorem inbox_unique {P} `{PgLaws P db} (p p' : P) :
  inbox_ok (pgdata p) → rtc inbox_step p p' → inbox_ok (pgdata p').
Proof.
  intros Hok. apply (rtc_invariant inbox_step (λ p, inbox_ok (pgdata p))); [|done].
  intros a b Ha Hs. destruct Hs as [now e p0 r p1 E|id p0 r p1 E|id p0 r p1 E]; (eapply (pg_exec_keeps inbox_ok); [|exact E|exact Ha]); intros d Hd.
  - by apply insert_stmt_ok.
  - by apply alter_inbox_ok.
  - by apply alter_inbox_ok.
Qed.

Definition example_entry (u m : bytes) : Entry :=
  mkEntry 0 (Some u) (Some m) None (Some [x02]) (Some [x68]) false false 0.

Lemma inbox_unique_witness :
  let p0 := mkMemPg (mkDb ∅ 1) [] in
  inbox_ok (pgdata (Store_Insert 7 (example_entry [x0a] [x01]) p0).2).
Proof.
  intros p0. destruct (Store_Insert 7 (example_entry [x0a] [x01]) p0) as [r p1] eqn:E.
  apply (inbox_unique p0 p1); [by split|]. apply rtc_once. by eapply step_insert.
Defined.

End Inbox.
