(* ===== verification/OfflineSync.v ===== *)
(** * Offline synchronisation

    [server/internal/sync/offline.go]: a user who reconnects receives the messages
    that arrived after the last one seen, in pages.  The cursor of a page is the id of
    the last message of the page before. *)
From S2P Require Import Prelude Bytes Postgres Inbox.

Local Open Scope Z_scope.

Definition DefaultPageSize : Z := 100.

Record SyncResult := mkSyncResult { Messages : list Inbox.Entry; HasMore : bool }.

(** One more entry than a page is asked for; the last one only tells that there is
    more. *)
Definition cut_page (pageSize : Z) (entries : list Inbox.Entry) : SyncResult :=
  let hasMore := pageSize <? Z.of_nat (length entries) in
  mkSyncResult (if hasMore then take (Z.to_nat pageSize) entries else entries) hasMore.

Section sync.
Context {P : Type} `{PgPool P Inbox.db} `{SqlOrder}.
Context (pageSize : Z).

Definition OfflineSync_getUndelivered (userID : slice) : M P SyncResult :=
  entries ← wrap "get undelivered" (Inbox.Store_GetUndelivered userID (pageSize + 1));
  mret (cut_page pageSize entries).

Definition OfflineSync_GetMissedMessages (userID lastSeenMessageID : slice) : M P SyncResult :=
  if (slen lastSeenMessageID =? 0)%nat then OfflineSync_getUndelivered userID
  else
    entries ← wrap "get after message_id" (Inbox.Store_GetAfterMessageID userID lastSeenMessageID (pageSize + 1));
    mret (cut_page pageSize entries).

(** The callback acts on a world of its own. *)
Context {V : Type} (callback : list Inbox.Entry → M V unit).

Definition on_store {A} (m : M P A) : M (P * V) A := zoom fst (λ p w, (p, snd w)) m.
Definition on_callback {A} (m : M V A) : M (P * V) A := zoom snd (λ v w, (fst w, v)) m.

(** The loop; [fuel] bounds the number of pages, and running out of it is a panic. *)
Fixpoint paginate (fuel : nat) (userID cursor : slice) : M (P * V) unit :=
  match fuel with
  | O => panic "out of fuel"
  | S fuel =>
      result ← on_store (OfflineSync_GetMissedMessages userID cursor);
      match last (Messages result) with
      | None => mret tt
      | Some e =>
          _ ← wrap "callback" (on_callback (callback (Messages result)));
          if HasMore result then paginate fuel userID (Inbox.MessageID e) else mret tt
      end
  end.

Definition OfflineSync_GetMissedMessagesPaginated (fuel : nat) (userID lastSeenMessageID : slice) :
    M (P * V) unit := paginate fuel userID lastSeenMessageID.

End sync.

(** ** What a user should receive *)

Section missed.
Context `{SqlOrder}.

(** The entries of a user later than [t], oldest first. *)
Definition missed (userID : slice) (t : Z) (d : Inbox.db) : list Inbox.Entry :=
  order_by Inbox.CreatedAt (filter (λ e, Inbox.of_user userID e ∧ t < Inbox.CreatedAt e) (Inbox.entries d)).

End missed.

(** No two messages of a user arrived in the same microsecond. *)
Definition distinct_times (userID : slice) (d : Inbox.db) : Prop :=
  ∀ e e', e ∈ Inbox.entries d → e' ∈ Inbox.entries d → Inbox.of_user userID e → Inbox.of_user userID e' →
    Inbox.CreatedAt e = Inbox.CreatedAt e' → e = e'.

(** ** Lemmas: strictly sorted lists *)

Section sorted.
Context {A : Type} (key : A → Z).
Implicit Types l : list A.

Notation ordered := (StronglySorted (λ a b, key a ≤ key b)).

(** Two orders of the same elements agree when the keys are distinct. *)
Lemma ordered_unique l1 l2 :
  (∀ x y, x ∈ l1 → y ∈ l1 → key x = key y → x = y) →
  ordered l1 → ordered l2 → l1 ≡ₚ l2 → l1 = l2.
Proof.
  intros Hinj H1 H2 Hp. eapply StronglySorted_unique_strong; [|done..].
  simpl. intros x y Hx Hy Hxy Hyx. apply Hinj; [done|by rewrite Hp|lia].
Qed.

Lemma ordered_filter (Q : A → Prop) `{∀ x, Decision (Q x)} l : ordered l → ordered (filter Q l).
Proof.
  induction 1 as [|x l Hs IH Hx]; [constructor|]. rewrite filter_cons. case_decide; [|done].
  constructor; [done|]. apply Forall_forall. intros y Hy. apply list_elem_of_filter in Hy as [_ Hy].
  by eapply Forall_forall in Hx.
Qed.

(** The elements after position [i]: the ones with a greater key. *)
Lemma filter_after l i x :
  NoDup l → (∀ x y, x ∈ l → y ∈ l → key x = key y → x = y) →
  ordered l → l !! i = Some x → filter (λ y, key x < key y) l = drop (S i) l.
Proof.
  intros Hnd Hinj Hs. revert i Hnd Hinj. induction Hs as [|y l Hs IH Hy]; intros i Hnd Hinj Hi; [done|].
  apply NoDup_cons in Hnd as [Hni Hnd]. rewrite Forall_forall in Hy. destruct i as [|i]; simpl in *.
  - simplify_eq. rewrite filter_cons_False by lia. apply filter_all, Forall_forall. intros z Hz.
    apply Hy in Hz as Hle. simpl in Hle. assert (key x ≠ key z); [|lia].
    intros Heq. apply Hinj in Heq as ->; [done|set_solver|set_solver].
  - rewrite filter_cons_False.
    + apply IH; [done| |done]. intros a b Ha Hb. apply Hinj; set_solver.
    + apply list_elem_of_lookup_2, Hy in Hi. simpl in Hi. lia.
Qed.

End sorted.

(** ** Lemmas: pages *)

Lemma cut_page_take (n : Z) (l : list Inbox.Entry) :
  0 ≤ n →
  cut_page n (take (Z.to_nat (n + 1)) l) = mkSyncResult (take (Z.to_nat n) l) (n <? Z.of_nat (length l)).
Proof.
  intros Hn. unfold cut_page. rewrite length_take.
  destruct (Z.ltb_spec n (Z.of_nat (length l))).
  - rewrite (proj2 (Z.ltb_lt _ _)) by lia. rewrite take_take. do 2 f_equal. lia.
  - rewrite (proj2 (Z.ltb_ge _ _)) by lia. by rewrite !take_ge by lia.
Qed.

Lemma entries_NoDup d : NoDup (Inbox.entries d).
Proof.
  unfold Inbox.entries. apply (NoDup_fmap_1 Inbox.ID). rewrite <-list_fmap_compose.
  erewrite list_fmap_ext; [apply NoDup_fst_map_to_list|]. by intros i [id r].
Qed.

Section missed_lemmas.
Context `{SqlOrderLaws}.
Implicit Types d : Inbox.db.

Lemma elem_of_missed userID t d e :
  e ∈ missed userID t d ↔ e ∈ Inbox.entries d ∧ Inbox.of_user userID e ∧ t < Inbox.CreatedAt e.
Proof. unfold missed. rewrite elem_of_order_by, list_elem_of_filter. tauto. Qed.

(** Where a page ends the next one begins. *)
Lemma missed_next userID t d i e :
  distinct_times userID d → missed userID t d !! i = Some e →
  missed userID (Inbox.CreatedAt e) d = drop (S i) (missed userID t d).
Proof.
  intros Hdist Hi.
  assert (Hinj : ∀ x y, x ∈ missed userID t d → y ∈ missed userID t d →
            Inbox.CreatedAt x = Inbox.CreatedAt y → x = y).
  { intros x y (Hx & Hux & _)%elem_of_missed (Hy & Huy & _)%elem_of_missed. by apply Hdist. }
  rewrite <-(filter_after Inbox.CreatedAt _ i e);
    [|unfold missed; rewrite order_by_perm; apply NoDup_filter, entries_NoDup|done|apply order_by_sorted|done].
  apply list_elem_of_lookup_2, elem_of_missed in Hi as (He & Hu & Ht).
  apply (ordered_unique Inbox.CreatedAt).
  - intros x y (Hx & Hux & _)%elem_of_missed (Hy & Huy & _)%elem_of_missed. by apply Hdist.
  - apply order_by_sorted.
  - apply ordered_filter, order_by_sorted.
  - unfold missed. rewrite !order_by_perm, list_filter_filter.
    erewrite list_filter_iff; [reflexivity|]. intros x. simpl. split; [|tauto]. intros [? ?]. split_and!; [done..|lia].
Qed.

(** The subquery finds the creation time of the cursor. *)
Lemma created_at_of_entry userID d e :
  Inbox.inbox_ok d → e ∈ Inbox.entries d → Inbox.of_user userID e →
  Inbox.created_at_of userID (Inbox.MessageID e) d = Some (Inbox.CreatedAt e).
Proof.
  intros [_ Hun] He Hu. unfold Inbox.created_at_of.
  set (Q := λ e', Inbox.of_user userID e' ∧ Inbox.MessageID e ≠ None ∧ Inbox.MessageID e' = Inbox.MessageID e).
  assert (Hin : e ∈ filter Q (Inbox.entries d)).
  { apply list_elem_of_filter. split; [|done]. apply Inbox.elem_of_entries in He as (id & r & _ & ->). done. }
  destruct (filter Q (Inbox.entries d)) as [|e' l] eqn:Hf; [by apply elem_of_nil in Hin|]. simpl.
  assert (Hin' : e' ∈ filter Q (Inbox.entries d)) by (rewrite Hf; set_solver).
  apply list_elem_of_filter in Hin' as [(Hu' & _ & Hm) He'].
  apply Inbox.elem_of_entries in He as (id & r & Hr & ->). apply Inbox.elem_of_entries in He' as (id' & r' & Hr' & ->).
  destruct Hu as [_ Hu], Hu' as [_ Hu']. simpl in *.
  assert (id' = id) as ->; [|by simplify_eq]. apply (Hun id' id r' r); [done..| |]; congruence.
Qed.

End missed_lemmas.

Section pagination_lemmas.
Context {P : Type} `{PgLaws P Inbox.db} `{SqlOrderLaws}.

(** A callback that keeps what it is given. *)
Definition collect (es : list Inbox.Entry) : M (list Inbox.Entry) unit := λ v, (Ok tt, v ++ es).

Lemma Store_query_spec q (p p' : P) r :
  Inbox.Store_query q p = (r, p') →
  pgdata p' = pgdata p ∧ match r with Ok es => es = q (pgdata p) | Err _ => True | Panic _ => False end.
Proof.
  unfold Inbox.Store_query, wrap. destruct (pg_exec (query_stmt q) p) as [r1 p1] eqn:E.
  apply pg_query_spec in E as [Hd Hr]. destruct r1; intros [= <- <-]; done.
Qed.

Lemma GetMissedMessages_spec n userID cursor t (p p' : P) r :
  0 ≤ n → slen cursor ≠ 0%nat → Inbox.created_at_of userID cursor (pgdata p) = Some t →
  OfflineSync_GetMissedMessages n userID cursor p = (r, p') →
  let l := missed userID t (pgdata p) in
  pgdata p' = pgdata p ∧
  match r with
  | Ok res => res = mkSyncResult (take (Z.to_nat n) l) (n <? Z.of_nat (length l))
  | Err _ => True
  | Panic _ => False
  end.
Proof.
  intros Hn Hc Ht E. unfold OfflineSync_GetMissedMessages in E.
  rewrite (proj2 (Nat.eqb_neq _ _)) in E by done. step E as r1 p1 E1.
  destruct (Inbox.Store_GetAfterMessageID userID cursor (n + 1) p) as [r2 p2] eqn:E2.
  rewrite (wrap_run _ _ _ _ _ E2) in E1. simplify_eq. apply Store_query_spec in E2 as [Hd Hr].
  destruct r2 as [es|e|why]; [|by simplify_eq|done].
  unfold mret, M_ret in E. simplify_eq. split; [done|]. unfold Inbox.after_message. rewrite Ht.
  by apply cut_page_take.
Qed.

(** The entries of a user have ids that serve as cursors. *)
Definition cursors_ok (userID : slice) (d : Inbox.db) : Prop :=
  ∀ e, e ∈ Inbox.entries d → Inbox.of_user userID e → slen (Inbox.MessageID e) ≠ 0%nat.

Lemma last_take {A} (l : list A) n x :
  last (take n l) = Some x → ∃ i, l !! i = Some x ∧ S i = length (take n l).
Proof.
  intros Hl. rewrite last_lookup in Hl. exists (pred (length (take n l))).
  assert (length (take n l) ≠ 0%nat) by (intros Hz; apply length_zero_iff_nil in Hz; by rewrite Hz in Hl).
  split; [|lia]. apply lookup_take_Some in Hl as [? _]. done.
Qed.

Lemma paginate_spec n fuel userID cursor t (p p' : P) v v' r :
  0 < n → Inbox.inbox_ok (pgdata p) → distinct_times userID (pgdata p) → cursors_ok userID (pgdata p) →
  slen cursor ≠ 0%nat → Inbox.created_at_of userID cursor (pgdata p) = Some t →
  (length (missed userID t (pgdata p)) < fuel)%nat →
  paginate n collect fuel userID cursor (p, v) = (r, (p', v')) →
  match r with
  | Ok _ => v' = v ++ missed userID t (pgdata p)
  | Err _ => ∃ pages, v' = v ++ pages ∧ pages `prefix_of` missed userID t (pgdata p)
  | Panic _ => False
  end.
Proof.
  intros Hn Hok Hdist Hcur. revert cursor t p v Hok Hdist Hcur.
  induction fuel as [|fuel IH]; intros cursor t p v Hok Hdist Hcur Hc Ht Hfuel E; [lia|].
  simpl in E. step E as r1 w1 E1. unfold on_store, zoom in E1. simpl in E1.
  destruct (OfflineSync_GetMissedMessages n userID cursor p) as [r2 p2] eqn:E2. injection E1 as <- <-.
  eapply GetMissedMessages_spec in E2 as [Hd Hr]; [|lia|done..].
  set (l := missed userID t (pgdata p)) in *.
  destruct r2 as [res|e|why]; [|simplify_eq; exists []; split; [by rewrite app_nil_r|apply prefix_nil]|done].
  subst res. cbn [Messages HasMore] in E. destruct (last (take (Z.to_nat n) l)) as [e|] eqn:Hlast.
  - apply last_take in Hlast as (i & Hi & Hlen).
    unfold mbind, M_bind, wrap, on_callback, zoom, collect in E. simpl in E.
    destruct (Z.ltb_spec n (Z.of_nat (length l))) as [Hlt|Hge].
    + assert (S i = Z.to_nat n) as Hin by (rewrite length_take in Hlen; lia).
      assert (He : e ∈ Inbox.entries (pgdata p) ∧ Inbox.of_user userID e).
      { apply list_elem_of_lookup_2 in Hi. apply elem_of_missed in Hi. tauto. }
      assert (Hnext := missed_next userID t _ i e Hdist Hi). fold l in Hnext. rewrite Hin in Hnext.
      rewrite <-Hd in Hok, Hdist, Hcur, He. destruct He as [He Hu].
      eapply (IH _ (Inbox.CreatedAt e)) in E; [|done|done|done|by apply Hcur|by apply created_at_of_entry|].
      * rewrite Hd, Hnext in E. destruct r as [[]|err|why]; [|  |done].
        -- by rewrite E, <-app_assoc, take_drop.
        -- destruct E as (pages & -> & Hpre). exists (take (Z.to_nat n) l ++ pages).
           split; [by rewrite app_assoc|]. rewrite <-(take_drop (Z.to_nat n) l) at 2. by apply prefix_app.
      * rewrite Hd, Hnext, length_drop. lia.
    + unfold mret, M_ret in E. simplify_eq. by rewrite take_ge by lia.
  - apply last_None in Hlast. unfold mret, M_ret in E. simplify_eq.
    assert (l = []) as ->; [|by rewrite app_nil_r].
    destruct l as [|x l']; [done|]. destruct (Z.to_nat n) eqn:?; [lia|done].
Qed.

End pagination_lemmas.

(** ** Properties *)

(** C8: a reconnecting user gets everything.  When the user's messages arrived at
    distinct instants, the pages sent after a known last message are, together, all
    the later messages of the user, each once and oldest first; when a query fails
    they are a first part of them.  The loop ends: one page more than there are
    messages is enough. *)
Theorem offline_sync_complete {P} `{PgLaws P Inbox.db} `{SqlOrderLaws} (pageSize : Z) (fuel : nat)
    (userID cursor : slice) (t : Z) (p p' : P) (sent : list Inbox.Entry) (r : result unit) :
  0 < pageSize →
  Inbox.inbox_ok (pgdata p) → distinct_times userID (pgdata p) → cursors_ok userID (pgdata p) →
  slen cursor ≠ 0%nat → Inbox.created_at_of userID cursor (pgdata p) = Some t →
  (length (missed userID t (pgdata p)) < fuel)%nat →
  OfflineSync_GetMissedMessagesPaginated pageSize collect fuel userID cursor (p, []) = (r, (p', sent)) →
  match r with
  | Ok _ => sent = missed userID t (pgdata p)
  | Err _ => sent `prefix_of` missed userID t (pgdata p)
  | Panic _ => False
  end.
Proof.
  intros Hn Hok Hd Hc Hcur Ht Hf E. eapply paginate_spec in E; [|done..].
  destruct r; [done|by destruct E as (? & -> & ?)|done].
Qed.

(** Rows of one user, by id, creation time and message id. *)
Definition example_rows (l : list (Z * Z * bytes)) : gmap Z Inbox.row :=
  list_to_map ((λ '(id, t, m), (id, Inbox.mkRow [x0a] m None [x02] [x68] false false t)) <$> l).

Definition example_messages : list (Z * Z * bytes) := [(1, 0, [x01]); (2, 10, [x02]); (3, 20, [x03]); (4, 30, [x04])].

Definition example_inbox : Inbox.db := Inbox.mkDb (example_rows example_messages) 5.

Lemma example_inbox_rows i r :
  Inbox.rows example_inbox !! i = Some r →
  ∃ t m, r = Inbox.mkRow [x0a] m None [x02] [x68] false false t ∧
    ((i, t, m) = (1, 0, [x01]) ∨ (i, t, m) = (2, 10, [x02]) ∨ (i, t, m) = (3, 20, [x03]) ∨ (i, t, m) = (4, 30, [x04])).
Proof.
  intros Hr. apply elem_of_list_to_map_2, list_elem_of_fmap in Hr as ([[id t] m] & [= -> ->] & Hin).
  unfold example_messages in Hin. rewrite !elem_of_cons, elem_of_nil in Hin. exists t, m. naive_solver.
Qed.

Lemma example_inbox_ok :
  Inbox.inbox_ok example_inbox ∧ distinct_times (Some [x0a]) example_inbox ∧ cursors_ok (Some [x0a]) example_inbox.
Proof.
  split_and!.
  - split.
    + intros i r (t & m & -> & Hi)%example_inbox_rows. destruct_or! Hi; simplify_eq; simpl; lia.
    + intros i j r s (t & m & -> & Hi)%example_inbox_rows (t' & m' & -> & Hj)%example_inbox_rows _ Hm.
      simpl in Hm. destruct_or! Hi; destruct_or! Hj; simplify_eq/=; done.
  - intros e e' (i & r & (t & m & -> & Hi)%example_inbox_rows & ->)%Inbox.elem_of_entries
      (j & s & (t' & m' & -> & Hj)%example_inbox_rows & ->)%Inbox.elem_of_entries _ _ Ht.
    simpl in Ht. destruct_or! Hi; destruct_or! Hj; simplify_eq/=; done.
  - intros e (i & r & (t & m & -> & Hi)%example_inbox_rows & ->)%Inbox.elem_of_entries _.
    destruct_or! Hi; simplify_eq/=; done.
Qed.

Lemma offline_sync_complete_witness :
  ∃ p', OfflineSync_GetMissedMessagesPaginated 2 collect 4 (Some [x0a]) (Some [x01]) (mkMemPg example_inbox [], []) =
        (Ok tt, (p', missed (Some [x0a]) 0 example_inbox)).
Proof.
  destruct example_inbox_ok as (Hok & Hd & Hc).
  destruct (OfflineSync_GetMissedMessagesPaginated 2 collect 4 (Some [x0a]) (Some [x01])
              (mkMemPg example_inbox [], [])) as [r [p' sent]] eqn:E.
  assert (r = Ok tt) as -> by (change r with (r, (p', sent)).1; rewrite <-E; vm_compute; reflexivity).
  exists p'. f_equal. f_equal.
  refine (offline_sync_complete 2 4 (Some [x0a]) (Some [x01]) 0 (mkMemPg example_inbox []) p' sent (Ok tt)
            _ Hok Hd Hc _ _ _ E); [lia|discriminate|reflexivity|vm_compute; lia].
Defined.

(** Messages that arrived in the same microsecond as the last one of a full page are
    skipped: of 101 of them only the first 100 are sent. *)
Definition burst_inbox : Inbox.db :=
  Inbox.mkDb (example_rows ((1, 0, [x01]) ::
    ((λ i : nat, (Z.of_nat i + 2, 10, PutUint64LE (Z.of_nat i + 2))) <$> seq 0 101))) 103.

Example offline_sync_skips_ties :
  let w := OfflineSync_GetMissedMessagesPaginated DefaultPageSize collect 102 (Some [x0a]) (Some [x01])
             (mkMemPg burst_inbox [], []) in
  w.1 = Ok tt ∧ length w.2.2 = 100%nat ∧ length (missed (Some [x0a]) 0 burst_inbox) = 101%nat.
Proof. vm_compute. split_and!; reflexivity. Qed.

(** A user whose last message is not in the inbox gets nothing. *)
Example offline_sync_unknown_cursor :
  (OfflineSync_GetMissedMessages DefaultPageSize (Some [x0a]) (Some [x99]) (mkMemPg example_inbox [])).1 =
  Ok (mkSyncResult [] false).
Proof. vm_compute. reflexivity. Qed.
