(* ===== verification/SyncHandler.v ===== *)
(** * The sync service: from Kafka to the inbox

    [server/internal/sync/dedup.go], [handler.go] and the parts of [service.go] that
    select topics and consume them: a message is filtered for duplicates with Redis,
    inserted into the inbox of its recipient and pushed to the online devices. *)
From S2P Require Import Prelude Bytes Redis Postgres Kafka Messages Inbox.
From Stdlib Require Import Ascii.

Local Open Scope Z_scope.

(** ** dedup.go *)

Definition dedupTTL : Z := 48 * Hour.

Definition dedupKey (userID messageID : bytes) : string :=
  "dedup:" +:+ EncodeToString userID +:+ ":" +:+ EncodeToString messageID.

Definition Dedup_IsDuplicate {C} `{RedisClient C} (now : Z) (userID messageID : slice) : M C bool :=
  set ← wrap "dedup setnx" (rSetNX now (dedupKey (sbytes userID) (sbytes messageID)) "1" dedupTTL);
  mret (negb set).

(** ** handler.go *)

(** What [Sscanf] with ["%02x"] reads from two characters: spaces (but not a newline)
    are skipped, then one or two digits are taken and the rest is left. *)
Definition is_space (c : ascii) : bool :=
  let n := N_of_ascii c in (n =? 32)%N || (n =? 9)%N || (n =? 11)%N || (n =? 12)%N || (n =? 13)%N.

Definition scan_02x (c1 c2 : ascii) : option Z :=
  match fromHexChar c1, fromHexChar c2 with
  | Some hi, Some lo => Some (hi * 16 + lo)
  | Some d, None => Some d
  | None, Some d => if is_space c1 then Some d else None
  | None, None => None
  end.

(** A last odd character is left out. *)
Fixpoint hexDecode (s : string) : option bytes :=
  match s with
  | String c1 (String c2 s) =>
      b ← scan_02x c1 c2;
      bs ← hexDecode s;
      Some (byte.of_Z b :: bs)
  | _ => Some []
  end.

(** [topic[5:]] when the topic is longer than five characters and starts with
    ["user-"]. *)
Definition user_suffix (topic : string) : option string :=
  if bool_decide (String.substring 0 5 topic = "user-") && (5 <? String.length topic)%nat
  then Some (String.substring 5 (String.length topic - 5) topic) else None.

Definition extractRecipientID (msg : AppMessage) (topic : string) : slice :=
  let from_topic := s ← user_suffix topic; hexDecode s in
  match GetChat msg with
  | Some chat => if (0 <? slen (chat_RecipientId chat))%nat then chat_RecipientId chat else from_topic
  | None => from_topic
  end.

Definition extractSenderID (msg : AppMessage) : slice :=
  match GetChat msg with Some chat => chat_SenderId chat | None => None end.

Definition extractConversationID (msg : AppMessage) (topic : string) : slice :=
  match GetChat msg with
  | Some chat => if (0 <? slen (chat_GroupId chat))%nat then chat_GroupId chat else chat_RecipientId chat
  | None => Some (bytes_of_string topic)
  end.

(** The client of the push service. *)
Class PushClient (Q : Type) := { PushToUser : slice → AppMessage → M Q unit }.

Class PushLaws (Q : Type) `{PushClient Q} : Prop := {
  PushToUser_no_panic u m q why q' : PushToUser u m q ≠ (Panic why, q');
}.

Record SyncW (C P Q : Type) := mkSyncW { sy_redis : C; sy_pg : P; sy_push : option Q }.
Arguments mkSyncW {C P Q} _ _ _.
Arguments sy_redis {C P Q} _.
Arguments sy_pg {C P Q} _.
Arguments sy_push {C P Q} _.

Section handler.
Context {C P Q : Type} `{RedisClient C} `{PgPool P Inbox.db} `{PushClient Q} `{AppCodec}.

Definition on_redis {A} (m : M C A) : M (SyncW C P Q) A :=
  zoom sy_redis (λ c w, mkSyncW c (sy_pg w) (sy_push w)) m.
Definition on_inbox {A} (m : M P A) : M (SyncW C P Q) A :=
  zoom sy_pg (λ p w, mkSyncW (sy_redis w) p (sy_push w)) m.

(** [if h.pushClient != nil { ... }]: a failed push is logged. *)
Definition push (userID : slice) (msg : AppMessage) : M (SyncW C P Q) unit := λ w,
  match sy_push w with
  | None => (Ok tt, w)
  | Some q => let '(r, q') := ignore (PushToUser userID msg) q in (r, mkSyncW (sy_redis w) (sy_pg w) (Some q'))
  end.

Definition inbox_entry (userID : slice) (appMsg : AppMessage) (topic : string) (value : slice) : Inbox.Entry :=
  Inbox.mkEntry 0 userID (MessageId appMsg) (extractConversationID appMsg topic) (extractSenderID appMsg)
    value false false 0.

Definition Handler_Handle (now : Z) (msg : ConsumerMessage) : M (SyncW C P Q) unit :=
  appMsg ← wrap "unmarshal AppMessage" (lift (app_unmarshal (sbytes (cm_Value msg))));
  let userID := extractRecipientID appMsg (cm_Topic msg) in
  if bool_decide (userID = None) then mret tt
  else
    dup ← wrap "dedup check" (on_redis (Dedup_IsDuplicate now userID (MessageId appMsg)));
    if (dup : bool) then mret tt
    else
      _ ← wrap "inbox insert"
            (on_inbox (Inbox.Store_Insert now (inbox_entry userID appMsg (cm_Topic msg) (cm_Value msg))));
      push userID appMsg.

(** [syncGroupHandler.ConsumeClaim] is the loop of [Kafka.ConsumeClaim]. *)
Definition syncGroupHandler_ConsumeClaim (now : Z) (msgs : list ConsumerMessage) : M (SyncW C P Q * Z) unit :=
  ConsumeClaim (Handler_Handle now) msgs.

(** What happens to the sync service and to the servers it uses: time passes, a record is
    handled, another instance is between the duplicate filter and its insertion, or the
    world changes in any way that leaves the keys of the filter alone. *)
Inductive sync_step : Z * SyncW C P Q → Z * SyncW C P Q → Prop :=
| sync_time now now' w : now ≤ now' → sync_step (now, w) (now', w)
| sync_handle now msg r w w' : Handler_Handle now msg w = (r, w') → sync_step (now, w) (now, w')
| sync_filter now userID messageID r w w' :
    on_redis (Dedup_IsDuplicate now userID messageID) w = (r, w') → sync_step (now, w) (now, w')
| sync_elsewhere now w w' :
    (∀ u m, rdata (sy_redis w') !! dedupKey u m = rdata (sy_redis w) !! dedupKey u m) → sync_step (now, w) (now, w').

End handler.

(** ** service.go *)

(** [strings.HasPrefix(s, prefix)] *)
Definition HasPrefix (s prefix : string) : bool := String.prefix prefix s.

Definition Service_DiscoverTopics {K} `{KafkaCluster K} `{RangeOrder} : M K (list string) :=
  topics ← wrap "list topics" ListTopics;
  mret (filter (λ name, HasPrefix name "user-" || HasPrefix name "group-") (range topics).*1).

(** A push service that records what it is asked to deliver. *)
#[export] Instance log_push : PushClient (list (slice * AppMessage)) :=
  {| PushToUser u m q := (Ok tt, q ++ [(u, m)]) |}.

#[export] Instance log_push_laws : PushLaws (list (slice * AppMessage)).
Proof. by split. Qed.

(** ** Lemmas *)

Lemma dedupKey_inj u m u' m' : dedupKey u m = dedupKey u' m' → u = u' ∧ m = m'.
Proof.
  unfold dedupKey. intros H%(inj (String.app "dedup:")). apply hex_colon_inj in H as [-> H].
  by apply (inj EncodeToString) in H as ->.
Qed.

Lemma hexDecode_EncodeToString b : hexDecode (EncodeToString b) = Some b.
Proof.
  induction b as [|x b IH]; [done|]. rewrite EncodeToString_cons. cbn [hexDecode].
  destruct (hex_digits_byte x) as [H1 H2]. unfold scan_02x. rewrite H1, H2, IH. simpl. do 2 f_equal.
  pose proof (Z.div_mod (byte.unsigned x) 16). rewrite Z.mul_comm, <-H by lia. apply byte.of_Z_unsigned.
Qed.

Lemma substring_full s : String.substring 0 (String.length s) s = s.
Proof. induction s as [|c s IH]; simpl; [done|]. by rewrite IH. Qed.

(** The recipient can be read from a user's topic, and not from a group's. *)
Lemma user_suffix_UserTopic u : u ≠ [] → user_suffix (UserTopic u) = Some (EncodeToString u).
Proof.
  intros Hu. unfold user_suffix, UserTopic. destruct u as [|x u]; [done|]. rewrite EncodeToString_cons.
  set (c1 := hexdigit (byte_hi x)). set (c2 := hexdigit (byte_lo x)). generalize (EncodeToString u). intros s.
  change ("user-" +:+ String c1 (String c2 s)) with
    (String "u" (String "s" (String "e" (String "r" (String "-" (String c1 (String c2 s))))))).
  simpl. f_equal. by rewrite substring_full.
Qed.

Lemma user_suffix_GroupTopic g : user_suffix (GroupTopic g) = None.
Proof. done. Qed.

Section handler_lemmas.
Context {C P Q : Type} `{RedisLaws C} `{PgLaws P Inbox.db} `{PushLaws Q} `{AppCodecLaws}.
Implicit Types w : SyncW C P Q.

Lemma push_spec u m w r w' :
  push u m w = (r, w') → r = Ok tt ∧ sy_redis w' = sy_redis w ∧ sy_pg w' = sy_pg w.
Proof.
  unfold push. destruct (sy_push w) as [q|]; [|by intros [= <- <-]].
  destruct (PushToUser u m q) as [r1 q1] eqn:E. rewrite (ignore_run _ _ _ _ E).
  destruct r1; [by intros [= <- <-]..|by apply PushToUser_no_panic in E].
Qed.

Lemma IsDuplicate_spec now u m (c c' : C) r :
  Dedup_IsDuplicate now u m c = (r, c') →
  let key := dedupKey (sbytes u) (sbytes m) in
  let stored := <[key := REntry (RString "1") (Some (now + dedupTTL))]> (rdata c) in
  match r with
  | Ok true => is_Some (live now (rdata c) key) ∧ rdata c' = rdata c
  | Ok false => live now (rdata c) key = None ∧ rdata c' = stored
  | Err _ => rdata c' = rdata c ∨ (live now (rdata c) key = None ∧ rdata c' = stored)
  | Panic _ => False
  end.
Proof.
  unfold Dedup_IsDuplicate. intros E. step E as r1 c1 E1.
  apply wrap_inv in E1 as (r2 & E2 & ->).
  apply rSetNX_spec in E2. destruct r2 as [[]|e|why]; unfold mret, M_ret in E; simplify_eq/=; done.
Qed.

(** [Handle] by the path it takes. *)
Lemma Handle_spec now msg m w r w' :
  app_unmarshal (sbytes (cm_Value msg)) = Ok m →
  Handler_Handle now msg w = (r, w') →
  let u := extractRecipientID m (cm_Topic msg) in
  let key := dedupKey (sbytes u) (sbytes (MessageId m)) in
  let stored := <[key := REntry (RString "1") (Some (now + dedupTTL))]> (rdata (sy_redis w)) in
  let q := Inbox.insert_stmt now (inbox_entry u m (cm_Topic msg) (cm_Value msg)) in
  let d := pgdata (sy_pg w) in
  let d' := pgdata (sy_pg w') in
  (u = None ∧ r = Ok tt ∧ w' = w) ∨
  u ≠ None ∧
  ((∃ e, r = Err (Wrap "dedup check" e) ∧ sy_pg w' = sy_pg w ∧ sy_push w' = sy_push w ∧
     (rdata (sy_redis w') = rdata (sy_redis w) ∨ live now (rdata (sy_redis w)) key = None ∧ rdata (sy_redis w') = stored)) ∨
   (r = Ok tt ∧ is_Some (live now (rdata (sy_redis w)) key) ∧ rdata (sy_redis w') = rdata (sy_redis w) ∧
     sy_pg w' = sy_pg w ∧ sy_push w' = sy_push w) ∨
   (live now (rdata (sy_redis w)) key = None ∧ rdata (sy_redis w') = stored ∧
     (r = Ok tt ∧ q d = (Ok tt, d') ∨
      ∃ e, r = Err (Wrap "inbox insert" e) ∧ (d' = d ∨ d' = (q d).2)))).
Proof.
  intros Hm E u key stored q d d'. unfold Handler_Handle in E.
  unfold mbind at 1, M_bind at 1 in E. unfold wrap at 1, lift in E. rewrite Hm in E. fold u in E.
  case_bool_decide as Hu; [left; unfold mret, M_ret in E; by simplify_eq|]. right. split; [done|].
  step E as r1 w1 E1. apply wrap_inv in E1 as (r2 & E2 & ->). unfold on_redis, zoom in E2.
  destruct (Dedup_IsDuplicate now u (MessageId m) (sy_redis w)) as [r3 c3] eqn:E3. injection E2 as <- <-.
  apply IsDuplicate_spec in E3. destruct r3 as [[]|e|why]; [| | |done].
  - unfold mret, M_ret in E. simplify_eq. right. left. by destruct E3.
  - right. right. destruct E3 as [Hl Hs]. split; [done|]. step E as r4 w4 E4.
    apply wrap_inv in E4 as (r5 & E5 & ->). unfold on_inbox, zoom in E5. simpl in E5.
    destruct (Inbox.Store_Insert _ _ (sy_pg w)) as [r6 p6] eqn:E6. injection E5 as <- <-.
    apply pg_exec_spec in E6. destruct r6 as [[]|e|why]; [| |done].
    + apply push_spec in E as (-> & Hr & Hp). unfold d'. rewrite Hr, Hp. split; [done|]. by left.
    + simplify_eq. split; [done|]. right. eauto.
  - left. simplify_eq. exists e. split_and!; [done..|]. tauto.
Qed.

(** Within its time to live the key of a message blocks it. *)
Lemma dedup_blocks now t msg m w r w' :
  app_unmarshal (sbytes (cm_Value msg)) = Ok m →
  rdata (sy_redis w) !! dedupKey (sbytes (extractRecipientID m (cm_Topic msg))) (sbytes (MessageId m)) =
    Some (REntry (RString "1") (Some (t + dedupTTL))) →
  now < t + dedupTTL →
  Handler_Handle now msg w = (r, w') →
  sy_pg w' = sy_pg w ∧ sy_push w' = sy_push w ∧ (r = Ok tt ∨ ∃ e, r = Err (Wrap "dedup check" e)).
Proof.
  intros Hm Hk Ht E. eapply Handle_spec in E; [|done]. simpl in E.
  destruct E as [(_ & -> & ->)|[_ [(e & -> & ? & ? & _)|[(-> & _ & _ & ? & ?)|(Hl & _)]]]]; [by eauto..|].
  exfalso. revert Hl. unfold live, expired. rewrite Hk. simpl. by rewrite (proj2 (Z.leb_gt _ _)) by lia.
Qed.

(** A record that cannot be decoded changes nothing. *)
Lemma Handle_undecoded now msg w r w' :
  (∀ m, app_unmarshal (sbytes (cm_Value msg)) ≠ Ok m) → Handler_Handle now msg w = (r, w') → w' = w.
Proof.
  intros Hm. unfold Handler_Handle, mbind, M_bind, wrap, lift.
  destruct (app_unmarshal (sbytes (cm_Value msg))) as [m|e|why]; [by destruct (Hm m)|by intros [= _ <-]..].
Qed.

(** The mark that the filter has set at [t]. *)
Definition marked (t : Z) (u i : bytes) w : Prop :=
  rdata (sy_redis w) !! dedupKey u i = Some (REntry (RString "1") (Some (t + dedupTTL))).

(** Storing another mark keeps it, as the filter stores none over a live one. *)
Lemma marked_stored t now u i key v (ks : keyspace) :
  ks !! dedupKey u i = Some (REntry (RString "1") (Some (t + dedupTTL))) → now < t + dedupTTL → live now ks key = None →
  <[key := v]> ks !! dedupKey u i = Some (REntry (RString "1") (Some (t + dedupTTL))).
Proof.
  intros Hk Ht Hl. rewrite lookup_insert_ne; [done|]. intros ->. revert Hl. unfold live, expired. rewrite Hk. simpl.
  by rewrite (proj2 (Z.leb_gt _ _)) by lia.
Qed.

Lemma sync_step_marked t now now' u i w w' :
  sync_step (now, w) (now', w') → now' < t + dedupTTL → marked t u i w → now ≤ now' ∧ marked t u i w'.
Proof.
  unfold marked. intros Hstep Ht Hk. inversion Hstep as [? ? ? Hle|? msg r ? ? E|? u' i' r ? ? E|? ? ? Hsame]; subst.
  - done.
  - split; [done|]. destruct (app_unmarshal (sbytes (cm_Value msg))) as [m|e|why] eqn:Hm.
    + eapply Handle_spec in E; [|done]. simpl in E.
      destruct E as [(_ & _ & ->)|[_ [(e & _ & _ & _ & Hr)|[(_ & _ & -> & _)|(Hl & -> & _)]]]];
        [done| |done|by eapply marked_stored].
      destruct Hr as [->|[Hl ->]]; [done|by eapply marked_stored].
    + by rewrite (Handle_undecoded _ _ _ _ _ (λ m, ltac:(by rewrite Hm)) E).
    + by rewrite (Handle_undecoded _ _ _ _ _ (λ m, ltac:(by rewrite Hm)) E).
  - split; [done|]. unfold on_redis, zoom in E. destruct (Dedup_IsDuplicate now' u' i' (sy_redis w)) as [r1 c1] eqn:E1.
    injection E as <- <-. simpl. apply IsDuplicate_spec in E1. destruct r1 as [[]|e|why]; [by destruct E1 as [_ ->]| | |done].
    + destruct E1 as [Hl ->]. by eapply marked_stored.
    + destruct E1 as [->|[Hl ->]]; [done|by eapply marked_stored].
  - split; [done|]. by rewrite Hsame.
Qed.

(** A mark is kept until it expires. *)
Lemma marked_lasts t u i (x y : Z * SyncW C P Q) :
  rtc sync_step x y → y.1 < t + dedupTTL → marked t u i x.2 → marked t u i y.2.
Proof.
  intros Hrtc Ht. assert (x.1 ≤ y.1 ∧ (marked t u i x.2 → marked t u i y.2)) as [_ ?]; [|done].
  induction Hrtc as [x|[now w] [now1 w1] y Hstep _ IH]; [done|]. destruct (IH Ht) as [Hle Hm]. simpl in *.
  assert (now ≤ now1) by (inversion Hstep; lia).
  split; [lia|]. intros Hk. apply Hm. eapply sync_step_marked; [done|lia|done].
Qed.

(** An accepted message is in the inbox. *)
Lemma Handle_stored (now : Z) (msg : ConsumerMessage) (m : AppMessage) (u : bytes)
    (w w' : SyncW C P Q) :
  app_unmarshal (sbytes (cm_Value msg)) = Ok m →
  extractRecipientID m (cm_Topic msg) = Some u →
  live now (rdata (sy_redis w)) (dedupKey u (sbytes (MessageId m))) = None →
  Handler_Handle now msg w = (Ok tt, w') →
  ∃ mid id row, MessageId m = Some mid ∧
    Inbox.rows (pgdata (sy_pg w')) !! id = Some row ∧ Inbox.is_row u mid row ∧
    (Inbox.rows (pgdata (sy_pg w)) !! id = Some row ∨
     Some (Inbox.row_sender_id row) = extractSenderID m ∧ Some (Inbox.row_payload row) = cm_Value msg).
Proof.
  intros Hm Hu Hl E. eapply Handle_spec in E; [|done]. simpl in E. rewrite Hu in E. simpl in E.
  destruct E as [(? & _)|[_ [(e & ? & _)|[(_ & [x Hx] & _)|(_ & _ & [[_ Hq]|(e & ? & _)])]]]]; [done|done|congruence| |done].
  pose proof (Inbox.insert_row now (inbox_entry (Some u) m (cm_Topic msg) (cm_Value msg)) (pgdata (sy_pg w))) as Hrow.
  rewrite Hq in Hrow. simpl in Hrow.
  destruct (MessageId m) as [mid|], (extractSenderID m) as [s|], (cm_Value msg) as [v|]; try by destruct Hrow.
  destruct Hrow as [_ [(id & row & Hid & Hir & Hsame)|Hnew]].
  - exists mid, id, row. rewrite Hsame. auto.
  - eexists mid, _, _. rewrite Hnew. split_and!; [done|apply lookup_insert_eq|done|]. by right.
Qed.

End handler_lemmas.

(** ** Properties *)

Section handler_properties.
Context {C P Q : Type} `{RedisLaws C} `{PgLaws P Inbox.db} `{PushLaws Q} `{AppCodecLaws}.

(** A message that [Handle] accepts (it returns nil, the message has a
    recipient and had not been seen) is in the recipient's inbox: there is a row for
    the user and the message id, and unless one was there before it holds the sender
    and the encoded message. *)
Theorem handled_is_stored (now : Z) (msg : ConsumerMessage) (m : AppMessage) (u : bytes)
    (w w' : SyncW C P Q) :
  app_unmarshal (sbytes (cm_Value msg)) = Ok m →
  extractRecipientID m (cm_Topic msg) = Some u →
  live now (rdata (sy_redis w)) (dedupKey u (sbytes (MessageId m))) = None →
  Handler_Handle now msg w = (Ok tt, w') →
  ∃ mid id row, MessageId m = Some mid ∧
    Inbox.rows (pgdata (sy_pg w')) !! id = Some row ∧ Inbox.is_row u mid row ∧
    (Inbox.rows (pgdata (sy_pg w)) !! id = Some row ∨
     Some (Inbox.row_sender_id row) = extractSenderID m ∧ Some (Inbox.row_payload row) = cm_Value msg).
Proof. apply Handle_stored. Qed.

(** C14: a message is processed once.  When [Handle] has accepted a message that the filter
    had not seen, then whatever happens in the next 48 hours (other records and records
    of the same message are handled, other instances of the service run in between, calls
    fail, the servers serve others who leave the filter's keys alone), handling a record of
    the same message for the same user changes neither the inbox nor what was pushed.  The
    filter has marked this message for this user and no other message. *)
Theorem handled_once (t t' : Z) (msg msg' : ConsumerMessage) (m m' : AppMessage) (u : bytes) (w w1 w2 w' : SyncW C P Q)
    (r : result unit) :
  app_unmarshal (sbytes (cm_Value msg)) = Ok m → extractRecipientID m (cm_Topic msg) = Some u →
  live t (rdata (sy_redis w)) (dedupKey u (sbytes (MessageId m))) = None →
  Handler_Handle t msg w = (Ok tt, w1) →
  rtc sync_step (t, w1) (t', w2) → t' < t + 48 * Hour →
  app_unmarshal (sbytes (cm_Value msg')) = Ok m' → extractRecipientID m' (cm_Topic msg') = Some u →
  MessageId m' = MessageId m →
  Handler_Handle t' msg' w2 = (r, w') →
  (sy_pg w' = sy_pg w2 ∧ sy_push w' = sy_push w2 ∧ (r = Ok tt ∨ ∃ e, r = Err (Wrap "dedup check" e))) ∧
  ∀ u' i', (u', i') ≠ (u, sbytes (MessageId m)) →
    rdata (sy_redis w1) !! dedupKey u' i' = rdata (sy_redis w) !! dedupKey u' i'.
Proof.
  intros Hm Hu Hl E1 Hsteps Ht Hm' Hu' Hid E2. eapply Handle_spec in E1; [|done]. simpl in E1. rewrite Hu in E1. simpl in E1.
  destruct E1 as [(? & _)|[_ [(e & ? & _)|[(_ & [x Hx] & _)|(_ & Hs & _)]]]]; [done|done|congruence|].
  split; [|intros u' i' Hne; rewrite Hs; apply lookup_insert_ne; by intros [<- <-]%dedupKey_inj].
  eapply (dedup_blocks t' t); [done| |done|done]. rewrite Hu', Hid.
  apply (marked_lasts t u _ _ _ Hsteps Ht). unfold marked. simpl. rewrite Hs. apply lookup_insert_eq.
Qed.

(** C19: a message whose insertion into the inbox failed is lost.  The duplicate filter was
    set before the insertion, so that whatever happens in the next 48 hours (as above) a
    record of the same message for the same user inserts nothing; it is skipped as a
    duplicate. *)
Theorem failed_insert_is_lost (t t' : Z) (msg msg' : ConsumerMessage) (m m' : AppMessage) (u : bytes)
    (w w1 w2 w' : SyncW C P Q) (e : error) (r : result unit) :
  app_unmarshal (sbytes (cm_Value msg)) = Ok m → extractRecipientID m (cm_Topic msg) = Some u →
  Handler_Handle t msg w = (Err (Wrap "inbox insert" e), w1) →
  rtc sync_step (t, w1) (t', w2) → t' < t + 48 * Hour →
  app_unmarshal (sbytes (cm_Value msg')) = Ok m' → extractRecipientID m' (cm_Topic msg') = Some u →
  MessageId m' = MessageId m →
  Handler_Handle t' msg' w2 = (r, w') →
  sy_pg w' = sy_pg w2 ∧ sy_push w' = sy_push w2 ∧ (r = Ok tt ∨ ∃ e', r = Err (Wrap "dedup check" e')).
Proof.
  intros Hm Hu E1 Hsteps Ht Hm' Hu' Hid E2. eapply Handle_spec in E1; [|done]. simpl in E1. rewrite Hu in E1. simpl in E1.
  destruct E1 as [(_ & ? & _)|[_ [(e' & ? & _)|[(? & _)|(_ & Hs & _)]]]]; [done..|].
  eapply (dedup_blocks t' t); [done| |done|done]. rewrite Hu', Hid.
  apply (marked_lasts t u _ _ _ Hsteps Ht). unfold marked. simpl. rewrite Hs. apply lookup_insert_eq.
Qed.

(** Only chat messages reach an inbox.  A message of another kind has no
    sender, which the table requires, so whatever happens no row is added; call
    signaling sent to a user's topic is among them. *)
Theorem non_chat_never_stored (now : Z) (msg : ConsumerMessage) (m : AppMessage) (w w' : SyncW C P Q)
    (r : result unit) :
  app_unmarshal (sbytes (cm_Value msg)) = Ok m → GetChat m = None →
  Handler_Handle now msg w = (r, w') →
  Inbox.rows (pgdata (sy_pg w')) = Inbox.rows (pgdata (sy_pg w)).
Proof.
  intros Hm Hc E. eapply Handle_spec in E; [|done]. simpl in E.
  pose proof (Inbox.insert_row now (inbox_entry (extractRecipientID m (cm_Topic msg)) m (cm_Topic msg) (cm_Value msg))
                (pgdata (sy_pg w))) as Hrow.
  assert (Hs : extractSenderID m = None) by (unfold extractSenderID; by rewrite Hc).
  simpl in Hrow. rewrite Hs in Hrow.
  destruct E as [(_ & _ & ->)|[_ [(e & _ & -> & _)|[(_ & _ & _ & -> & _)|(_ & _ & [[_ Hq]|(e & _ & [->| ->])])]]]];
    try done; destruct (extractRecipientID m (cm_Topic msg)), (MessageId m); rewrite ?Hq in Hrow; by destruct Hrow.
Qed.

(** A group message is consumed without effect: the topic names the group,
    the message names no recipient, and [Handle] returns nil with nothing changed. *)
Theorem group_chat_skipped (now : Z) (msg : ConsumerMessage) (m : AppMessage) (c : ChatMessage) (g : bytes)
    (w : SyncW C P Q) :
  app_unmarshal (sbytes (cm_Value msg)) = Ok m → GetChat m = Some c →
  slen (chat_RecipientId c) = 0%nat → cm_Topic msg = GroupTopic g →
  Handler_Handle now msg w = (Ok tt, w).
Proof.
  intros Hm Hc Hr Ht. destruct (Handler_Handle now msg w) as [r w'] eqn:E.
  eapply Handle_spec in E; [|done]. simpl in E.
  assert (Hu : extractRecipientID m (cm_Topic msg) = None).
  { unfold extractRecipientID. rewrite Hc, Hr, Ht. done. }
  rewrite Hu in E. destruct E as [(_ & -> & ->)|[? _]]; done.
Qed.

End handler_properties.

(** ** Witnesses *)

Definition encoded (m : AppMessage) : bytes :=
  match @app_marshal toy_app_codec m with Ok b => b | _ => [] end.

Definition example_record (m : AppMessage) (topic : string) : ConsumerMessage :=
  mkConsumerMessage topic 0 0 None (Some (encoded m)) [].

Definition direct : AppMessage := example_chat [x01] [x02] [x0a] "hi".

Definition to_group : AppMessage :=
  mkAppMessage (Some [x01]) None
    (Some (AppMessage_Chat (Some (mkChat None (Some [x02]) None (Some [x0b]) 1 "hi" None [])))).

Definition a_command : AppMessage :=
  mkAppMessage (Some [x01]) None (Some (AppMessage_Command (Some (mkCommand 2 (Some [x0b]) (Some [x0c]))))).

Definition sync_world (pf : list fault) : SyncW MemRedis (MemPg Inbox.db) (list (slice * AppMessage)) :=
  mkSyncW (mkMemRedis ∅ []) (mkMemPg (Inbox.mkDb ∅ 1) pf) (Some []).

Lemma decode_direct : @app_unmarshal toy_app_codec (encoded direct) = Ok direct.
Proof. vm_compute. reflexivity. Qed.

Lemma direct_unseen : live 5 (rdata (sy_redis (sync_world []))) (dedupKey [x0a] [x01]) = None.
Proof. vm_compute. reflexivity. Qed.

Lemma handled_is_stored_witness :
  let codec := toy_app_codec in
  ∃ w' mid id row, Handler_Handle 5 (example_record direct "user-0a") (sync_world []) = (Ok tt, w') ∧
    Inbox.rows (pgdata (sy_pg w')) !! id = Some row ∧ Inbox.is_row [x0a] mid row.
Proof.
  intros codec.
  destruct (Handler_Handle 5 (example_record direct "user-0a") (sync_world [])) as [r w'] eqn:E.
  assert (r = Ok tt) as -> by (change r with (r, w').1; rewrite <-E; vm_compute; reflexivity).
  destruct (handled_is_stored 5 (example_record direct "user-0a") direct [x0a]
              (sync_world []) w' decode_direct eq_refl direct_unseen E) as (mid & id & row & _ & Hrow & Hir & _).
  exists w', mid, id, row. split; [reflexivity|]. split; [exact Hrow|exact Hir].
Defined.

Definition another : AppMessage := example_chat [x04] [x02] [x0a] "again".

(** Another message of the same user is handled before the first one comes again. *)
Lemma handled_once_witness :
  let codec := toy_app_codec in
  let w1 := (Handler_Handle 5 (example_record direct "user-0a") (sync_world [])).2 in
  let w2 := (Handler_Handle 7 (example_record another "user-0a") w1).2 in
  sy_pg (Handler_Handle 9 (example_record direct "user-0a") w2).2 = sy_pg w2.
Proof.
  intros codec.
  destruct (Handler_Handle 5 (example_record direct "user-0a") (sync_world [])) as [r1 w1] eqn:E1.
  assert (r1 = Ok tt) as -> by (change r1 with (r1, w1).1; rewrite <-E1; vm_compute; reflexivity).
  cbv zeta. cbn [snd]. destruct (Handler_Handle 7 (example_record another "user-0a") w1) as [r2 w2] eqn:E2.
  assert (Hsteps : rtc sync_step (5, w1) (9, w2)).
  { eapply rtc_l; [apply (sync_time 5 7); lia|]. eapply rtc_l; [exact (sync_handle 7 _ _ _ _ E2)|].
    apply rtc_once, sync_time. lia. }
  cbn [snd]. destruct (Handler_Handle 9 (example_record direct "user-0a") w2) as [r w'] eqn:E.
  exact (proj1 (proj1 (handled_once 5 9 (example_record direct "user-0a") (example_record direct "user-0a") direct direct [x0a]
              (sync_world []) w1 w2 w' r decode_direct eq_refl direct_unseen E1 Hsteps eq_refl decode_direct eq_refl eq_refl E))).
Defined.

(** The insertion fails (the request is lost), another message is handled, and the message
    is delivered again. *)
Lemma failed_insert_is_lost_witness :
  let codec := toy_app_codec in
  let w1 := (Handler_Handle 5 (example_record direct "user-0a") (sync_world [RequestLost])).2 in
  let w2 := (Handler_Handle 7 (example_record another "user-0a") w1).2 in
  Inbox.rows (pgdata (sy_pg w1)) = ∅ ∧
  sy_pg (Handler_Handle 9 (example_record direct "user-0a") w2).2 = sy_pg w2.
Proof.
  intros codec.
  destruct (Handler_Handle 5 (example_record direct "user-0a") (sync_world [RequestLost])) as [r1 w1] eqn:E1.
  assert (∃ e, r1 = Err (Wrap "inbox insert" e)) as [e ->].
  { change r1 with (r1, w1).1. rewrite <-E1. eexists. vm_compute. reflexivity. }
  assert (Hempty : Inbox.rows (pgdata (sy_pg w1)) = ∅).
  { change w1 with (Err (A:=unit) (Wrap "inbox insert" e), w1).2. rewrite <-E1. vm_compute. reflexivity. }
  cbv zeta. cbn [snd]. destruct (Handler_Handle 7 (example_record another "user-0a") w1) as [r2 w2] eqn:E2.
  assert (Hsteps : rtc sync_step (5, w1) (9, w2)).
  { eapply rtc_l; [apply (sync_time 5 7); lia|]. eapply rtc_l; [exact (sync_handle 7 _ _ _ _ E2)|].
    apply rtc_once, sync_time. lia. }
  cbn [snd]. split; [exact Hempty|].
  cbn [snd]. destruct (Handler_Handle 9 (example_record direct "user-0a") w2) as [r w'] eqn:E. cbn [snd].
  exact (proj1 (failed_insert_is_lost 5 9 (example_record direct "user-0a") (example_record direct "user-0a") direct direct [x0a]
              (sync_world [RequestLost]) w1 w2 w' e r decode_direct eq_refl E1 Hsteps eq_refl decode_direct eq_refl eq_refl E)).
Defined.

Lemma non_chat_never_stored_witness :
  let codec := toy_app_codec in
  Inbox.rows (pgdata (sy_pg (Handler_Handle 5 (example_record a_command "user-0a") (sync_world [])).2)) = ∅.
Proof.
  intros codec.
  destruct (Handler_Handle 5 (example_record a_command "user-0a") (sync_world [])) as [r w'] eqn:E. simpl.
  assert (Hm : app_unmarshal (sbytes (cm_Value (example_record a_command "user-0a"))) = Ok a_command)
    by (vm_compute; reflexivity).
  exact (non_chat_never_stored 5 (example_record a_command "user-0a")
           a_command (sync_world []) w' r Hm eq_refl E).
Defined.

Lemma group_chat_skipped_witness :
  let codec := toy_app_codec in
  Handler_Handle 5 (example_record to_group "group-0b") (sync_world []) = (Ok tt, sync_world []).
Proof.
  intros codec.
  assert (Hm : app_unmarshal (sbytes (cm_Value (example_record to_group "group-0b"))) = Ok to_group)
    by (vm_compute; reflexivity).
  refine (group_chat_skipped 5 (example_record to_group "group-0b")
            to_group _ [x0b] (sync_world []) Hm eq_refl eq_refl eq_refl).
Defined.
