(* ===== verification/Groups.v ===== *)
(** * Groups and group commands

    [server/internal/groups]: the tables of groups and members, and
    [server/internal/commands]: the handler that applies the commands read from
    Kafka to them. *)
From S2P Require Import Prelude Bytes Postgres Kafka Messages.

Local Open Scope Z_scope.

Module Groups.

(** ** groups/model.go *)

Definition RoleAdmin : string := "admin".
Definition RoleModerator : string := "moderator".
Definition RoleMember : string := "member".

Record Group := mkGroup {
  ID : slice;
  Name : string;
  CreatorID : slice;
  Settings : slice;
  CreatedAt : Z;
  UpdatedAt : Z;
}.

Record GroupMember := mkGroupMember {
  gm_GroupID : slice;
  gm_UserID : slice;
  gm_Role : string;
  gm_JoinedAt : Z;
}.

(** ** groups/store.go *)

(** Rows of [groups] (settings may be NULL) and of [group_members]. *)
Record group_row := mkGroupRow {
  g_name : string;
  g_creator_id : bytes;
  g_settings : slice;
  g_created_at : Z;
  g_updated_at : Z;
}.

Record member_row := mkMemberRow { m_role : string; m_joined_at : Z }.

(** The tables by their primary keys. *)
Record db := mkDb { groups : gmap bytes group_row; members : gmap (bytes * bytes) member_row }.

(** The [jsonb] type: what the server stores for a text, and [None] when it is not
    JSON; and the [name] that [json.Unmarshal] finds in it. *)
Class Json := {
  jsonb : bytes → option bytes;
  json_name : bytes → result string;
}.

Definition role_check (role : string) : bool :=
  bool_decide (role = RoleAdmin) || bool_decide (role = RoleModerator) || bool_decide (role = RoleMember).

Definition json_violation : error := Errorf "invalid input syntax for type json".
Definition fk_violation : error := Errorf "violates foreign key constraint group_members_group_id_fkey".
Definition role_violation : error := Errorf "violates check constraint group_members_role_check".

Section statements.
Context `{Json}.

(** A [jsonb] parameter: NULL for nil, refused when it is not JSON. *)
Definition jsonb_param (settings : slice) : option slice :=
  match settings with None => Some None | Some s => Some <$> jsonb s end.

(** [INSERT INTO groups (id, name, creator_id, settings) VALUES (...)] *)
Definition insert_group (now : Z) (g : Group) : stmt db unit := λ d,
  match jsonb_param (Settings g), ID g, CreatorID g with
  | None, _, _ => (Err json_violation, d)
  | Some settings, Some id, Some creator =>
      if negb (text_ok (Name g)) then (Err text_violation, d)
      else match groups d !! id with
           | Some _ => (Err (unique_violation "groups_pkey"), d)
           | None => (Ok tt, mkDb (<[id := mkGroupRow (Name g) creator settings (pg_time now) (pg_time now)]> (groups d))
                               (members d))
           end
  | Some _, _, _ => (Err (not_null_violation "groups"), d)
  end.

(** [INSERT INTO group_members ... ON CONFLICT DO NOTHING] when [conflict_ok], and
    without the clause otherwise. *)
Definition insert_member (now : Z) (conflict_ok : bool) (groupID userID : slice) (role : string) : stmt db unit := λ d,
  match groupID, userID with
  | Some g, Some u =>
      if negb (role_check role) then (Err role_violation, d)
      else match members d !! (g, u) with
           | Some _ => (if conflict_ok then Ok tt else Err (unique_violation "group_members_pkey"), d)
           | None =>
               match groups d !! g with
               | None => (Err fk_violation, d)
               | Some _ => (Ok tt, mkDb (groups d) (<[(g, u) := mkMemberRow role (pg_time now)]> (members d)))
               end
           end
  | _, _ => (Err (not_null_violation "group_members"), d)
  end.

Definition delete_member (groupID userID : slice) (d : db) : db :=
  match groupID, userID with
  | Some g, Some u => mkDb (groups d) (delete (g, u) (members d))
  | _, _ => d
  end.

(** [UPDATE groups SET settings = $2, updated_at = NOW() WHERE id = $1] *)
Definition update_settings (now : Z) (groupID settings : slice) : stmt db unit := λ d,
  match jsonb_param settings with
  | None => (Err json_violation, d)
  | Some settings =>
      (Ok tt, match groupID with
              | Some g => mkDb (alter (λ r, mkGroupRow (g_name r) (g_creator_id r) settings (g_created_at r) (pg_time now))
                                  g (groups d)) (members d)
              | None => d
              end)
  end.

Definition group_of (groupID : slice) (d : db) : option Group :=
  g ← groupID;
  r ← groups d !! g;
  Some (mkGroup (Some g) (g_name r) (Some (g_creator_id r)) (g_settings r) (g_created_at r) (g_updated_at r)).

Definition members_of (groupID : slice) (d : db) : list GroupMember :=
  (λ '((g, u), r), mkGroupMember (Some g) (Some u) (m_role r) (m_joined_at r)) <$>
    filter (λ '((g, u), r), Some g = groupID) (map_to_list (members d)).

End statements.

Section store.
Context {P : Type} `{PgPool P db} `{Json}.

Definition Store_Migrate : M P unit := pg_exec migrate_stmt.

(** A transaction; it is rolled back when a statement fails. *)
Definition Store_CreateGroup (now : Z) (g : Group) : M P unit :=
  tx ← pg_Begin;
  r1 ← wrap "insert group" (pg_TxExec (insert_group now g) tx);
  r2 ← wrap "insert creator as admin" (pg_TxExec (insert_member now false (ID g) (CreatorID g) RoleAdmin) r1.2);
  pg_Commit r2.2.

Definition Store_GetGroup (groupID : slice) : M P Group :=
  r ← wrap "group not found" (pg_exec (query_stmt (group_of groupID)));
  match r with
  | Some g => mret g
  | None => throw (Wrap "group not found" (Errorf "no rows in result set"))
  end.

Definition Store_AddMember (now : Z) (groupID userID : slice) (role : string) : M P unit :=
  pg_exec (insert_member now true groupID userID role).

Definition Store_RemoveMember (groupID userID : slice) : M P unit :=
  pg_exec (update_stmt (delete_member groupID userID)).

Definition Store_UpdateSettings (now : Z) (groupID settings : slice) : M P unit :=
  pg_exec (update_settings now groupID settings).

Definition Store_BanMember (groupID userID : slice) : M P unit := Store_RemoveMember groupID userID.

Definition Store_GetMembers (groupID : slice) : M P (list GroupMember) := pg_exec (query_stmt (members_of groupID)).

Definition Store_IsMember (groupID userID : slice) : M P bool :=
  pg_exec (query_stmt (λ d, match groupID, userID with
                            | Some g, Some u => bool_decide (is_Some (members d !! (g, u)))
                            | _, _ => false
                            end)).

Definition Store_AdminCount (groupID : slice) : M P Z :=
  pg_exec (query_stmt (λ d, Z.of_nat (length (filter (λ m, gm_Role m = RoleAdmin) (members_of groupID d))))).

End store.

(** ** commands/handler.go *)

Section handler.
Context {P : Type} `{PgPool P db} `{Json} `{AppCodec}.

(** [s[:0]]: a nil slice stays nil. *)
Definition slice_0 (s : slice) : slice := (λ _, []) <$> s.

Definition Handler_handleCreateGroup (now : Z) (cmd : Command) : M P unit :=
  if (slen (cmd_TargetId cmd) =? 0)%nat then throw (Errorf "create_group: target_id (group_id) required")
  else
    name ← (if (0 <? slen (cmd_Payload cmd))%nat
            then wrap "parse settings" (lift (json_name (sbytes (cmd_Payload cmd)))) else mret "");
    let name := if bool_decide (name = "") then "New Group" else name in
    let settings := if (0 <? slen (cmd_Payload cmd))%nat then cmd_Payload cmd else Some (bytes_of_string "{}") in
    Store_CreateGroup now (mkGroup (cmd_TargetId cmd) name (slice_0 (cmd_Payload cmd)) settings 0 0).

(** [len(cmd.TargetId) == 0 || len(cmd.Payload) == 0] *)
Definition target_or_payload_missing (cmd : Command) : bool :=
  (slen (cmd_TargetId cmd) =? 0)%nat || (slen (cmd_Payload cmd) =? 0)%nat.

Definition Handler_handleAddMember (now : Z) (cmd : Command) : M P unit :=
  if target_or_payload_missing cmd
  then throw (Errorf "add_member: target_id (group_id) and payload (user_id) required")
  else Store_AddMember now (cmd_TargetId cmd) (cmd_Payload cmd) RoleMember.

Definition Handler_handleRemoveMember (cmd : Command) : M P unit :=
  if target_or_payload_missing cmd
  then throw (Errorf "remove_member: target_id (group_id) and payload (user_id) required")
  else Store_RemoveMember (cmd_TargetId cmd) (cmd_Payload cmd).

Definition Handler_handleUpdateSettings (now : Z) (cmd : Command) : M P unit :=
  if (slen (cmd_TargetId cmd) =? 0)%nat then throw (Errorf "update_settings: target_id (group_id) required")
  else Store_UpdateSettings now (cmd_TargetId cmd) (cmd_Payload cmd).

Definition Handler_handleBanMember (cmd : Command) : M P unit :=
  if target_or_payload_missing cmd
  then throw (Errorf "ban_member: target_id (group_id) and payload (user_id) required")
  else Store_BanMember (cmd_TargetId cmd) (cmd_Payload cmd).

Definition Handler_handleDeleteMessage (cmd : Command) : M P unit := mret tt.

Definition Handler_processCommand (now : Z) (cmd : Command) : M P unit :=
  if cmd_Type cmd =? Command_CREATE_GROUP then Handler_handleCreateGroup now cmd
  else if cmd_Type cmd =? Command_ADD_MEMBER then Handler_handleAddMember now cmd
  else if cmd_Type cmd =? Command_REMOVE_MEMBER then Handler_handleRemoveMember cmd
  else if cmd_Type cmd =? Command_UPDATE_GROUP_SETTINGS then Handler_handleUpdateSettings now cmd
  else if cmd_Type cmd =? Command_BAN_MEMBER then Handler_handleBanMember cmd
  else if cmd_Type cmd =? Command_DELETE_MESSAGE then Handler_handleDeleteMessage cmd
  else mret tt.

Definition Handler_Handle (now : Z) (msg : ConsumerMessage) : M P unit :=
  appMsg ← wrap "unmarshal AppMessage" (lift (app_unmarshal (sbytes (cm_Value msg))));
  match Body appMsg with
  | Some (AppMessage_Command (Some cmd)) => Handler_processCommand now cmd
  | _ => mret tt
  end.

(** [commandGroupHandler.ConsumeClaim] is the loop of [Kafka.ConsumeClaim]. *)
Definition commandGroupHandler_ConsumeClaim (now : Z) (msgs : list ConsumerMessage) : M (P * Z) unit :=
  ConsumeClaim (Handler_Handle now) msgs.

End handler.

(** ** Invariant *)

(** Every member belongs to a group that exists. *)
Definition members_ok (d : db) : Prop := map_Forall (λ gu _, is_Some (groups d !! gu.1)) (members d).

(** ** Lemmas *)

Section statement_lemmas.
Context `{Json}.

Lemma insert_group_ok now g d : members_ok d → members_ok (insert_group now g d).2.
Proof.
  intros Hd. unfold insert_group. repeat case_match; simpl; try done.
  intros gu r Hr. apply Hd in Hr. simpl. destruct (decide (l = gu.1)) as [<-|]; [by rewrite lookup_insert_eq|].
  by rewrite lookup_insert_ne.
Qed.

Lemma insert_member_ok now c g u role d : members_ok d → members_ok (insert_member now c g u role d).2.
Proof.
  intros Hd. unfold insert_member. repeat case_match; simpl; try done.
  apply map_Forall_insert_2; [by eexists|done].
Qed.

Lemma delete_member_ok g u d : members_ok d → members_ok (delete_member g u d).
Proof. intros Hd. unfold delete_member. repeat case_match; try done. by apply map_Forall_delete. Qed.

Lemma update_settings_ok now g s d : members_ok d → members_ok (update_settings now g s d).2.
Proof.
  intros Hd. unfold update_settings. repeat case_match; simpl; try done.
  intros gu r Hr. apply Hd in Hr. simpl. by rewrite lookup_alter_is_Some.
Qed.

(** The two statements of [CreateGroup] in one transaction. *)
Lemma create_statements now g d d1 d2 :
  insert_group now g d = (Ok tt, d1) → insert_member now false (ID g) (CreatorID g) RoleAdmin d1 = (Ok tt, d2) →
  ∃ id creator settings, ID g = Some id ∧ CreatorID g = Some creator ∧ jsonb_param (Settings g) = Some settings ∧
    groups d !! id = None ∧
    d2 = mkDb (<[id := mkGroupRow (Name g) creator settings (pg_time now) (pg_time now)]> (groups d))
              (<[(id, creator) := mkMemberRow RoleAdmin (pg_time now)]> (members d)).
Proof.
  unfold insert_group, insert_member. intros E1 E2. repeat case_match; simplify_eq/=; eauto 10.
Qed.

End statement_lemmas.

Section store_lemmas.
Context {P : Type} `{PgLaws P db} `{Json}.

(** [CreateGroup] by its outcome: the new group and its admin appear together. *)
Lemma CreateGroup_spec now g (p p' : P) r :
  Store_CreateGroup now g p = (r, p') →
  let both := ∃ id creator settings, ID g = Some id ∧ CreatorID g = Some creator ∧
    groups (pgdata p) !! id = None ∧
    pgdata p' = mkDb (<[id := mkGroupRow (Name g) creator settings (pg_time now) (pg_time now)]> (groups (pgdata p)))
              (<[(id, creator) := mkMemberRow RoleAdmin (pg_time now)]> (members (pgdata p))) in
  match r with Ok _ => both | Err _ => pgdata p' = pgdata p ∨ both | Panic _ => False end.
Proof.
  unfold Store_CreateGroup. intros E. step E as r1 p1 E1.
  destruct r1 as [tx|e|why]; [|apply pg_Begin_Err in E1; simplify_eq; by left|by apply pg_Begin_no_panic in E1].
  apply pg_Begin_Ok in E1 as [-> Hd1].
  step E as r2 p2 E2. apply wrap_inv in E2 as (r2' & E2 & ->).
  destruct r2' as [[[] d2]|e|why];
    [|apply pg_TxExec_Err in E2; simplify_eq; left; congruence|by apply pg_TxExec_no_panic in E2].
  apply pg_TxExec_Ok in E2 as [E2 Hd2]. simpl in E.
  step E as r3 p3 E3. apply wrap_inv in E3 as (r3' & E3 & ->).
  destruct r3' as [[[] d3]|e|why];
    [|apply pg_TxExec_Err in E3; simplify_eq; left; congruence|by apply pg_TxExec_no_panic in E3].
  apply pg_TxExec_Ok in E3 as [E3 Hd3]. simpl in E.
  destruct (create_statements _ _ _ _ _ E2 E3) as (id & cr & st & Hid & Hcr & _ & Hno & ->).
  destruct r as [[]|e|why]; [| |by apply pg_Commit_no_panic in E].
  - apply pg_Commit_Ok in E. eauto 8.
  - apply pg_Commit_Err in E as [E|E]; [left; congruence|right; eauto 8].
Qed.

End store_lemmas.

(** ** What the commands say *)

Definition exists_group (g : bytes) (d : db) : Prop := is_Some (groups d !! g).
Definition is_member (g u : bytes) (d : db) : Prop := is_Some (members d !! (g, u)).

Definition adds (g u : bytes) (cmd : Command) : Prop :=
  cmd_Type cmd = Command_ADD_MEMBER ∧ cmd_TargetId cmd = Some g ∧ cmd_Payload cmd = Some u.

Definition removes (g u : bytes) (cmd : Command) : Prop :=
  (cmd_Type cmd = Command_REMOVE_MEMBER ∨ cmd_Type cmd = Command_BAN_MEMBER) ∧
  cmd_TargetId cmd = Some g ∧ cmd_Payload cmd = Some u.

(** A command that creates a group has a payload: JSON with an acceptable name, or the
    empty one, for which the code writes ["{}"]. *)
Definition creates `{Json} (g : bytes) (cmd : Command) : Prop :=
  cmd_Type cmd = Command_CREATE_GROUP ∧ cmd_TargetId cmd = Some g ∧
  (cmd_Payload cmd = Some [] ∧ is_Some (jsonb (bytes_of_string "{}")) ∨
   ∃ s name, s ≠ [] ∧ cmd_Payload cmd = Some s ∧ is_Some (jsonb s) ∧ json_name s = Ok name ∧ text_ok name = true).

(** The commands of the topic, one after the other; a failed one is logged. *)
Definition apply_commands {P} `{PgPool P db} `{Json} (cmds : list (Z * Command)) (p : P) : P :=
  foldl (λ p c, (Handler_processCommand c.1 c.2 p).2) p cmds.

Section serving_lemmas.
Context {P : Type} `{PgLaws P db} `{Json} (up : P → Prop) (Hup : pg_serving up).

(** What one command does to a table: nothing, or what its kind says. *)
Definition follows (cmd : Command) (d d' : db) : Prop :=
  members_ok d' ∧
  (∀ g, g ≠ [] → exists_group g d' ↔ exists_group g d ∨ creates g cmd) ∧
  (∀ g u, g ≠ [] → u ≠ [] → is_member g u d' ↔ (is_member g u d ∨ adds g u cmd ∧ exists_group g d) ∧ ¬ removes g u cmd) ∧
  (∀ g u r, u ≠ [] → members d' !! (g, u) = Some r → members d !! (g, u) = Some r ∨ m_role r = "member").

(** The tables are as before: the command creates no new group, adds nobody who is not a
    member, and removes nobody who is. *)
Lemma follows_same cmd d :
  members_ok d → (∀ g, g ≠ [] → creates g cmd → exists_group g d) →
  (∀ g u, g ≠ [] → u ≠ [] → adds g u cmd → exists_group g d → is_member g u d) →
  (∀ g u, g ≠ [] → u ≠ [] → removes g u cmd → ¬ is_member g u d) → follows cmd d d.
Proof.
  intros Hok Hc Ha Hr. split_and!; [done| | |by left].
  - intros g Hg. split; [by left|]. intros [?|?]; [done|by apply Hc].
  - intros g u Hg Hu. split.
    + intros Hm. split; [by left|]. intros ?. by apply (Hr g u).
    + intros [[?|[? ?]] _]; [done|by apply Ha].
Qed.

Lemma not_creates k g cmd : cmd_Type cmd = k → k ≠ Command_CREATE_GROUP → ¬ creates g cmd.
Proof. intros Hk Hne [? _]. congruence. Qed.

Lemma not_adds k g u cmd : cmd_Type cmd = k → k ≠ Command_ADD_MEMBER → ¬ adds g u cmd.
Proof. intros Hk Hne [? _]. congruence. Qed.

Lemma not_removes k g u cmd : cmd_Type cmd = k → k ≠ Command_REMOVE_MEMBER → k ≠ Command_BAN_MEMBER → ¬ removes g u cmd.
Proof. intros Hk Hne Hne' [[?|?] _]; congruence. Qed.

(** A command of another kind, or one that its handler refuses. *)
Lemma follows_idle cmd d :
  members_ok d → (∀ g, ¬ creates g cmd) → (∀ g u, g ≠ [] → u ≠ [] → ¬ adds g u cmd) →
  (∀ g u, g ≠ [] → u ≠ [] → ¬ removes g u cmd) → follows cmd d d.
Proof. intros Hok Hc Ha Hr. apply follows_same; [done|by intros g _ ?%Hc|by intros g u ? ? ?%Ha|by intros g u ? ? ?%Hr]. Qed.

Lemma add_follows now g u cmd d :
  cmd_Type cmd = Command_ADD_MEMBER → cmd_TargetId cmd = Some g → cmd_Payload cmd = Some u → members_ok d →
  follows cmd d (insert_member now true (Some g) (Some u) RoleMember d).2.
Proof.
  intros Ht Hg Hu Hok. pose proof (insert_member_ok now true (Some g) (Some u) RoleMember d Hok) as Hok'.
  assert (Hr : ∀ g' u', ¬ removes g' u' cmd) by (intros; by eapply not_removes).
  assert (Hc : ∀ g', ¬ creates g' cmd) by (intros; by eapply not_creates).
  assert (Ha : ∀ g' u', adds g' u' cmd → g' = g ∧ u' = u) by (intros g' u' (_ & ? & ?); split; congruence).
  unfold insert_member in *. simpl in *. destruct (members d !! (g, u)) as [r|] eqn:Hm; simpl in *;
    [|destruct (groups d !! g) as [gr|] eqn:Hgr; simpl in *].
  - apply follows_same; [done|by intros ? _ ?%Hc| |by intros ? ? _ _ ?%Hr].
    intros g' u' _ _ [-> ->]%Ha _. unfold is_member. by rewrite Hm.
  - split_and!; [done| | |].
    + intros g' _. split; [by left|]. by intros [?|?%Hc].
    + intros g' u' _ _. unfold is_member, exists_group. simpl. rewrite lookup_insert_is_Some'. split.
      * intros [[= <- <-]|?]; (split; [|apply Hr]); [right|by left]. split; [done|]. by rewrite Hgr.
      * intros [[?|[[-> ->]%Ha _]] _]; auto.
    + intros g' u' r' _. simpl. destruct (decide ((g, u) = (g', u'))) as [->|Hne].
      * rewrite lookup_insert_eq. intros [= <-]. by right.
      * rewrite lookup_insert_ne by done. by left.
  - apply follows_same; [done|by intros ? _ ?%Hc| |by intros ? ? _ _ ?%Hr].
    intros g' u' _ _ [-> ->]%Ha. unfold exists_group. rewrite Hgr. by intros [? ?].
Qed.

Lemma remove_follows g u cmd d :
  cmd_Type cmd = Command_REMOVE_MEMBER ∨ cmd_Type cmd = Command_BAN_MEMBER →
  cmd_TargetId cmd = Some g → cmd_Payload cmd = Some u → members_ok d →
  follows cmd d (delete_member (Some g) (Some u) d).
Proof.
  intros Ht Hg Hu Hok.
  assert (Hc : ∀ g', ¬ creates g' cmd) by (intros g'; destruct Ht as [Ht|Ht]; by eapply not_creates).
  assert (Ha : ∀ g' u', ¬ adds g' u' cmd) by (intros g' u'; destruct Ht as [Ht|Ht]; by eapply not_adds).
  assert (Hr : ∀ g' u', removes g' u' cmd ↔ (g', u') = (g, u)).
  { intros g' u'. unfold removes. rewrite Hg, Hu. split; [intros (_ & [= ->] & [= ->]); done|]. by intros [= -> ->]. }
  split_and!; [by apply delete_member_ok| | |].
  - intros g' _. split; [by left|]. by intros [?|?%Hc].
  - intros g' u' _ _. rewrite Hr. unfold is_member. simpl. rewrite lookup_delete_is_Some. split.
    + intros [Hne ?]. split; [by left|]. by intros [= -> ->].
    + intros [[?|[?%Ha _]] Hne]; [|done]. split; [|done]. by intros [= -> ->].
  - intros g' u' r' _. simpl. rewrite lookup_delete_Some. intros [_ ?]. by left.
Qed.

Lemma settings_follow now g st cmd d :
  cmd_Type cmd = Command_UPDATE_GROUP_SETTINGS → members_ok d → follows cmd d (update_settings now g st d).2.
Proof.
  intros Ht Hok. pose proof (update_settings_ok now g st d Hok) as Hok'.
  assert (Hgs : ∀ g', exists_group g' (update_settings now g st d).2 ↔ exists_group g' d).
  { intros g'. unfold update_settings, exists_group. destruct (jsonb_param st); [|done]. destruct g; simpl; [|done].
    by rewrite lookup_alter_is_Some. }
  assert (Hms : members (update_settings now g st d).2 = members d).
  { unfold update_settings. destruct (jsonb_param st); [|done]. by destruct g. }
  split_and!; [done| | |].
  - intros g' _. rewrite Hgs. split; [by left|]. intros [?|Hc]; [done|]. by eapply not_creates in Hc.
  - intros g' u' _ _. unfold is_member. rewrite Hms. split.
    + intros ?. split; [by left|]. by eapply not_removes.
    + intros [[?|[Ha _]] _]; [done|]. by eapply not_adds in Ha.
  - intros g' u' r _. rewrite Hms. by left.
Qed.

(** The tables after the transaction of [CreateGroup]. *)
Definition created (now : Z) (g : Group) (d : db) : db :=
  match insert_group now g d with
  | (Ok _, d1) => match insert_member now false (ID g) (CreatorID g) RoleAdmin d1 with (Ok _, d2) => d2 | _ => d end
  | _ => d
  end.

Lemma CreateGroup_serving now g p :
  up p → ∃ r p', Store_CreateGroup now g p = (r, p') ∧ up p' ∧ pgdata p' = created now g (pgdata p).
Proof.
  intros Hp. unfold Store_CreateGroup, created.
  destruct (serving_Begin _ Hup p Hp) as (p1 & E1 & Hp1). rewrite (bind_run _ _ _ _ _ E1).
  apply pg_Begin_Ok in E1 as [_ Hd1].
  destruct (serving_TxExec _ Hup _ (insert_group now g) (pgdata p) p1 Hp1) as (r2 & p2 & E2 & Hp2 & Hr2).
  { intros why. unfold insert_group. by repeat case_match. }
  destruct (insert_group now g (pgdata p)) as [[[]|e|why] d1] eqn:Eg; simpl in Hr2; [| |done].
  2: { subst r2. rewrite (bind_run _ _ _ _ _ (wrap_run _ _ _ _ _ E2)). apply pg_TxExec_Err in E2. eexists _, _.
       split_and!; [done|done|congruence]. }
  subst r2. rewrite (bind_run _ _ _ _ _ (wrap_run _ _ _ _ _ E2)). apply pg_TxExec_Ok in E2 as [_ Hd2]. simpl.
  destruct (serving_TxExec _ Hup _ (insert_member now false (ID g) (CreatorID g) RoleAdmin) d1 p2 Hp2) as (r3 & p3 & E3 & Hp3 & Hr3).
  { intros why. unfold insert_member. by repeat case_match. }
  destruct (insert_member now false (ID g) (CreatorID g) RoleAdmin d1) as [[[]|e|why] d2] eqn:Em; simpl in Hr3; [| |done].
  2: { subst r3. rewrite (bind_run _ _ _ _ _ (wrap_run _ _ _ _ _ E3)). apply pg_TxExec_Err in E3. eexists _, _.
       split_and!; [done|done|congruence]. }
  subst r3. rewrite (bind_run _ _ _ _ _ (wrap_run _ _ _ _ _ E3)). simpl.
  destruct (serving_Commit _ Hup d2 p3 Hp3) as (p4 & E4 & Hp4). rewrite E4. eexists _, p4. split_and!; [done|done|].
  by apply pg_Commit_Ok in E4.
Qed.

(** A group that is created by a command: its creator is the user with the empty id. *)
Lemma created_follows now G g cmd d :
  cmd_Type cmd = Command_CREATE_GROUP → cmd_TargetId cmd = Some g → ID G = Some g →
  (∀ c, CreatorID G = Some c → c = []) →
  (creates g cmd ↔ is_Some (jsonb_param (Settings G)) ∧ is_Some (CreatorID G) ∧ text_ok (Name G) = true) →
  members_ok d → follows cmd d (created now G d).
Proof.
  intros Ht Hg HG Hempty Hcr Hok.
  assert (Hr : ∀ g' u', ¬ removes g' u' cmd) by (intros; by eapply not_removes).
  assert (Ha : ∀ g' u', ¬ adds g' u' cmd) by (intros; by eapply not_adds).
  assert (Hc : ∀ g', creates g' cmd → g' = g) by (intros g' (_ & ? & _); congruence).
  assert (Hsame : (creates g cmd → exists_group g d) → follows cmd d d).
  { intros Hex. apply follows_same; [done| |by intros ? ? _ _ ?%Ha|by intros ? ? _ _ ?%Hr].
    intros g' _ Hcg. pose proof (Hc g' Hcg) as ->. by apply Hex. }
  unfold created, insert_group. rewrite HG.
  destruct (jsonb_param (Settings G)) as [st|]; [|apply Hsame; by intros [[? [=]] _]%Hcr].
  destruct (CreatorID G) as [c|]; [|apply Hsame; by intros (_ & [? [=]] & _)%Hcr].
  destruct (text_ok (Name G)); [|apply Hsame; by intros (_ & _ & [=])%Hcr]. simpl.
  destruct (groups d !! g) as [gr|] eqn:Hgr; [apply Hsame; intros _; unfold exists_group; by rewrite Hgr|].
  rewrite (Hempty c) by done. simpl. assert (members d !! (g, []) = None) as ->.
  { destruct (members d !! (g, [])) eqn:Hm; [|done]. apply Hok in Hm as [? Hm]. simpl in Hm. congruence. }
  rewrite lookup_insert_eq. split_and!; simpl.
  - apply map_Forall_insert_2; simpl; [by rewrite lookup_insert_eq|]. intros gu r Hm. apply Hok in Hm. simpl.
    rewrite lookup_insert_is_Some'. by right.
  - intros g' _. unfold exists_group. simpl. rewrite lookup_insert_is_Some'. split.
    + intros [<-|?]; [right|by left]. apply Hcr. by eauto.
    + intros [?|?%Hc]; auto.
  - intros g' u' _ Hu'. unfold is_member. simpl. rewrite lookup_insert_is_Some'. split.
    + intros [[= _ <-]|?]; [done|]. split; [by left|apply Hr].
    + intros [[?|[?%Ha _]] _]; [by right|done].
  - intros g' u' r Hu'. rewrite lookup_insert_ne by (intros [= _ <-]; done). by left.
Qed.

(** A handler that refuses its command. *)
Lemma refused_follows (cmd : Command) e p :
  up p → follows cmd (pgdata p) (pgdata p) →
  let p' := ((throw e : M P unit) p).2 in up p' ∧ follows cmd (pgdata p) (pgdata p').
Proof. done. Qed.

Lemma missing_idle cmd d :
  cmd_Type cmd ≠ Command_CREATE_GROUP → target_or_payload_missing cmd = true → members_ok d → follows cmd d d.
Proof.
  intros Ht Hm Hok. unfold target_or_payload_missing in Hm. apply orb_true_iff in Hm.
  assert (Hno : ∀ g u, g ≠ [] → u ≠ [] → cmd_TargetId cmd = Some g → cmd_Payload cmd = Some u → False).
  { intros g u Hg Hu Eg Eu. rewrite Eg, Eu in Hm. by destruct g, u, Hm. }
  apply follows_idle; [done|by intros g [? _]| |]; intros g u Hg Hu; [intros (_ & ? & ?)|intros (_ & ? & ?)]; by apply (Hno g u).
Qed.

Lemma exec_follows cmd (q : stmt db unit) p :
  up p → (∀ why, (q (pgdata p)).1 ≠ Panic why) → (∀ e, (q (pgdata p)).1 = Err e → (q (pgdata p)).2 = pgdata p) →
  follows cmd (pgdata p) (q (pgdata p)).2 →
  let p' := (pg_exec q p).2 in up p' ∧ follows cmd (pgdata p) (pgdata p').
Proof.
  intros Hp Hnp Herr Hf. destruct (serving_exec_data up q p Hup Hp Hnp Herr) as (p' & -> & Hp' & Hd). simpl. by rewrite Hd.
Qed.

Lemma create_follows now cmd p :
  cmd_Type cmd = Command_CREATE_GROUP → up p → members_ok (pgdata p) →
  let p' := (Handler_handleCreateGroup now cmd p).2 in up p' ∧ follows cmd (pgdata p) (pgdata p').
Proof.
  intros Ht Hp Hok. unfold Handler_handleCreateGroup. destruct (cmd_TargetId cmd) as [[|b g]|] eqn:Hg; simpl.
  1,3: split; [done|]; apply follows_same; [done| |intros ? ? _ _ Ha; by eapply not_adds in Ha|intros ? ? _ _ Hr; by eapply not_removes in Hr];
       intros g' Hne (_ & Hx & _); rewrite Hg in Hx; by simplify_eq.
  set (name := if (0 <? slen (cmd_Payload cmd))%nat then wrap "parse settings" _ else _).
  assert (Hname : ∃ rn, name p = (rn, p) ∧
    rn = match cmd_Payload cmd with Some (b :: s) => match json_name (b :: s) with Err e => Err (Wrap "parse settings" e) | r => r end | _ => Ok "" end).
  { subst name. destruct (cmd_Payload cmd) as [[|c s]|]; simpl; [by eexists| |by eexists]. unfold wrap, lift.
    destruct (json_name (c :: s)); by eexists. }
  destruct Hname as (rn & En & Hrn). rewrite (bind_run _ _ _ _ _ En). clearbody name.
  assert (Hidle : (∀ nm, rn ≠ Ok nm) → follows cmd (pgdata p) (pgdata p)).
  { intros Hn. apply follows_same; [done| |intros ? ? _ _ Ha; by eapply not_adds in Ha|intros ? ? _ _ Hr; by eapply not_removes in Hr].
    intros g' _ (_ & _ & [[Hpl _]|(s & nm & Hs & Hpl & _ & Hj & _)]); exfalso; rewrite Hpl in Hrn; [by eapply Hn|].
    destruct s as [|c s]; [done|]. rewrite Hj in Hrn. by eapply Hn. }
  destruct rn as [nm|e|why]; [|split; [done|]; by apply Hidle..]. clear Hidle.
  destruct (CreateGroup_serving now (mkGroup (Some (b :: g)) (if bool_decide (nm = "") then "New Group" else nm) (slice_0 (cmd_Payload cmd))
    (if (0 <? slen (cmd_Payload cmd))%nat then cmd_Payload cmd else Some (bytes_of_string "{}")) 0 0) p Hp) as (r & p' & -> & Hp' & Hd).
  simpl. split; [done|]. rewrite Hd. apply (created_follows _ _ (b :: g)); [done..| |by intros c; simpl; destruct (cmd_Payload cmd); intros [= <-]| |done].
  { done. }
  simpl. assert (Htx : text_ok (if bool_decide (nm = "") then "New Group" else nm) = text_ok nm) by (by case_bool_decide; subst).
  rewrite Htx. unfold creates. rewrite Ht, Hg. destruct (cmd_Payload cmd) as [[|c s]|]; simpl in *.
  - injection Hrn as ->. split.
    + intros (_ & _ & [[_ [j Hj]]|(s & nm & Hs & [= <-] & _)]); [|done]. rewrite Hj. split_and!; by eauto.
    + intros ([st Hst] & _). split_and!; [done..|]. left. split; [done|]. by destruct (jsonb _).
  - destruct (json_name (c :: s)) as [nm'|e|why] eqn:Hj; simplify_eq. split.
    + intros (_ & _ & [[[=] _]|(s' & nm & Hs & [= <-] & [j Hjs] & Hn & Htn)]). rewrite Hj in Hn. injection Hn as <-. rewrite Hjs. split_and!; by eauto.
    + intros ([st Hst] & _ & Htn). split_and!; [done..|]. right. exists (c :: s), nm'. split_and!; [done..| |done|done]. by destruct (jsonb _).
  - split; [intros (_ & _ & [[[=] _]|(s' & nm' & _ & [=] & _)])|by intros (_ & [? [=]] & _)].
Qed.

Lemma process_follows now cmd p :
  up p → members_ok (pgdata p) →
  let p' := (Handler_processCommand now cmd p).2 in up p' ∧ follows cmd (pgdata p) (pgdata p').
Proof.
  intros Hp Hok. unfold Handler_processCommand.
  destruct (Z.eqb_spec (cmd_Type cmd) Command_CREATE_GROUP) as [Ht|Hn1]; [by apply create_follows|].
  destruct (Z.eqb_spec (cmd_Type cmd) Command_ADD_MEMBER) as [Ht|Hn2].
  { unfold Handler_handleAddMember. destruct (target_or_payload_missing cmd) eqn:Hm; [by apply refused_follows; [|apply missing_idle]|].
    unfold target_or_payload_missing in Hm. destruct (cmd_TargetId cmd) as [g|] eqn:Hg, (cmd_Payload cmd) as [u|] eqn:Hu; try done.
    2: by rewrite orb_comm in Hm.
    apply exec_follows; [done| | |by apply add_follows]; unfold insert_member; simpl; intros; by repeat case_match. }
  destruct (Z.eqb_spec (cmd_Type cmd) Command_REMOVE_MEMBER) as [Ht|Hn3].
  { unfold Handler_handleRemoveMember. destruct (target_or_payload_missing cmd) eqn:Hm; [by apply refused_follows; [|apply missing_idle]|].
    unfold target_or_payload_missing in Hm. destruct (cmd_TargetId cmd) as [g|] eqn:Hg, (cmd_Payload cmd) as [u|] eqn:Hu; try done.
    2: by rewrite orb_comm in Hm.
    apply exec_follows; [done..|]. apply remove_follows; auto. }
  destruct (Z.eqb_spec (cmd_Type cmd) Command_UPDATE_GROUP_SETTINGS) as [Ht|Hn4].
  { unfold Handler_handleUpdateSettings. destruct (slen (cmd_TargetId cmd) =? 0)%nat.
    - apply refused_follows; [done|]. apply follows_idle; intros; [done|by eapply not_creates|by eapply not_adds|by eapply not_removes].
    - apply exec_follows; [done| | |by apply settings_follow]; unfold update_settings; intros; by repeat case_match. }
  destruct (Z.eqb_spec (cmd_Type cmd) Command_BAN_MEMBER) as [Ht|Hn5].
  { unfold Handler_handleBanMember. destruct (target_or_payload_missing cmd) eqn:Hm; [by apply refused_follows; [|apply missing_idle]|].
    unfold target_or_payload_missing in Hm. destruct (cmd_TargetId cmd) as [g|] eqn:Hg, (cmd_Payload cmd) as [u|] eqn:Hu; try done.
    2: by rewrite orb_comm in Hm.
    apply exec_follows; [done..|]. apply remove_follows; auto. }
  assert (follows cmd (pgdata p) (pgdata p)).
  { apply follows_idle; [done|by intros g [? _]|by intros g u _ _ [? _]|by intros g u _ _ [[?|?] _]]. }
  by destruct (cmd_Type cmd =? Command_DELETE_MESSAGE).
Qed.

Lemma apply_commands_snoc cmds c p : apply_commands (cmds ++ [c]) p = (Handler_processCommand c.1 c.2 (apply_commands cmds p)).2.
Proof. unfold apply_commands. by rewrite foldl_app. Qed.

Lemma apply_commands_ok cmds p :
  up p → members_ok (pgdata p) → up (apply_commands cmds p) ∧ members_ok (pgdata (apply_commands cmds p)).
Proof.
  intros Hp Hok. induction cmds as [|c cmds [Hup' Hok']] using rev_ind; [done|]. rewrite apply_commands_snoc.
  destruct (process_follows c.1 c.2 _ Hup' Hok') as [? [? _]]. done.
Qed.

(** The last commands about a group and a member decide. *)
Definition ever_created (g : bytes) (cmds : list (Z * Command)) : Prop := Exists (λ c, creates g c.2) cmds.

Definition last_added (g u : bytes) (d : db) (cmds : list (Z * Command)) : Prop :=
  ∃ pre c post, cmds = pre ++ c :: post ∧ adds g u c.2 ∧ (exists_group g d ∨ ever_created g pre) ∧
    Forall (λ c, ¬ removes g u c.2) post.

Lemma groups_after cmds p g :
  up p → members_ok (pgdata p) → g ≠ [] →
  exists_group g (pgdata (apply_commands cmds p)) ↔ exists_group g (pgdata p) ∨ ever_created g cmds.
Proof.
  intros Hp Hok Hg. induction cmds as [|c cmds IH] using rev_ind.
  { split; [by left|]. by intros [?|?%Exists_nil]. }
  destruct (apply_commands_ok cmds p Hp Hok) as [Hup' Hok']. rewrite apply_commands_snoc.
  destruct (process_follows c.1 c.2 _ Hup' Hok') as [_ (_ & Hgs & _)]. rewrite Hgs by done. unfold ever_created in *.
  rewrite Exists_app, Exists_cons, Exists_nil, IH. tauto.
Qed.

Lemma last_added_snoc g u d cmds c :
  last_added g u d (cmds ++ [c]) ↔
  (last_added g u d cmds ∨ adds g u c.2 ∧ (exists_group g d ∨ ever_created g cmds)) ∧ ¬ removes g u c.2.
Proof.
  split.
  - intros (pre & x & post & Heq & Ha & Hex & Hpost). destruct post as [|y post _] using rev_ind.
    + apply app_inj_tail in Heq as [-> ->]. split; [by right|]. destruct Ha as [Ha _]. intros [[Hr|Hr] _]; by rewrite Ha in Hr.
    + rewrite app_comm_cons, app_assoc in Heq. apply app_inj_tail in Heq as [-> ->].
      apply Forall_app in Hpost as [Hpost Hc]. rewrite Forall_singleton in Hc. split; [|exact Hc]. left. by exists pre, x, post.
  - intros [[(pre & x & post & -> & Ha & Hex & Hpost)|[Ha Hex]] Hr].
    + exists pre, x, (post ++ [c]). rewrite <-app_assoc. split_and!; [done..|]. apply Forall_app. by rewrite Forall_singleton.
    + exists cmds, c, []. split_and!; [done..|]. by constructor.
Qed.

Lemma members_after cmds p g u :
  up p → members_ok (pgdata p) → g ≠ [] → u ≠ [] →
  is_member g u (pgdata (apply_commands cmds p)) ↔
    last_added g u (pgdata p) cmds ∨ is_member g u (pgdata p) ∧ Forall (λ c, ¬ removes g u c.2) cmds.
Proof.
  intros Hp Hok Hg Hu. induction cmds as [|c cmds IH] using rev_ind.
  { split; [intros ?; right; by split|]. intros [(pre & c & post & Heq & _)|[? _]]; [|done]. by destruct pre. }
  destruct (apply_commands_ok cmds p Hp Hok) as [Hup' Hok']. rewrite apply_commands_snoc.
  destruct (process_follows c.1 c.2 _ Hup' Hok') as [_ (_ & _ & Hms & _)].
  rewrite Hms, IH, groups_after, last_added_snoc, Forall_app, Forall_singleton by done. tauto.
Qed.

Lemma roles_after cmds p g u r :
  up p → members_ok (pgdata p) → u ≠ [] → members (pgdata (apply_commands cmds p)) !! (g, u) = Some r →
  members (pgdata p) !! (g, u) = Some r ∨ m_role r = "member".
Proof.
  intros Hp Hok Hu. revert r. induction cmds as [|c cmds IH] using rev_ind; intros r; [by left|].
  destruct (apply_commands_ok cmds p Hp Hok) as [Hup' Hok']. rewrite apply_commands_snoc.
  destruct (process_follows c.1 c.2 _ Hup' Hok') as [_ (_ & _ & _ & Hrs)]. intros [?|?]%Hrs; [by apply IH|by right|done].
Qed.

End serving_lemmas.

(** ** Properties *)

Section properties.
Context {P : Type} `{PgLaws P db} `{Json}.

(** Creating a group is atomic.  Whatever fails, either nothing has changed
    or the group and its creator as admin have both been added; it succeeds only for
    a group id that was not taken. *)
Theorem create_group_atomic (now : Z) (g : Group) (p p' : P) (r : result unit) :
  Store_CreateGroup now g p = (r, p') →
  let both := ∃ id creator settings, ID g = Some id ∧ CreatorID g = Some creator ∧
    groups (pgdata p) !! id = None ∧
    pgdata p' = mkDb (<[id := mkGroupRow (Name g) creator settings (pg_time now) (pg_time now)]> (groups (pgdata p)))
              (<[(id, creator) := mkMemberRow RoleAdmin (pg_time now)]> (members (pgdata p))) in
  match r with Ok _ => both | Err _ => pgdata p' = pgdata p ∨ both | Panic _ => False end.
Proof. apply CreateGroup_spec. Qed.

(** A group created by a command has no owner.  The command names no
    creator and the handler takes an empty slice of the payload for it: without a
    payload this is NULL and the command always fails with nothing changed; with one
    the creator, and the only admin added, is the user with the empty id. *)
Theorem create_command_ownerless (now : Z) (cmd : Command) (p p' : P) (r : result unit) :
  Handler_handleCreateGroup now cmd p = (r, p') →
  match cmd_Payload cmd with
  | None => r ≠ Ok tt ∧ pgdata p' = pgdata p
  | Some _ => r = Ok tt → ∃ id row, cmd_TargetId cmd = Some id ∧ groups (pgdata p') !! id = Some row ∧
      g_creator_id row = [] ∧ members (pgdata p') = <[(id, []) := mkMemberRow RoleAdmin (pg_time now)]> (members (pgdata p))
  end.
Proof.
  unfold Handler_handleCreateGroup. destruct (slen (cmd_TargetId cmd) =? 0)%nat.
  { unfold throw. intros [= <- <-]. by destruct (cmd_Payload cmd). }
  intros E. step E as r1 p1 E1. destruct (cmd_Payload cmd) as [pl|] eqn:Hp.
  - intros ->. destruct r1 as [name|e|why]; [|done..].
    assert (p1 = p) as ->.
    { destruct (0 <? slen (Some pl))%nat; [|by unfold mret, M_ret in E1; simplify_eq].
      by apply wrap_inv in E1 as (? & E1 & _); unfold lift in E1; simplify_eq. }
    apply CreateGroup_spec in E as (id & cr & st & Hid & Hcr & _ & Hd). simpl in Hid, Hcr. simplify_eq.
    eexists id, _. rewrite Hd. simpl. split_and!; [done|apply lookup_insert_eq|done|done].
  - simpl in E1. unfold mret, M_ret in E1. simplify_eq/=.
    apply CreateGroup_spec in E. simpl in E.
    assert (Hno : ∀ (Q : bytes → bytes → slice → Prop), (∃ id cr st, cmd_TargetId cmd = Some id ∧ None = Some cr ∧ Q id cr st) → False)
      by naive_solver.
    destruct r as [[]|e|why]; [exfalso; naive_solver| |done]. split; [done|]. destruct E as [?|E]; [done|exfalso; naive_solver].
Qed.

(** C18: who is in a group.  When PostgreSQL answers, after any sequence of commands, also
    of malformed ones, a user is a member of a group exactly when the last command about
    this user and this group added them, at a time when the group existed, or when they
    were a member from the start and no command removed or banned them.  A group exists
    exactly when it did from the start or some well-formed command created it.  A member
    has the role that they had from the start, or is a plain member: no command makes a
    user an administrator.  (Groups and users with empty ids are left out; the creator of
    a group has the empty id.) *)
Theorem membership_follows_commands (up : P → Prop) (cmds : list (Z * Command)) (p : P) (g u : bytes) :
  pg_serving up → up p → members_ok (pgdata p) → g ≠ [] → u ≠ [] →
  let d := pgdata p in
  let d' := pgdata (apply_commands cmds p) in
  (is_Some (members d' !! (g, u)) ↔
     (∃ pre c post, cmds = pre ++ c :: post ∧ adds g u c.2 ∧ is_Some (groups (pgdata (apply_commands pre p)) !! g) ∧
        Forall (λ c, ¬ removes g u c.2) post) ∨
     is_Some (members d !! (g, u)) ∧ Forall (λ c, ¬ removes g u c.2) cmds) ∧
  (is_Some (groups d' !! g) ↔ is_Some (groups d !! g) ∨ Exists (λ c, creates g c.2) cmds) ∧
  ∀ r, members d' !! (g, u) = Some r → members d !! (g, u) = Some r ∨ m_role r = "member".
Proof.
  intros Hup Hp Hok Hg Hu d d'. split_and!.
  - etrans; [by apply (members_after up Hup cmds p g u)|]. apply or_iff_compat_r.
    split; intros (pre & c & post & ? & ? & Hex & ?); exists pre, c, post; (split_and!; [done..| |done]);
      by apply (groups_after up Hup pre p g).
  - by apply (groups_after up Hup).
  - intros r. by apply (roles_after up Hup).
Qed.

End properties.

(** ** Witnesses *)

Definition toy_json : Json := {| jsonb b := Some b; json_name b := Ok "" |}.

Definition example_group : Group := mkGroup (Some [x0b]) "team" (Some [x01]) None 0 0.

Definition empty_pool (faults : list fault) : MemPg db := mkMemPg (mkDb ∅ ∅) faults.

Lemma create_group_atomic_witness :
  let _ := toy_json in
  let w := Store_CreateGroup 7 example_group (empty_pool [NoFault; NoFault; NoFault; ReplyLost]) in
  (∃ e, w.1 = Err e) ∧ ∃ row, groups (pgdata w.2) !! [x0b] = Some row.
Proof.
  intros json.
  destruct (Store_CreateGroup 7 example_group (empty_pool [NoFault; NoFault; NoFault; ReplyLost])) as [r p'] eqn:E.
  assert (∃ e, r = Err e) as [e ->].
  { change r with (r, p').1. rewrite <-E. eexists. vm_compute. reflexivity. }
  intros w. subst w. cbn [fst snd]. split; [by exists e|].
  destruct (create_group_atomic 7 example_group (empty_pool [NoFault; NoFault; NoFault; ReplyLost]) p' (Err e) E)
    as [Hsame|(id & cr & st & [= <-] & _ & _ & ->)].
  - exfalso. assert (Hm : members (pgdata p') !! ([x0b], [x01]) = Some (mkMemberRow RoleAdmin 0)).
    { change p' with (Err (A:=unit) e, p').2. rewrite <-E. vm_compute. reflexivity. }
    rewrite Hsame in Hm. vm_compute in Hm. discriminate.
  - eexists. apply lookup_insert_eq.
Defined.

Lemma create_command_ownerless_witness :
  let _ := toy_json in
  let cmd := mkCommand Command_CREATE_GROUP (Some [x0b]) (Some (bytes_of_string "{}")) in
  ∃ row, groups (pgdata (Handler_handleCreateGroup 7 cmd (empty_pool [])).2) !! [x0b] = Some row ∧ g_creator_id row = [].
Proof.
  intros json cmd. destruct (Handler_handleCreateGroup 7 cmd (empty_pool [])) as [r p'] eqn:E.
  assert (r = Ok tt) as -> by (change r with (r, p').1; rewrite <-E; vm_compute; reflexivity).
  destruct (create_command_ownerless 7 cmd (empty_pool []) p' (Ok tt) E eq_refl) as (id & row & [= <-] & Hrow & Hc & _).
  by exists row.
Defined.

(** A group is created, a user is added, banned and added again, another one is added to a
    group that is not there. *)
Lemma membership_follows_commands_witness :
  let _ := toy_json in
  let cmds := [(7, mkCommand Command_CREATE_GROUP (Some [x0b]) (Some (bytes_of_string "{}")));
               (8, mkCommand Command_ADD_MEMBER (Some [x0b]) (Some [x01])); (9, mkCommand Command_BAN_MEMBER (Some [x0b]) (Some [x01]));
               (10, mkCommand Command_ADD_MEMBER (Some [x0b]) (Some [x01])); (11, mkCommand Command_ADD_MEMBER (Some [x0c]) (Some [x02]))] in
  let d := pgdata (apply_commands cmds (empty_pool [])) in
  is_Some (members d !! ([x0b], [x01])) ∧ ¬ is_Some (groups d !! [x0c]).
Proof.
  intros json cmds d.
  assert (Hok : members_ok (pgdata (empty_pool []))) by apply map_Forall_empty.
  destruct (membership_follows_commands (λ p, mem_pgfaults p = []) cmds (empty_pool []) [x0b] [x01]
    (MemPg_serving db) eq_refl Hok ltac:(discriminate) ltac:(discriminate)) as ([_ Hin] & _).
  destruct (membership_follows_commands (λ p, mem_pgfaults p = []) cmds (empty_pool []) [x0c] [x02]
    (MemPg_serving db) eq_refl Hok ltac:(discriminate) ltac:(discriminate)) as (_ & [Hg _] & _).
  split.
  - apply Hin. left. exists (take 3 cmds), (10, mkCommand Command_ADD_MEMBER (Some [x0b]) (Some [x01])), (drop 4 cmds).
    split; [reflexivity|]. split; [repeat split|]. split; [apply (bool_decide_unpack _); vm_compute; exact I|]. apply Forall_singleton. by intros [[|] _].
  - intros [[? [=]]|Hex]%Hg. repeat apply Exists_cons in Hex as [(? & [=] & _)|Hex]; try discriminate; by apply Exists_nil in Hex.
Defined.

End Groups.
