(* ===== verification/Consumers.v ===== *)
(** * The consumer services

    What runs the handlers of [Kafka], [SyncHandler] and [Groups]: the configurations of
    [server/internal/kafka/config.go], [ConsumerGroup] of [kafka/consumer.go] and the
    [Run] methods of [sync/service.go] and [commands/service.go].  The consumer group
    client of sarama is a parameter; a call of its [Consume] is one session, which ends
    with a rebalance, an error or the context. *)
From S2P Require Import Prelude Bytes Redis Postgres Messages Kafka Inbox SyncHandler Groups.

Local Open Scope Z_scope.

(** ** config.go *)

(** The fields of [sarama.Config] that are set. *)
Record sarama_Config := mkSaramaConfig {
  Version : string;
  Producer_RequiredAcks : Z;
  Producer_Idempotent : bool;
  Producer_Return_Successes : bool;
  Producer_Return_Errors : bool;
  Producer_Retry_Max : Z;
  Producer_Retry_Backoff : Z;
  Producer_Compression : string;
  Producer_MaxMessageBytes : Z;
  Net_MaxOpenRequests : Z;
  Consumer_Group_Strategies : list string;
  Consumer_Offsets_Initial : Z;
  Consumer_Offsets_AutoCommit_Enable : bool;
  Consumer_Fetch_Min : Z;
  Consumer_Fetch_Default : Z;
  Consumer_MaxWaitTime : Z;
  Consumer_IsolationLevel : Z;
}.

Definition V3_6_0_0 : string := "3.6.0.0".
Definition WaitForAll : Z := -1.
Definition OffsetOldest : Z := -2.
Definition ReadCommitted : Z := 1.

Section config.
(** [sarama.NewConfig()] *)
Context (NewConfig : sarama_Config).

Definition DefaultProducerConfig : sarama_Config :=
  mkSaramaConfig V3_6_0_0 WaitForAll true true true 5 (100 * Millisecond) "lz4" (4 * 1024 * 1024) 1
    (Consumer_Group_Strategies NewConfig) (Consumer_Offsets_Initial NewConfig)
    (Consumer_Offsets_AutoCommit_Enable NewConfig) (Consumer_Fetch_Min NewConfig) (Consumer_Fetch_Default NewConfig)
    (Consumer_MaxWaitTime NewConfig) (Consumer_IsolationLevel NewConfig).

(** The settings of a consumer on top of the producer's defaults. *)
Definition consumer_settings (fetch_min fetch_default max_wait isolation : Z) : sarama_Config :=
  mkSaramaConfig V3_6_0_0 (Producer_RequiredAcks NewConfig) (Producer_Idempotent NewConfig)
    (Producer_Return_Successes NewConfig) (Producer_Return_Errors NewConfig) (Producer_Retry_Max NewConfig)
    (Producer_Retry_Backoff NewConfig) (Producer_Compression NewConfig) (Producer_MaxMessageBytes NewConfig)
    (Net_MaxOpenRequests NewConfig) ["range"] OffsetOldest false fetch_min fetch_default max_wait isolation.

Definition DefaultConsumerConfig : sarama_Config :=
  consumer_settings 1 (1024 * 1024) (500 * Millisecond) ReadCommitted.

(** The configuration that [sync.New] builds for itself. *)
Definition sync_config : sarama_Config :=
  consumer_settings (Consumer_Fetch_Min NewConfig) (Consumer_Fetch_Default NewConfig)
    (Consumer_MaxWaitTime NewConfig) (Consumer_IsolationLevel NewConfig).

End config.

(** ** The consumer group client *)

(** One partition of the subscribed topics: its records, the offset the group has
    committed, and [Consume] with the [Setup] and [ConsumeClaim] of a handler.
    [ctx_Err]: whether the context is cancelled. *)
Class GroupLib (G : Type) := {
  records : G → list ConsumerMessage;
  committed : G → Z;
  Consume : ∀ {W : Type}, sarama_Config → list string → M W unit → (list ConsumerMessage → M (W * Z) unit) → M (G * W) unit;
  ctx_Err : M G bool;
}.

(** What a call of [Consume] may have done.  Either no session came about; or [Setup]
    failed; or the claim was run on records from the committed offset on, as many as
    there was time for.  The offsets it marked are committed only when automatic commits
    are enabled: [MarkMessage] alone does not commit. *)
Definition session {G W} `{GroupLib G} (cfg : sarama_Config) (setup : M W unit)
    (claim : list ConsumerMessage → M (W * Z) unit) (r : result unit) (g g' : G) (w w' : W) : Prop :=
  (w' = w ∧ committed g' = committed g ∧ (∀ why, r ≠ Panic why)) ∨
  (∃ rs, setup w = (rs, w') ∧ rs ≠ Ok tt ∧ r = rs ∧ committed g' = committed g) ∨
  (∃ w1 msgs rc marked, setup w = (Ok tt, w1) ∧ msgs `prefix_of` drop (Z.to_nat (committed g)) (records g') ∧
     claim msgs (w1, committed g) = (rc, (w', marked)) ∧ (∀ why, r = Panic why ↔ rc = Panic why) ∧
     (committed g' = committed g ∨ Consumer_Offsets_AutoCommit_Enable cfg = true ∧ committed g' = marked)).

Class GroupLibLaws (G : Type) `{GroupLib G} : Prop := {
  Consume_session {W} cfg topics (setup : M W unit) claim g w r g' w' :
    Consume cfg topics setup claim (g, w) = (r, (g', w')) →
    records g `prefix_of` records g' ∧ session cfg setup claim r g g' w w';
  ctx_Err_only g r g' : ctx_Err g = (r, g') → (∃ b, r = Ok b) ∧ committed g' = committed g ∧ records g `prefix_of` records g';
}.

(** [Close] of the client, which [ConsumerGroup] and both services only pass on. *)
Class GroupCloser (G : Type) := { group_Close : M G unit }.

Definition ConsumerGroup_Close {G} `{GroupCloser G} : M G unit := group_Close.
Definition SyncService_Close {G} `{GroupCloser G} : M G unit := group_Close.
Definition CommandService_Close {G} `{GroupCloser G} : M G unit := group_Close.

Section run.
Context {G : Type} `{GroupLib G} (NewConfig : sarama_Config).

Definition on_group {W A} (m : M G A) : M (G * W) A := zoom fst (λ g w, (g, w.2)) m.

(** After [Consume]: whether the loop goes on. *)
Definition goes_on {W} (err : option error) : M (G * W) bool :=
  stop ← match err with Some _ => on_group ctx_Err | None => mret false end;
  if (stop : bool) then mret false else stop ← on_group ctx_Err; mret (negb stop).

(** ** commands/service.go and sync/service.go *)

(** [Setup] of both handlers, and [Cleanup]: [return nil]. *)
Definition no_setup {W} : M W unit := mret tt.

Definition consume_turn {W} (cfg : sarama_Config) (topics : list string) (claim : list ConsumerMessage → M (W * Z) unit) :
    M (G * W) bool :=
  r ← attempt (Consume cfg topics no_setup claim);
  goes_on r.1.

Definition CommandService_Run {P} `{PgPool P Groups.db} `{Groups.Json} `{AppCodec} (now : Z) (fuel : nat) : M (G * P) unit :=
  turn_loop (consume_turn (DefaultConsumerConfig NewConfig) [TopicCommands] (Groups.commandGroupHandler_ConsumeClaim now)) fuel.

(** [Run] of the sync service on the topics it has discovered: with none it returns
    after a pause. *)
Definition SyncService_Run {C P Q} `{RedisClient C} `{PgPool P Inbox.db} `{PushClient Q} `{AppCodec} (now : Z)
    (topics : list string) (fuel : nat) : M (G * SyncW C P Q) unit :=
  if (length topics =? 0)%nat then mret tt
  else turn_loop (consume_turn (sync_config NewConfig) topics (syncGroupHandler_ConsumeClaim now)) fuel.

End run.

(** ** consumer.go: ConsumerGroup *)

(** The channels made so far, those that are closed, and the [ready] fields of the group
    and of its handler. *)
Record ReadyW (W : Type) := mkReadyW {
  ch_made : nat;
  ch_closed : gset nat;
  cg_ready : nat;
  h_ready : nat;
  cg_world : W;
}.
Arguments mkReadyW {W} _ _ _ _ _.
Arguments ch_made {W} _.
Arguments ch_closed {W} _.
Arguments cg_ready {W} _.
Arguments h_ready {W} _.
Arguments cg_world {W} _.

Section consumer_group.
Context {G W : Type} `{GroupLib G} (NewConfig : sarama_Config).

(** [NewConsumerGroup]: [ready: make(chan struct{})]; a nil configuration is the
    default one. *)
Definition group_config (cfg : option sarama_Config) : sarama_Config := default (DefaultConsumerConfig NewConfig) cfg.

Definition new_group (w : W) : ReadyW W := mkReadyW 1 ∅ 0 0 w.

(** [library] is [sarama.NewConsumerGroup]. *)
Definition NewConsumerGroup {L} (library : list string → string → sarama_Config → M L unit) (brokers : list string) (groupID : string)
    (cfg : option sarama_Config) (w : W) : M L (ReadyW W) :=
  _ ← wrap "new consumer group" (library brokers groupID (group_config cfg)); mret (new_group w).

(** [Ready] returns the channel of the group. *)
Definition ConsumerGroup_Ready (x : ReadyW W) : nat := cg_ready x.

(** [close(h.ready)] *)
Definition consumerGroupHandler_Setup : M (ReadyW W) unit := λ x,
  if decide (h_ready x ∈ ch_closed x) then (Panic "close of closed channel", x)
  else (Ok tt, mkReadyW (ch_made x) ({[h_ready x]} ∪ ch_closed x) (cg_ready x) (h_ready x) (cg_world x)).

Definition on_world (m : M (W * Z) unit) : M (ReadyW W * Z) unit :=
  zoom (λ x, (cg_world x.1, x.2))
    (λ v x, (mkReadyW (ch_made x.1) (ch_closed x.1) (cg_ready x.1) (h_ready x.1) v.1, v.2)) m.

(** [cg.ready = make(chan struct{}); h.ready = cg.ready] *)
Definition renew_ready (x : ReadyW W) : ReadyW W :=
  mkReadyW (S (ch_made x)) (ch_closed x) (ch_made x) (ch_made x) (cg_world x).

Definition group_turn (cfg : option sarama_Config) (topics : list string) (handler : ConsumerMessage → M W unit) :
    M (G * ReadyW W) bool :=
  r ← attempt (Consume (group_config cfg) topics consumerGroupHandler_Setup (λ msgs, on_world (ConsumeClaim handler msgs)));
  continue ← goes_on r.1;
  if (continue : bool) then _ ← modify (λ w, (w.1, renew_ready w.2)); mret true else mret false.

(** [Run]: its handler starts with the channel of the group. *)
Definition ConsumerGroup_Run (cfg : option sarama_Config) (topics : list string) (handler : ConsumerMessage → M W unit)
    (fuel : nat) : M (G * ReadyW W) unit :=
  _ ← modify (λ w, (w.1, mkReadyW (ch_made w.2) (ch_closed w.2) (cg_ready w.2) (cg_ready w.2) (cg_world w.2)));
  turn_loop (group_turn cfg topics handler) fuel.

(** The group's channel is one that was made, and is not closed before a session. *)
Definition ready_ok (x : ReadyW W) : Prop :=
  (∀ c, c ∈ ch_closed x → (c < ch_made x)%nat) ∧ (h_ready x < ch_made x)%nat ∧ h_ready x = cg_ready x.

End consumer_group.

(** ** Lemmas *)

Section lemmas.
Context {G : Type} `{GroupLibLaws G} (NewConfig : sarama_Config).

(** [goes_on] does nothing but look at the context. *)
Lemma goes_on_only {W} err (g : G) (w : W) r g' w' :
  goes_on err (g, w) = (r, (g', w')) →
  (∃ b, r = Ok b) ∧ w' = w ∧ committed g' = committed g ∧ records g `prefix_of` records g'.
Proof.
  assert (Hctx : ∀ g0 r0 g1 w1, on_group ctx_Err (g0, w) = (r0, (g1, w1)) →
    (∃ b, r0 = Ok b) ∧ w1 = w ∧ committed g1 = committed g0 ∧ records g0 `prefix_of` records g1).
  { intros g0 r0 g1 w1 E. unfold on_group, zoom in E. simpl in E. destruct (ctx_Err g0) as [rc gc] eqn:Ec.
    apply ctx_Err_only in Ec. injection E as <- <- <-. destruct Ec as (? & ? & ?). auto. }
  unfold goes_on. intros E. step E as r1 w1 E1. destruct w1 as [g1 w1].
  assert ((∃ b, r1 = Ok b) ∧ w1 = w ∧ committed g1 = committed g ∧ records g `prefix_of` records g1) as (Hr1 & -> & Hc1 & Hp1).
  { destruct err; [by apply Hctx in E1|]. injection E1 as <- <- <-. eauto. }
  destruct Hr1 as [b1 ->]. destruct b1; [injection E as <- <- <-; eauto|].
  step E as r2 w2 E2. destruct w2 as [g2 w2]. apply Hctx in E2 as ([b2 ->] & -> & Hc2 & Hp2).
  injection E as <- <- <-. split_and!; [eauto|done|congruence|by etransitivity].
Qed.

(** One turn of a service commits nothing when automatic commits are off. *)
Lemma consume_turn_committed {W} cfg topics (claim : list ConsumerMessage → M (W * Z) unit) g w r g' w' :
  Consumer_Offsets_AutoCommit_Enable cfg = false → consume_turn cfg topics claim (g, w) = (r, (g', w')) →
  committed g' = committed g ∧ records g `prefix_of` records g'.
Proof.
  intros Hauto. unfold consume_turn. intros E. step E as r1 w1 E1. destruct w1 as [g1 w1]. unfold attempt in E1.
  destruct (Consume cfg topics no_setup claim (g, w)) as [rc [gc wc]] eqn:Ec.
  apply Consume_session in Ec as [Hp Hs].
  assert (committed gc = committed g) as Hc.
  { destruct Hs as [(_ & ? & _)|[(? & _ & _ & _ & ?)|(? & ? & ? & ? & _ & _ & _ & _ & [?|[? _]])]]; congruence. }
  assert (gc = g1) as -> by (by destruct rc; injection E1).
  destruct r1 as [x| |]; [|by injection E as _ <- _..].
  apply goes_on_only in E as (_ & _ & Hc' & Hp'). split; [congruence|by etransitivity].
Qed.

Lemma service_committed {W} cfg topics (claim : list ConsumerMessage → M (W * Z) unit) fuel g w r g' w' :
  Consumer_Offsets_AutoCommit_Enable cfg = false →
  turn_loop (consume_turn cfg topics claim) fuel (g, w) = (r, (g', w')) →
  committed g' = committed g ∧ records g `prefix_of` records g'.
Proof.
  intros Hauto E.
  apply (turn_loop_invariant _ (λ x, committed x.1 = committed g ∧ records g `prefix_of` records x.1)) in E; [done| |done].
  intros [g1 w1] r1 [g2 w2] [Hc Hp] E1. apply consume_turn_committed in E1 as [Hc1 Hp1]; [|done].
  split; [by rewrite <-Hc|by etransitivity].
Qed.

End lemmas.

Section consumer_group_lemmas.
Context {G W : Type} `{GroupLibLaws G} (NewConfig : sarama_Config).
Context (cfg : option sarama_Config) (topics : list string) (handler : ConsumerMessage → M W unit).
Context (handler_no_panic : ∀ msg w why, (handler msg w).1 ≠ Panic why).

Lemma ConsumeClaim_no_panic msgs w marked why : (ConsumeClaim handler msgs (w, marked)).1 ≠ Panic why.
Proof.
  revert w marked. induction msgs as [|msg msgs IH]; intros w marked; [done|]. simpl.
  pose proof (handler_no_panic msg w) as Hp. destruct (handler msg w) as [[]?]; [apply IH..|]. by destruct (Hp why0).
Qed.

Lemma on_world_claim msgs x marked r x' marked' :
  on_world (ConsumeClaim handler msgs) (x, marked) = (r, (x', marked')) →
  (∀ why, r ≠ Panic why) ∧ ch_made x' = ch_made x ∧ ch_closed x' = ch_closed x ∧ h_ready x' = h_ready x ∧ cg_ready x' = cg_ready x.
Proof.
  unfold on_world, zoom. simpl. pose proof (ConsumeClaim_no_panic msgs (cg_world x) marked) as Hp.
  destruct (ConsumeClaim handler msgs (cg_world x, marked)) as [rc [wc mc]]. intros [= <- <- <-]. done.
Qed.

(** A turn that starts with a channel that is not closed does not panic, and the next
    one starts with such a channel. *)
Lemma group_turn_ok (w : G * ReadyW W) :
  ready_ok w.2 ∧ h_ready w.2 ∉ ch_closed w.2 →
  ∃ b w', group_turn NewConfig cfg topics handler w = (Ok b, w') ∧
    (b = true → ready_ok w'.2 ∧ h_ready w'.2 ∉ ch_closed w'.2).
Proof.
  destruct w as [g x]. intros [(Hcl & Hh & Heq) Hopen]. simpl in Hcl, Hh, Heq, Hopen. unfold group_turn.
  destruct (Consume (group_config NewConfig cfg) topics consumerGroupHandler_Setup
    (λ msgs, on_world (ConsumeClaim handler msgs)) (g, x)) as [rc [gc xc]] eqn:Ec.
  pose proof Ec as Es. apply Consume_session in Es as [_ Hs].
  assert (Hset : consumerGroupHandler_Setup x = (Ok tt, mkReadyW (ch_made x) ({[h_ready x]} ∪ ch_closed x) (cg_ready x) (h_ready x) (cg_world x))).
  { unfold consumerGroupHandler_Setup. by rewrite decide_False. }
  assert ((∀ why, rc ≠ Panic why) ∧ ch_made xc = ch_made x ∧ ch_closed xc ⊆ {[h_ready x]} ∪ ch_closed x) as (Hnp & Hm & Hsub).
  { destruct Hs as [(-> & _ & Hr)|[(rs & E & Hne & _)|(w1 & msgs & rcl & marked & E & _ & Ecl & Hr & _)]]; [set_solver|congruence|].
    rewrite Hset in E. injection E as <-. apply on_world_claim in Ecl as (Hnp & Hm & Hc & _). simpl in *.
    split_and!; [intros why Hp%Hr; by destruct (Hnp why)|done|by rewrite Hc]. }
  assert (Ea : ∃ err v, attempt (Consume (group_config NewConfig cfg) topics consumerGroupHandler_Setup
    (λ msgs, on_world (ConsumeClaim handler msgs))) (g, x) = (Ok (err, v), (gc, xc))).
  { rewrite (attempt_run _ _ _ _ Ec). destruct rc as [v|e|why]; [by eexists _, _..|by destruct (Hnp why)]. }
  destruct Ea as (err & v & Ea). rewrite (bind_run _ _ _ _ _ Ea). cbn [fst].
  destruct (goes_on err (gc, xc)) as [rg [gg xg]] eqn:Eg. rewrite (bind_run _ _ _ _ _ Eg).
  apply goes_on_only in Eg as ([b ->] & -> & _ & _). destruct b; [|by eexists false, _].
  eexists true, _. split; [done|]. intros _. unfold ready_ok. simpl. rewrite Hm.
  assert (∀ c, c ∈ ch_closed xc → (c < ch_made x)%nat) as Hlt by set_solver.
  split_and!; [intros c Hc; apply Hlt in Hc; lia|lia|done|]. intros Hc%Hlt. lia.
Qed.

End consumer_group_lemmas.

(** ** Properties *)

(** C25: nothing the command service has done is ever committed.  Automatic commits
    are off and no handler commits, so after any run the group is still at the offset
    where it began: a session after a restart or a rebalance runs every command since
    then again, in order. *)
Theorem commands_replayed {G P} `{GroupLibLaws G} `{PgPool P Groups.db} `{Groups.Json} `{AppCodec} (NewConfig : sarama_Config)
    (now now' : Z) (fuel : nat) (g g1 g2 : G) (w w1 w2 w3 : P) (r r2 : result unit) :
  CommandService_Run NewConfig now fuel (g, w) = (r, (g1, w1)) →
  Consume (DefaultConsumerConfig NewConfig) [TopicCommands] no_setup (Groups.commandGroupHandler_ConsumeClaim now') (g1, w2) =
    (r2, (g2, w3)) →
  committed g2 = committed g ∧
  (w3 = w2 ∨ ∃ msgs, msgs `prefix_of` drop (Z.to_nat (committed g)) (records g2) ∧
     w3 = (Groups.commandGroupHandler_ConsumeClaim now' msgs (w2, committed g)).2.1).
Proof.
  intros E Ec. apply service_committed in E as [Hc _]; [|done]. apply Consume_session in Ec as [_ Hs]. rewrite <-Hc.
  destruct Hs as [(-> & ? & _)|[(? & [= <- _] & ? & _)|(w0 & msgs & rc & marked & [= <-] & Hp & Ecl & _ & Hm)]]; [auto|done|].
  split; [by destruct Hm as [?|[? _]]|]. right. exists msgs. by rewrite Ecl.
Qed.

(** A consumer group closes each of its ready channels at most once.  Run on a
    new group with a handler that does not panic, [Run] does not panic either (only the
    bound on its turns can stop it). *)
Theorem ready_closed_once {G W} `{GroupLibLaws G} (NewConfig : sarama_Config) (cfg : option sarama_Config)
    (topics : list string) (handler : ConsumerMessage → M W unit) (fuel : nat) (g : G) (w : W) (r : result unit)
    (x : G * ReadyW W) :
  (∀ msg w why, (handler msg w).1 ≠ Panic why) →
  ConsumerGroup_Run NewConfig cfg topics handler fuel (g, new_group w) = (r, x) →
  r = Ok tt ∨ r = Panic "out of fuel".
Proof.
  intros Hnp E. unfold ConsumerGroup_Run in E. step E as r1 x1 E1. injection E1 as <- <-.
  eapply (turn_loop_safe _ (λ x, ready_ok x.2 ∧ h_ready x.2 ∉ ch_closed x.2)); [|split|exact E].
  - intros y. by apply group_turn_ok.
  - unfold ready_ok. simpl. split_and!; [set_solver|lia|done].
  - simpl. set_solver.
Qed.

(** ** A consumer group in memory *)

(** The records, the committed offset and how many records each session gets to; the
    context is cancelled when no session is left. *)
Record MemGroup := mkMemGroup { mg_records : list ConsumerMessage; mg_committed : Z; mg_sessions : list nat }.

#[export] Instance MemGroup_lib : GroupLib MemGroup := {
  records := mg_records;
  committed := mg_committed;
  Consume W cfg topics setup claim w :=
    match mg_sessions w.1 with
    | [] => (Err (Errorf "context canceled"), w)
    | k :: ks =>
        let g := mkMemGroup (mg_records w.1) (mg_committed w.1) ks in
        match setup w.2 with
        | (Ok _, w1) =>
            match claim (take k (drop (Z.to_nat (mg_committed g)) (mg_records g))) (w1, mg_committed g) with
            | (rc, (w2, marked)) =>
                (rc, (mkMemGroup (mg_records g) (if Consumer_Offsets_AutoCommit_Enable cfg then marked else mg_committed g) ks, w2))
            end
        | (r, w1) => (r, (g, w1))
        end
    end;
  ctx_Err g := (Ok (match mg_sessions g with [] => true | _ => false end), g);
}.

#[export] Instance MemGroup_laws : GroupLibLaws MemGroup.
Proof.
  split.
  - intros W cfg topics setup claim [rs c ks] w r g' w' E. unfold Consume, MemGroup_lib in E. simpl in E.
    destruct ks as [|k ks]; [injection E as <- <- <-; split; [done|]; by left|].
    destruct (setup w) as [[[]|e|why] w1] eqn:Es; [|injection E as <- <- <-; split; [done|]; right; left; by eexists..].
    destruct (claim _ (w1, c)) as [rc [w2 marked]] eqn:Ec. injection E as <- <- <-. split; [done|]. right. right.
    exists w1, (take k (drop (Z.to_nat c) rs)), rc, marked. split_and!; [done|apply prefix_take|done|done|]. simpl.
    destruct (Consumer_Offsets_AutoCommit_Enable cfg); auto.
  - intros g r g' [= <- <-]. eauto.
Qed.

(** ** Witnesses *)

#[local] Existing Instance Groups.toy_json.
#[local] Existing Instance toy_app_codec.

Definition example_NewConfig : sarama_Config := mkSaramaConfig "2.1.0.0" 1 false false true 3 (100 * Millisecond) "none" 1048576 5
  ["range"] (-1) true 1 1048576 (500 * Millisecond) 0.

(** A member is added to a group, then removed. *)
Definition example_command (offset ty : Z) : ConsumerMessage :=
  mkConsumerMessage TopicCommands 0 offset None
    (match app_marshal (mkAppMessage (Some [x01]) None (Some (AppMessage_Command (Some (mkCommand ty (Some [x0b]) (Some [x02])))))) with
     | Ok b => Some b | _ => None end) [].

Definition example_log : list ConsumerMessage := [example_command 0 Command_ADD_MEMBER; example_command 1 Command_REMOVE_MEMBER].

Definition example_pool : MemPg Groups.db :=
  mkMemPg (Groups.mkDb {[ [x0b] := Groups.mkGroupRow "team" [x01] None 0 0 ]} ∅) [].

(** The two commands are handled in a first session; in the next one the first is handled
    again, and the removed member is back. *)
Lemma commands_replayed_witness :
  let run := CommandService_Run example_NewConfig 7 1 (mkMemGroup example_log 0 [2%nat; 1%nat], example_pool) in
  let again := Consume (DefaultConsumerConfig example_NewConfig) [TopicCommands] no_setup
    (Groups.commandGroupHandler_ConsumeClaim 8) run.2 in
  Groups.members (pgdata run.2.2) = ∅ ∧ is_Some (Groups.members (pgdata again.2.2) !! ([x0b], [x02])) ∧
  committed again.2.1 = 0.
Proof.
  intros run again. split; [vm_compute; reflexivity|]. split; [vm_compute; eauto|].
  destruct run as [r [g1 w1]] eqn:E. destruct again as [r2 [g2 w3]] eqn:E2.
  exact (proj1 (commands_replayed example_NewConfig 7 8 1 (mkMemGroup example_log 0 [2%nat; 1%nat]) g1 g2
    example_pool w1 w1 w3 r r2 E E2)).
Defined.

Lemma ready_closed_once_witness :
  (ConsumerGroup_Run example_NewConfig None [TopicEvents] (λ _ (w : nat), (Ok tt, S w)) 3
    (mkMemGroup example_log 0 [1%nat; 2%nat], new_group 0%nat)).1 = Ok tt.
Proof.
  destruct (ConsumerGroup_Run example_NewConfig None [TopicEvents] (λ _ (w : nat), (Ok tt, S w)) 3
    (mkMemGroup example_log 0 [1%nat; 2%nat], new_group 0%nat)) as [r x] eqn:E.
  destruct (ready_closed_once example_NewConfig None [TopicEvents] (λ _ (w : nat), (Ok tt, S w)) 3
    (mkMemGroup example_log 0 [1%nat; 2%nat]) 0%nat r x) as [->| ->]; [done|exact E|done|]. vm_compute in E. discriminate.
Defined.
