(* ===== verification/Media.v ===== *)
(** * Media uploads

    [server/internal/media]: upload records in PostgreSQL, objects in S3 behind
    presigned URLs, and the gRPC handlers.  The object store is a parameter. *)
From S2P Require Import Prelude Bytes Postgres Grpc.

Local Open Scope Z_scope.

Module Media.

(** ** model.go *)

Definition StatusUploading : string := "uploading".
Definition StatusCompleted : string := "completed".
Definition StatusFailed : string := "failed".
Definition StatusExpired : string := "expired".

Record Upload := mkUpload {
  ID : Z;
  StreamID : slice;
  UserID : slice;
  MimeType : string;
  TotalSize : Z;
  Status : string;
  S3Key : string;
  S3URL : string;
  FileHash : slice;
  CreatedAt : Z;
  UpdatedAt : Z;
}.

(** ** store.go *)

(** A row of [media_uploads]; [s3_url] and [file_hash] may be NULL. *)
Record row := mkRow {
  row_id : Z;
  row_user_id : bytes;
  row_mime_type : string;
  row_total_size : Z;
  row_status : string;
  row_s3_key : string;
  row_s3_url : option string;
  row_file_hash : slice;
  row_created_at : Z;
  row_updated_at : Z;
}.

(** The table by its unique column [stream_id]. *)
Record db := mkDb { rows : gmap bytes row; next_id : Z }.

(** [mime_type VARCHAR(255)], [s3_key TEXT] *)
Definition insert_stmt (now : Z) (u : Upload) : stmt db unit := λ d,
  let burnt := mkDb (rows d) (next_id d + 1) in
  match StreamID u, UserID u with
  | Some sid, Some uid =>
      if negb (text_ok (MimeType u) && text_ok (S3Key u)) then (Err text_violation, d)
      else if (255 <? char_length (MimeType u))%nat then (Err (Errorf "value too long for type character varying(255)"), burnt)
      else match rows d !! sid with
           | Some _ => (Err (unique_violation "media_uploads_stream_id_key"), burnt)
           | None => (Ok tt, mkDb (<[sid := mkRow (next_id d) uid (MimeType u) (TotalSize u) StatusUploading (S3Key u)
                                              None (FileHash u) (pg_time now) (pg_time now)]> (rows d)) (next_id d + 1))
           end
  | _, _ => (Err (not_null_violation "media_uploads"), burnt)
  end.

Definition alter_rows (f : row → row) (streamID : slice) (d : db) : db :=
  match streamID with Some sid => mkDb (alter f sid (rows d)) (next_id d) | None => d end.

Definition set_completed (now : Z) (s3URL : string) (r : row) : row :=
  mkRow (row_id r) (row_user_id r) (row_mime_type r) (row_total_size r) StatusCompleted (row_s3_key r)
    (Some s3URL) (row_file_hash r) (row_created_at r) (pg_time now).

Definition set_failed (now : Z) (r : row) : row :=
  mkRow (row_id r) (row_user_id r) (row_mime_type r) (row_total_size r) StatusFailed (row_s3_key r)
    (row_s3_url r) (row_file_hash r) (row_created_at r) (pg_time now).

(** [row.Scan]: a NULL cannot be scanned into the string [S3URL]. *)
Definition scan_upload (streamID : bytes) (r : row) : result Upload :=
  match row_s3_url r with
  | None => Err (Errorf "can't scan into dest[7]: cannot scan NULL into *string")
  | Some url =>
      Ok (mkUpload (row_id r) (Some streamID) (Some (row_user_id r)) (row_mime_type r) (row_total_size r)
            (row_status r) (row_s3_key r) url (row_file_hash r) (row_created_at r) (row_updated_at r))
  end.

Section store.
Context {P : Type} `{PgPool P db}.

Definition Store_Migrate : M P unit := pg_exec migrate_stmt.

Definition Store_Insert (now : Z) (u : Upload) : M P unit := pg_exec (insert_stmt now u).

Definition Store_GetByStreamID (streamID : slice) : M P Upload :=
  wrap "media upload not found"
    (r ← pg_exec (query_stmt (λ d, sid ← streamID; r ← rows d !! sid; Some (sid, r)));
     lift (match r with
           | Some (sid, r) => scan_upload sid r
           | None => Err (Errorf "no rows in result set")
           end)).

Definition Store_MarkCompleted (now : Z) (streamID : slice) (s3URL : string) : M P unit :=
  pg_exec (λ d, if text_ok s3URL then (Ok tt, alter_rows (set_completed now s3URL) streamID d)
                else (Err text_violation, d)).

Definition Store_MarkFailed (now : Z) (streamID : slice) : M P unit :=
  pg_exec (update_stmt (alter_rows (set_failed now) streamID)).

End store.

(** ** s3.go *)

Definition DefaultBucket : string := "fproto-media".
Definition UploadExpiry : Z := 1 * Hour.
Definition DownloadExpiry : Z := 24 * Hour.

(** The minio client: presigned URLs for a key and an expiry time, the size of an
    object ([None]: the code NoSuchKey), and the bucket. *)
Class S3 (B : Type) := {
  PresignedPutObject : string → string → Z → M B string;
  PresignedGetObject : string → string → Z → M B string;
  StatObject : string → string → M B (option Z);
  BucketExists : string → M B bool;
  MakeBucket : string → M B unit;
}.

Section s3.
Context {B : Type} `{S3 B}.

Definition S3Client_EnsureBucket : M B unit :=
  exists_ ← wrap "bucket exists check" (BucketExists DefaultBucket);
  if (exists_ : bool) then mret tt else wrap "make bucket" (MakeBucket DefaultBucket).

Definition S3Client_PresignedPutURL (key : string) : M B string :=
  wrap "presigned put" (PresignedPutObject DefaultBucket key UploadExpiry).

Definition S3Client_PresignedGetURL (key : string) : M B string :=
  wrap "presigned get" (PresignedGetObject DefaultBucket key DownloadExpiry).

Definition S3Client_ObjectExists (key : string) : M B (bool * Z) :=
  r ← StatObject DefaultBucket key;
  mret (match r with Some size => (true, size) | None => (false, 0) end).

End s3.

(** ** service.go *)

Record MediaW (P B : Type) := mkMediaW { md_pg : P; md_s3 : B }.
Arguments mkMediaW {P B} _ _.
Arguments md_pg {P B} _.
Arguments md_s3 {P B} _.

Definition s3_key (userID streamID : bytes) : string :=
  "uploads/" +:+ EncodeToString userID +:+ "/" +:+ EncodeToString streamID.

Section service.
Context {P B : Type} `{PgPool P db} `{S3 B}.

Definition on_pg {A} (m : M P A) : M (MediaW P B) A := zoom md_pg (λ p w, mkMediaW p (md_s3 w)) m.
Definition on_s3 {A} (m : M B A) : M (MediaW P B) A := zoom md_s3 (λ b w, mkMediaW (md_pg w) b) m.

(** [rnd] is the outcome of [rand.Read] into the 16 bytes of the stream id. *)
Definition Service_InitUpload (now : Z) (rnd : result bytes) (userID : slice) (mimeType : string)
    (totalSize : Z) (fileHash : slice) : M (MediaW P B) (bytes * string) :=
  streamID ← wrap "generate stream_id" (lift rnd);
  let s3Key := s3_key (sbytes userID) streamID in
  _ ← wrap "insert" (on_pg (Store_Insert now
        (mkUpload 0 (Some streamID) userID mimeType totalSize "" s3Key "" fileHash 0 0)));
  uploadURL ← wrap "presigned url" (on_s3 (S3Client_PresignedPutURL s3Key));
  mret (streamID, uploadURL).

Definition Service_CompleteUpload (now : Z) (streamID fileHash : slice) : M (MediaW P B) string :=
  upload ← wrap "get upload" (on_pg (Store_GetByStreamID streamID));
  if negb (bool_decide (Status upload = StatusUploading)) then throw (Errorf "upload status is %s, expected uploading")
  else
    r ← wrap "check s3 object" (on_s3 (S3Client_ObjectExists (S3Key upload)));
    if negb r.1 then throw (Errorf "object not found in S3")
    else if negb (r.2 =? TotalSize upload) then throw (Errorf "size mismatch: expected %d, got %d")
    else
      downloadURL ← wrap "download url" (on_s3 (S3Client_PresignedGetURL (S3Key upload)));
      _ ← wrap "mark completed" (on_pg (Store_MarkCompleted now streamID downloadURL));
      mret downloadURL.

Definition Service_GetDownloadURL (streamID : slice) : M (MediaW P B) string :=
  upload ← wrap "get upload" (on_pg (Store_GetByStreamID streamID));
  if negb (bool_decide (Status upload = StatusCompleted)) then throw (Errorf "upload not completed (status=%s)")
  else on_s3 (S3Client_PresignedGetURL (S3Key upload)).

(** ** grpc_server.go *)

(** The reply: stream id, URL and the Unix time the URL expires at. *)
Definition MediaServer_InitUpload (now : Z) (rnd : result bytes) (UserId : slice) (MimeType : string)
    (TotalSize : Z) (FileHash : slice) : M (MediaW P B) (bytes * string * Z) :=
  if (slen UserId =? 0)%nat then throw (status_Errorf InvalidArgument "user_id is required")
  else if bool_decide (MimeType = "") then throw (status_Errorf InvalidArgument "mime_type is required")
  else if TotalSize =? 0 then throw (status_Errorf InvalidArgument "total_size is required")
  else
    r ← status_wrap Internal "init upload: %v" (Service_InitUpload now rnd UserId MimeType (int64 TotalSize) FileHash);
    mret (r.1, r.2, Unix (now + UploadExpiry)).

Definition MediaServer_CompleteUpload (now : Z) (StreamId FileHash : slice) : M (MediaW P B) (bool * string) :=
  if (slen StreamId =? 0)%nat then throw (status_Errorf InvalidArgument "stream_id is required")
  else
    url ← status_wrap Internal "complete upload: %v" (Service_CompleteUpload now StreamId FileHash);
    mret (true, url).

Definition MediaServer_GetDownloadURL (now : Z) (StreamId : slice) : M (MediaW P B) (string * Z) :=
  if (slen StreamId =? 0)%nat then throw (status_Errorf InvalidArgument "stream_id is required")
  else
    url ← status_wrap Internal "download url: %v" (Service_GetDownloadURL StreamId);
    mret (url, Unix (now + DownloadExpiry)).

(** The calls of the service, with any outcome. *)
Inductive media_step : MediaW P B → MediaW P B → Prop :=
| step_init now rnd u mt size h w r w' : MediaServer_InitUpload now rnd u mt size h w = (r, w') → media_step w w'
| step_complete now sid h w r w' : MediaServer_CompleteUpload now sid h w = (r, w') → media_step w w'
| step_download now sid w r w' : MediaServer_GetDownloadURL now sid w = (r, w') → media_step w w'.

End service.

(** ** Invariant *)

(** No upload has a URL. *)
Definition no_urls (d : db) : Prop := map_Forall (λ _ r, row_s3_url r = None) (rows d).

(** ** Lemmas *)

Lemma insert_no_urls now u d : no_urls d → no_urls (insert_stmt now u d).2.
Proof.
  intros Hd. unfold insert_stmt. repeat case_match; simpl; try done. by apply map_Forall_insert_2.
Qed.

Section service_lemmas.
Context {P B : Type} `{PgLaws P db} `{S3 B}.
Implicit Types w : MediaW P B.

Lemma on_pg_inv {A} (m : M P A) w r w' :
  on_pg m w = (r, w') → ∃ p', m (md_pg w) = (r, p') ∧ w' = mkMediaW p' (md_s3 w).
Proof. unfold on_pg, zoom. destruct (m (md_pg w)). naive_solver. Qed.

Lemma on_s3_pg {A} (m : M B A) w r w' : on_s3 m w = (r, w') → md_pg w' = md_pg w.
Proof. unfold on_s3, zoom. destruct (m (md_s3 w)). naive_solver. Qed.

(** While no upload has a URL no upload can be read. *)
Lemma GetByStreamID_fails sid w r w' :
  no_urls (pgdata (md_pg w)) → on_pg (Store_GetByStreamID sid) w = (r, w') →
  (∃ e, r = Err e) ∧ pgdata (md_pg w') = pgdata (md_pg w).
Proof.
  intros Hno E. apply on_pg_inv in E as (p' & E & ->). unfold Store_GetByStreamID in E.
  apply wrap_inv in E as (r0 & E & ->). step E as r1 p1 E1. apply pg_query_spec in E1 as [Hd Hr].
  destruct r1 as [row|e|why]; [|simplify_eq; by eauto|done].
  unfold lift in E. simplify_eq. simpl. split; [|done].
  destruct sid as [sid|]; simpl; [|by eauto]. destruct (rows (pgdata (md_pg w)) !! sid) as [row|] eqn:Hrow; simpl; [|by eauto].
  unfold scan_upload. rewrite (Hno _ _ Hrow). by eauto.
Qed.

Lemma CompleteUpload_fails now sid h w r w' :
  no_urls (pgdata (md_pg w)) → Service_CompleteUpload now sid h w = (r, w') →
  (∃ e, r = Err e) ∧ pgdata (md_pg w') = pgdata (md_pg w).
Proof.
  intros Hno E. unfold Service_CompleteUpload in E. step E as r1 w1 E1. apply wrap_inv in E1 as (r0 & E1 & ->).
  apply GetByStreamID_fails in E1 as [[e ->] Hd]; [|done]. simplify_eq. eauto.
Qed.

Lemma GetDownloadURL_fails sid w r w' :
  no_urls (pgdata (md_pg w)) → Service_GetDownloadURL sid w = (r, w') →
  (∃ e, r = Err e) ∧ pgdata (md_pg w') = pgdata (md_pg w).
Proof.
  intros Hno E. unfold Service_GetDownloadURL in E. step E as r1 w1 E1. apply wrap_inv in E1 as (r0 & E1 & ->).
  apply GetByStreamID_fails in E1 as [[e ->] Hd]; [|done]. simplify_eq. eauto.
Qed.

Lemma InitUpload_keeps now rnd u mt size h w r w' :
  no_urls (pgdata (md_pg w)) → Service_InitUpload now rnd u mt size h w = (r, w') → no_urls (pgdata (md_pg w')).
Proof.
  intros Hno E. unfold Service_InitUpload in E. step E as r1 w1 E1. apply wrap_inv in E1 as (r0 & E1 & ->).
  unfold lift in E1. simplify_eq. destruct r0 as [sid|e|why]; [|by simplify_eq..].
  step E as r2 w2 E2. apply wrap_inv in E2 as (r3 & E2 & ->). apply on_pg_inv in E2 as (p2 & E2 & ->).
  eapply (pg_exec_keeps no_urls) in E2; [|intros d; apply insert_no_urls|done].
  destruct r3 as [[]|e|why]; [|by simplify_eq..].
  step E as r4 w4 E4. apply wrap_inv in E4 as (r5 & E4 & ->). apply on_s3_pg in E4.
  destruct r5; try (unfold mret, M_ret in E); by simplify_eq/=.
Qed.

Lemma media_step_keeps w w' : media_step w w' → no_urls (pgdata (md_pg w)) → no_urls (pgdata (md_pg w')).
Proof.
  intros Hs Hno. destruct Hs as [now rnd u mt size h w r w' E|now sid h w r w' E|now sid w r w' E].
  - unfold MediaServer_InitUpload in E. repeat (case_match; [unfold throw in E; by simplify_eq|]).
    step E as r1 w1 E1. apply status_wrap_inv in E1 as (r2 & E1 & ->). apply InitUpload_keeps in E1; [|done].
    destruct r2; try (unfold mret, M_ret in E); by simplify_eq.
  - unfold MediaServer_CompleteUpload in E. case_match; [unfold throw in E; by simplify_eq|].
    step E as r1 w1 E1. apply status_wrap_inv in E1 as (r2 & E1 & ->).
    apply CompleteUpload_fails in E1 as [[e ->] Hd]; [|done]. simplify_eq. by rewrite Hd.
  - unfold MediaServer_GetDownloadURL in E. case_match; [unfold throw in E; by simplify_eq|].
    step E as r1 w1 E1. apply status_wrap_inv in E1 as (r2 & E1 & ->).
    apply GetDownloadURL_fails in E1 as [[e ->] Hd]; [|done]. simplify_eq. by rewrite Hd.
Qed.

End service_lemmas.

(** ** Properties *)

(** No upload can ever be completed or downloaded.  A new row has a NULL
    [s3_url], which the store cannot read back, and only completion would set it: from
    an empty table, whatever calls are made and whatever fails, [CompleteUpload] and
    [GetDownloadURL] return an error. *)
Theorem uploads_never_complete {P B} `{PgLaws P db} `{S3 B} (w w' : MediaW P B) (now : Z) (sid h : slice) :
  rows (pgdata (md_pg w)) = ∅ → rtc media_step w w' →
  (∃ e, (MediaServer_CompleteUpload now sid h w').1 = Err e) ∧
  (∃ e, (MediaServer_GetDownloadURL now sid w').1 = Err e).
Proof.
  intros Hemp Hsteps.
  assert (Hno : no_urls (pgdata (md_pg w'))).
  { eapply (rtc_invariant media_step (λ w, no_urls (pgdata (md_pg w)))); [| |done].
    - intros a b Ha Hs. by eapply media_step_keeps.
    - unfold no_urls. rewrite Hemp. apply map_Forall_empty. }
  unfold MediaServer_CompleteUpload, MediaServer_GetDownloadURL. destruct (slen sid =? 0)%nat; [by split; eexists|].
  split.
  - destruct (Service_CompleteUpload now sid h w') as [r1 w1] eqn:E.
    rewrite (bind_run _ _ _ _ _ (status_wrap_run _ _ _ _ _ _ E)).
    apply CompleteUpload_fails in E as [[e ->] _]; [|done]. by eexists.
  - destruct (Service_GetDownloadURL sid w') as [r1 w1] eqn:E.
    rewrite (bind_run _ _ _ _ _ (status_wrap_run _ _ _ _ _ _ E)).
    apply GetDownloadURL_fails in E as [[e ->] _]; [|done]. by eexists.
Qed.

(** An object store in memory: the sizes of the objects by key. *)
Definition mem_s3 : S3 (gmap string Z) := {|
  PresignedPutObject bucket key expiry b := (Ok ("https://s3/put/" +:+ key), b);
  PresignedGetObject bucket key expiry b := (Ok ("https://s3/get/" +:+ key), b);
  StatObject bucket key b := (Ok (b !! key), b);
  BucketExists bucket b := (Ok true, b);
  MakeBucket bucket b := (Ok tt, b);
|}.

Definition media_world : MediaW (MemPg db) (gmap string Z) :=
  mkMediaW (mkMemPg (mkDb ∅ 1) []) {[ s3_key [x01] [xaa] := 5 ]}.

Lemma uploads_never_complete_witness :
  let _ := mem_s3 in
  let w1 := (MediaServer_InitUpload 7 (Ok [xaa]) (Some [x01]) "image/png" 5 None media_world).2 in
  ∃ e, (MediaServer_CompleteUpload 9 (Some [xaa]) None w1).1 = Err e.
Proof.
  intros s3. destruct (MediaServer_InitUpload 7 (Ok [xaa]) (Some [x01]) "image/png" 5 None media_world) as [r w1] eqn:E.
  intros w1'. subst w1'. cbn [snd].
  refine (proj1 (uploads_never_complete media_world w1 9 (Some [xaa]) None eq_refl _)).
  apply rtc_once. by eapply step_init.
Defined.

(** A size of 2^63 bytes or more is stored as a negative number. *)
Example total_size_wraps :
  let _ := mem_s3 in
  let w := MediaServer_InitUpload 7 (Ok [xaa]) (Some [x01]) "image/png" (2 ^ 63) None media_world in
  (∃ reply, w.1 = Ok reply) ∧ row_total_size <$> rows (pgdata (md_pg w.2)) !! [xaa] = Some (- 2 ^ 63).
Proof. vm_compute. split; [eexists|]; reflexivity. Qed.

End Media.
