(* ===== verification/KeyCache.v ===== *)
(** * The cache of sender keys

    [server/internal/senderkeys/store.go]: the sender keys of a group, one hash per
    group in Redis with a time to live of an hour.  The JSON text of a key is a
    parameter. *)
From S2P Require Import Prelude Bytes Redis SessionStore.

Local Open Scope Z_scope.

Definition cacheTTL : Z := 1 * Hour.

Record CachedKey := mkCachedKey { ck_KeyID : Z; ck_ChainKey : slice; ck_SigningKey : slice }.

(** [json.Marshal] and [json.Unmarshal] of a [CachedKey]. *)
Class KeyCodec := {
  key_marshal : CachedKey → result string;
  key_unmarshal : string → result CachedKey;
}.

Class KeyCodecLaws `{KeyCodec} : Prop := {
  key_roundtrip ck : 0 ≤ ck_KeyID ck < 2 ^ 32 → ∃ s, key_marshal ck = Ok s ∧ key_unmarshal s = Ok ck;
}.

Definition cacheKey (groupID : bytes) : string := "group:" +:+ EncodeToString groupID +:+ ":sender_keys".

Definition set_cmds (groupID userID : bytes) (data : string) : list rcmd :=
  [ HSET (cacheKey groupID) [(EncodeToString userID, data)]; EXPIRE (cacheKey groupID) cacheTTL ].

Section cache.
Context {C : Type} `{RedisClient C} `{KeyCodec}.

Definition Cache_Set (now : Z) (groupID userID : slice) (ck : CachedKey) : M C unit :=
  data ← wrap "marshal" (lift (key_marshal ck));
  rpipe now (set_cmds (sbytes groupID) (sbytes userID) data).

(** [None] is the nil key returned without an error. *)
Definition Cache_Get (now : Z) (groupID userID : slice) : M C (option CachedKey) :=
  r ← rHGet now (cacheKey (sbytes groupID)) (EncodeToString (sbytes userID));
  match r with
  | None => mret None
  | Some data => ck ← lift (key_unmarshal data); mret (Some ck)
  end.

Definition Cache_Delete (now : Z) (groupID userID : slice) : M C unit :=
  rHDel now (cacheKey (sbytes groupID)) (EncodeToString (sbytes userID)).

Definition Cache_DeleteAll (now : Z) (groupID : slice) : M C unit := rDel now (cacheKey (sbytes groupID)).

End cache.

(** ** Lemmas *)

#[export] Instance cacheKey_inj : Inj (=) (=) cacheKey.
Proof.
  intros a b H. unfold cacheKey in H. apply (inj (String.app "group:")) in H.
  by apply hex_colon_inj in H as [? _].
Qed.

Section cache_lemmas.
Context {C : Type} `{RedisLaws C}.

(** What [HGET] finds at a field of the hash at a key. *)
Lemma rHGet_spec now k f (c c' : C) r :
  rHGet now k f c = (r, c') →
  rdata c' = rdata c ∧
  match r with
  | Ok v => ∃ h, hash_at now (rdata c) k = Some h ∧ v = h !! f
  | Err _ => True
  | Panic _ => False
  end.
Proof.
  unfold rHGet, mbind, M_bind, throw, mret, M_ret. destruct (rdo now (HGET k f) c) as [r1 c1] eqn:E.
  assert (Hd : rdata c1 = rdata c).
  { eapply rdo_read_data; [|done]. intros ks. simpl. by repeat case_match. }
  destruct r1 as [rep|e|w].
  - apply rdo_Ok in E as (Hr & Hw & _). unfold hash_at. simpl in Hr.
    destruct (live now (rdata c) k) as [[[|h|s0] exp]|]; simpl in Hr.
    + by destruct rep.
    + destruct (h !! f) eqn:Hf; destruct rep; simplify_eq/=; intros [= <- <-]; eauto.
    + by destruct rep.
    + destruct rep; simplify_eq/=. intros [= <- <-]. split; [done|]. exists ∅. by rewrite lookup_empty.
  - by intros [= <- <-].
  - by apply rdo_no_panic in E.
Qed.

(** The hash after [Set], and when it expires. *)
Lemma set_cmds_entry now g u data (c c' : C) :
  rpipe now (set_cmds g u data) c = (Ok tt, c') →
  ∃ h, hash_at now (rdata c) (cacheKey g) = Some h ∧
    rdata c' !! cacheKey g = Some (REntry (RHash (<[EncodeToString u := data]> h)) (Some (now + cacheTTL))).
Proof.
  intros E. apply rpipe_Ok in E as [Hacc Hd]. unfold set_cmds in *. cbn [accepts] in Hacc.
  destruct Hacc as [Ha _]. unfold apply_all in Hd. cbn [foldl] in Hd.
  destruct (HSET_cases now (cacheKey g) [(EncodeToString u, data)] (rdata c)) as [(h & exp & Hh & Hl)|[Hw _]]; [|done].
  exists h. split; [done|]. rewrite Hd. set (ks := (apply_cmd now (HSET _ _) (rdata c)).2) in *.
  cbn [apply_cmd]. rewrite Hl. cbn [snd].
  rewrite (proj2 (Z.leb_gt _ _)) by done. by rewrite lookup_insert_eq.
Qed.

End cache_lemmas.

(** ** Properties *)

Section cache_properties.
Context {C : Type} `{RedisLaws C} `{KeyCodecLaws}.

(** A cached sender key is returned until an hour after it was stored, the
    keys of the group's other members stay what they were, and from then on none of
    them is found; the only other outcome of [Get] is a transport error (or, for a
    member stored by someone else, a value that does not decode). *)
Theorem cache_set_get (t t' : Z) (g u v : slice) (ck : CachedKey) (c c1 c2 c3 : C) (r : result (option CachedKey))
    (h : gmap string string) :
  0 ≤ ck_KeyID ck < 2 ^ 32 →
  hash_at t (rdata c) (cacheKey (sbytes g)) = Some h →
  Cache_Set t g u ck c = (Ok tt, c1) → rdata c2 = rdata c1 →
  Cache_Get t' g v c2 = (r, c3) →
  (∃ e, r = Err e) ∨
  if t + cacheTTL <=? t' then r = Ok None
  else if bool_decide (sbytes v = sbytes u) then r = Ok (Some ck)
  else match h !! EncodeToString (sbytes v) with
       | None => r = Ok None
       | Some data => r = Some <$> key_unmarshal data
       end.
Proof.
  intros Hid Hh Eset Hd Eget. destruct (key_roundtrip ck Hid) as (s & Hm & Hu).
  unfold Cache_Set in Eset. apply bind_Ok_inv in Eset as (data & c0 & E1%wrap_Ok_inv & E2).
  unfold lift in E1. rewrite Hm in E1. injection E1 as <- <-.
  apply set_cmds_entry in E2 as (h' & Hh' & Hkey). assert (h' = h) as -> by congruence.
  unfold Cache_Get in Eget. step Eget as r1 c4 E4. apply rHGet_spec in E4 as [_ Hr1].
  destruct r1 as [w|e|why]; [|simplify_eq; by eauto|done]. destruct Hr1 as (hh & Hhh & ->).
  rewrite Hd in Hhh. unfold hash_at, live in Hhh. rewrite Hkey in Hhh. unfold expired in Hhh. simpl in Hhh.
  destruct (t + cacheTTL <=? t').
  { simplify_eq. rewrite lookup_empty in Eget. unfold mret, M_ret in Eget. simplify_eq. by right. }
  simplify_eq. case_bool_decide as Hvu.
  - rewrite Hvu, lookup_insert_eq in Eget. unfold mbind, M_bind, lift in Eget. rewrite Hu in Eget.
    unfold mret, M_ret in Eget. simplify_eq. by right.
  - rewrite lookup_insert_ne in Eget by (intros Heq%(inj EncodeToString); congruence).
    destruct (h !! EncodeToString (sbytes v)) as [data|].
    + right. unfold mbind, M_bind, lift in Eget.
      destruct (key_unmarshal data); unfold mret, M_ret in Eget; by simplify_eq.
    + unfold mret, M_ret in Eget. simplify_eq. by right.
Qed.

End cache_properties.

(** A codec that stores keys as numbers. *)
Definition toy_key_codec : KeyCodec := {|
  key_marshal ck := Ok (FormatInt (Zpos (encode (ck_KeyID ck, ck_ChainKey ck, ck_SigningKey ck))));
  key_unmarshal s :=
    match DecimalString.NilZero.int_of_string s with
    | Some d => match Z.of_int d with
                | Zpos p => match decode p with
                            | Some (i, ch, sg) => Ok (mkCachedKey i ch sg)
                            | None => Err (Errorf "json: cannot unmarshal")
                            end
                | _ => Err (Errorf "json: cannot unmarshal")
                end
    | None => Err (Errorf "invalid character")
    end;
|}.

Lemma toy_key_codec_laws : @KeyCodecLaws toy_key_codec.
Proof.
  split. intros ck _. eexists. split; [done|]. simpl. unfold FormatInt.
  destruct (Z_to_int_nonnil (Zpos (encode (ck_KeyID ck, ck_ChainKey ck, ck_SigningKey ck)))).
  rewrite DecimalString.NilZero.isi by done. rewrite DecimalZ.of_to, decode_encode. by destruct ck.
Qed.

Lemma cache_set_get_witness :
  let _ := toy_key_codec in
  let ck := mkCachedKey 3 (Some [x01]) (Some [x02]) in
  ∃ c1 r c3, Cache_Set 0 (Some [x0b]) (Some [x0a]) ck (mkMemRedis ∅ []) = (Ok tt, c1) ∧
    Cache_Get 5 (Some [x0b]) (Some [x0a]) c1 = (r, c3) ∧ r = Ok (Some ck).
Proof.
  intros codec ck. destruct (Cache_Set 0 (Some [x0b]) (Some [x0a]) ck (mkMemRedis ∅ [])) as [r1 c1] eqn:E.
  assert (r1 = Ok tt) as -> by (change r1 with (r1, c1).1; rewrite <-E; vm_compute; reflexivity).
  destruct (Cache_Get 5 (Some [x0b]) (Some [x0a]) c1) as [r c3] eqn:Eg.
  exists c1, r, c3. split; [done|]. split; [done|].
  assert (Hh : hash_at 0 (rdata (mkMemRedis ∅ [])) (cacheKey [x0b]) = Some ∅) by (vm_compute; reflexivity).
  destruct (@cache_set_get _ _ _ codec toy_key_codec_laws 0 5 (Some [x0b]) (Some [x0a]) (Some [x0a]) ck
              (mkMemRedis ∅ []) c1 c1 c3 r ∅ ltac:(simpl; lia) Hh E eq_refl Eg) as [[e ->]|Hr]; [|exact Hr].
  exfalso. assert (Hok : (Cache_Get 5 (Some [x0b]) (Some [x0a])
      (Cache_Set 0 (Some [x0b]) (Some [x0a]) ck (mkMemRedis ∅ [])).2).1 = Ok (Some ck)) by (vm_compute; reflexivity).
  rewrite E in Hok. cbn [snd] in Hok. rewrite Eg in Hok. discriminate.
Defined.
