(* ===== verification/Noise.v ===== *)
(** * The Noise handshake

    [proto-core/crypto/noise.go] and [keypair.go]: the two sides of the XX handshake
    over a pair of callbacks, and the session that results.  The Noise library
    (flynn/noise) is a parameter; a handshake is a process that receives and sends
    messages, so that the two sides can run against each other. *)
From S2P Require Import Prelude Bytes.

(** ** The library *)

Record KeyPair := mkKeyPair { Private : bytes; Public : bytes }.

(** [noise.NewHandshakeState] of the suite 25519_ChaChaPoly_BLAKE2s and the pattern XX
    (initiator or not, static key, and the random bytes it will use), and the methods
    of handshake and cipher states.  The payloads of the handshake messages are empty
    and those received are dropped. *)
Class Noise := {
  HandshakeState : Type;
  CipherState : Type;
  GenerateKeypair : result bytes → result KeyPair;
  NewHandshakeState : bool → KeyPair → bytes → result HandshakeState;
  hs_WriteMessage : HandshakeState → result (bytes * option CipherState * option CipherState) * HandshakeState;
  hs_ReadMessage : HandshakeState → bytes → result (option CipherState * option CipherState) * HandshakeState;
  cs_Encrypt : CipherState → bytes → result bytes * CipherState;
  cs_Decrypt : CipherState → bytes → result bytes * CipherState;
  (** the public key is the one of the private key *)
  matching : KeyPair → Prop;
  (** the two ends of one direction, in step with each other *)
  in_step : CipherState → CipherState → Prop;
}.

(** [noise.MaxMsgLen] *)
Definition MaxMsgLen : Z := 65535.

(** The documented behaviour of the library and of the pattern.  Generated keys match.
    When each side has read what the other wrote, the third message completes the
    handshake, on both sides with the cipher for the initiator's messages first, and the
    ciphers of the two sides fit; each message is authenticated, so a side whose static
    keys do not match is found out by the other one, whose call then fails.  With matching
    static keys and randomness from which the ephemeral keys can be made no call fails.
    Every message carries a public key, and without a payload none comes near the limit; a
    message encrypted at one end of a direction decrypts at the other. *)
Class NoiseLaws `{Noise} : Prop := {
  GenerateKeypair_matching rnd k : GenerateKeypair rnd = Ok k → matching k;
  XX_agrees ki kr ei er hi hr m1 m2 m3 hi1 hi2 hi3 hr1 hr2 hr3 x1 y1 x2 y2 x3 y3 x4 y4 a b a' b' :
    NewHandshakeState true ki ei = Ok hi → NewHandshakeState false kr er = Ok hr →
    hs_WriteMessage hi = (Ok (m1, x1, y1), hi1) → hs_ReadMessage hr m1 = (Ok (x2, y2), hr1) →
    hs_WriteMessage hr1 = (Ok (m2, x3, y3), hr2) → hs_ReadMessage hi1 m2 = (Ok (x4, y4), hi2) →
    hs_WriteMessage hi2 = (Ok (m3, Some a, Some b), hi3) → hs_ReadMessage hr2 m3 = (Ok (Some a', Some b'), hr3) →
    in_step a a' ∧ in_step b' b;
  XX_completes ki kr ei er xi xr hi hr :
    matching ki → matching kr → GenerateKeypair (Ok ei) = Ok xi → GenerateKeypair (Ok er) = Ok xr →
    NewHandshakeState true ki ei = Ok hi → NewHandshakeState false kr er = Ok hr →
    ∃ m1 m2 m3 hi1 hi2 hi3 hr1 hr2 hr3 a b a' b',
      hs_WriteMessage hi = (Ok (m1, None, None), hi1) ∧
      hs_ReadMessage hr m1 = (Ok (None, None), hr1) ∧
      hs_WriteMessage hr1 = (Ok (m2, None, None), hr2) ∧
      hs_ReadMessage hi1 m2 = (Ok (None, None), hi2) ∧
      hs_WriteMessage hi2 = (Ok (m3, Some a, Some b), hi3) ∧
      hs_ReadMessage hr2 m3 = (Ok (Some a', Some b'), hr3);
  WriteMessage_size h m x y h' : hs_WriteMessage h = (Ok (m, x, y), h') → m ≠ [] ∧ (Z.of_nat (length m) <= MaxMsgLen)%Z;
  in_step_message x y p c x' :
    in_step x y → cs_Encrypt x p = (Ok c, x') → ∃ y', cs_Decrypt y c = (Ok p, y') ∧ in_step x' y';
}.

(** ** keypair.go *)

(** [rnd] is what [rand.Reader] gives. *)
Definition GenerateKeyPair `{Noise} (rnd : result bytes) : result KeyPair :=
  match GenerateKeypair rnd with
  | Ok kp => Ok (mkKeyPair (Private kp) (Public kp))
  | Err e => Err (Wrap "generate X25519 keypair" e)
  | Panic why => Panic why
  end.

(** ** Processes *)

(** A handshake in progress: it has returned, it has called [read] or it has called
    [write] and waits for the outcome. *)
Inductive proc (A : Type) : Type :=
| Ret (r : result A)
| Recv (k : result bytes → proc A)
| Send (b : bytes) (k : result unit → proc A).
Arguments Ret {A} r.
Arguments Recv {A} k.
Arguments Send {A} b k.

(** [msg, err := read(); if err != nil { return nil, fmt.Errorf("what: %w", err) }] *)
Definition read_then {A} (what : string) (k : bytes → proc A) : proc A :=
  Recv (λ r, match r with
             | Ok b => k b
             | Err e => Ret (Err (Wrap what e))
             | Panic s => Ret (Panic s)
             end).

(** [if err := write(msg); err != nil { return nil, fmt.Errorf("what: %w", err) }] *)
Definition write_then {A} (what : string) (msg : bytes) (k : proc A) : proc A :=
  Send msg (λ r, match r with
                 | Ok _ => k
                 | Err e => Ret (Err (Wrap what e))
                 | Panic s => Ret (Panic s)
                 end).

(** [v, err := f(); if err != nil { return nil, fmt.Errorf("what: %w", err) }] *)
Definition try_then {A B} (what : string) (r : result A) (k : A → proc B) : proc B :=
  match r with
  | Ok a => k a
  | Err e => Ret (Err (Wrap what e))
  | Panic s => Ret (Panic s)
  end.

(** ** noise.go *)

Record NoiseSession `{Noise} := mkNoiseSession { ns_Send : CipherState; ns_Recv : CipherState }.
Arguments NoiseSession {_}.
Arguments mkNoiseSession {_} _ _.
Arguments ns_Send {_} _.
Arguments ns_Recv {_} _.

Section noise.
Context `{Noise}.

Definition NoiseSession_Encrypt (plaintext : bytes) : M NoiseSession bytes := λ s,
  let '(r, cs) := cs_Encrypt (ns_Send s) plaintext in (r, mkNoiseSession cs (ns_Recv s)).

Definition NoiseSession_Decrypt (ciphertext : bytes) : M NoiseSession bytes :=
  wrap "noise decrypt" (λ s,
    let '(r, cs) := cs_Decrypt (ns_Recv s) ciphertext in (r, mkNoiseSession (ns_Send s) cs)).

Definition incomplete : error := Errorf "handshake incomplete: cipher states are nil".

Definition ServerHandshake (entropy : bytes) (serverKey : KeyPair) : proc NoiseSession :=
  try_then "new handshake state" (NewHandshakeState false serverKey entropy) (λ hs,
  read_then "read init" (λ msg1,
  let '(r1, hs) := hs_ReadMessage hs msg1 in
  try_then "process init" r1 (λ _,
  let '(r2, hs) := hs_WriteMessage hs in
  try_then "write response" r2 (λ '(msg2, _, _),
  write_then "send response" msg2 (
  read_then "read finish" (λ msg3,
  let '(r3, hs) := hs_ReadMessage hs msg3 in
  try_then "process finish" r3 (λ '(csRecv, csSend),
  match csRecv, csSend with
  | Some csRecv, Some csSend => Ret (Ok (mkNoiseSession csSend csRecv))
  | _, _ => Ret (Err incomplete)
  end))))))).

Definition ClientHandshake (entropy : bytes) (clientKey : KeyPair) : proc NoiseSession :=
  try_then "new handshake state" (NewHandshakeState true clientKey entropy) (λ hs,
  let '(r1, hs) := hs_WriteMessage hs in
  try_then "write init" r1 (λ '(msg1, _, _),
  write_then "send init" msg1 (
  read_then "read response" (λ msg2,
  let '(r2, hs) := hs_ReadMessage hs msg2 in
  try_then "process response" r2 (λ _,
  let '(r3, hs) := hs_WriteMessage hs in
  try_then "write finish" r3 (λ '(msg3, csSend, csRecv),
  write_then "send finish" msg3 (
  match csSend, csRecv with
  | Some csSend, Some csRecv => Ret (Ok (mkNoiseSession csSend csRecv))
  | _, _ => Ret (Err incomplete)
  end))))))).

End noise.

(** ** Two handshakes against each other *)

(** A client, a server and the messages in flight each way. *)
Record link (A : Type) := mkLink { l_client : proc A; l_server : proc A; l_c2s : list bytes; l_s2c : list bytes }.
Arguments mkLink {A} _ _ _ _.
Arguments l_client {A} _.
Arguments l_server {A} _.
Arguments l_c2s {A} _.
Arguments l_s2c {A} _.

(** Messages arrive in order; a call may fail, and a failed [write] may have sent its
    message or not. *)
Inductive link_step {A} : link A → link A → Prop :=
| c_send b k s q1 q2 : link_step (mkLink (Send b k) s q1 q2) (mkLink (k (Ok tt)) s (q1 ++ [b]) q2)
| c_recv b k s q1 q2 : link_step (mkLink (Recv k) s q1 (b :: q2)) (mkLink (k (Ok b)) s q1 q2)
| c_send_fail b k e q s q1 q2 : q = q1 ∨ q = q1 ++ [b] → link_step (mkLink (Send b k) s q1 q2) (mkLink (k (Err e)) s q q2)
| c_recv_fail k e s q1 q2 : link_step (mkLink (Recv k) s q1 q2) (mkLink (k (Err e)) s q1 q2)
| s_send b k c q1 q2 : link_step (mkLink c (Send b k) q1 q2) (mkLink c (k (Ok tt)) q1 (q2 ++ [b]))
| s_recv b k c q1 q2 : link_step (mkLink c (Recv k) (b :: q1) q2) (mkLink c (k (Ok b)) q1 q2)
| s_send_fail b k e q c q1 q2 : q = q2 ∨ q = q2 ++ [b] → link_step (mkLink c (Send b k) q1 q2) (mkLink c (k (Err e)) q1 q)
| s_recv_fail k e c q1 q2 : link_step (mkLink c (Recv k) q1 q2) (mkLink c (k (Err e)) q1 q2).

(** Two sessions whose directions are in step. *)
Definition paired `{Noise} (c s : NoiseSession) : Prop :=
  in_step (ns_Send c) (ns_Recv s) ∧ in_step (ns_Send s) (ns_Recv c).

(** Messages sent over a session, in order. *)
Fixpoint encrypt_seq `{Noise} (ps : list bytes) : M NoiseSession (list bytes) :=
  match ps with
  | [] => mret []
  | p :: ps => c ← NoiseSession_Encrypt p; cs ← encrypt_seq ps; mret (c :: cs)
  end.

Fixpoint decrypt_seq `{Noise} (cs : list bytes) : M NoiseSession (list bytes) :=
  match cs with
  | [] => mret []
  | c :: cs => p ← NoiseSession_Decrypt c; ps ← decrypt_seq cs; mret (p :: ps)
  end.

(** ** Lemmas *)

(** The stages of the two sides when no call fails: how many messages a side has sent and
    received, and what it does next. *)
Section stages.
Context {A : Type} (m1 m2 m3 : bytes) (rc rs : A).
Implicit Types p : proc A.

Definition failed p : Prop := ∃ e, p = Ret (Err e).

Definition client2 p : Prop := ∃ k, p = Send m3 k ∧ k (Ok tt) = Ret (Ok rc) ∧ ∀ e, failed (k (Err e)).
Definition client1 p : Prop := ∃ k, p = Recv k ∧ client2 (k (Ok m2)) ∧ ∀ e, failed (k (Err e)).
Definition client0 p : Prop := ∃ k, p = Send m1 k ∧ client1 (k (Ok tt)) ∧ ∀ e, failed (k (Err e)).

Definition server2 p : Prop := ∃ k, p = Recv k ∧ k (Ok m3) = Ret (Ok rs) ∧ ∀ e, failed (k (Err e)).
Definition server1 p : Prop := ∃ k, p = Send m2 k ∧ server2 (k (Ok tt)) ∧ ∀ e, failed (k (Err e)).
Definition server0 p : Prop := ∃ k, p = Recv k ∧ server1 (k (Ok m1)) ∧ ∀ e, failed (k (Err e)).

(** Without failures the handshake runs to its end. *)
Lemma link_completes p q :
  client0 p → server0 q → rtc link_step (mkLink p q [] []) (mkLink (Ret (Ok rc)) (Ret (Ok rs)) [] []).
Proof.
  intros (k1 & -> & (k2 & E2 & (k3 & E3 & E4 & _) & _) & _) (j1 & -> & (j2 & F2 & (j3 & F3 & F4 & _) & _) & _).
  eapply rtc_l; [apply c_send|]. simpl. eapply rtc_l; [apply s_recv|]. rewrite F2.
  eapply rtc_l; [apply s_send|]. simpl. rewrite E2. eapply rtc_l; [apply c_recv|]. rewrite E3.
  eapply rtc_l; [apply c_send|]. simpl. rewrite F3, E4. eapply rtc_l; [apply s_recv|]. by rewrite F4.
Qed.

End stages.

(** The stages when any call may fail: a side may be over at each of them; the messages
    are those that it sends if it gets there, and the results those that it returns. *)
Section handshake_lemmas.
Context {A : Type} (m1 m2 m3 : bytes) (rc rs : option A).
Implicit Types p : proc A.

Definition over p : Prop := ∃ r, p = Ret r ∧ ∀ a, r ≠ Ok a.

Definition may_client3 p : Prop := over p ∨ ∃ c, rc = Some c ∧ p = Ret (Ok c).
Definition may_client2 p : Prop := over p ∨ ∃ k, p = Send m3 k ∧ may_client3 (k (Ok tt)) ∧ ∀ e, over (k (Err e)).
Definition may_client1 p : Prop := over p ∨ ∃ k, p = Recv k ∧ may_client2 (k (Ok m2)) ∧ ∀ e, over (k (Err e)).
Definition may_client0 p : Prop := over p ∨ ∃ k, p = Send m1 k ∧ may_client1 (k (Ok tt)) ∧ ∀ e, over (k (Err e)).

Definition may_server3 p : Prop := over p ∨ ∃ s, rs = Some s ∧ p = Ret (Ok s).
Definition may_server2 p : Prop := over p ∨ ∃ k, p = Recv k ∧ may_server3 (k (Ok m3)) ∧ ∀ e, over (k (Err e)).
Definition may_server1 p : Prop := over p ∨ ∃ k, p = Send m2 k ∧ may_server2 (k (Ok tt)) ∧ ∀ e, over (k (Err e)).
Definition may_server0 p : Prop := over p ∨ ∃ k, p = Recv k ∧ may_server1 (k (Ok m1)) ∧ ∀ e, over (k (Err e)).

Definition client_at (sent recvd : nat) p : Prop :=
  over p ∨ (sent = 0 ∧ recvd = 0 ∧ may_client0 p) ∨ (sent = 1 ∧ recvd = 0 ∧ may_client1 p) ∨
  (sent = 1 ∧ recvd = 1 ∧ may_client2 p) ∨ (sent = 2 ∧ recvd = 1 ∧ may_client3 p).

Definition server_at (sent recvd : nat) p : Prop :=
  over p ∨ (sent = 0 ∧ recvd = 0 ∧ may_server0 p) ∨ (sent = 0 ∧ recvd = 1 ∧ may_server1 p) ∨
  (sent = 1 ∧ recvd = 1 ∧ may_server2 p) ∨ (sent = 1 ∧ recvd = 2 ∧ may_server3 p).

(** The messages in flight are the ones sent and not yet received. *)
Definition link_ok (l : link A) : Prop :=
  ∃ cs cr ss sr, client_at cs cr (l_client l) ∧ server_at ss sr (l_server l) ∧
    sr ≤ cs ≤ 2 ∧ cr ≤ ss ≤ 1 ∧ l_c2s l = drop sr (take cs [m1; m3]) ∧ l_s2c l = drop cr (take ss [m2]).

Lemma over_Send b k : ¬ over (Send b k).
Proof. by intros (r & [=] & _). Qed.

Lemma over_Recv k : ¬ over (Recv k).
Proof. by intros (r & [=] & _). Qed.

Ltac at_stage H :=
  destruct H as [H|[(-> & -> & [H|H])|[(-> & -> & [H|H])|[(-> & -> & [H|H])|(-> & -> & [H|H])]]]];
  try (by apply over_Send in H); try (by apply over_Recv in H);
  first [destruct H as (k' & [=] & H1 & H2); subst|destruct H as (r & _ & [=])].

Lemma client_send cs cr b k :
  client_at cs cr (Send b k) →
  cs < 2 ∧ [m1; m3] !! cs = Some b ∧ client_at (S cs) cr (k (Ok tt)) ∧ ∀ e, over (k (Err e)).
Proof.
  unfold client_at at 1. intros Hc. at_stage Hc.
  - split_and!; [lia|done| |done]. right. right. left. done.
  - split_and!; [lia|done| |done]. do 4 right. done.
Qed.

Lemma client_recv cs cr k :
  client_at cs cr (Recv k) → cr = 0 ∧ client_at cs 1 (k (Ok m2)) ∧ ∀ e, over (k (Err e)).
Proof.
  unfold client_at at 1. intros Hc. at_stage Hc. split_and!; [done| |done]. right. right. right. left. done.
Qed.

Lemma server_send ss sr b k :
  server_at ss sr (Send b k) → ss = 0 ∧ b = m2 ∧ server_at 1 sr (k (Ok tt)) ∧ ∀ e, over (k (Err e)).
Proof.
  unfold server_at at 1. intros Hc. at_stage Hc. split_and!; [done|done| |done]. right. right. right. left. done.
Qed.

Lemma server_recv ss sr k :
  server_at ss sr (Recv k) →
  ∃ m, [m1; m3] !! sr = Some m ∧ server_at ss (S sr) (k (Ok m)) ∧ ∀ e, over (k (Err e)).
Proof.
  unfold server_at at 1. intros Hc. at_stage Hc.
  - exists m1. split_and!; [done| |done]. right. right. left. done.
  - exists m3. split_and!; [done| |done]. do 4 right. done.
Qed.

Lemma in_flight_send (L : list bytes) sent recvd b :
  recvd ≤ sent → L !! sent = Some b → drop recvd (take sent L) ++ [b] = drop recvd (take (S sent) L).
Proof.
  intros Hle Hb. rewrite (take_S_r _ _ _ Hb). symmetry. apply drop_app_le.
  rewrite length_take. apply lookup_lt_Some in Hb. lia.
Qed.

Lemma in_flight_recv (L : list bytes) sent recvd b q :
  drop recvd (take sent L) = b :: q → L !! recvd = Some b ∧ q = drop (S recvd) (take sent L) ∧ recvd < sent.
Proof.
  intros Hq. assert (Hb : drop recvd (take sent L) !! 0 = Some b) by (by rewrite Hq).
  rewrite lookup_drop, Nat.add_0_r in Hb. apply lookup_take_Some in Hb as [Hb Hlt].
  split_and!; [done| |done].
  rewrite (drop_S _ b recvd) in Hq by (by rewrite lookup_take_lt by lia). by injection Hq as <-.
Qed.

Lemma link_step_ok l l' : link_step l l' → link_ok l → link_ok l'.
Proof.
  intros Hs (cs & cr & ss & sr & Hc & Hv & Hle1 & Hle2 & Hq1 & Hq2).
  destruct Hs as [b k s q1 q2|b k s q1 q2|b k e q s q1 q2 Hq|k e s q1 q2
                 |b k c q1 q2|b k c q1 q2|b k e q c q1 q2 Hq|k e c q1 q2]; simpl in *; subst.
  - apply client_send in Hc as (Hlt & Hb & Hc & _). exists (S cs), cr, ss, sr.
    split_and!; try done; try lia. cbn [l_c2s]. apply in_flight_send; [lia|done].
  - apply client_recv in Hc as (-> & Hc & _). symmetry in Hq2. apply in_flight_recv in Hq2 as (Hb & -> & Hlt).
    simplify_eq/=. exists cs, 1, ss, sr. split_and!; try done; lia.
  - apply client_send in Hc as (Hlt & Hb & _ & Hf). destruct Hq as [->| ->].
    + exists cs, cr, ss, sr. split_and!; try done; try lia. left; apply Hf.
    + exists (S cs), cr, ss, sr. split_and!; try done; try lia; [left; apply Hf|].
      cbn [l_c2s]. apply in_flight_send; [lia|done].
  - apply client_recv in Hc as (-> & _ & Hf). exists cs, 0, ss, sr. split_and!; try done; try lia. left; apply Hf.
  - apply server_send in Hv as (-> & -> & Hv & _). exists cs, cr, 1, sr. split_and!; try done; try lia.
    simpl. by assert (cr = 0) as -> by lia.
  - apply server_recv in Hv as (m & Hm & Hv & _). symmetry in Hq1. apply in_flight_recv in Hq1 as (Hb & -> & Hlt).
    assert (m = b) as -> by congruence. exists cs, cr, ss, (S sr). split_and!; try done; lia.
  - apply server_send in Hv as (-> & -> & _ & Hf). assert (cr = 0) as -> by lia. destruct Hq as [->| ->].
    + exists cs, 0, 0, sr. split_and!; try done; try lia. left; apply Hf.
    + exists cs, 0, 1, sr. split_and!; try done; try lia. left; apply Hf.
  - apply server_recv in Hv as (m & _ & _ & Hf). exists cs, cr, ss, sr. split_and!; try done; try lia. left; apply Hf.
Qed.

(** When both sides have succeeded they have the results of the completed handshake. *)
Lemma link_ok_results l c s :
  link_ok l → l_client l = Ret (Ok c) → l_server l = Ret (Ok s) → rc = Some c ∧ rs = Some s.
Proof.
  intros (cs & cr & ss & sr & Hc & Hv & _) Ec Es. rewrite Ec in Hc. rewrite Es in Hv.
  assert (Ho : ∀ a : A, ¬ over (Ret (Ok a))) by (intros a (r & [= <-] & Hr); by destruct (Hr a)).
  unfold client_at, server_at, may_client0, may_client1, may_client2, may_client3, may_server0, may_server1, may_server2, may_server3 in *.
  split; naive_solver.
Qed.

Lemma links_results p q c s q1 q2 :
  may_client0 p → may_server0 q → rtc link_step (mkLink p q [] []) (mkLink (Ret (Ok c)) (Ret (Ok s)) q1 q2) →
  rc = Some c ∧ rs = Some s.
Proof.
  intros Hp Hq Hrtc. apply (link_ok_results (mkLink (Ret (Ok c)) (Ret (Ok s)) q1 q2)); [|done..].
  eapply rtc_invariant; [intros; by eapply link_step_ok| |exact Hrtc].
  exists 0, 0, 0, 0. simpl. split_and!; try done; try lia; right; left; done.
Qed.

End handshake_lemmas.

(** A side that goes through the stages. *)
Lemma failed_over {A} (p : proc A) : failed p → over p.
Proof. intros [e ->]. by exists (Err e). Qed.

Lemma client0_may {A} m1 m2 m3 (c : A) p : client0 m1 m2 m3 c p → may_client0 m1 m2 m3 (Some c) p.
Proof.
  intros (k1 & -> & (k2 & E2 & (k3 & E3 & E4 & F3) & F2) & F1).
  right. exists k1. split; [done|]. split; [|intros e; apply failed_over, F1]. rewrite E2.
  right. exists k2. split; [done|]. split; [|intros e; apply failed_over, F2]. rewrite E3.
  right. exists k3. split; [done|]. split; [|intros e; apply failed_over, F3]. rewrite E4. right. by exists c.
Qed.

Lemma server0_may {A} m1 m2 m3 (s : A) p : server0 m1 m2 m3 s p → may_server0 m1 m2 m3 (Some s) p.
Proof.
  intros (k1 & -> & (k2 & E2 & (k3 & E3 & E4 & F3) & F2) & F1).
  right. exists k1. split; [done|]. split; [|intros e; apply failed_over, F1]. rewrite E2.
  right. exists k2. split; [done|]. split; [|intros e; apply failed_over, F2]. rewrite E3.
  right. exists k3. split; [done|]. split; [|intros e; apply failed_over, F3]. rewrite E4. right. by exists s.
Qed.

Section session_lemmas.
Context `{NoiseLaws}.

(** *** Handshakes in which any call may fail *)

(** The message written, if one is. *)
Definition wrote (r : result (bytes * option CipherState * option CipherState)) : bytes :=
  match r with Ok (m, _, _) => m | _ => [] end.

(** The client goes through its stages, and what its calls have returned when it succeeds. *)
Lemma client_may e k h m2 :
  NewHandshakeState true k e = Ok h →
  let '(r1, h1) := hs_WriteMessage h in
  let '(r2, h2) := hs_ReadMessage h1 m2 in
  let '(r3, h3) := hs_WriteMessage h2 in
  ∃ rc, may_client0 (wrote r1) m2 (wrote r3) rc (ClientHandshake e k) ∧
    ∀ c, rc = Some c → ∃ x1 y1 x2 y2 a b, r1 = Ok (wrote r1, x1, y1) ∧ r2 = Ok (x2, y2) ∧ r3 = Ok (wrote r3, Some a, Some b) ∧
      c = mkNoiseSession a b.
Proof.
  intros E. destruct (hs_WriteMessage h) as [r1 h1] eqn:W1, (hs_ReadMessage h1 m2) as [r2 h2] eqn:R2, (hs_WriteMessage h2) as [r3 h3] eqn:W3.
  exists (match r1, r2, r3 with Ok _, Ok _, Ok (_, Some a, Some b) => Some (mkNoiseSession a b) | _, _, _ => None end). split.
  - unfold ClientHandshake. rewrite E. simpl. rewrite W1. destruct r1 as [[[m1 x1] y1]| |]; [|left; by eexists..]. simpl.
    right. eexists. split; [done|]. split; [|by eexists]. right. eexists. split; [done|]. split; [|by eexists]. rewrite R2.
    destruct r2 as [[x2 y2]| |]; [|left; by eexists..]. simpl. rewrite W3. destruct r3 as [[[m3 x3] y3]| |]; [|left; by eexists..]. simpl.
    right. eexists. split; [done|]. split; [|by eexists]. destruct x3 as [a|], y3 as [b|]; [right; by eexists|left; by eexists..].
  - intros c. destruct r1 as [[[m1 x1] y1]| |]; [|done..]. destruct r2 as [[x2 y2]| |]; [|done..].
    destruct r3 as [[[m3 [a|]] [b|]]| |]; [|done..]. intros [= <-]. by exists x1, y1, x2, y2, a, b.
Qed.

Lemma server_may e k h m1 m3 :
  NewHandshakeState false k e = Ok h →
  let '(r1, h1) := hs_ReadMessage h m1 in
  let '(r2, h2) := hs_WriteMessage h1 in
  let '(r3, h3) := hs_ReadMessage h2 m3 in
  ∃ rs, may_server0 m1 (wrote r2) m3 rs (ServerHandshake e k) ∧
    ∀ s, rs = Some s → ∃ x1 y1 x2 y2 a b, r1 = Ok (x1, y1) ∧ r2 = Ok (wrote r2, x2, y2) ∧ r3 = Ok (Some a, Some b) ∧
      s = mkNoiseSession b a.
Proof.
  intros E. destruct (hs_ReadMessage h m1) as [r1 h1] eqn:R1, (hs_WriteMessage h1) as [r2 h2] eqn:W2, (hs_ReadMessage h2 m3) as [r3 h3] eqn:R3.
  exists (match r1, r2, r3 with Ok _, Ok _, Ok (Some a, Some b) => Some (mkNoiseSession b a) | _, _, _ => None end). split.
  - unfold ServerHandshake. rewrite E. simpl. right. eexists. split; [done|]. split; [|by eexists]. rewrite R1.
    destruct r1 as [[x1 y1]| |]; [|left; by eexists..]. simpl. rewrite W2. destruct r2 as [[[m2 x2] y2]| |]; [|left; by eexists..]. simpl.
    right. eexists. split; [done|]. split; [|by eexists]. right. eexists. split; [done|]. split; [|by eexists]. rewrite R3.
    destruct r3 as [[[a|] [b|]]| |]; [right; by eexists|left; by eexists..].
  - intros s. destruct r1 as [[x1 y1]| |]; [|done..]. destruct r2 as [[[m2 x2] y2]| |]; [|done..].
    destruct r3 as [[[a|] [b|]]| |]; [|done..]. intros [= <-]. by exists x1, y1, x2, y2, a, b.
Qed.

(** Whatever the keys, two sides that have succeeded are paired. *)
Lemma handshake_may ec es kc ks hc hs :
  NewHandshakeState true kc ec = Ok hc → NewHandshakeState false ks es = Ok hs →
  ∃ m1 m2 m3 rc rs, may_client0 m1 m2 m3 rc (ClientHandshake ec kc) ∧ may_server0 m1 m2 m3 rs (ServerHandshake es ks) ∧
    ∀ c s, rc = Some c → rs = Some s → paired c s.
Proof.
  intros Ec Es. destruct (hs_WriteMessage hc) as [r1 hc1] eqn:W1. set (m1 := wrote r1).
  destruct (hs_ReadMessage hs m1) as [q1 hs1] eqn:R1. destruct (hs_WriteMessage hs1) as [q2 hs2] eqn:W2. set (m2 := wrote q2).
  destruct (hs_ReadMessage hc1 m2) as [r2 hc2] eqn:R2. destruct (hs_WriteMessage hc2) as [r3 hc3] eqn:W3. set (m3 := wrote r3).
  destruct (hs_ReadMessage hs2 m3) as [q3 hs3] eqn:R3.
  pose proof (client_may ec kc hc m2 Ec) as Hc. rewrite W1, R2, W3 in Hc. destruct Hc as (rc & Hc & Hrc).
  pose proof (server_may es ks hs m1 m3 Es) as Hs. rewrite R1, W2, R3 in Hs. destruct Hs as (rs & Hs & Hrs).
  exists m1, m2, m3, rc, rs. split_and!; [done..|]. intros c s (x1 & y1 & x2 & y2 & a & b & E1 & E2 & E3 & ->)%Hrc.
  intros (x3 & y3 & x4 & y4 & a' & b' & F1 & F2 & F3 & ->)%Hrs.
  rewrite E1 in W1. rewrite F1 in R1. rewrite F2 in W2. rewrite E2 in R2. rewrite E3 in W3. rewrite F3 in R3.
  destruct (XX_agrees _ _ _ _ _ _ _ _ _ _ _ _ _ _ _ _ _ _ _ _ _ _ _ _ _ _ _ Ec Es W1 R1 W2 R2 W3 R3). by split.
Qed.

(** *** Handshakes without failures *)

(** The key pairs and the randomness of the ephemeral keys are those of a working system. *)
Definition usable (entropy : bytes) (k : KeyPair) : Prop := matching k ∧ ∃ ephemeral, GenerateKeypair (Ok entropy) = Ok ephemeral.

(** The two sides follow the stages, with sessions that are paired. *)
Lemma handshake_stages ec es kc ks hc hs :
  usable ec kc → usable es ks → NewHandshakeState true kc ec = Ok hc → NewHandshakeState false ks es = Ok hs →
  ∃ m1 m2 m3 c s, client0 m1 m2 m3 c (ClientHandshake ec kc) ∧ server0 m1 m2 m3 s (ServerHandshake es ks) ∧ paired c s.
Proof.
  intros [Hkc [xc Hxc]] [Hks [xs Hxs]] Ec Es. destruct (XX_completes _ _ _ _ _ _ _ _ Hkc Hks Hxc Hxs Ec Es)
    as (m1 & m2 & m3 & hi1 & hi2 & hi3 & hr1 & hr2 & hr3 & a & b & a' & b' & W1 & R1 & W2 & R2 & W3 & R3).
  destruct (XX_agrees _ _ _ _ _ _ _ _ _ _ _ _ _ _ _ _ _ _ _ _ _ _ _ _ _ _ _ Ec Es W1 R1 W2 R2 W3 R3).
  exists m1, m2, m3, (mkNoiseSession a b), (mkNoiseSession b' a'). split_and!; [| |by split].
  - unfold ClientHandshake. rewrite Ec. simpl. rewrite W1. simpl. unfold write_then, read_then.
    eexists. split; [done|]. split; [|by eexists]. eexists. split; [done|]. split; [|by eexists].
    rewrite R2. simpl. rewrite W3. simpl. eexists. split; [done|]. split; [done|by eexists].
  - unfold ServerHandshake. rewrite Es. simpl. unfold write_then, read_then.
    eexists. split; [done|]. split; [|by eexists]. rewrite R1. simpl. rewrite W2. simpl.
    eexists. split; [done|]. split; [|by eexists]. eexists. split; [done|]. split; [|by eexists]. by rewrite R3.
Qed.

Lemma GenerateKeyPair_matching rnd k : GenerateKeyPair rnd = Ok k → matching k.
Proof.
  unfold GenerateKeyPair. destruct (GenerateKeypair rnd) as [kp| |] eqn:E; [|done..]. intros [= <-].
  apply GenerateKeypair_matching in E. by destruct kp.
Qed.

Lemma paired_message c s p ct c' :
  paired c s → NoiseSession_Encrypt p c = (Ok ct, c') →
  ∃ s', NoiseSession_Decrypt ct s = (Ok p, s') ∧ paired c' s'.
Proof.
  intros [H1 H2]. unfold NoiseSession_Encrypt, NoiseSession_Decrypt, wrap.
  destruct (cs_Encrypt (ns_Send c) p) as [r x] eqn:E. intros [= -> <-].
  destruct (in_step_message _ _ _ _ _ H1 E) as (y & -> & Hy). eexists. split; [done|]. by split.
Qed.

(** One direction: what [x] encrypts, [y] decrypts. *)
Lemma in_step_Decrypt x y p ct x' :
  in_step (ns_Send x) (ns_Recv y) → NoiseSession_Encrypt p x = (Ok ct, x') →
  ∃ y', NoiseSession_Decrypt ct y = (Ok p, y') ∧ in_step (ns_Send x') (ns_Recv y') ∧
    ns_Send y' = ns_Send y ∧ ns_Recv x' = ns_Recv x.
Proof.
  intros Hs. unfold NoiseSession_Encrypt, NoiseSession_Decrypt, wrap.
  destruct (cs_Encrypt (ns_Send x) p) as [r z] eqn:E. intros [= -> <-].
  destruct (in_step_message _ _ _ _ _ Hs E) as (w & -> & Hw). eexists. split; [done|]. done.
Qed.

Lemma in_step_messages ps x y cts x' :
  in_step (ns_Send x) (ns_Recv y) → encrypt_seq ps x = (Ok cts, x') →
  ns_Recv x' = ns_Recv x ∧ ∃ y', decrypt_seq cts y = (Ok ps, y') ∧ in_step (ns_Send x') (ns_Recv y').
Proof.
  revert x y cts. induction ps as [|p ps IH]; intros x y cts Hp E; simpl in E.
  { unfold mret, M_ret in E. simplify_eq/=. split; [done|]. by exists y. }
  apply bind_Ok_inv in E as (ct & x1 & E1 & E). apply bind_Ok_inv in E as (cts' & x2 & E2 & E).
  unfold mret, M_ret in E. simplify_eq. destruct (in_step_Decrypt _ _ _ _ _ Hp E1) as (y1 & D1 & Hp1 & _ & Hr).
  destruct (IH _ _ _ Hp1 E2) as (Hr' & y2 & D2 & Hp2). split; [congruence|]. exists y2. split; [|done]. simpl.
  rewrite (bind_run _ _ _ _ _ D1), (bind_run _ _ _ _ _ D2). done.
Qed.

Lemma paired_messages ps c s cts c' :
  paired c s → encrypt_seq ps c = (Ok cts, c') → ∃ s', decrypt_seq cts s = (Ok ps, s') ∧ paired c' s'.
Proof.
  revert c s cts. induction ps as [|p ps IH]; intros c s cts Hp E; simpl in E.
  { unfold mret, M_ret in E. simplify_eq/=. by exists s. }
  apply bind_Ok_inv in E as (ct & c1 & E1 & E). apply bind_Ok_inv in E as (cts' & c2 & E2 & E).
  unfold mret, M_ret in E. simplify_eq. destruct (paired_message _ _ _ _ _ Hp E1) as (s1 & D1 & Hp1).
  destruct (IH _ _ _ Hp1 E2) as (s2 & D2 & Hp2). exists s2. split; [|done]. simpl.
  rewrite (bind_run _ _ _ _ _ D1), (bind_run _ _ _ _ _ D2). done.
Qed.

Lemma paired_sym c s : paired c s → paired s c.
Proof. intros []. by split. Qed.

End session_lemmas.

(** ** Properties *)

Section noise_properties.
Context `{NoiseLaws}.

(** C10: the two sides of the handshake agree.  Over a link that delivers messages
    in order, whatever calls fail, when both have succeeded their sessions fit
    together: what either side encrypts, message after message, the other decrypts. *)
Theorem noise_handshake_agrees (ec es : bytes) (kc ks : KeyPair) (hc hs : HandshakeState)
    (c s : NoiseSession) (q1 q2 : list bytes) :
  NewHandshakeState true kc ec = Ok hc → NewHandshakeState false ks es = Ok hs →
  rtc link_step (mkLink (ClientHandshake ec kc) (ServerHandshake es ks) [] [])
                (mkLink (Ret (Ok c)) (Ret (Ok s)) q1 q2) →
  (∀ ps cts c', encrypt_seq ps c = (Ok cts, c') → ∃ s', decrypt_seq cts s = (Ok ps, s')) ∧
  (∀ ps cts s', encrypt_seq ps s = (Ok cts, s') → ∃ c', decrypt_seq cts c = (Ok ps, c')).
Proof.
  intros Ec Es Hrtc. destruct (handshake_may _ _ _ _ _ _ Ec Es) as (m1 & m2 & m3 & rc & rs & Hc & Hs & Hp).
  destruct (links_results _ _ _ _ _ _ _ _ _ _ _ Hc Hs Hrtc) as [-> ->]. specialize (Hp _ _ eq_refl eq_refl).
  split; intros ps cts x E.
  - destruct (paired_messages _ _ _ _ _ Hp E) as (s' & ? & _). eauto.
  - destruct (paired_messages _ _ _ _ _ (paired_sym _ _ Hp) E) as (s' & ? & _). eauto.
Qed.

(** With generated keys, when no call on the connection fails the handshake completes:
    both sides return a session and no message is left over. *)
Theorem noise_handshake_completes (ec es : bytes) (rc rs : result bytes) (kc ks xc xs : KeyPair) (hc hs : HandshakeState) :
  GenerateKeyPair rc = Ok kc → GenerateKeyPair rs = Ok ks → GenerateKeypair (Ok ec) = Ok xc → GenerateKeypair (Ok es) = Ok xs →
  NewHandshakeState true kc ec = Ok hc → NewHandshakeState false ks es = Ok hs →
  ∃ c s, rtc link_step (mkLink (ClientHandshake ec kc) (ServerHandshake es ks) [] [])
                       (mkLink (Ret (Ok c)) (Ret (Ok s)) [] []) ∧ paired c s.
Proof.
  intros Hkc%GenerateKeyPair_matching Hks%GenerateKeyPair_matching Hxc Hxs Ec Es.
  destruct (handshake_stages ec es kc ks hc hs) as (m1 & m2 & m3 & c0 & s0 & Hc & Hs & Hp);
    [split; [done|by eexists].. |done|done|]. exists c0, s0. split; [|done]. by eapply link_completes.
Qed.

End noise_properties.

(** ** A toy suite and the witnesses

    A handshake state is the side and the number of messages processed; a cipher state
    is its direction and a counter. *)

Definition toy_write (h : bool * nat) : result (bytes * option (bytes * nat) * option (bytes * nat)) * (bool * nat) :=
  match h with
  | (true, 0) => (Ok ([x01], None, None), (true, 1))
  | (false, 1) => (Ok ([x02], None, None), (false, 2))
  | (true, 2) => (Ok ([x03], Some ([x61], 0), Some ([x62], 0)), (true, 3))
  | _ => (Err (Errorf "noise: unexpected call to WriteMessage"), h)
  end.

Definition toy_read (h : bool * nat) (m : bytes) : result (option (bytes * nat) * option (bytes * nat)) * (bool * nat) :=
  match h, m with
  | (false, 0), [x01] => (Ok (None, None), (false, 1))
  | (true, 1), [x02] => (Ok (None, None), (true, 2))
  | (false, 2), [x03] => (Ok (Some ([x61], 0), Some ([x62], 0)), (false, 3))
  | _, _ => (Err (Errorf "noise: message is too short"), h)
  end.

Definition toy_noise : Noise := {|
  HandshakeState := bool * nat;
  CipherState := bytes * nat;
  GenerateKeypair rnd := (λ b, mkKeyPair b b) <$> rnd;
  NewHandshakeState initiator key entropy := Ok (initiator, 0);
  hs_WriteMessage := toy_write;
  hs_ReadMessage := toy_read;
  cs_Encrypt cs p := (Ok (cs.1 ++ p), (cs.1, S cs.2));
  cs_Decrypt cs c := if bool_decide (take (length cs.1) c = cs.1)
                     then (Ok (drop (length cs.1) c), (cs.1, S cs.2))
                     else (Err (Errorf "chacha20poly1305: message authentication failed"), cs);
  matching k := Public k = Private k;
  in_step x y := x = y;
|}.

Lemma toy_noise_laws : @NoiseLaws toy_noise.
Proof.
  split; simpl.
  - intros [b| |] k [= <-]. done.
  - intros ki kr ei er hi hr m1 m2 m3 hi1 hi2 hi3 hr1 hr2 hr3 x1 y1 x2 y2 x3 y3 x4 y4 a b a' b' [= <-] [= <-].
    intros [= <- <- <- <-] [= <- <- <-] [= <- <- <- <-] [= <- <- <-] [= <- <- <- <-] [= <- <- <-]. done.
  - intros ki kr ei er xi xr hi hr _ _ _ _ [= <-] [= <-]. eexists [x01], [x02], [x03], _, _, _, _, _, _, _, _, _, _.
    split_and!; reflexivity.
  - unfold toy_write. intros h m x y h' E. repeat case_match; by simplify_eq.
  - intros x y p c x' -> [= <- <-]. rewrite take_app_length, bool_decide_true, drop_app_length by done. eauto.
Qed.

Definition toy_key : KeyPair := mkKeyPair [x01] [x01].

Lemma noise_handshake_completes_witness :
  ∃ c s : @NoiseSession toy_noise,
    rtc link_step (mkLink (ClientHandshake [] toy_key) (ServerHandshake [] toy_key) [] [])
                  (mkLink (Ret (Ok c)) (Ret (Ok s)) [] []) ∧ paired c s.
Proof.
  exact (@noise_handshake_completes toy_noise toy_noise_laws [] [] (Ok [x01]) (Ok [x01]) toy_key toy_key (mkKeyPair [] []) (mkKeyPair [] [])
    (true, 0) (false, 0) eq_refl eq_refl eq_refl eq_refl eq_refl eq_refl).
Defined.

Lemma noise_handshake_agrees_witness :
  ∃ s', decrypt_seq [[x61; x68]; [x61; x69]] (@mkNoiseSession toy_noise ([x62], 0) ([x61], 0)) = (Ok [[x68]; [x69]], s').
Proof.
  refine (proj1 (@noise_handshake_agrees toy_noise toy_noise_laws [] [] toy_key toy_key (true, 0) (false, 0)
                   (@mkNoiseSession toy_noise ([x61], 0) ([x62], 0)) (@mkNoiseSession toy_noise ([x62], 0) ([x61], 0))
                   [] [] eq_refl eq_refl _) [[x68]; [x69]] [[x61; x68]; [x61; x69]] _ eq_refl).
  eapply rtc_l; [apply c_send|]. eapply rtc_l; [apply s_recv|]. eapply rtc_l; [apply s_send|].
  eapply rtc_l; [apply c_recv|]. eapply rtc_l; [apply c_send|]. eapply rtc_l; [apply s_recv|]. apply rtc_refl.
Defined.
