(* ===== verification/CryptoGrpc.v ===== *)
(** * The crypto service

    [server/internal/cryptogrpc/server.go]: handshakes kept in a table and advanced one
    message at a time, and encryption, decryption and rekeying with the key at the
    head of the crypto state that the caller passes.  One request at a time. *)
From S2P Require Import Prelude Bytes Crypto Noise Grpc.

Local Open Scope nat_scope.

(** [s[:n]] for a slice whose array goes on with [spare]: beyond the capacity it
    panics. *)
Definition slice_to (n : nat) (s spare : bytes) : result bytes :=
  if bool_decide (n ≤ length (s ++ spare)) then Ok (take n (s ++ spare))
  else Panic "slice bounds out of range".

Record HandshakeStepResponse := mkStepResponse {
  ResponsePayload : slice;
  Completed : bool;
  CryptoState : slice;
}.

Section server.
Context `{Noise} `{ChaCha20Poly1305} `{HKDF}.
Context (serverKey : KeyPair).

(** The table of handshakes in progress. *)
Notation handshakes := (gmap string HandshakeState).

(** [entropy] is the randomness of the handshake and [rnd] the outcome of [rand.Read]
    into the state id. *)
Definition CryptoServer_InitiateHandshake (entropy : bytes) (rnd : result bytes) (IsInitiator : bool) :
    M handshakes bytes :=
  hs ← status_wrap Internal "init handshake: %v" (lift (NewHandshakeState IsInitiator serverKey entropy));
  stateID ← status_wrap Internal "generate state id: %v" (lift rnd);
  _ ← modify (λ t : handshakes, <[EncodeToString stateID := hs]> t);
  mret stateID.

(** A placeholder of random bytes: the cipher states are not looked at. *)
Definition serializeCipherStates (rnd : result bytes) (send recv : CipherState) : result bytes :=
  match rnd with
  | Ok b => Ok b
  | Err _ => Panic "rand read: %v"
  | Panic s => Panic s
  end.

(** The end of a handshake: its entry is removed. *)
Definition finish (rnd : result bytes) (key : string) (payload : slice) (send recv : CipherState) :
    M handshakes HandshakeStepResponse :=
  _ ← modify (λ t : handshakes, delete key t);
  cryptoState ← lift (serializeCipherStates rnd send recv);
  mret (mkStepResponse payload true (Some cryptoState)).

(** The second half of [ProcessHandshake]: the next message is written. *)
Definition respond (rnd : result bytes) (key : string) (hs : HandshakeState) :
    M handshakes HandshakeStepResponse := λ t,
  let '(r, hs') := hs_WriteMessage hs in
  let t' := <[key := hs']> t in
  match r with
  | Err _ => (Err (status_Errorf Internal "write message: %v"), t')
  | Panic s => (Panic s, t')
  | Ok (msg, Some csSend, Some csRecv) => finish rnd key (Some msg) csSend csRecv t'
  | Ok (msg, _, _) => (Ok (mkStepResponse (Some msg) false None), t')
  end.

Definition CryptoServer_ProcessHandshake (rnd : result bytes) (HandshakeStateId MessagePayload : slice) :
    M handshakes HandshakeStepResponse := λ t,
  let key := EncodeToString (sbytes HandshakeStateId) in
  match t !! key with
  | None => (Err (status_Errorf NotFound "handshake state not found"), t)
  | Some hs =>
      if 0 <? slen MessagePayload then
        let '(r, hs') := hs_ReadMessage hs (sbytes MessagePayload) in
        let t' := <[key := hs']> t in
        match r with
        | Err _ => (Err (status_Errorf InvalidArgument "read message: %v"), t')
        | Panic s => (Panic s, t')
        | Ok (Some csRecv, Some csSend) => finish rnd key None csSend csRecv t'
        | Ok _ => respond rnd key hs' t'
        end
      else respond rnd key hs t
  end.

(** The ciphertext and the crypto state, unchanged. *)
Definition CryptoServer_Encrypt (SessionId : slice) (CryptoState spare : bytes) (Seq : Z) (Plaintext : slice) :
    result (bytes * bytes) :=
  match slice_to 32 CryptoState spare with
  | Ok key =>
      match NewAEAD key with
      | Ok aead =>
          match EncryptAEAD aead (sbytes SessionId) Seq (sbytes Plaintext) with
          | Ok ct => Ok (ct, CryptoState)
          | Err e => Err e
          | Panic s => Panic s
          end
      | Err _ => Err (status_Errorf InvalidArgument "invalid crypto state: %v")
      | Panic s => Panic s
      end
  | Err e => Err e
  | Panic s => Panic s
  end.

Definition CryptoServer_Decrypt (SessionId : slice) (CryptoState spare : bytes) (Seq : Z) (Ciphertext : slice) :
    result (bytes * bytes) :=
  match slice_to 32 CryptoState spare with
  | Ok key =>
      match NewAEAD key with
      | Ok aead =>
          match DecryptAEAD aead (sbytes SessionId) Seq (sbytes Ciphertext) with
          | Ok pt => Ok (pt, CryptoState)
          | Err _ => Err (status_Errorf InvalidArgument "decrypt: %v")
          | Panic s => Panic s
          end
      | Err _ => Err (status_Errorf InvalidArgument "invalid crypto state: %v")
      | Panic s => Panic s
      end
  | Err e => Err e
  | Panic s => Panic s
  end.

(** [copy(newState[:32], newKey)] over a copy of the state. *)
Definition CryptoServer_Rekey (CryptoState : bytes) : result bytes :=
  if length CryptoState <? 32 then Err (status_Errorf InvalidArgument "crypto state too short")
  else match Rekey (take 32 CryptoState) with
       | Ok newKey => Ok (take 32 newKey ++ drop (min 32 (length newKey)) CryptoState)
       | Err _ => Err (status_Errorf Internal "rekey: %v")
       | Panic s => Panic s
       end.

End server.

(** ** Lemmas *)

Lemma slice_to_within n s spare : n ≤ length s → slice_to n s spare = Ok (take n s).
Proof.
  intros Hn. unfold slice_to. rewrite bool_decide_true by (rewrite length_app; lia). by rewrite take_app_le.
Qed.

Lemma crypto_key (cs spare : bytes) :
  32 ≤ length cs → slice_to 32 cs spare = Ok (take 32 cs) ∧ NewAEAD (take 32 cs) = Ok (take 32 cs).
Proof.
  intros Hn. split; [by apply slice_to_within|]. apply NewAEAD_length. rewrite length_take. unfold KeySize. lia.
Qed.

(** ** Properties *)

Section crypto_properties.
Context `{NoiseLaws} `{ChaCha20Poly1305Laws} `{HKDFLaws}.

(** With a crypto state of at least 32 bytes, what [Encrypt] returns for a
    session and a sequence number is decrypted by [Decrypt] under the same state, and
    the state is handed back unchanged. *)
Theorem crypto_rpc_roundtrip (sid pt : slice) (cs spare spare' : bytes) (seq : Z) :
  32 ≤ length cs → plaintext_fits (sbytes pt) →
  ∃ ct, CryptoServer_Encrypt sid cs spare seq pt = Ok (ct, cs) ∧
        CryptoServer_Decrypt sid cs spare' seq (Some ct) = Ok (sbytes pt, cs).
Proof.
  intros Hlen Hfit. unfold CryptoServer_Encrypt, CryptoServer_Decrypt.
  rewrite (proj1 (crypto_key cs spare Hlen)), (proj1 (crypto_key cs spare' Hlen)), (proj2 (crypto_key cs spare Hlen)).
  destruct (EncryptAEAD_Ok (take 32 cs) (sbytes sid) seq (sbytes pt) Hfit) as [ct E].
  exists ct. rewrite E. split; [done|]. simpl. by rewrite (DecryptAEAD_EncryptAEAD _ _ _ _ _ E).
Qed.

(** A crypto state whose array has fewer than 32 bytes panics in [Encrypt]
    and in [Decrypt], where [Rekey] answers that the argument is invalid. *)
Theorem crypto_rpc_short_state_panics (sid data : slice) (cs spare : bytes) (seq : Z) :
  length cs + length spare < 32 →
  (∃ why, CryptoServer_Encrypt sid cs spare seq data = Panic why) ∧
  (∃ why, CryptoServer_Decrypt sid cs spare seq data = Panic why) ∧
  CryptoServer_Rekey cs = Err (status_Errorf InvalidArgument "crypto state too short").
Proof.
  intros Hlen. unfold CryptoServer_Encrypt, CryptoServer_Decrypt, CryptoServer_Rekey, slice_to.
  rewrite bool_decide_false by (rewrite length_app; lia). rewrite (proj2 (Nat.ltb_lt _ _)) by lia. eauto.
Qed.

(** [Rekey] replaces the 32 bytes of the key by the derived key and keeps
    the length and the rest of the state. *)
Theorem rekey_rpc_spec (cs : bytes) :
  32 ≤ length cs →
  ∃ key, Rekey (take 32 cs) = Ok key ∧ length key = 32 ∧ CryptoServer_Rekey cs = Ok (key ++ drop 32 cs) ∧
    length (key ++ drop 32 cs) = length cs.
Proof.
  intros Hlen. destruct (Rekey_length (take 32 cs)) as (key & Hk & Hl).
  { intros Hnil. apply (f_equal length) in Hnil. rewrite length_take in Hnil. cbn [length] in Hnil. lia. }
  unfold KeySize in Hl. exists key. split_and!; [done|done| |rewrite length_app, length_drop; lia].
  unfold CryptoServer_Rekey. rewrite (proj2 (Nat.ltb_ge _ _)) by lia. rewrite Hk, Hl.
  by rewrite take_ge by lia.
Qed.

(** A client with keys that work can run the XX handshake through the service.  After
    [InitiateHandshake] as responder, the client's first message is answered with the
    second one, and its third message completes the handshake and removes it from the
    table; the crypto state returned is random and has nothing to do with the ciphers
    that were negotiated. *)
Theorem handshake_rpc_completes (serverKey clientKey : KeyPair) (entropy ec sid b : bytes) (rnd0 : result bytes)
    (hc hs : HandshakeState) (t : gmap string HandshakeState) :
  usable ec clientKey → usable entropy serverKey →
  NewHandshakeState true clientKey ec = Ok hc → NewHandshakeState false serverKey entropy = Ok hs →
  ∃ m1 m2 m3 hc1 hc2 hc3 cs cr t1 t2,
    CryptoServer_InitiateHandshake serverKey entropy (Ok sid) false t = (Ok sid, t1) ∧
    hs_WriteMessage hc = (Ok (m1, None, None), hc1) ∧
    CryptoServer_ProcessHandshake rnd0 (Some sid) (Some m1) t1 = (Ok (mkStepResponse (Some m2) false None), t2) ∧
    hs_ReadMessage hc1 m2 = (Ok (None, None), hc2) ∧
    hs_WriteMessage hc2 = (Ok (m3, Some cs, Some cr), hc3) ∧
    CryptoServer_ProcessHandshake (Ok b) (Some sid) (Some m3) t2 =
      (Ok (mkStepResponse None true (Some b)), delete (EncodeToString sid) t).
Proof.
  intros [Hkc [xc Hxc]] [Hks [xs Hxs]] Ec Es. destruct (XX_completes _ _ _ _ _ _ _ _ Hkc Hks Hxc Hxs Ec Es)
    as (m1 & m2 & m3 & hi1 & hi2 & hi3 & hr1 & hr2 & hr3 & a & c & a' & b' & W1 & R1 & W2 & R2 & W3 & R3).
  destruct m1 as [|x1 m1]; [by apply WriteMessage_size in W1 as []|]. destruct m3 as [|x3 m3]; [by apply WriteMessage_size in W3 as []|].
  set (key := EncodeToString sid).
  eexists (x1 :: m1), m2, (x3 :: m3), hi1, hi2, hi3, a, c, (<[key := hs]> t), (<[key := hr2]> (<[key := hr1]> (<[key := hs]> t))).
  split_and!; [|done| |done|done|].
  - unfold CryptoServer_InitiateHandshake, mbind, M_bind, status_wrap, lift. by rewrite Es.
  - unfold CryptoServer_ProcessHandshake. cbn [sbytes default option_map slen length]. fold key.
    rewrite lookup_insert_eq. simpl. rewrite R1. unfold respond. by rewrite W2.
  - unfold CryptoServer_ProcessHandshake. simpl. fold key. rewrite lookup_insert_eq. simpl. rewrite R3.
    unfold finish, modify, mbind, M_bind, lift, mret, M_ret, serializeCipherStates.
    by rewrite !delete_insert_eq.
Qed.

End crypto_properties.

(** ** Witnesses *)

Lemma crypto_rpc_roundtrip_witness :
  let _ := toy_chacha in
  ∃ ct, CryptoServer_Encrypt (Some [x01]) (replicate 64 x07) [] 5 (Some [x61]) = Ok (ct, replicate 64 x07) ∧
        CryptoServer_Decrypt (Some [x01]) (replicate 64 x07) [] 5 (Some ct) = Ok ([x61], replicate 64 x07).
Proof.
  intros chacha. pose proof toy_chacha_laws.
  refine (crypto_rpc_roundtrip (Some [x01]) (Some [x61]) (replicate 64 x07) [] [] 5 _ _).
  - rewrite length_replicate. lia.
  - unfold plaintext_fits. simpl. lia.
Defined.

Lemma crypto_rpc_short_state_panics_witness :
  let _ := toy_chacha in
  ∃ why, CryptoServer_Encrypt (Some [x01]) [x07] [] 5 (Some [x61]) = Panic why.
Proof.
  intros chacha. pose proof toy_hkdf.
  refine (proj1 (crypto_rpc_short_state_panics (Some [x01]) (Some [x61]) [x07] [] 5 _)). simpl. lia.
Defined.

Lemma rekey_rpc_spec_witness :
  let _ := toy_hkdf in
  ∃ key, Rekey (take 32 (replicate 64 x07)) = Ok key ∧
    CryptoServer_Rekey (replicate 64 x07) = Ok (key ++ drop 32 (replicate 64 x07)).
Proof.
  intros hkdf. pose proof toy_hkdf_laws.
  destruct (rekey_rpc_spec (replicate 64 x07)) as (key & Hk & _ & Hs & _); [rewrite length_replicate; lia|].
  by exists key.
Defined.

Lemma handshake_rpc_completes_witness :
  let _ := toy_noise in
  ∃ m1 m2 t1 t2,
    CryptoServer_InitiateHandshake toy_key [] (Ok [xaa]) false ∅ = (Ok [xaa], t1) ∧
    CryptoServer_ProcessHandshake (Ok []) (Some [xaa]) (Some m1) t1 = (Ok (mkStepResponse (Some m2) false None), t2).
Proof.
  intros noise. pose proof toy_noise_laws.
  destruct (@handshake_rpc_completes toy_noise toy_noise_laws toy_key toy_key [] [] [xaa] [xbb] (Ok []) (true, 0) (false, 0) ∅
              (conj eq_refl (ex_intro _ _ eq_refl)) (conj eq_refl (ex_intro _ _ eq_refl)) eq_refl eq_refl)
    as (m1 & m2 & m3 & hc1 & hc2 & hc3 & cs & cr & t1 & t2 & H1 & _ & H2 & _).
  by exists m1, m2, t1, t2.
Defined.
