(* ===== verification/StreamConn.v ===== *)
(** * Connections over gRPC streams

    [proto-core/transport/grpc_transport.go]: the server's [GRPCStreamConn] and the
    client's [GRPCClientConn], a pair of buffered channels each, which a pump of the
    application connects to the stream with [Drain] and [Feed].  A [select] may take
    any of its cases that is ready, so a method gives the list of its outcomes; an
    empty list means that the call blocks. *)
From S2P Require Import Prelude ConnPool.

(** ** Channels *)

(** [make(chan []byte, 16)] *)
Definition chanCap : nat := 16.

(** The cases of a [select]: a receive is ready when the channel holds something, a
    send when there is room, and [<-ctx.Done()] once the context is cancelled. *)
Definition recv_case {A} (ch : list bytes) (k : bytes → list bytes → A) : list A :=
  match ch with [] => [] | data :: ch => [k data ch] end.

Definition send_case {A} (ch : list bytes) (data : bytes) (k : list bytes → A) : list A :=
  if length ch <? chanCap then [k (ch ++ [data])] else [].

Definition done_case {A} (ctxDone : bool) (a : A) : list A := if ctxDone then [a] else [].

(** ** GRPCStreamConn *)

(** [gs_ctxDone]: the context is cancelled; [gs_closed]: the [once] has run and the
    channel [done] is closed. *)
Record GRPCStreamConn := mkStreamConn {
  gs_recvCh : list bytes;
  gs_sendCh : list bytes;
  gs_ctxDone : bool;
  gs_closed : bool;
  gs_addr : string;
}.

Definition NewGRPCStreamConn (ctxDone : bool) (addr : string) : GRPCStreamConn :=
  mkStreamConn [] [] ctxDone false addr.

Definition gs_set_recv (ch : list bytes) (g : GRPCStreamConn) : GRPCStreamConn :=
  mkStreamConn ch (gs_sendCh g) (gs_ctxDone g) (gs_closed g) (gs_addr g).
Definition gs_set_send (ch : list bytes) (g : GRPCStreamConn) : GRPCStreamConn :=
  mkStreamConn (gs_recvCh g) ch (gs_ctxDone g) (gs_closed g) (gs_addr g).

Definition GRPCStreamConn_ReadMessage (g : GRPCStreamConn) : list (result bytes * GRPCStreamConn) :=
  recv_case (gs_recvCh g) (λ data ch, (Ok data, gs_set_recv ch g)) ++
  done_case (gs_ctxDone g) (Err (Errorf "grpc stream closed"), g).

Definition GRPCStreamConn_WriteMessage (data : bytes) (g : GRPCStreamConn) : list (result unit * GRPCStreamConn) :=
  send_case (gs_sendCh g) data (λ ch, (Ok tt, gs_set_send ch g)) ++
  done_case (gs_ctxDone g) (Err (Errorf "grpc stream closed"), g).

Definition GRPCStreamConn_Close (g : GRPCStreamConn) : GRPCStreamConn :=
  if gs_closed g then g else mkStreamConn (gs_recvCh g) (gs_sendCh g) true true (gs_addr g).

Definition GRPCStreamConn_Feed (data : bytes) (g : GRPCStreamConn) : list GRPCStreamConn :=
  send_case (gs_recvCh g) data (λ ch, gs_set_recv ch g) ++ done_case (gs_ctxDone g) g.

Definition GRPCStreamConn_Drain (g : GRPCStreamConn) : list (result bytes * GRPCStreamConn) :=
  recv_case (gs_sendCh g) (λ data ch, (Ok data, gs_set_send ch g)) ++
  done_case (gs_ctxDone g) (Err (Errorf "EOF"), g).

Definition GRPCStreamConn_Type (_ : GRPCStreamConn) : Type_ := TypeGRPC.
Definition GRPCStreamConn_RemoteAddr (g : GRPCStreamConn) : string := gs_addr g.

(** [Done]: whether the channel it returns is closed. *)
Definition GRPCStreamConn_Done (g : GRPCStreamConn) : bool := gs_closed g.

(** ** GRPCClientConn *)

Record GRPCClientConn := mkClientConn {
  gc_sendCh : list bytes;
  gc_recvCh : list bytes;
  gc_ctxDone : bool;
  gc_closed : bool;
  gc_addr : string;
}.

Definition NewGRPCClientConn (ctxDone : bool) (addr : string) : GRPCClientConn :=
  mkClientConn [] [] ctxDone false addr.

Definition gc_set_recv (ch : list bytes) (g : GRPCClientConn) : GRPCClientConn :=
  mkClientConn (gc_sendCh g) ch (gc_ctxDone g) (gc_closed g) (gc_addr g).
Definition gc_set_send (ch : list bytes) (g : GRPCClientConn) : GRPCClientConn :=
  mkClientConn ch (gc_recvCh g) (gc_ctxDone g) (gc_closed g) (gc_addr g).

Definition GRPCClientConn_ReadMessage (g : GRPCClientConn) : list (result bytes * GRPCClientConn) :=
  recv_case (gc_recvCh g) (λ data ch, (Ok data, gc_set_recv ch g)) ++
  done_case (gc_ctxDone g) (Err (Errorf "grpc client closed"), g).

Definition GRPCClientConn_WriteMessage (data : bytes) (g : GRPCClientConn) : list (result unit * GRPCClientConn) :=
  send_case (gc_sendCh g) data (λ ch, (Ok tt, gc_set_send ch g)) ++
  done_case (gc_ctxDone g) (Err (Errorf "grpc client closed"), g).

Definition GRPCClientConn_Close (g : GRPCClientConn) : GRPCClientConn :=
  if gc_closed g then g else mkClientConn (gc_sendCh g) (gc_recvCh g) true true (gc_addr g).

Definition GRPCClientConn_Feed (data : bytes) (g : GRPCClientConn) : list GRPCClientConn :=
  send_case (gc_recvCh g) data (λ ch, gc_set_recv ch g) ++ done_case (gc_ctxDone g) g.

Definition GRPCClientConn_Drain (g : GRPCClientConn) : list (result bytes * GRPCClientConn) :=
  recv_case (gc_sendCh g) (λ data ch, (Ok data, gc_set_send ch g)) ++
  done_case (gc_ctxDone g) (Err (Errorf "EOF"), g).

Definition GRPCClientConn_Type (_ : GRPCClientConn) : Type_ := TypeGRPC.
Definition GRPCClientConn_RemoteAddr (g : GRPCClientConn) : string := gc_addr g.

(** ** The service *)

(** [GRPCTransportService]: what it is to do with a connection, of any type [K] that
    implements [Conn]. *)
Record GRPCTransportService (W K : Type) := mkGRPCTransportService { ts_handler : K → M W unit }.
Arguments mkGRPCTransportService {W K} _.

Definition NewGRPCTransportService {W K} (handler : K → M W unit) : GRPCTransportService W K :=
  mkGRPCTransportService handler.

(** The limits of a [grpc.Server]. *)
Record grpc_limits := mkGrpcLimits { MaxRecvMsgSize : Z; MaxSendMsgSize : Z }.

(** [ListenGRPC] over [net.Listen] and [grpc.NewServer]. *)
Definition ListenGRPC {W Lis Srv} (listen : string → M W Lis) (NewServer : grpc_limits → Srv) (addr : string) : M W (Lis * Srv) :=
  lis ← wrap "grpc listen" (listen addr);
  mret (lis, NewServer (mkGrpcLimits (64 * 1024) (64 * 1024))).

(** [ExtractRemoteAddr]: the peer of the context, the first forwarded address of its
    metadata, or neither. *)
Definition ExtractRemoteAddr (peer : option string) (forwarded : option (list string)) : string :=
  match peer, forwarded with
  | Some addr, _ => addr
  | None, Some (v :: _) => v
  | None, _ => "unknown"
  end.

(** ** A client and a server over a stream *)

(** Both connections, the messages that the pumps have put on the stream each way, and
    the history of each direction: what was written and what was read. *)
Record duplex := mkDuplex {
  d_client : GRPCClientConn;
  d_server : GRPCStreamConn;
  d_up : list bytes;
  d_down : list bytes;
  d_c_wrote : list bytes;
  d_s_read : list bytes;
  d_s_wrote : list bytes;
  d_c_read : list bytes;
}.

Definition logged {A} (r : result A) (d : bytes) (h : list bytes) : list bytes :=
  match r with Ok _ => h ++ [d] | _ => h end.

Definition received (r : result bytes) (h : list bytes) : list bytes :=
  match r with Ok d => h ++ [d] | _ => h end.

(** One call: by a user of a connection, by a pump, a [Close], or a cancellation of the
    parent context. *)
Inductive duplex_step : duplex → duplex → Prop :=
| step_client_write d r c c' s u v cw sr sw cr :
    (r, c') ∈ GRPCClientConn_WriteMessage d c →
    duplex_step (mkDuplex c s u v cw sr sw cr) (mkDuplex c' s u v (logged r d cw) sr sw cr)
| step_client_drain r c c' s u v cw sr sw cr :
    (r, c') ∈ GRPCClientConn_Drain c →
    duplex_step (mkDuplex c s u v cw sr sw cr) (mkDuplex c' s (received r u) v cw sr sw cr)
| step_server_feed d c s s' u v cw sr sw cr :
    s' ∈ GRPCStreamConn_Feed d s →
    duplex_step (mkDuplex c s (d :: u) v cw sr sw cr) (mkDuplex c s' u v cw sr sw cr)
| step_server_read r c s s' u v cw sr sw cr :
    (r, s') ∈ GRPCStreamConn_ReadMessage s →
    duplex_step (mkDuplex c s u v cw sr sw cr) (mkDuplex c s' u v cw (received r sr) sw cr)
| step_server_write d r c s s' u v cw sr sw cr :
    (r, s') ∈ GRPCStreamConn_WriteMessage d s →
    duplex_step (mkDuplex c s u v cw sr sw cr) (mkDuplex c s' u v cw sr (logged r d sw) cr)
| step_server_drain r c s s' u v cw sr sw cr :
    (r, s') ∈ GRPCStreamConn_Drain s →
    duplex_step (mkDuplex c s u v cw sr sw cr) (mkDuplex c s' u (received r v) cw sr sw cr)
| step_client_feed d c c' s u v cw sr sw cr :
    c' ∈ GRPCClientConn_Feed d c →
    duplex_step (mkDuplex c s u (d :: v) cw sr sw cr) (mkDuplex c' s u v cw sr sw cr)
| step_client_read r c c' s u v cw sr sw cr :
    (r, c') ∈ GRPCClientConn_ReadMessage c →
    duplex_step (mkDuplex c s u v cw sr sw cr) (mkDuplex c' s u v cw sr sw (received r cr))
| step_client_close c s u v cw sr sw cr :
    duplex_step (mkDuplex c s u v cw sr sw cr) (mkDuplex (GRPCClientConn_Close c) s u v cw sr sw cr)
| step_server_close c s u v cw sr sw cr :
    duplex_step (mkDuplex c s u v cw sr sw cr) (mkDuplex c (GRPCStreamConn_Close s) u v cw sr sw cr)
| step_client_cancel c s u v cw sr sw cr :
    duplex_step (mkDuplex c s u v cw sr sw cr)
      (mkDuplex (mkClientConn (gc_sendCh c) (gc_recvCh c) true (gc_closed c) (gc_addr c)) s u v cw sr sw cr)
| step_server_cancel c s u v cw sr sw cr :
    duplex_step (mkDuplex c s u v cw sr sw cr)
      (mkDuplex c (mkStreamConn (gs_recvCh s) (gs_sendCh s) true (gs_closed s) (gs_addr s)) u v cw sr sw cr).

Definition NewDuplex (caddr saddr : string) : duplex :=
  mkDuplex (NewGRPCClientConn false caddr) (NewGRPCStreamConn false saddr) [] [] [] [] [] [].

(** One direction: of what was written, in order, some was read, some is in the
    reader's buffer, on the stream and in the writer's buffer; nothing is missing while
    the reader's context lives. *)
Definition direction_ok (wrote sendCh wire recvCh read : list bytes) (readerDone : bool) : Prop :=
  sublist (read ++ recvCh ++ wire ++ sendCh) wrote ∧
  (readerDone = false → read ++ recvCh ++ wire ++ sendCh = wrote) ∧
  length sendCh ≤ chanCap ∧ length recvCh ≤ chanCap.

Definition duplex_ok (l : duplex) : Prop :=
  direction_ok (d_c_wrote l) (gc_sendCh (d_client l)) (d_up l) (gs_recvCh (d_server l)) (d_s_read l)
    (gs_ctxDone (d_server l)) ∧
  direction_ok (d_s_wrote l) (gs_sendCh (d_server l)) (d_down l) (gc_recvCh (d_client l)) (d_c_read l)
    (gc_ctxDone (d_client l)).

(** ** Lemmas *)

Lemma elem_of_recv_case {A} ch (k : bytes → list bytes → A) x :
  x ∈ recv_case ch k ↔ ∃ d q, ch = d :: q ∧ x = k d q.
Proof. destruct ch; simpl; set_solver. Qed.

Lemma elem_of_send_case {A} ch d (k : list bytes → A) x :
  x ∈ send_case ch d k ↔ length ch < chanCap ∧ x = k (ch ++ [d]).
Proof. unfold send_case. case_match eqn:E; [apply Nat.ltb_lt in E|apply Nat.ltb_ge in E]; set_solver by lia. Qed.

Lemma elem_of_done_case {A} b (a x : A) : x ∈ done_case b a ↔ b = true ∧ x = a.
Proof. destruct b; simpl; set_solver. Qed.

Section direction.
Context (done : bool).
Implicit Types (wrote sendCh wire recvCh read ch : list bytes) (d : bytes).

Lemma direction_write wrote sendCh wire recvCh read d :
  length sendCh < chanCap → direction_ok wrote sendCh wire recvCh read done →
  direction_ok (wrote ++ [d]) (sendCh ++ [d]) wire recvCh read done.
Proof.
  intros Hlen (Hs & He & ? & ?). unfold direction_ok. rewrite length_app, !(assoc_L (++)). simpl.
  rewrite !(assoc_L (++)) in Hs, He. split_and!; [by apply sublist_app|intros; by rewrite He|lia|done].
Qed.

Lemma direction_drain wrote ch wire recvCh read d :
  direction_ok wrote (d :: ch) wire recvCh read done → direction_ok wrote ch (wire ++ [d]) recvCh read done.
Proof. intros (Hs & He & Hl & ?). simpl in Hl. split_and!; rewrite <-?(assoc_L (++) wire); naive_solver lia. Qed.

Lemma direction_feed wrote sendCh wire recvCh read d :
  length recvCh < chanCap → direction_ok wrote sendCh (d :: wire) recvCh read done →
  direction_ok wrote sendCh wire (recvCh ++ [d]) read done.
Proof.
  intros Hlen (Hs & He & ? & ?). unfold direction_ok. rewrite length_app. simpl.
  split_and!; rewrite <-?(assoc_L (++) recvCh); try done; lia.
Qed.

Lemma direction_drop wrote sendCh wire recvCh read d :
  done = true → direction_ok wrote sendCh (d :: wire) recvCh read done → direction_ok wrote sendCh wire recvCh read done.
Proof.
  intros -> (Hs & _ & ? & ?). split_and!; try done. etrans; [|exact Hs].
  do 2 (apply sublist_app; [done|]). by apply sublist_cons.
Qed.

Lemma direction_read wrote sendCh wire ch read d :
  direction_ok wrote sendCh wire (d :: ch) read done → direction_ok wrote sendCh wire ch (read ++ [d]) done.
Proof. intros (Hs & He & ? & Hl). simpl in Hl. split_and!; rewrite <-?(assoc_L (++) read); naive_solver lia. Qed.

Lemma direction_done wrote sendCh wire recvCh read :
  direction_ok wrote sendCh wire recvCh read done → direction_ok wrote sendCh wire recvCh read true.
Proof. intros (? & _ & ? & ?). by split_and!. Qed.

End direction.

#[export] Hint Resolve direction_write direction_drain direction_feed direction_drop direction_read direction_done : fproto.

(** Split a choice of [select] into the case that was taken. *)
Ltac select_cases H :=
  apply elem_of_app in H as [H|H];
  first [apply elem_of_recv_case in H as (? & ? & ? & H)|apply elem_of_send_case in H as [? H]|apply elem_of_done_case in H as [? H]|idtac];
  try (apply elem_of_done_case in H as [? H]); simplify_eq/=.

Lemma duplex_step_ok l l' : duplex_step l l' → duplex_ok l → duplex_ok l'.
Proof.
  intros Hs [Hu Hd].
  destruct Hs as [d r c c' s u v cw sr sw cr Hx|r c c' s u v cw sr sw cr Hx|d c s s' u v cw sr sw cr Hx
                 |r c s s' u v cw sr sw cr Hx|d r c s s' u v cw sr sw cr Hx|r c s s' u v cw sr sw cr Hx
                 |d c c' s u v cw sr sw cr Hx|r c c' s u v cw sr sw cr Hx| | | |]; simpl in *.
  1-8: select_cases Hx; destruct c, s; simpl in *; subst; split; simpl; eauto with fproto.
  all: unfold GRPCClientConn_Close, GRPCStreamConn_Close; repeat case_match; split; simpl; eauto with fproto.
Qed.

Lemma duplex_reachable_ok caddr saddr l : rtc duplex_step (NewDuplex caddr saddr) l → duplex_ok l.
Proof.
  apply (rtc_invariant duplex_step duplex_ok); [intros; by eapply duplex_step_ok|].
  split; (split_and!; simpl; [done|done|unfold chanCap; lia|unfold chanCap; lia]).
Qed.

(** A message on its way to the server can move on: it is read, or fed, or drained. *)
Lemma upward_progress l :
  length (gs_recvCh (d_server l) ++ d_up l ++ gc_sendCh (d_client l)) ≠ 0 →
  ∃ l', duplex_step l l' ∧ d_c_wrote l' = d_c_wrote l ∧ gs_ctxDone (d_server l') = gs_ctxDone (d_server l) ∧
    2 * length (gs_recvCh (d_server l')) + 3 * length (d_up l') + 4 * length (gc_sendCh (d_client l')) <
    2 * length (gs_recvCh (d_server l)) + 3 * length (d_up l) + 4 * length (gc_sendCh (d_client l)).
Proof.
  destruct l as [[cs cr cd cc ca] [sr ss sd sc sa] u v cw srd sw crd]; simpl. intros Hne.
  destruct sr as [|d sr].
  2:{ eexists. split; [apply step_server_read, elem_of_app; left; simpl; apply list_elem_of_here|]. simpl. split_and!; [done..|lia]. }
  destruct u as [|d u].
  2:{ eexists. split; [apply step_server_feed, elem_of_app; left; simpl; apply list_elem_of_here|]. simpl. split_and!; [done..|lia]. }
  destruct cs as [|d cs]; [done|].
  eexists. split; [apply step_client_drain, elem_of_app; left; simpl; apply list_elem_of_here|]. simpl. split_and!; [done..|lia].
Qed.

Lemma upward_drains n l :
  2 * length (gs_recvCh (d_server l)) + 3 * length (d_up l) + 4 * length (gc_sendCh (d_client l)) ≤ n →
  ∃ l', rtc duplex_step l l' ∧ d_c_wrote l' = d_c_wrote l ∧ gs_ctxDone (d_server l') = gs_ctxDone (d_server l) ∧
    gs_recvCh (d_server l') ++ d_up l' ++ gc_sendCh (d_client l') = [].
Proof.
  revert l. induction n as [n IH] using lt_wf_ind; intros l Hn.
  destruct (decide (length (gs_recvCh (d_server l) ++ d_up l ++ gc_sendCh (d_client l)) = 0)) as [H0|H0].
  { exists l. split_and!; [done..|by apply nil_length_inv]. }
  destruct (upward_progress l H0) as (l1 & Hs & Hw & Hd & Hlt).
  edestruct (λ H, IH _ H l1 (Nat.le_refl _)) as (l' & Hr & Hw' & Hd' & He); [lia|].
  exists l'. split_and!; [by eapply rtc_l|congruence|congruence|done].
Qed.

(** ** Properties *)

(** C20: over a gRPC stream nothing is reordered, repeated or invented, in
    either direction, whatever the users and the pumps do and whenever a side is closed:
    what is read is a subsequence of what was written, and while the reader is open it
    is a first part of it, with the rest in the buffers and on the stream.  No buffer
    holds more than 16 messages. *)
Theorem grpc_link_fifo (caddr saddr : string) (l : duplex) :
  rtc duplex_step (NewDuplex caddr saddr) l →
  (sublist (d_s_read l) (d_c_wrote l) ∧ sublist (d_c_read l) (d_s_wrote l)) ∧
  (gs_ctxDone (d_server l) = false →
   d_c_wrote l = d_s_read l ++ gs_recvCh (d_server l) ++ d_up l ++ gc_sendCh (d_client l)) ∧
  (gc_ctxDone (d_client l) = false →
   d_s_wrote l = d_c_read l ++ gc_recvCh (d_client l) ++ d_down l ++ gs_sendCh (d_server l)) ∧
  Forall (λ ch, length ch ≤ 16)
    [gs_recvCh (d_server l); gs_sendCh (d_server l); gc_recvCh (d_client l); gc_sendCh (d_client l)].
Proof.
  intros [(Hs1 & He1 & ? & ?) (Hs2 & He2 & ? & ?)]%duplex_reachable_ok.
  split_and!; [| |intros E; by rewrite He1|intros E; by rewrite He2|by rewrite !Forall_cons, Forall_nil].
  all: etrans; [|done]; by apply sublist_inserts_r.
Qed.

(** While the server's connection is open, whatever the client wrote can
    still be read: there is a way to go on after which everything was read, in order. *)
Theorem grpc_link_delivers (caddr saddr : string) (l : duplex) :
  rtc duplex_step (NewDuplex caddr saddr) l → gs_ctxDone (d_server l) = false →
  ∃ l', rtc duplex_step l l' ∧ d_c_wrote l' = d_c_wrote l ∧ d_s_read l' = d_c_wrote l.
Proof.
  intros Hl Ho. destruct (upward_drains _ l (le_n _)) as (l' & Hr & Hw & Hd & He).
  exists l'. split_and!; [done..|].
  destruct (duplex_reachable_ok caddr saddr l' ltac:(by etrans)) as [(_ & Heq & _) _].
  rewrite <-Hw, <-Heq by congruence. by rewrite He, app_nil_r.
Qed.

(** Once a connection is closed no call on it blocks. *)
Theorem closed_never_blocks (g : GRPCStreamConn) (data : bytes) :
  let g' := GRPCStreamConn_Close g in
  (gs_closed g = true → gs_ctxDone g = true) →
  GRPCStreamConn_ReadMessage g' ≠ [] ∧ GRPCStreamConn_WriteMessage data g' ≠ [] ∧
  GRPCStreamConn_Feed data g' ≠ [] ∧ GRPCStreamConn_Drain g' ≠ [] ∧ GRPCStreamConn_Close g' = g'.
Proof.
  intros g' Hc. assert (Hd : gs_ctxDone g' = true) by (unfold g', GRPCStreamConn_Close; case_match; auto).
  assert (gs_closed g' = true) as Hc' by (unfold g', GRPCStreamConn_Close; by case_match).
  unfold GRPCStreamConn_ReadMessage, GRPCStreamConn_WriteMessage, GRPCStreamConn_Feed, GRPCStreamConn_Drain.
  rewrite Hd. simpl. split_and!; try (intros []%app_eq_nil; done).
  unfold GRPCStreamConn_Close at 1. by rewrite Hc'.
Qed.

(** ** Witnesses *)

(** The client has written two messages; the first one has reached the server's
    buffer. *)
Definition example_duplex : duplex :=
  mkDuplex (mkClientConn [[x62]] [] false false "c") (mkStreamConn [[x61]] [] false false "s") [] []
    [[x61]; [x62]] [] [] [].

Lemma example_duplex_reachable : rtc duplex_step (NewDuplex "c" "s") example_duplex.
Proof.
  eapply rtc_l; [eapply (step_client_write [x61]); vm_compute; left|].
  eapply rtc_l; [eapply (step_client_write [x62]); vm_compute; left|].
  eapply rtc_l; [eapply step_client_drain; vm_compute; left|].
  eapply rtc_l; [eapply step_server_feed; vm_compute; left|]. apply rtc_refl.
Qed.

Lemma grpc_link_fifo_witness : d_c_wrote example_duplex = [] ++ [[x61]] ++ [] ++ [[x62]].
Proof. apply (grpc_link_fifo "c" "s" example_duplex); [apply example_duplex_reachable|reflexivity]. Defined.

Lemma grpc_link_delivers_witness :
  ∃ l, rtc duplex_step example_duplex l ∧ d_c_wrote l = [[x61]; [x62]] ∧ d_s_read l = [[x61]; [x62]].
Proof. apply (grpc_link_delivers "c" "s" example_duplex); [apply example_duplex_reachable|reflexivity]. Defined.

(** After [Close] the choice of [select] can drop one message and still deliver the
    next one: the reader of a closed connection may see a gap. *)
Example close_leaves_gap :
  let l := mkDuplex (NewGRPCClientConn false "c") (mkStreamConn [] [] true true "s") [[x61]; [x62]] []
             [[x61]; [x62]] [] [] [] in
  ∃ l', rtc duplex_step l l' ∧ d_s_read l' = [[x62]].
Proof.
  eexists. split.
  - eapply rtc_l; [eapply step_server_feed; vm_compute; right; left|].
    eapply rtc_l; [eapply step_server_feed; vm_compute; left|].
    eapply rtc_l; [eapply step_server_read; vm_compute; left|]. apply rtc_refl.
  - reflexivity.
Qed.
