(* ===== verification/Float64.v ===== *)
(** * Floating-point numbers

    Go's [float64]: IEEE 754 binary64 as the standard library specifies it, each
    operation rounded on its own (the compilers for some architectures fuse a product
    and a sum; the model does not), and the conversions from and to [int64]. *)
From S2P Require Import Prelude Bytes.
From Corelib Require Export Floats.SpecFloat.

Local Open Scope Z_scope.

Notation float64 := spec_float.

#[export] Instance float64_eq_dec : EqDecision float64.
Proof. solve_decision. Defined.

Definition f_mul : float64 → float64 → float64 := SFmul 53 1024.
Definition f_add : float64 → float64 → float64 := SFadd 53 1024.
Definition f_sub : float64 → float64 → float64 := SFsub 53 1024.
Definition f_div : float64 → float64 → float64 := SFdiv 53 1024.
Definition f_sqrt : float64 → float64 := SFsqrt 53 1024.

(** [x < y] and [x <= y]: false when one of them is not a number. *)
Definition f_lt : float64 → float64 → bool := SFltb.
Definition f_le : float64 → float64 → bool := SFleb.

(** [float64(z)], rounded to nearest. *)
Definition f_of_Z (z : Z) : float64 := binary_normalize 53 1024 z 0 false.

(** [z * 10^-k] as a constant of the source is rounded. *)
Definition f_dec (z k : Z) : float64 := f_div (f_of_Z z) (f_of_Z (10 ^ k)).

(** The integer part, for finite numbers. *)
Definition f_trunc (x : float64) : option Z :=
  match x with
  | S754_zero _ => Some 0
  | S754_finite s m e =>
      let n := if 0 <=? e then Z.pos m * 2 ^ e else Z.pos m / 2 ^ (- e) in
      Some (if s then - n else n)
  | _ => None
  end.

(** [int64(x)]: the integer part; where it does not fit the language leaves the value to
    the implementation, here the parameter [overflow]. *)
Definition int64_of_float (overflow : float64 → Z) (x : float64) : Z :=
  match f_trunc x with
  | Some z => if (MinInt64 <=? z) && (z <=? MaxInt64) then z else overflow x
  | None => overflow x
  end.

Lemma f_lt_irrefl x : f_lt x x = false.
Proof.
  unfold f_lt, SFltb. destruct x as [s|s| |s m e]; simpl; [done|by destruct s|done|].
  by destruct s; rewrite Z.compare_refl, Pos.compare_refl.
Qed.

(** ** Integers below 2^53 are exact *)

(** [m * 2^k] *)
Definition pshl (k : nat) (m : positive) : positive := Nat.iter k xO m.

Lemma pshl_value k m : Z.pos (pshl k m) = Z.pos m * 2 ^ Z.of_nat k.
Proof.
  induction k as [|k IH]; [by rewrite Z.mul_1_r|]. rewrite Nat2Z.inj_succ, Z.pow_succ_r by lia.
  change (Z.pos (pshl (S k) m)) with (2 * Z.pos (pshl k m)). rewrite IH. ring.
Qed.

Lemma pshl_add j k m : pshl (j + k) m = pshl j (pshl k m).
Proof. unfold pshl. induction j as [|j IH]; [done|]. simpl. by rewrite IH. Qed.

Lemma pshl_mul j k a b : (pshl j a * pshl k b)%positive = pshl (j + k) (a * b).
Proof.
  enough (Z.pos (pshl j a * pshl k b) = Z.pos (pshl (j + k) (a * b))) by congruence.
  rewrite Pos2Z.inj_mul, !pshl_value, Pos2Z.inj_mul, Nat2Z.inj_add, Z.pow_add_r by lia. ring.
Qed.

Definition bits (m : positive) : nat := Pos.to_nat (digits2_pos m).

Lemma bits_Z m : Z.pos (digits2_pos m) = Z.of_nat (bits m).
Proof. unfold bits. lia. Qed.

Lemma bits_pshl k m : bits (pshl k m) = (k + bits m)%nat.
Proof. induction k as [|k IH]; [done|]. change (pshl (S k) m) with (xO (pshl k m)). unfold bits in *. simpl. lia. Qed.

Lemma bits_bounds m : 2 ^ (Z.of_nat (bits m) - 1) ≤ Z.pos m < 2 ^ Z.of_nat (bits m).
Proof.
  unfold bits. induction m as [m IH|m IH|]; simpl digits2_pos; [| |done].
  all: rewrite Pos2Nat.inj_succ, Nat2Z.inj_succ, Z.pow_succ_r by lia;
    replace (Z.succ (Z.of_nat (Pos.to_nat (digits2_pos m))) - 1) with (Z.succ (Z.of_nat (Pos.to_nat (digits2_pos m)) - 1)) by lia;
    rewrite Z.pow_succ_r by (pose proof (Pos2Nat.is_pos (digits2_pos m)); lia); lia.
Qed.

Lemma bits_le m n : Z.pos m < 2 ^ Z.of_nat n → (bits m ≤ n)%nat.
Proof.
  intros Hm. pose proof (bits_bounds m) as [Hb _]. destruct (Nat.le_gt_cases (bits m) n) as [|Hgt]; [done|].
  assert (2 ^ Z.of_nat n ≤ 2 ^ (Z.of_nat (bits m) - 1)) by (apply Z.pow_le_mono_r; lia). lia.
Qed.

Lemma iter_pos_nat {A} (f : A → A) p x : iter_pos f p x = Nat.iter (Pos.to_nat p) f x.
Proof.
  revert x. induction p as [p IH|p IH|]; intros x; simpl iter_pos; [| |done]; rewrite !IH, <-Nat.iter_add.
  - replace (Pos.to_nat p~1) with (Pos.to_nat p + Pos.to_nat p + 1)%nat by lia.
    by rewrite (Nat.iter_add (Pos.to_nat p + Pos.to_nat p) 1).
  - f_equal. lia.
Qed.

Lemma shr_exact n m : Nat.iter n shr_1 (Build_shr_record (Z.pos (pshl n m)) false false) = Build_shr_record (Z.pos m) false false.
Proof. induction n as [|n IH]; [done|]. rewrite Nat.iter_succ_r. exact IH. Qed.

(** A shift that drops zeros only. *)
Lemma shr_fexp_exact n m e :
  fexp 53 1024 (Z.of_nat (n + bits m) + e) - e = Z.of_nat n →
  shr_fexp 53 1024 (Z.pos (pshl n m)) e loc_Exact = (Build_shr_record (Z.pos m) false false, e + Z.of_nat n).
Proof.
  intros Hn. unfold shr_fexp. cbn [Zdigits2 shr_record_of_loc]. rewrite bits_Z, bits_pshl, Hn.
  destruct n as [|n]; [simpl; by rewrite Z.add_0_r|]. change (Z.of_nat (S n)) with (Z.pos (Pos.of_succ_nat n)). cbn [shr].
  rewrite iter_pos_nat, SuccNat2Pos.id_succ, shr_exact. done.
Qed.

(** Rounding a number of at most 53 bits, however it is shifted. *)
Lemma round_exact s k m e :
  (bits m ≤ 53)%nat → (53 ≤ k + bits m)%nat → -1074 ≤ Z.of_nat (k + bits m) + e - 53 ≤ 971 →
  binary_round_aux 53 1024 s (Z.pos (pshl k m)) e loc_Exact =
    S754_finite s (pshl (53 - bits m) m) (Z.of_nat (k + bits m) + e - 53).
Proof.
  intros Hm Hk He. set (n := (k + bits m - 53)%nat).
  assert (Hf : ∀ x, -1074 ≤ x - 53 → fexp 53 1024 x = x - 53).
  { intros x Hx. unfold fexp, emin. lia. }
  unfold binary_round_aux. replace (pshl k m) with (pshl n (pshl (53 - bits m) m)) by (rewrite <-pshl_add; f_equal; lia).
  rewrite shr_fexp_exact by (rewrite bits_pshl, Hf; lia). cbn [shr_m loc_of_shr_record round_nearest_even].
  change (pshl (53 - bits m) m) with (pshl 0 (pshl (53 - bits m) m)) at 1.
  rewrite shr_fexp_exact by (rewrite bits_pshl, Hf; lia). cbn [shr_m].
  replace (e + Z.of_nat n + Z.of_nat 0) with (Z.of_nat (k + bits m) + e - 53) by lia.
  rewrite (proj2 (Z.leb_le _ _)) by lia. done.
Qed.

Definition exact_float (m : positive) : float64 := S754_finite false (pshl (53 - bits m) m) (Z.of_nat (bits m) - 53).

Lemma f_of_Z_exact m : Z.pos m < 2 ^ 53 → f_of_Z (Z.pos m) = exact_float m.
Proof.
  intros Hm. assert (Hb : (bits m ≤ 53)%nat) by (by apply bits_le).
  assert (Hb0 : (0 < bits m)%nat) by (unfold bits; lia).
  unfold f_of_Z, binary_normalize, binary_round. rewrite bits_Z, Z.add_0_r.
  assert (shl_align m 0 (fexp 53 1024 (Z.of_nat (bits m))) = (pshl (53 - bits m) m, Z.of_nat (bits m) - 53)) as ->.
  { assert (fexp 53 1024 (Z.of_nat (bits m)) = Z.of_nat (bits m) - 53) as -> by (unfold fexp, emin; lia).
    unfold shl_align. rewrite Z.sub_0_r. destruct (Z.of_nat (bits m) - 53) as [|q|q] eqn:Hq; [|lia|].
    - replace (53 - bits m)%nat with 0%nat by lia. done.
    - rewrite Pos2Nat.inj_iter. replace (Pos.to_nat q) with (53 - bits m)%nat by lia. done. }
  rewrite round_exact by lia. unfold exact_float. f_equal. lia.
Qed.

Lemma f_mul_exact a b : Z.pos (a * b) < 2 ^ 53 → f_mul (exact_float a) (exact_float b) = exact_float (a * b).
Proof.
  intros Hab. assert (Z.pos a < 2 ^ 53 ∧ Z.pos b < 2 ^ 53) as [Ha Hb] by lia.
  apply (bits_le _ 53) in Hab, Ha, Hb.
  assert (Hpos : (0 < bits (a * b) ∧ 0 < bits a ∧ 0 < bits b)%nat) by (unfold bits; lia).
  unfold f_mul, exact_float, SFmul. simpl xorb. rewrite pshl_mul.
  assert (Hd : (bits a + bits b - 1 ≤ bits (a * b))%nat).
  { pose proof (bits_bounds a) as [Ha1 _]. pose proof (bits_bounds b) as [Hb1 _]. pose proof (bits_bounds (a * b)) as [_ Hab1].
    destruct (Nat.le_gt_cases (bits a + bits b - 1) (bits (a * b))) as [|Hgt]; [done|].
    assert (2 ^ Z.of_nat (bits (a * b)) ≤ 2 ^ (Z.of_nat (bits a) - 1 + (Z.of_nat (bits b) - 1))) as Hp by (apply Z.pow_le_mono_r; lia).
    rewrite Z.pow_add_r in Hp by lia. nia. }
  rewrite round_exact by lia. f_equal. lia.
Qed.

Lemma f_trunc_exact m : Z.pos m < 2 ^ 53 → f_trunc (exact_float m) = Some (Z.pos m).
Proof.
  intros Hm. apply (bits_le _ 53) in Hm. unfold f_trunc, exact_float. f_equal. rewrite pshl_value.
  destruct (Z.leb_spec 0 (Z.of_nat (bits m) - 53)) as [Hle|Hlt].
  - replace (53 - bits m)%nat with 0%nat by lia. replace (Z.of_nat (bits m) - 53) with 0 by lia. simpl. lia.
  - replace (- (Z.of_nat (bits m) - 53)) with (Z.of_nat (53 - bits m)) by lia. apply Z.div_mul. apply Z.pow_nonzero; lia.
Qed.

(** The product of two integers, as a [float64] and back. *)
Lemma float_product overflow a b :
  0 < a → 0 < b → a * b < 2 ^ 53 → int64_of_float overflow (f_mul (f_of_Z a) (f_of_Z b)) = a * b.
Proof.
  intros Ha Hb Hab. destruct a as [|a|], b as [|b|]; try lia. change (Z.pos a * Z.pos b) with (Z.pos (a * b)) in *.
  rewrite !f_of_Z_exact, f_mul_exact by lia. unfold int64_of_float. rewrite f_trunc_exact by done.
  unfold MinInt64, MaxInt64. rewrite !(proj2 (Z.leb_le _ _)) by lia. done.
Qed.
