(* ===== verification/Conn.v ===== *)
(** * Transport connections

    The interface [Conn] of [proto-core/transport/transport.go] as the code above it
    uses it, what it promises, and two implementations: [QUICConn] of [quic.go], where
    the framing of [Wire] over any stream keeps the promise for messages of at most
    64 KiB, and [WSConn] of [websocket.go] over a WebSocket library that keeps messages
    apart itself. *)
From S2P Require Import Prelude Bytes Wire ConnPool Noise.

Local Open Scope Z_scope.

(** ** The interface *)

(** [conn_unread c ms]: the peer's writes will still deliver the messages [ms] before
    the connection ends; [conn_wrote c ms]: this side has written [ms] so far, each of
    them whole.  [conn_fits]: the messages the connection can carry. *)
Class Conn (N : Type) := {
  conn_ReadMessage : M N bytes;
  conn_WriteMessage : bytes → M N unit;
  conn_RemoteAddr : N → string;
  conn_unread : N → list bytes → Prop;
  conn_wrote : N → list bytes → Prop;
  conn_fits : bytes → Prop;
}.

(** Reading returns the messages of the peer in order, then fails; writing adds a
    message or fails, and neither disturbs the other. *)
Class ConnLaws (N : Type) `{Conn N} : Prop := {
  Read_next c m ms : conn_unread c (m :: ms) →
    ∃ c', conn_ReadMessage c = (Ok m, c') ∧ conn_unread c' ms ∧ (∀ os, conn_wrote c os → conn_wrote c' os);
  Read_end c : conn_unread c [] →
    ∃ e c', conn_ReadMessage c = (Err e, c') ∧ (∀ os, conn_wrote c os → conn_wrote c' os);
  Write_adds c m c' os : conn_fits m → conn_WriteMessage m c = (Ok tt, c') →
    conn_wrote c os → conn_wrote c' (os ++ [m]);
  Write_unread c m r c' ms : conn_WriteMessage m c = (r, c') → conn_unread c ms → conn_unread c' ms;
  Read_addr c r c' : conn_ReadMessage c = (r, c') → conn_RemoteAddr c' = conn_RemoteAddr c;
  Write_addr c m r c' : conn_WriteMessage m c = (r, c') → conn_RemoteAddr c' = conn_RemoteAddr c;
}.

(** A connection on which writing does not fail. *)
Class ReliableConn (N : Type) `{Conn N} : Prop := {
  Write_succeeds c m : conn_fits m → ∃ c', conn_WriteMessage m c = (Ok tt, c');
}.

(** Run a handshake over a connection: [ReadMessage] and [WriteMessage] are its
    callbacks. *)
Fixpoint run_proc {N A} `{Conn N} (p : proc A) : M N A :=
  match p with
  | Ret r => lift r
  | Recv k => λ c, let '(r, c') := conn_ReadMessage c in run_proc (k r) c'
  | Send b k => λ c, let '(r, c') := conn_WriteMessage b c in run_proc (k r) c'
  end.

(** ** QUICConn *)

Section quic.
Context {S : Type} `{Stream S}.

(** A stream with the address of its peer. *)
Record QUICConn := mkQUICConn { qc_stream : S; qc_addr : string }.

Definition on_stream {A} (m : M S A) : M QUICConn A :=
  zoom qc_stream (λ s q, mkQUICConn s (qc_addr q)) m.

Definition QUICConn_Type (_ : QUICConn) : Type_ := TypeQUIC.
Definition QUICConn_RemoteAddr (q : QUICConn) : string := qc_addr q.

Definition quic_fits (m : bytes) : Prop := Z.of_nat (length m) ≤ quicMaxMsgSize.

#[export] Instance QUICConn_Conn : Conn QUICConn := {
  conn_ReadMessage := on_stream QUICConn_ReadMessage;
  conn_WriteMessage m := on_stream (QUICConn_WriteMessage m);
  conn_RemoteAddr := QUICConn_RemoteAddr;
  conn_unread q ms := Forall quic_fits ms ∧ incoming (qc_stream q) = concat (frame <$> ms);
  conn_wrote q ms := sent (qc_stream q) = concat (frame <$> ms);
  conn_fits := quic_fits;
}.

End quic.
Arguments QUICConn S : clear implicits.

(** [stream.Close()] and [conn.CloseWithError(0, "close")] of quic-go. *)
Class StreamCloser (S : Type) := { stream_Close : M S unit; conn_CloseWithError : M S unit }.

Definition QUICConn_Close {S} `{Stream S} `{StreamCloser S} : M (QUICConn S) unit :=
  on_stream (_ ← ignore stream_Close; conn_CloseWithError).

(** [AcceptQUIC] and [DialQUIC] over the listener or dialler of quic-go, whose state is
    [Q]: a connection, then a stream of it. *)
Section quic_open.
Context {Q C S : Type} (quic_RemoteAddr : C → string).

Definition AcceptQUIC (accept : M Q C) (accept_stream : C → M Q S) : M Q (QUICConn S) :=
  conn ← wrap "quic accept" accept;
  stream ← wrap "quic accept stream" (accept_stream conn);
  mret (mkQUICConn stream (quic_RemoteAddr conn)).

Definition DialQUIC (dial : M Q C) (open_stream : C → M Q S) : M Q (QUICConn S) :=
  conn ← wrap "quic dial" dial;
  stream ← wrap "quic open stream" (open_stream conn);
  mret (mkQUICConn stream (quic_RemoteAddr conn)).

End quic_open.

(** ** WSConn *)

(** A connection of gorilla/websocket: reading gives the type of the next message and
    its bytes. *)
Class WebSocket (S : Type) := {
  ws_ReadMessage : M S (Z * bytes);
  ws_WriteMessage : Z → bytes → M S unit;
  ws_Close : M S unit;
  ws_RemoteAddr : S → string;
  ws_unread : S → list bytes → Prop;
  ws_wrote : S → list bytes → Prop;
}.

Definition BinaryMessage : Z := 2.

Section websocket.
Context {S : Type} `{WebSocket S}.

Record WSConn := mkWSConn { ws_conn : S }.

Definition on_ws {A} (m : M S A) : M WSConn A := zoom ws_conn (λ s _, mkWSConn s) m.

(** The bytes of the next message, whatever its type. *)
Definition ws_data : M S bytes := x ← wrap "ws read" ws_ReadMessage; mret x.2.

Definition WSConn_ReadMessage : M WSConn bytes := on_ws ws_data.
Definition WSConn_WriteMessage (data : bytes) : M WSConn unit := on_ws (wrap "ws write" (ws_WriteMessage BinaryMessage data)).
Definition WSConn_Close : M WSConn unit := on_ws ws_Close.
Definition WSConn_RemoteAddr (w : WSConn) : string := ws_RemoteAddr (ws_conn w).
Definition WSConn_Type (_ : WSConn) : Type_ := TypeWebSocket.

#[export] Instance WSConn_Conn : Conn WSConn := {
  conn_ReadMessage := WSConn_ReadMessage;
  conn_WriteMessage := WSConn_WriteMessage;
  conn_RemoteAddr := WSConn_RemoteAddr;
  conn_unread w ms := ws_unread (ws_conn w) ms;
  conn_wrote w ms := ws_wrote (ws_conn w) ms;
  conn_fits _ := True;
}.

End websocket.
Arguments WSConn S : clear implicits.
Arguments mkWSConn {S} _.

(** [UpgradeHTTP] and [DialWS] over the upgrader and the dialler of the library, whose
    state is [Q]. *)
Definition UpgradeHTTP {Q S} (upgrade : M Q S) : M Q (WSConn S) :=
  c ← wrap "websocket upgrade" upgrade; mret (mkWSConn c).

Definition DialWS {Q S} (dial : string → M Q S) (url : string) : M Q (WSConn S) :=
  c ← wrap "websocket dial" (dial url); mret (mkWSConn c).

(** What the library promises: messages arrive whole and in order, then reading fails;
    writing sends a message or fails; the address is fixed. *)
Class WebSocketLaws (S : Type) `{WebSocket S} : Prop := {
  ws_Read_next s m ms : ws_unread s (m :: ms) →
    ∃ t s', ws_ReadMessage s = (Ok (t, m), s') ∧ ws_unread s' ms ∧ (∀ os, ws_wrote s os → ws_wrote s' os);
  ws_Read_end s : ws_unread s [] →
    ∃ e s', ws_ReadMessage s = (Err e, s') ∧ (∀ os, ws_wrote s os → ws_wrote s' os);
  ws_Write_adds s t m s' os : ws_WriteMessage t m s = (Ok tt, s') → ws_wrote s os → ws_wrote s' (os ++ [m]);
  ws_Write_unread s t m r s' ms : ws_WriteMessage t m s = (r, s') → ws_unread s ms → ws_unread s' ms;
  ws_Read_addr s r s' : ws_ReadMessage s = (r, s') → ws_RemoteAddr s' = ws_RemoteAddr s;
  ws_Write_addr s t m r s' : ws_WriteMessage t m s = (r, s') → ws_RemoteAddr s' = ws_RemoteAddr s;
}.

(** ** Closing *)

(** [conn.Close()], which every handler defers: its error is dropped. *)
Class Closer (N : Type) := { conn_Close : M N unit }.

Definition closed {N} `{Closer N} (n : N) : N := (conn_Close n).2.

#[export] Instance QUICConn_Closer S `{Stream S} `{StreamCloser S} : Closer (QUICConn S) := {| conn_Close := QUICConn_Close |}.
#[export] Instance WSConn_Closer S `{WebSocket S} : Closer (WSConn S) := {| conn_Close := WSConn_Close |}.

(** ** A connection in memory: the messages still to be read and those written *)

Record MemConn := mkMemConn { mem_in : list bytes; mem_out : list bytes; mem_addr : string }.

#[export] Instance MemConn_Conn : Conn MemConn := {
  conn_ReadMessage c :=
    match mem_in c with
    | [] => (Err (Errorf "EOF"), c)
    | m :: ms => (Ok m, mkMemConn ms (mem_out c) (mem_addr c))
    end;
  conn_WriteMessage m c := (Ok tt, mkMemConn (mem_in c) (mem_out c ++ [m]) (mem_addr c));
  conn_RemoteAddr := mem_addr;
  conn_unread c ms := mem_in c = ms;
  conn_wrote c ms := mem_out c = ms;
  conn_fits _ := True;
}.

(** The same connection as a WebSocket: every message it holds is a binary one. *)
#[export] Instance MemConn_WebSocket : WebSocket MemConn := {
  ws_ReadMessage := m ← conn_ReadMessage; mret (BinaryMessage, m);
  ws_WriteMessage _ m := conn_WriteMessage m;
  ws_Close c := (Ok tt, mkMemConn [] (mem_out c) (mem_addr c));
  ws_RemoteAddr := mem_addr;
  ws_unread c ms := mem_in c = ms;
  ws_wrote c ms := mem_out c = ms;
}.

#[export] Instance MemConn_Closer : Closer MemConn := {| conn_Close := ws_Close |}.

#[export] Instance chunks_closer : StreamCloser chunks := {
  stream_Close := mret tt;
  conn_CloseWithError s := (Ok tt, Chunks [] (ch_out s));
}.


(** ** Lemmas *)

Section quic_lemmas.
Context {S : Type} `{StreamLaws S}.
Implicit Types (s : S) (m : bytes).

Lemma ReadFull_sent n s r s' : ReadFull n s = (r, s') → sent s' = sent s.
Proof.
  unfold ReadFull. intros E. destruct (ReadFull_loop_spec n n s) as (s2 & Hs & E2); [lia|].
  case_decide; [destruct E2 as [E2 _]|destruct E2 as (? & E2 & _)]; congruence.
Qed.

Lemma QUICConn_ReadMessage_sent s r s' : QUICConn_ReadMessage s = (r, s') → sent s' = sent s.
Proof.
  unfold QUICConn_ReadMessage. intros E. step E as r1 s1 E1. apply wrap_inv in E1 as (r0 & E1 & ->).
  apply ReadFull_sent in E1. destruct r0 as [b|e|why]; [|by injection E as _ <-|by injection E as _ <-].
  cbv zeta in E. destruct (quicMaxMsgSize <? Uint32BE b); [by injection E as _ <-|].
  apply wrap_inv in E as (r0 & E & _). apply ReadFull_sent in E. congruence.
Qed.

Lemma QUICConn_WriteMessage_incoming s m r s' :
  QUICConn_WriteMessage m s = (r, s') → incoming s' = incoming s ∧ ∀ why, r ≠ Panic why.
Proof.
  unfold QUICConn_WriteMessage. intros E. step E as r1 s1 E1. apply wrap_inv in E1 as (r0 & E1 & ->).
  destruct r0 as [[]|e|why]; [|apply Write_Err in E1 as [? _]; by simplify_eq|by apply Write_no_panic in E1].
  apply Write_Ok in E1 as [_ Hin]. apply wrap_inv in E as (r0 & E & ->).
  destruct r0 as [[]|e|why]; [apply Write_Ok in E as [_ ?]|apply Write_Err in E as [? _]|by apply Write_no_panic in E];
    split; congruence.
Qed.

Lemma QUICConn_ReadMessage_end s :
  incoming s = [] → ∃ e s', QUICConn_ReadMessage s = (Err e, s').
Proof.
  intros Hin. destruct (ReadFull_short 4 s) as (e & s' & E & _); [rewrite Hin; simpl; lia|].
  exists (Wrap "quic read length" e), s'. unfold QUICConn_ReadMessage.
  by rewrite (bind_run _ _ _ _ _ (wrap_run _ _ _ _ _ E)).
Qed.

#[export] Instance QUICConn_ConnLaws : ConnLaws (QUICConn S).
Proof.
  split; cbn [conn_unread conn_wrote conn_ReadMessage conn_WriteMessage conn_fits QUICConn_Conn]; unfold on_stream, zoom.
  - intros q m ms [[Hm Hms]%Forall_cons Hin]. rewrite fmap_cons in Hin. cbn [concat] in Hin.
    destruct (QUICConn_ReadMessage_frame _ _ _ Hin Hm) as (s' & E & Hin'). rewrite E.
    eexists. split; [done|]. split; [done|]. intros os Hos. simpl. by rewrite (QUICConn_ReadMessage_sent _ _ _ E).
  - intros q [_ Hin]. destruct (QUICConn_ReadMessage_end _ Hin) as (e & s' & E). rewrite E.
    eexists _, _. split; [done|]. intros os Hos. simpl. by rewrite (QUICConn_ReadMessage_sent _ _ _ E).
  - intros q m q' os Hm E Hos. destruct (QUICConn_WriteMessage m (qc_stream q)) as [r0 s'] eqn:Ew. simplify_eq/=.
    apply write_frame in Ew; [|unfold quic_fits, quicMaxMsgSize in Hm; lia].
    rewrite Ew, Hos, fmap_app, concat_app. cbn. by rewrite app_nil_r.
  - intros q m r q' ms E [Hms Hin]. destruct (QUICConn_WriteMessage m (qc_stream q)) as [r0 s'] eqn:Ew. simplify_eq/=.
    apply QUICConn_WriteMessage_incoming in Ew as [-> _]. done.
  - intros q r q' E. destruct (QUICConn_ReadMessage (qc_stream q)). by simplify_eq/=.
  - intros q m r q' E. destruct (QUICConn_WriteMessage m (qc_stream q)). by simplify_eq/=.
Qed.

End quic_lemmas.

(** Whatever is promised of the library holds of [WSConn]. *)
#[export] Instance WSConn_ConnLaws {S} `{WebSocketLaws S} : ConnLaws (WSConn S).
Proof.
  split; cbn [conn_unread conn_wrote conn_ReadMessage conn_WriteMessage conn_RemoteAddr conn_fits WSConn_Conn];
    unfold WSConn_ReadMessage, WSConn_WriteMessage, WSConn_RemoteAddr, on_ws, zoom.
  - intros [s] m ms Hu. destruct (ws_Read_next _ _ _ Hu) as (t & s' & E & Hu' & Hw). simpl.
    unfold ws_data. rewrite (bind_run _ _ _ _ _ (wrap_run _ _ _ _ _ E)). eauto 6.
  - intros [s] Hu. destruct (ws_Read_end _ Hu) as (e & s' & E & Hw). simpl.
    unfold ws_data. rewrite (bind_run _ _ _ _ _ (wrap_run _ _ _ _ _ E)). eauto 6.
  - intros [s] m c' os _ E Hw. simpl in *. destruct (wrap _ _ s) as [r s'] eqn:E1. injection E as -> <-.
    apply wrap_Ok_inv in E1. by eapply ws_Write_adds.
  - intros [s] m r c' ms E Hu. simpl in *. destruct (wrap _ _ s) as [r1 s'] eqn:E1. injection E as <- <-.
    apply wrap_inv in E1 as (r0 & E1 & _). by eapply ws_Write_unread.
  - intros [s] r c' E. simpl in *. destruct (ws_data s) as [r1 s'] eqn:E1. injection E as <- <-.
    unfold ws_data in E1. step E1 as r2 s2 E2. apply wrap_inv in E2 as (r0 & E2 & _). apply ws_Read_addr in E2.
    destruct r2; injection E1 as <- <-; done.
  - intros [s] m r c' E. simpl in *. destruct (wrap _ _ s) as [r1 s'] eqn:E1. injection E as <- <-.
    apply wrap_inv in E1 as (r0 & E1 & _). by eapply ws_Write_addr.
Qed.

#[export] Instance MemConn_WebSocketLaws : WebSocketLaws MemConn.
Proof.
  split; intros [i o a]; cbn.
  - intros m ms ->. do 2 eexists. by split_and!.
  - intros ->. do 2 eexists. by split.
  - intros t m s' os [= <-] <-. done.
  - intros t m r s' ms [= _ <-] <-. done.
  - intros r s' E. destruct i; by injection E as _ <-.
  - intros t m r s' [= _ <-]. done.
Qed.

#[export] Instance QUICConn_chunks_reliable : ReliableConn (QUICConn chunks).
Proof. split. intros [s a] m _. eexists. reflexivity. Qed.

#[export] Instance MemConn_laws : ConnLaws MemConn.
Proof.
  split; simpl.
  - intros [i o a] m ms ->. simpl. by eexists.
  - intros [i o a] ->. simpl. by eexists _, _.
  - intros c m c' os _ [= <-] <-. done.
  - intros c m r c' ms [= <- <-] <-. done.
  - intros [[|m i] o a] r c' [= <- <-]; done.
  - intros c m r c' [= <- <-]. done.
Qed.

#[export] Instance MemConn_reliable : ReliableConn MemConn.
Proof. split. intros c m _. by eexists. Qed.
