(* ===== verification/Observability.v ===== *)
(** * Logs, metrics and traces

    [proto-core/observability]: the logger of a service ([logger.go]), its metrics
    ([app_metrics.go], [metrics.go]), traces ([otel.go]) and the interceptor that logs
    every gRPC call ([middleware.go]).  zap, OpenTelemetry and the Prometheus exporter
    are parameters. *)
From S2P Require Import Prelude Bytes Grpc.

Local Open Scope Z_scope.

(** ** logger.go *)

Inductive Level := InfoLevel | WarnLevel | ErrorLevel | FatalLevel.

Inductive FieldValue := FString (s : string) | FDuration (d : Z).

Definition Field : Type := string * FieldValue.

(** A logger of zap, as far as it matters to its lines: the fields it adds to each. *)
Record Logger := mkLogger { lg_fields : list Field }.

Record log_line := mkLine { ll_level : Level; ll_msg : string; ll_fields : list Field }.

Definition Logger_With (fields : list Field) (l : Logger) : Logger := mkLogger (lg_fields l ++ fields).

Definition log_entry (l : Logger) (lv : Level) (msg : string) (fields : list Field) : log_line :=
  mkLine lv msg (lg_fields l ++ fields).

Record EncoderConfig := mkEncoderConfig {
  TimeKey : string; LevelKey : string; NameKey : string; CallerKey : string; MessageKey : string;
  StacktraceKey : string; LineEnding : string; EncodeLevel : string; EncodeTime : string;
  EncodeDuration : string; EncodeCaller : string;
}.

Record zap_Config := mkZapConfig {
  zc_Level : Level;
  zc_Development : bool;
  zc_Encoding : string;
  zc_EncoderConfig : EncoderConfig;
  zc_OutputPaths : list string;
  zc_ErrorOutputPaths : list string;
  zc_InitialFields : list Field;
}.

Definition logger_config (serviceName : string) : zap_Config :=
  mkZapConfig InfoLevel false "json"
    (mkEncoderConfig "ts" "level" "logger" "caller" "msg" "stacktrace" (String (Ascii.ascii_of_nat 10) EmptyString) "LowercaseLevelEncoder"
       "ISO8601TimeEncoder" "MillisDurationEncoder" "ShortCallerEncoder")
    ["stdout"] ["stderr"] [("service", FString serviceName)].

(** [Build] of zap is a parameter. *)
Definition NewLogger {W} (Build : zap_Config → M W Logger) (serviceName : string) : M W Logger :=
  Build (logger_config serviceName).

(** The span of a context: an id is valid when it is not all zero. *)
Record SpanContext := mkSpanContext { TraceID : bytes; SpanID : bytes }.

Definition id_valid (id : bytes) : bool := existsb (λ b, negb (bool_decide (b = x00))) id.

Definition SpanContext_IsValid (sc : SpanContext) : bool := id_valid (TraceID sc) && id_valid (SpanID sc).

Definition trace_fields (sc : SpanContext) : list Field :=
  [("trace_id", FString (EncodeToString (TraceID sc))); ("span_id", FString (EncodeToString (SpanID sc)))].

Definition LoggerWithTrace (l : Logger) (sc : SpanContext) : Logger :=
  if negb (SpanContext_IsValid sc) then l else Logger_With (trace_fields sc) l.

(** ** middleware.go *)

Definition all_codes : list Code :=
  [Unknown; InvalidArgument; NotFound; FailedPrecondition; ResourceExhausted; Internal; Unimplemented; Unavailable;
   Unauthenticated; AlreadyExists; DeadlineExceeded].

(** The code of [status.FromError]: of the status error in the chain, [Unknown] when
    there is none. *)
Fixpoint status_code (e : error) : Code :=
  match e with
  | Errorf _ => Unknown
  | Wrap msg cause =>
      match filter (λ c, msg = "rpc error: code = " +:+ Code_String c) all_codes with
      | c :: _ => c
      | [] => status_code cause
      end
  end.

(** The interceptor runs the handler on the world and adds a line to the log.
    [duration] is what the clock says the handler took. *)
Definition loggingUnaryInterceptor {W A} (logger : Logger) (sc : SpanContext) (FullMethod : string) (duration : Z)
    (handler : M W A) : M (W * list log_line) A := λ x,
  let '(r, w) := handler x.1 in
  let fields := [("method", FString FullMethod); ("duration", FDuration duration)] in
  let fields := if SpanContext_IsValid sc then fields ++ trace_fields sc else fields in
  match r with
  | Ok resp => (Ok resp, (w, x.2 ++ [log_entry logger InfoLevel "gRPC call" fields]))
  | Err err =>
      let fields := fields ++ [("grpc_code", FString (Code_String (status_code err)))] in
      (Err err, (w, x.2 ++ [log_entry logger WarnLevel "gRPC call failed" fields]))
  | Panic why => (Panic why, (w, x.2))
  end.

(** ** otel.go *)

(** The exporters and providers of OpenTelemetry.  [G] holds the global state of the
    library. *)
Class Otel (G : Type) := {
  SpanExporter : Type;
  Resource : Type;
  TracerProvider : Type;
  MeterExporter : Type;
  MeterProvider : Type;
  Instrument : Type;
  otlptracegrpc_New : string → M G SpanExporter;
  resource_Merge : list Field → M G Resource;
  NewTracerProvider : SpanExporter → Resource → M G TracerProvider;
  SetTracerProvider : TracerProvider → M G unit;
  SetTextMapPropagator : list string → M G unit;
  promexp_New : M G MeterExporter;
  NewMeterProvider : MeterExporter → M G MeterProvider;
  global_tracer_provider : G → option TracerProvider;
  global_meter_provider : G → option MeterProvider;
  (* [otel.Meter(name)] with the constructor of an instrument: its kind, name,
     description and unit *)
  new_instrument : string → string → string → string → string → M G Instrument;
  (* [Add] and [Record] on an instrument *)
  measure : Instrument → Z → M G unit;
  (* what the readers of a provider have got *)
  exported : MeterProvider → G → list Z;
}.

Section otel.
Context {G : Type} `{Otel G}.

(** The provider, whose [Shutdown] the caller gets. *)
Definition InitTracer (serviceName serviceVersion otlpEndpoint : string) : M G TracerProvider :=
  exp ← wrap "otlp exporter" (otlptracegrpc_New otlpEndpoint);
  res ← wrap "resource" (resource_Merge [("service.name", FString serviceName); ("service.version", FString serviceVersion)]);
  tp ← NewTracerProvider exp res;
  SetTracerProvider tp;;
  SetTextMapPropagator ["tracecontext"; "baggage"];;
  mret tp.

(** ** metrics.go and app_metrics.go *)

Definition InitMeter : M G MeterProvider :=
  exp ← wrap "prometheus exporter" promexp_New;
  NewMeterProvider exp.

Record Metrics := mkMetrics {
  MessagesSent : Instrument;
  MessagesReceived : Instrument;
  HandshakeDuration : Instrument;
  ActiveSessions : Instrument;
  ActiveConnections : Instrument;
  KafkaConsumerLag : Instrument;
  OutboxPending : Instrument;
  OutboxPublished : Instrument;
  OutboxDeadLetter : Instrument;
  DispatchDuration : Instrument;
  MediaUploadDuration : Instrument;
}.

Definition NewMetrics (serviceName : string) : M G Metrics :=
  sent ← new_instrument serviceName "Int64Counter" "fproto.messages_sent_total" "Total messages sent" "";
  received ← new_instrument serviceName "Int64Counter" "fproto.messages_received_total" "Total messages received" "";
  handshake ← new_instrument serviceName "Float64Histogram" "fproto.handshake_duration_seconds" "Duration of Noise handshake" "s";
  sessions ← new_instrument serviceName "Int64UpDownCounter" "fproto.active_sessions" "Number of active sessions" "";
  connections ← new_instrument serviceName "Int64UpDownCounter" "fproto.active_connections"
    "Number of active transport connections" "";
  lag ← new_instrument serviceName "Int64Gauge" "fproto.kafka_consumer_lag" "Kafka consumer group lag" "";
  pending ← new_instrument serviceName "Int64Gauge" "fproto.outbox_pending" "Number of pending outbox entries" "";
  published ← new_instrument serviceName "Int64Counter" "fproto.outbox_published_total" "Total outbox entries published" "";
  dead ← new_instrument serviceName "Int64Counter" "fproto.outbox_dead_lettered_total"
    "Total outbox entries sent to dead letter" "";
  dispatch ← new_instrument serviceName "Float64Histogram" "fproto.dispatch_duration_seconds" "Duration of message dispatch" "s";
  upload ← new_instrument serviceName "Float64Histogram" "fproto.media_upload_duration_seconds"
    "Duration of media upload initiation" "s";
  mret (mkMetrics sent received handshake sessions connections lag pending published dead dispatch upload).

End otel.
Arguments Metrics G {_}.

(** What OpenTelemetry promises: only [SetMeterProvider], which no code here calls,
    sets the global meter provider, and an instrument of the global meter measures for
    that provider alone. *)
Class OtelLaws (G : Type) `{Otel G} : Prop := {
  promexp_New_spec g r g' : promexp_New g = (r, g') → global_meter_provider g' = global_meter_provider g;
  NewMeterProvider_spec e g r g' : NewMeterProvider e g = (r, g') →
    global_meter_provider g' = global_meter_provider g ∧ ∀ mp, r = Ok mp → exported mp g' = [];
  new_instrument_spec m k n d u g r g' : new_instrument m k n d u g = (r, g') →
    global_meter_provider g' = global_meter_provider g ∧ ∀ mp, exported mp g' = exported mp g;
  measure_spec i v g r g' : measure i v g = (r, g') →
    global_meter_provider g' = global_meter_provider g ∧
    ∀ mp, global_meter_provider g ≠ Some mp → exported mp g' = exported mp g;
}.

(** ** Lemmas *)

Lemma status_code_Errorf c msg : status_code (status_Errorf c msg) = c.
Proof. by destruct c. Qed.

Section lemmas.
Context {G : Type} `{OtelLaws G}.

(** A computation that leaves the global meter provider and the exports alone. *)
Definition quiet {A} (m : M G A) : Prop := ∀ g r g', m g = (r, g') →
  global_meter_provider g' = global_meter_provider g ∧ ∀ mp, exported mp g' = exported mp g.

Lemma quiet_ret {A} (a : A) : quiet (mret a).
Proof. intros g r g' E. by injection E as <- <-. Qed.

Lemma quiet_bind {A B} (m : M G A) (f : A → M G B) : quiet m → (∀ a, quiet (f a)) → quiet (a ← m; f a).
Proof.
  intros Hm Hf g r g' E. step E as r1 g1 E1. destruct (Hm _ _ _ E1) as [Hp Hx].
  destruct r1 as [a|e|why]; [|by injection E as <- <-..].
  destruct (Hf _ _ _ _ E) as [-> Hx']. split; [done|]. intros mp. by rewrite Hx'.
Qed.

Lemma quiet_instrument m k n d u : quiet (new_instrument m k n d u).
Proof. intros g r g' E. by apply new_instrument_spec in E. Qed.

Lemma quiet_NewMetrics name : quiet (NewMetrics name).
Proof. unfold NewMetrics. repeat (apply quiet_bind; [apply quiet_instrument|intros ?]). apply quiet_ret. Qed.

Lemma InitMeter_fresh g r g' :
  InitMeter g = (r, g') → global_meter_provider g' = global_meter_provider g ∧ ∀ mp, r = Ok mp → exported mp g' = [].
Proof.
  unfold InitMeter. intros E. step E as r1 g1 E1. apply wrap_inv in E1 as (r0 & E0 & ->).
  apply promexp_New_spec in E0 as <-. destruct r0 as [e|e|why]; [by apply NewMeterProvider_spec in E|by injection E as <- <-..].
Qed.

Lemma measures_dropped ms (mp : MeterProvider) g r g' :
  global_meter_provider g ≠ Some mp → for_each (λ '(i, v), measure i v) ms g = (r, g') → exported mp g' = exported mp g.
Proof.
  revert g. induction ms as [|[i v] ms IH]; intros g Hne E; simpl in E.
  - unfold mret, M_ret in E. by injection E as _ <-.
  - step E as r1 g1 E1. apply measure_spec in E1 as [Hp Hx]. rewrite <-Hx by done.
    destruct r1; [|by injection E as _ <-..]. apply (IH g1); [by rewrite Hp|done].
Qed.

End lemmas.

(** ** Properties *)

(** The interceptor changes neither the answer of a call nor what the call
    does; a call that returns adds one line to the log, at level info when it has
    succeeded and at level warn with the code of its status error when it has failed;
    and a handler that panics is not recovered, its panic goes on and is not logged. *)
Theorem interceptor_transparent {W A} (logger : Logger) (sc : SpanContext) (method : string) (duration : Z)
    (handler : M W A) (w w' : W) (log log' : list log_line) (r : result A) :
  loggingUnaryInterceptor logger sc method duration handler (w, log) = (r, (w', log')) →
  handler w = (r, w') ∧
  match r with
  | Ok _ => ∃ line, log' = log ++ [line] ∧ ll_level line = InfoLevel ∧ ("method", FString method) ∈ ll_fields line
  | Err e => ∃ line, log' = log ++ [line] ∧ ll_level line = WarnLevel ∧ ("method", FString method) ∈ ll_fields line ∧
      ∀ c msg, e = status_Errorf c msg → ("grpc_code", FString (Code_String c)) ∈ ll_fields line
  | Panic _ => log' = log
  end.
Proof.
  unfold loggingUnaryInterceptor. simpl. destruct (handler w) as [r0 w0]. intros E. assert (r0 = r ∧ w0 = w') as [-> ->].
  { by destruct r0; simplify_eq. }
  split; [done|]. destruct r as [a|e|why]; simplify_eq/=; [| |done]; eexists; split_and!; [done| | |done| | |];
    [done| |done| |]; [destruct (SpanContext_IsValid sc); set_solver..|].
  intros c msg ->. rewrite status_code_Errorf. set_solver.
Qed.

(** The meter provider that [InitMeter] makes for the Prometheus endpoint is never made
    the global one, which [NewMetrics] takes its meter from: whatever is measured on the
    instruments, the provider exports nothing. *)
Theorem metrics_not_exported {G} `{OtelLaws G} (name : string) (g g1 g2 g3 : G) (mp : MeterProvider) (m : Metrics G)
    (ms : list (Instrument * Z)) (r : result unit) :
  global_meter_provider g = None →
  InitMeter g = (Ok mp, g1) → NewMetrics name g1 = (Ok m, g2) → for_each (λ '(i, v), measure i v) ms g2 = (r, g3) →
  exported mp g3 = [].
Proof.
  intros Hg E1 E2 E3. apply InitMeter_fresh in E1 as [Hp1 Hx1]. apply quiet_NewMetrics in E2 as [Hp2 Hx2].
  assert (global_meter_provider g2 ≠ Some mp) as Hne by by rewrite Hp2, Hp1, Hg.
  rewrite (measures_dropped _ _ _ _ _ Hne E3), Hx2. by apply Hx1.
Qed.

(** ** Examples *)

(** The global state with providers as numbers. *)
Record MemOtel := mkMemOtel {
  mo_tracer : option nat;
  mo_global : option nat;
  mo_next : nat;
  mo_exports : nat → list Z;
  mo_instruments : list string;
}.

Definition mo_measure (i : nat) (v : Z) : M MemOtel unit := λ g,
  (Ok tt, match mo_global g with
          | None => g
          | Some mp => mkMemOtel (mo_tracer g) (mo_global g) (mo_next g)
              (λ j, if bool_decide (j = mp) then mo_exports g j ++ [v] else mo_exports g j) (mo_instruments g)
          end).

#[export] Instance mem_otel : Otel MemOtel := {|
  SpanExporter := string; Resource := list Field; TracerProvider := nat; MeterExporter := unit; MeterProvider := nat;
  Instrument := nat;
  otlptracegrpc_New := mret;
  resource_Merge := mret;
  NewTracerProvider _ _ := λ g, (Ok (mo_next g), mkMemOtel (mo_tracer g) (mo_global g) (S (mo_next g)) (mo_exports g) (mo_instruments g));
  SetTracerProvider tp := modify (λ g, mkMemOtel (Some tp) (mo_global g) (mo_next g) (mo_exports g) (mo_instruments g));
  SetTextMapPropagator _ := mret tt;
  promexp_New := mret tt;
  NewMeterProvider _ := λ g, (Ok (mo_next g), mkMemOtel (mo_tracer g) (mo_global g) (S (mo_next g))
    (λ j, if bool_decide (j = mo_next g) then [] else mo_exports g j) (mo_instruments g));
  global_tracer_provider := mo_tracer;
  global_meter_provider := mo_global;
  new_instrument _ _ name _ _ := λ g, (Ok (length (mo_instruments g)),
    mkMemOtel (mo_tracer g) (mo_global g) (mo_next g) (mo_exports g) (mo_instruments g ++ [name]));
  measure := mo_measure;
  exported mp g := mo_exports g mp;
|}.

#[export] Instance mem_otel_laws : OtelLaws MemOtel.
Proof.
  split; simpl; intros; unfold mo_measure, mret, M_ret in *; simplify_eq/=; try done.
  - split; [done|]. intros mp [= <-]. by rewrite bool_decide_true.
  - destruct (mo_global g) as [p|] eqn:Hp; simpl; [|done]. split; [done|]. intros mp Hne.
    rewrite bool_decide_false; [done|]. congruence.
Qed.

Definition start_otel : MemOtel := mkMemOtel None None 0 (λ _, []) [].

(** A start of the gateway. *)
Lemma example_metrics :
  ∃ mp m g1 g2, InitMeter (G:=MemOtel) start_otel = (Ok mp, g1) ∧ NewMetrics "gateway" g1 = (Ok m, g2) ∧
    length (mo_instruments g2) = 11%nat.
Proof. eexists _, _, _, _. split_and!; vm_compute; reflexivity. Qed.

Lemma metrics_not_exported_witness :
  ∃ (mp : MeterProvider) (g : MemOtel), exported mp g = [].
Proof.
  destruct example_metrics as (mp & m & g1 & g2 & E1 & E2 & _). exists mp.
  destruct (for_each (λ '(i, v), measure (G:=MemOtel) i v) [(MessagesSent m, 1)] g2) as [r g3] eqn:E3. exists g3.
  exact (metrics_not_exported "gateway" start_otel g1 g2 g3 mp m [(MessagesSent m, 1)] r eq_refl E1 E2 E3).
Defined.

(** Had [main] made the provider the global one, the same measurement would be exported. *)
Example metrics_exported_when_global :
  exported (G:=MemOtel) 0%nat (mo_measure 0 1 (mkMemOtel None (Some 0%nat) 1 (λ _, []) [])).2 = [1].
Proof. reflexivity. Qed.

Lemma interceptor_transparent_witness :
  ∃ line, (loggingUnaryInterceptor (mkLogger []) (mkSpanContext [] []) "/fproto.v1.DispatcherService/Dispatch" 5
             (throw (A:=unit) (status_Errorf InvalidArgument "message is required")) (tt, [])).2.2 = [line] ∧
    ("grpc_code", FString "InvalidArgument") ∈ ll_fields line.
Proof.
  destruct (proj2 (interceptor_transparent (mkLogger []) (mkSpanContext [] []) "/fproto.v1.DispatcherService/Dispatch" 5
    (throw (A:=unit) (status_Errorf InvalidArgument "message is required")) tt tt [] _ _ eq_refl)) as (line & E & _ & _ & Hc).
  exists line. split; [exact E|]. exact (Hc InvalidArgument _ eq_refl).
Defined.

(** [InitTracer] does make its provider the global one. *)
Example tracer_registered : global_tracer_provider (InitTracer "gateway" "0.5.0" "localhost:4317" start_otel).2 = Some 0%nat.
Proof. reflexivity. Qed.
