(* ===== verification/Gateway.v ===== *)
(** * The gateway

    [handleConn] of [server/cmd/gateway/main.go] (and [handleConnection] of
    [server/cmd/echo-server/main.go]): the Noise handshake, then a loop that decrypts
    each message of the connection, hands the application message inside to the
    dispatcher, and answers with an acknowledgement or an echo.  Its metrics and spans
    are in [GatewayMetrics]; its log lines have no part in the model. *)
From S2P Require Import Prelude Bytes Postgres Grpc Messages Outbox Dispatcher Noise Wire Conn.

Local Open Scope Z_scope.

(** ** handleConn *)

Definition Ack_RECEIVED : Z := 1.

(** [fmt.Appendf(nil, "echo: %s", pt)] *)
Definition echo (pt : bytes) : bytes := bytes_of_string "echo: " ++ pt.

Definition ack_message (id : slice) : AppMessage :=
  mkAppMessage id None (Some (AppMessage_Ack (Some (mkAck id Ack_RECEIVED)))).

(** The session, a local variable of the handler, the connection and what the
    dispatcher acts on. *)
Record GwW `{Noise} (N D : Type) := mkGwW { gw_session : NoiseSession; gw_conn : N; gw_disp : D }.
Arguments mkGwW {_ N D} _ _ _.
Arguments gw_session {_ N D} _.
Arguments gw_conn {_ N D} _.
Arguments gw_disp {_ N D} _.

Section gateway.
Context {N D : Type} `{Conn N} `{Noise} `{FrameCodec} `{AppCodec}.

(** The dispatcher client, nil in echo mode: [Dispatch] with the session id, the sender
    id and the message of the request returns the id to acknowledge. *)
Context (dispatcher : option (slice → slice → AppMessage → M D slice)).

(** The application message in a decrypted frame, if it is one. *)
Definition parse (pt : bytes) : result (option (Frame * AppMessage)) :=
  match frame_unmarshal pt with
  | Ok frame =>
      if (0 <? slen (fr_EncryptedPayload frame))%nat then
        match app_unmarshal (sbytes (fr_EncryptedPayload frame)) with
        | Ok appMsg => Ok (Some (frame, appMsg))
        | Err _ => Ok None
        | Panic why => Panic why
        end
      else Ok None
  | Err _ => Ok None
  | Panic why => Panic why
  end.

(** The answer to a message: whether it is an acknowledgement, and its bytes. *)
Definition reply (addr : string) (pt : bytes) : M D (bool * bytes) :=
  match dispatcher with
  | None => mret (false, echo pt)
  | Some dispatch =>
      x ← lift (parse pt);
      match x with
      | None => mret (false, echo pt)
      | Some (frame, appMsg) =>
          r ← attempt (dispatch (Some (bytes_of_string addr)) (fr_SessionId frame) appMsg);
          match r with
          | (None, Some ackId) =>
              ackBytes ← attempt (lift (app_marshal (ack_message ackId)));
              mret (true, default [] ackBytes.2)
          | _ => mret (false, echo pt)
          end
      end
  end.

Definition on_session {A} (m : M NoiseSession A) : M (GwW N D) A :=
  zoom gw_session (λ s w, mkGwW s (gw_conn w) (gw_disp w)) m.
Definition on_conn {A} (m : M N A) : M (GwW N D) A :=
  zoom gw_conn (λ c w, mkGwW (gw_session w) c (gw_disp w)) m.
Definition on_disp {A} (m : M D A) : M (GwW N D) A :=
  zoom gw_disp (λ d w, mkGwW (gw_session w) (gw_conn w) d) m.

(** The rest of a turn once a message is decrypted: [false] when the handler returns.
    Failures to send an acknowledgement are ignored, failures to send an echo end the
    connection. *)
Definition gateway_answer (pt : bytes) : M (GwW N D) bool :=
  addr ← (λ w, (Ok (conn_RemoteAddr (gw_conn w)), w));
  resp ← on_disp (reply addr pt);
  enc ← attempt (on_session (NoiseSession_Encrypt resp.2));
  match enc.2 with
  | None => mret resp.1
  | Some enc =>
      r ← attempt (on_conn (conn_WriteMessage enc));
      mret (resp.1 || bool_decide (r.1 = None))
  end.

(** One turn of the loop. *)
Definition gateway_iter : M (GwW N D) bool :=
  r ← attempt (on_conn conn_ReadMessage);
  match r.2 with
  | None => mret false
  | Some ct =>
      r ← attempt (on_session (NoiseSession_Decrypt ct));
      match r.2 with
      | None => mret false
      | Some pt => gateway_answer pt
      end
  end.

(** The loop; [fuel] bounds its turns, and running out of it is a panic. *)
Fixpoint gateway_loop (fuel : nat) : M (GwW N D) unit :=
  match fuel with
  | O => panic "out of fuel"
  | S fuel => continue ← gateway_iter; if (continue : bool) then gateway_loop fuel else mret tt
  end.

Definition handleConn (fuel : nat) (entropy : bytes) (serverKey : KeyPair) : M (N * D) unit := λ w,
  match run_proc (ServerHandshake entropy serverKey) w.1 with
  | (Ok session, c) =>
      let '(r, w') := gateway_loop fuel (mkGwW session c w.2) in (r, (gw_conn w', gw_disp w'))
  | (Err _, c) => (Ok tt, (c, w.2))
  | (Panic why, c) => (Panic why, (c, w.2))
  end.

(** ** What the gateway should do *)

(** The answers to a sequence of messages, on the dispatcher alone. *)
Fixpoint reply_all (addr : string) (pts : list bytes) : M D (list bytes) :=
  match pts with
  | [] => mret []
  | pt :: pts => r ← reply addr pt; rs ← reply_all addr pts; mret (r.2 :: rs)
  end.

End gateway.

(** ** The echo server *)

Section echo_server.
Context {N : Type} `{Conn N} `{Noise}.

Definition echo_iter : M (GwW N unit) bool :=
  ciphertext ← attempt (on_conn conn_ReadMessage);
  match ciphertext.2 with
  | None => mret false
  | Some ciphertext =>
      plaintext ← attempt (on_session (NoiseSession_Decrypt ciphertext));
      match plaintext.2 with
      | None => mret false
      | Some plaintext =>
          let response := echo plaintext in
          encrypted ← attempt (on_session (NoiseSession_Encrypt response));
          match encrypted.2 with
          | None => mret false
          | Some encrypted =>
              r ← attempt (on_conn (conn_WriteMessage encrypted));
              match r.1 with Some _ => mret false | None => mret true end
          end
      end
  end.

Fixpoint echo_loop (fuel : nat) : M (GwW N unit) unit :=
  match fuel with
  | O => panic "out of fuel"
  | S fuel => continue ← echo_iter; if (continue : bool) then echo_loop fuel else mret tt
  end.

(** [handleConnection] after the upgrade of the HTTP request. *)
Definition handleConnection (fuel : nat) (entropy : bytes) (serverKey : KeyPair) : M N unit := λ c,
  match run_proc (ServerHandshake entropy serverKey) c with
  | (Ok session, c) => let '(r, w') := echo_loop fuel (mkGwW session c tt) in (r, gw_conn w')
  | (Err _, c) => (Ok tt, c)
  | (Panic why, c) => (Panic why, c)
  end.

End echo_server.

(** ** The dispatcher behind the gateway *)

(** The client of the dispatcher service: the RPC, which the service answers with the
    id it acknowledges; the request or the reply may be lost. *)
Definition dispatcher_client {P} `{PgPool P Outbox.db} `{AppCodec} (now : Z) (f : fault)
    (SessionId SenderId : slice) (Message : AppMessage) : M P slice :=
  let unavailable := status_Errorf Unavailable "connection error" in
  match f with
  | RequestLost => throw unavailable
  | NoFault => resp ← DispatcherServer_Dispatch now SenderId (Some Message); mret resp.2
  | ReplyLost => _ ← DispatcherServer_Dispatch now SenderId (Some Message); throw unavailable
  end.

(** ** Lemmas *)

Section gateway_lemmas.
Context {N D : Type} `{ConnLaws N} `{NoiseLaws} `{FrameCodec} `{AppCodec}.
Context (dispatcher : option (slice → slice → AppMessage → M D slice)).
Implicit Types (w : GwW N D) (n : N) (s c : NoiseSession) (d : D).

(** A turn reads and decrypts the next message of the client. *)
Lemma gateway_iter_next c s n d p ct c' cts :
  in_step (ns_Send c) (ns_Recv s) → NoiseSession_Encrypt p c = (Ok ct, c') → conn_unread n (ct :: cts) →
  ∃ s1 n1, gateway_iter dispatcher (mkGwW s n d) = gateway_answer dispatcher p (mkGwW s1 n1 d) ∧
    in_step (ns_Send c') (ns_Recv s1) ∧ ns_Send s1 = ns_Send s ∧ conn_unread n1 cts ∧
    conn_RemoteAddr n1 = conn_RemoteAddr n ∧ (∀ os, conn_wrote n os → conn_wrote n1 os).
Proof.
  intros Hs E Hu. destruct (Read_next _ _ _ Hu) as (n1 & Er & Hu1 & Hw1).
  destruct (in_step_Decrypt _ _ _ _ _ Hs E) as (s1 & Ed & Hs1 & Hsend & _).
  exists s1, n1. split; [|by split_and!; [| | |eapply Read_addr|]]. unfold gateway_iter.
  assert (Er' : attempt (on_conn conn_ReadMessage) (mkGwW s n d) = (Ok (None, Some ct), mkGwW s n1 d)).
  { unfold attempt, on_conn, zoom. simpl. by rewrite Er. }
  assert (Ed' : attempt (on_session (NoiseSession_Decrypt ct)) (mkGwW s n1 d) = (Ok (None, Some p), mkGwW s1 n1 d)).
  { unfold attempt, on_session, zoom. simpl. by rewrite Ed. }
  rewrite (bind_run _ _ _ _ _ Er'). cbn [snd]. by rewrite (bind_run _ _ _ _ _ Ed').
Qed.

Lemma gateway_iter_end s n d :
  conn_unread n [] →
  ∃ n', gateway_iter dispatcher (mkGwW s n d) = (Ok false, mkGwW s n' d) ∧ (∀ os, conn_wrote n os → conn_wrote n' os).
Proof.
  intros Hu. destruct (Read_end _ Hu) as (e & n' & Er & Hw). exists n'. split; [|done]. unfold gateway_iter.
  assert (Er' : attempt (on_conn conn_ReadMessage) (mkGwW s n d) = (Ok (Some e, None), mkGwW s n' d)).
  { unfold attempt, on_conn, zoom. simpl. by rewrite Er. }
  by rewrite (bind_run _ _ _ _ _ Er').
Qed.

Lemma gateway_answer_disp p w r w' :
  gateway_answer dispatcher p w = (r, w') →
  gw_disp w' = (reply dispatcher (conn_RemoteAddr (gw_conn w)) p (gw_disp w)).2.
Proof.
  unfold gateway_answer. destruct w as [s n d]. intros E.
  unfold mbind at 1, M_bind at 1 in E. simpl in E. step E as r1 w1 E1.
  unfold on_disp, zoom in E1. simpl in E1. destruct (reply dispatcher (conn_RemoteAddr n) p d) as [r0 d1] eqn:Er.
  injection E1 as <- <-. cbn [gw_conn gw_disp]. rewrite Er. destruct r0 as [x|e|why]; [|by injection E as _ <-..].
  step E as r2 w2 E2. unfold attempt, on_session, zoom in E2. simpl in E2.
  destruct (NoiseSession_Encrypt x.2 s) as [[enc|e|why] z]; injection E2 as <- <-; [|by injection E as _ <-..].
  cbn [snd] in E. step E as r3 w3 E3. unfold attempt, on_conn, zoom in E3. simpl in E3.
  destruct (conn_WriteMessage enc n) as [[] n1]; injection E3 as <- <-; by injection E as _ <-.
Qed.

(** Answering acts on the dispatcher as [reply] does and leaves what is still to be
    read, and its decryption, alone. *)
Lemma gateway_answer_keeps p w r w' cts :
  gateway_answer dispatcher p w = (r, w') → conn_unread (gw_conn w) cts →
  gw_disp w' = (reply dispatcher (conn_RemoteAddr (gw_conn w)) p (gw_disp w)).2 ∧
  conn_unread (gw_conn w') cts ∧ conn_RemoteAddr (gw_conn w') = conn_RemoteAddr (gw_conn w) ∧
  ns_Recv (gw_session w') = ns_Recv (gw_session w) ∧
  (∀ b, r = Ok b → ∃ x, (reply dispatcher (conn_RemoteAddr (gw_conn w)) p (gw_disp w)).1 = Ok x).
Proof.
  unfold gateway_answer. destruct w as [s n d]. intros E Hu. simpl in Hu.
  unfold mbind at 1, M_bind at 1 in E. simpl in E. step E as r1 w1 E1.
  unfold on_disp, zoom in E1. simpl in E1. destruct (reply dispatcher (conn_RemoteAddr n) p d) as [r0 d1] eqn:Er.
  injection E1 as <- <-. cbn [gw_conn gw_disp gw_session]. rewrite Er. cbn [fst snd]. destruct r0 as [x|e|why].
  2,3: injection E as <- <-; split_and!; [done..|by intros b [=]].
  step E as r2 w2 E2. unfold attempt, on_session, zoom, NoiseSession_Encrypt in E2. simpl in E2.
  destruct (cs_Encrypt (ns_Send s) x.2) as [[enc|e|why] z] eqn:Ee; injection E2 as <- <-.
  2,3: injection E as <- <-; split_and!; [done..|by eauto].
  cbn [snd] in E. step E as r3 w3 E3. unfold attempt, on_conn, zoom in E3. simpl in E3.
  destruct (conn_WriteMessage enc n) as [r4 n1] eqn:Ew.
  pose proof (Write_unread _ _ _ _ _ Ew Hu). pose proof (Write_addr _ _ _ _ Ew).
  destruct r4; injection E3 as <- <-; injection E as <- <-; split_and!; eauto.
Qed.

Lemma reply_all_cons addr p ps d x d1 :
  reply dispatcher addr p d = (Ok x, d1) →
  (reply_all dispatcher addr (p :: ps) d).2 = (reply_all dispatcher addr ps d1).2.
Proof.
  intros E. simpl. rewrite (bind_run _ _ _ _ _ E). unfold mbind, M_bind, mret, M_ret.
  by destruct (reply_all dispatcher addr ps d1) as [[] ?].
Qed.

Lemma reply_all_one addr p d :
  (reply_all dispatcher addr [p] d).2 = (reply dispatcher addr p d).2.
Proof. simpl. unfold mbind, M_bind, mret, M_ret. by destruct (reply dispatcher addr p d) as [[] ?]. Qed.

Lemma NoiseSession_Encrypt_send p s r s' s1 :
  NoiseSession_Encrypt p s = (r, s') → ns_Send s1 = ns_Send s →
  NoiseSession_Encrypt p s1 = (r, mkNoiseSession (ns_Send s') (ns_Recv s1)).
Proof.
  unfold NoiseSession_Encrypt. intros E ->. destruct (cs_Encrypt (ns_Send s) p). by injection E as <- <-.
Qed.

(** A turn in which nothing fails. *)
Lemma gateway_answer_clean `{!ReliableConn N} p s n d acked resp d' enc s' :
  reply dispatcher (conn_RemoteAddr n) p d = (Ok (acked, resp), d') →
  NoiseSession_Encrypt resp s = (Ok enc, s') → conn_fits enc →
  ∃ n', gateway_answer dispatcher p (mkGwW s n d) = (Ok true, mkGwW s' n' d') ∧ conn_WriteMessage enc n = (Ok tt, n').
Proof.
  intros Er Ee Hf. destruct (Write_succeeds n enc Hf) as [n' Ew]. exists n'. split; [|done]. unfold gateway_answer.
  assert (E1 : on_disp (reply dispatcher (conn_RemoteAddr n) p) (mkGwW s n d) = (Ok (acked, resp), mkGwW s n d')).
  { unfold on_disp, zoom. simpl. by rewrite Er. }
  assert (E2 : attempt (on_session (NoiseSession_Encrypt resp)) (mkGwW s n d') = (Ok (None, Some enc), mkGwW s' n d')).
  { unfold attempt, on_session, zoom. simpl. by rewrite Ee. }
  assert (E3 : attempt (on_conn (conn_WriteMessage enc)) (mkGwW s' n d') = (Ok (None, Some tt), mkGwW s' n' d')).
  { unfold attempt, on_conn, zoom. simpl. by rewrite Ew. }
  unfold mbind at 1, M_bind at 1. simpl. rewrite (bind_run _ _ _ _ _ E1). cbn [fst snd].
  rewrite (bind_run _ _ _ _ _ E2). cbn [fst snd]. rewrite (bind_run _ _ _ _ _ E3). cbn [fst snd].
  by rewrite bool_decide_true, orb_true_r.
Qed.

End gateway_lemmas.

Section gateway_runs.
Context {N D : Type} `{ConnLaws N} `{NoiseLaws} `{FrameCodec} `{AppCodec}.
Context (dispatcher : option (slice → slice → AppMessage → M D slice)).
Implicit Types (w : GwW N D) (n : N) (s c : NoiseSession) (d : D).

(** Whatever fails, the dispatcher has seen the first messages of the client, in
    order. *)
Lemma gateway_loop_spec ps c s n d cts c1 fuel r w' :
  in_step (ns_Send c) (ns_Recv s) → encrypt_seq ps c = (Ok cts, c1) → conn_unread n cts →
  gateway_loop dispatcher fuel (mkGwW s n d) = (r, w') →
  ∃ k, (k ≤ length ps)%nat ∧ gw_disp w' = (reply_all dispatcher (conn_RemoteAddr n) (take k ps) d).2.
Proof.
  revert c s n d cts fuel. induction ps as [|p ps IH]; intros c s n d cts [|fuel] Hs Ec Hu E; simpl in E.
  1,3: injection E as <- <-; exists 0%nat; split; [lia|done].
  - unfold encrypt_seq, mret, M_ret in Ec. injection Ec as <- <-.
    destruct (gateway_iter_end dispatcher s n d Hu) as (n' & Ei & _).
    rewrite (bind_run _ _ _ _ _ Ei) in E. injection E as <- <-. exists 0%nat. split; [lia|done].
  - simpl in Ec. apply bind_Ok_inv in Ec as (ct & c0 & E1 & Ec). apply bind_Ok_inv in Ec as (cts' & c2 & E2 & Ec).
    unfold mret, M_ret in Ec. simplify_eq.
    destruct (gateway_iter_next dispatcher _ _ _ d _ _ _ _ Hs E1 Hu) as (s1 & n1 & Ei & Hs1 & _ & Hu1 & Ha & _).
    destruct (gateway_answer dispatcher p (mkGwW s1 n1 d)) as [ra w1] eqn:Ea.
    rewrite (bind_run _ _ _ _ _ Ei) in E.
    destruct (gateway_answer_keeps _ _ _ _ _ _ Ea Hu1) as (Hd & Hu2 & Ha2 & Hr & Hok). simpl in Hd, Ha2, Hr, Hok.
    destruct ra as [[]|e|why].
    2,3,4: injection E as <- <-; exists 1%nat; split; [simpl; lia|]; cbn [take];
      rewrite take_0, reply_all_one, <-Ha; exact Hd.
    destruct (Hok _ eq_refl) as [x Hx]. destruct (reply dispatcher (conn_RemoteAddr n1) p d) as [rx d1] eqn:Erep.
    simpl in Hx. subst rx. destruct w1 as [s2 n2 d2]. simpl in *. subst d2. rewrite <-Hr in Hs1.
    destruct (IH _ _ _ _ _ _ Hs1 E2 Hu2 E) as (k & Hk & Hd'). exists (S k). split; [lia|]. cbn [take].
    rewrite Ha in Erep. rewrite (reply_all_cons _ _ _ _ _ _ _ Erep). by rewrite Hd', Ha2, Ha.
Qed.

(** One turn more than there are messages is enough. *)
Lemma gateway_loop_fuel ps c s n d cts c1 fuel :
  in_step (ns_Send c) (ns_Recv s) → encrypt_seq ps c = (Ok cts, c1) → conn_unread n cts → (length ps < fuel)%nat →
  gateway_loop dispatcher fuel (mkGwW s n d) = gateway_loop dispatcher (S (length ps)) (mkGwW s n d).
Proof.
  revert c s n d cts fuel. induction ps as [|p ps IH]; intros c s n d cts [|fuel] Hs Ec Hu Hf; simpl in Hf; try lia.
  - unfold encrypt_seq, mret, M_ret in Ec. injection Ec as <- <-.
    destruct (gateway_iter_end dispatcher s n d Hu) as (n' & Ei & _). simpl.
    by rewrite !(bind_run _ _ _ _ _ Ei).
  - simpl in Ec. apply bind_Ok_inv in Ec as (ct & c0 & E1 & Ec). apply bind_Ok_inv in Ec as (cts' & c2 & E2 & Ec).
    unfold mret, M_ret in Ec. simplify_eq.
    destruct (gateway_iter_next dispatcher _ _ _ d _ _ _ _ Hs E1 Hu) as (s1 & n1 & Ei & Hs1 & _ & Hu1 & _ & _).
    destruct (gateway_answer dispatcher p (mkGwW s1 n1 d)) as [ra w1] eqn:Ea.
    destruct (gateway_answer_keeps _ _ _ _ _ _ Ea Hu1) as (_ & Hu2 & _ & Hr & _). simpl in Hr.
    cbn [gateway_loop length]. rewrite !(bind_run _ _ _ _ _ Ei). destruct ra as [[]|e|why]; [|done..].
    destruct w1 as [s2 n2 d2]. simpl in Hu2, Hr. rewrite <-Hr in Hs1.
    apply (IH _ _ _ _ _ _ Hs1 E2 Hu2). lia.
Qed.

(** When nothing fails every message is answered. *)
Lemma gateway_loop_clean `{!ReliableConn N} ps c s s0 n d cts c1 os rs d' encs s' fuel :
  in_step (ns_Send c) (ns_Recv s) → encrypt_seq ps c = (Ok cts, c1) → conn_unread n cts → conn_wrote n os →
  reply_all dispatcher (conn_RemoteAddr n) ps d = (Ok rs, d') →
  ns_Send s = ns_Send s0 → encrypt_seq rs s0 = (Ok encs, s') → Forall conn_fits encs → (length ps < fuel)%nat →
  ∃ w', gateway_loop dispatcher fuel (mkGwW s n d) = (Ok tt, w') ∧ gw_disp w' = d' ∧
    conn_wrote (gw_conn w') (os ++ encs).
Proof.
  revert c s s0 n d cts os rs encs fuel.
  induction ps as [|p ps IH]; intros c s s0 n d cts os rs encs [|fuel] Hs Ec Hu Hw Er Hsend Ee Hf Hfuel;
    simpl in Hfuel; try lia.
  - unfold encrypt_seq, mret, M_ret in Ec. injection Ec as <- <-. injection Er as <- <-.
    injection Ee as <- <-. destruct (gateway_iter_end dispatcher s n d Hu) as (n' & Ei & Hw'). cbn [gateway_loop].
    rewrite (bind_run _ _ _ _ _ Ei). eexists. split; [done|]. rewrite app_nil_r. split; [done|]. by apply Hw'.
  - simpl in Ec. apply bind_Ok_inv in Ec as (ct & c0 & E1 & Ec). apply bind_Ok_inv in Ec as (cts' & c2 & E2 & Ec).
    simpl in Er. apply bind_Ok_inv in Er as ([acked resp] & d1 & Er1 & Er). apply bind_Ok_inv in Er as (rs' & d2 & Er2 & Er).
    unfold mret, M_ret in Ec, Er. simplify_eq/=.
    apply bind_Ok_inv in Ee as (enc & s0' & Ee1 & Ee). apply bind_Ok_inv in Ee as (encs' & s2 & Ee2 & Ee).
    unfold mret, M_ret in Ee. simplify_eq/=. apply Forall_cons in Hf as [Hf1 Hf].
    destruct (gateway_iter_next dispatcher _ _ _ d _ _ _ _ Hs E1 Hu) as (s1 & n1 & Ei & Hs1 & Hsend1 & Hu1 & Ha & Hw1).
    rewrite <-Ha in Er1. destruct (gateway_answer_clean dispatcher p s1 n1 d acked resp d1 enc _ Er1
      (NoiseSession_Encrypt_send _ _ _ _ _ Ee1 (eq_trans Hsend1 Hsend)) Hf1) as (n2 & Ea & Ew).
    rewrite Ea in Ei. rewrite (bind_run _ _ _ _ _ Ei).
    assert (conn_RemoteAddr n2 = conn_RemoteAddr n) as Ha2 by (by rewrite (Write_addr _ _ _ _ Ew)).
    rewrite <-Ha2 in Er2.
    destruct (IH c0 (mkNoiseSession (ns_Send s0') (ns_Recv s1)) s0' n2 d1 cts' (os ++ [enc]) rs' encs' fuel)
      as (w' & El & Hd & Hw'); try done; try lia.
    + by eapply Write_unread.
    + eapply Write_adds; eauto.
    + exists w'. split_and!; [done..|]. by rewrite <-app_assoc in Hw'.
Qed.

(** The server's side of the handshake over a connection. *)
Lemma run_server_handshake `{!ReliableConn N} m1 m2 m3 s p n cts os :
  server0 m1 m2 m3 s p → conn_fits m2 → conn_unread n (m1 :: m3 :: cts) → conn_wrote n os →
  ∃ n', run_proc p n = (Ok s, n') ∧ conn_unread n' cts ∧ conn_wrote n' (os ++ [m2]) ∧
    conn_RemoteAddr n' = conn_RemoteAddr n.
Proof.
  intros (k1 & -> & (k2 & E2 & (k3 & E3 & E4 & _) & _) & _) Hf Hu Hw.
  destruct (Read_next _ _ _ Hu) as (n1 & R1 & Hu1 & Hw1). destruct (Write_succeeds n1 m2 Hf) as [n2 W2].
  pose proof (Write_unread _ _ _ _ _ W2 Hu1) as Hu2. destruct (Read_next _ _ _ Hu2) as (n3 & R3 & Hu3 & Hw3).
  exists n3. simpl. rewrite R1, E2. simpl. rewrite W2, E3. simpl. rewrite R3, E4. split_and!; [done..| |].
  - apply Hw3. eapply Write_adds; eauto.
  - by rewrite (Read_addr _ _ _ R3), (Write_addr _ _ _ _ W2), (Read_addr _ _ _ R1).
Qed.

(** The client's side. *)
Lemma run_client_handshake `{!ReliableConn N} m1 m2 m3 c p n cts os :
  client0 m1 m2 m3 c p → conn_fits m1 → conn_fits m3 → conn_unread n (m2 :: cts) → conn_wrote n os →
  ∃ n', run_proc p n = (Ok c, n') ∧ conn_unread n' cts ∧ conn_wrote n' (os ++ [m1; m3]).
Proof.
  intros (k1 & -> & (k2 & E2 & (k3 & E3 & E4 & _) & _) & _) Hf1 Hf3 Hu Hw.
  destruct (Write_succeeds n m1 Hf1) as [n1 W1]. pose proof (Write_unread _ _ _ _ _ W1 Hu) as Hu1.
  destruct (Read_next _ _ _ Hu1) as (n2 & R2 & Hu2 & Hw2). destruct (Write_succeeds n2 m3 Hf3) as [n3 W3].
  exists n3. simpl. rewrite W1, E2. simpl. rewrite R2, E3. simpl. rewrite W3, E4. split_and!; [done|by eapply Write_unread|].
  replace (os ++ [m1; m3]) with ((os ++ [m1]) ++ [m3]) by (by rewrite <-app_assoc).
  eapply Write_adds, Hw2, Write_adds; eauto.
Qed.

End gateway_runs.

(** A client is served.  Let [m1], [m2] and [m3] be the messages of a handshake with
    [ServerHandshake] and [c] and [s] the sessions that result.  When neither the
    connection nor a cipher fails, [handleConn] completes the handshake, decrypts the
    messages the client sends afterwards, passes them to the dispatcher in order and
    answers each with what [reply] gives; the client can decrypt exactly these answers.
    The loop ends with the connection, after one turn more than there were messages. *)
Lemma gateway_serves {N D} `{ConnLaws N} `{!ReliableConn N} `{NoiseLaws} `{FrameCodec} `{AppCodec}
    (dispatcher : option (slice → slice → AppMessage → M D slice))
    (es : bytes) (ks : KeyPair) (m1 m2 m3 : bytes) (c c1 s s' : NoiseSession)
    (ps cts rs encs os : list bytes) (n : N) (d d' : D) (fuel : nat) :
  server0 m1 m2 m3 s (ServerHandshake es ks) → paired c s →
  encrypt_seq ps c = (Ok cts, c1) →
  conn_unread n (m1 :: m3 :: cts) → conn_wrote n os →
  reply_all dispatcher (conn_RemoteAddr n) ps d = (Ok rs, d') →
  encrypt_seq rs s = (Ok encs, s') → Forall conn_fits (m2 :: encs) → (length ps < fuel)%nat →
  (∃ n', handleConn dispatcher fuel es ks (n, d) = (Ok tt, (n', d')) ∧ conn_wrote n' (os ++ m2 :: encs)) ∧
  (∃ c2, decrypt_seq encs c1 = (Ok rs, c2)).
Proof.
  intros Hs [Hp1 Hp2] Ep Hu Hw Er Ee [Hf2 Hf]%Forall_cons Hfuel.
  destruct (run_server_handshake _ _ _ _ _ _ _ _ Hs Hf2 Hu Hw) as (n1 & Eh & Hu1 & Hw1 & Ha). rewrite <-Ha in Er.
  destruct (gateway_loop_clean dispatcher _ _ _ _ _ _ _ _ _ _ _ _ _ _ Hp1 Ep Hu1 Hw1 Er eq_refl Ee Hf Hfuel)
    as (w' & El & Hd & Hw').
  destruct (in_step_messages _ _ _ _ _ Hp1 Ep) as (Hr & _). rewrite <-Hr in Hp2.
  destruct (in_step_messages _ _ _ _ _ Hp2 Ee) as (_ & c2 & Ed & _). split; [|by eauto].
  exists (gw_conn w'). split; [|by rewrite <-app_assoc in Hw']. unfold handleConn. simpl. by rewrite Eh, El, Hd.
Qed.

(** ** Properties *)

(** Whatever calls fail on the way, what the gateway does to the
    dispatcher is what the client asked for: the first messages the client sent, each
    once and in order, and nothing else.  Its loop takes at most one turn more than
    there are messages. *)
Theorem gateway_dispatches_prefix {N D} `{ConnLaws N} `{NoiseLaws} `{FrameCodec} `{AppCodec}
    (dispatcher : option (slice → slice → AppMessage → M D slice))
    (ps cts : list bytes) (c c1 s : NoiseSession) (n : N) (d : D) (fuel : nat) (r : result unit) (w' : GwW N D) :
  in_step (ns_Send c) (ns_Recv s) → encrypt_seq ps c = (Ok cts, c1) → conn_unread n cts →
  (length ps < fuel)%nat →
  gateway_loop dispatcher fuel (mkGwW s n d) = (r, w') →
  gateway_loop dispatcher (S (length ps)) (mkGwW s n d) = (r, w') ∧
  ∃ k, (k ≤ length ps)%nat ∧ gw_disp w' = (reply_all dispatcher (conn_RemoteAddr n) (take k ps) d).2.
Proof.
  intros Hs Ec Hu Hf E. split; [|by eapply gateway_loop_spec].
  by rewrite <-E, (gateway_loop_fuel dispatcher _ _ _ _ _ _ _ _ Hs Ec Hu Hf).
Qed.

(** An acknowledgement means that the message is in the outbox.  When the
    gateway answers with one, the frame held an application message with an id that no
    row had, one row was added for it, pending, with its route and its encoding, and the
    answer names that id (or is empty, if it could not be encoded); any other answer is
    an echo, and at most one row was added. *)
Theorem gateway_ack_enqueued {P} `{PgLaws P Outbox.db} `{AppCodecLaws} `{FrameCodec} (now : Z) (f : fault)
    (addr : string) (pt b : bytes) (acked : bool) (p p' : P) :
  reply (Some (dispatcher_client now f)) addr pt p = (Ok (acked, b), p') →
  let added row := Outbox.rows (pgdata p') = <[Outbox.next_id (pgdata p) := row]> (Outbox.rows (pgdata p)) in
  if acked then
    ∃ frame m mid route key payload,
      parse pt = Ok (Some (frame, m)) ∧ MessageId m = Some mid ∧
      RouteMessage (Some m) = Ok route ∧ PartitionKey route = Some key ∧ app_marshal m = Ok payload ∧
      Outbox.has_message mid (pgdata p) = false ∧
      added (Outbox.mkRow mid (Topic route) key payload Outbox.StatusPending 0 (pg_time now) None) ∧
      (mid ≠ [] → b = [] ∨ app_unmarshal b = Ok (ack_message (Some mid)))
  else b = echo pt ∧ (Outbox.rows (pgdata p') = Outbox.rows (pgdata p) ∨ ∃ row, added row).
Proof.
  unfold reply. intros E. step E as r1 p1 E1. unfold lift in E1. injection E1 as <- <-.
  destruct (parse pt) as [[[frame m]|]|e|why] eqn:Hp; [|unfold mret, M_ret in E; injection E as <- <- <-; eauto|done..].
  step E as r2 p2 E2. unfold attempt, dispatcher_client in E2. destruct f.
  - unfold mbind, M_bind, mret, M_ret in E2. destruct (DispatcherServer_Dispatch now _ _ _) as [[[ok ack]|e|why] p3] eqn:Ed;
      injection E2 as <- <-; [| |by apply DispatcherServer_Dispatch_spec in Ed].
    + apply DispatcherServer_Dispatch_spec in Ed as (_ & -> & mid & key & route & payload & Hmid & Hr & Hk & Hm & Hno & Hadd).
      cbn [fst snd] in E. step E as r3 p4 E3. unfold attempt, lift in E3. rewrite Hmid in E3.
      destruct (app_marshal (ack_message (Some mid))) as [ab|e|why] eqn:Ea; injection E3 as <- <-; [| |done].
      all: unfold mret, M_ret in E; injection E as <- <- <-; exists frame, m, mid, route, key, payload; split_and!; try done.
      * intros Hne. right. apply (app_roundtrip _ _) in Ea; [done|]. unfold canonical, canonical_slice. simpl.
        split_and!; try done; try (by intros [= ->]); unfold is_int32, Ack_RECEIVED; lia.
      * by left.
    + apply DispatcherServer_Dispatch_spec in Ed as [_ Hrows]. unfold mret, M_ret in E; injection E as <- <- <-. eauto.
  - injection E2 as <- <-. unfold mret, M_ret in E; injection E as <- <- <-. eauto.
  - unfold mbind, M_bind, throw in E2. destruct (DispatcherServer_Dispatch now _ _ _) as [[[ok ack]|e|why] p3] eqn:Ed;
      injection E2 as <- <-; [| |by apply DispatcherServer_Dispatch_spec in Ed]; unfold mret, M_ret in E; injection E as <- <- <-; (split; [done|]).
    + apply DispatcherServer_Dispatch_spec in Ed as (_ & _ & mid & key & route & payload & _ & _ & _ & _ & _ & Hadd). eauto.
    + by apply DispatcherServer_Dispatch_spec in Ed as [_ Hrows].
Qed.

(** The echo server is the gateway without a dispatcher. *)
Theorem echo_server_is_gateway {N} `{Conn N} `{Noise} `{FrameCodec} `{AppCodec} (fuel : nat) (entropy : bytes)
    (key : KeyPair) (c : N) :
  handleConnection fuel entropy key c =
    let '(r, (c', _)) := handleConn None fuel entropy key (c, tt) in (r, c').
Proof.
  assert (Hi : ∀ w : GwW N unit, echo_iter w = gateway_iter None w).
  { intros w. unfold echo_iter, gateway_iter, gateway_answer, reply.
    unfold mbind, M_bind, attempt, mret, M_ret, on_disp, on_session, on_conn, zoom.
    repeat (case_match; simplify_eq/=; try done). }
  assert (Hl : ∀ (w : GwW N unit), echo_loop fuel w = gateway_loop None fuel w).
  { induction fuel as [|k IH]; intros w; [done|]. simpl. unfold mbind, M_bind. rewrite Hi.
    destruct (gateway_iter None w) as [[[]| |] ?]; [apply IH|done..]. }
  unfold handleConnection, handleConn. simpl. destruct (run_proc (ServerHandshake entropy key) c) as [[s| |] c1]; [|done..].
  rewrite Hl. by destruct (gateway_loop None fuel _) as [r [? ? ?]].
Qed.

(** ** Witnesses *)

#[local] Existing Instance toy_noise.
#[local] Existing Instance toy_noise_laws.
#[local] Existing Instance toy_app_codec.
#[local] Existing Instance toy_app_codec_laws.
#[local] Existing Instance toy_frame_codec.

(** The two ends of a session, after a number of messages each has sent. *)
Definition example_client (k : nat) : NoiseSession := @mkNoiseSession toy_noise ([x61], k) ([x62], 0%nat).
Definition example_server (k : nat) : NoiseSession := @mkNoiseSession toy_noise ([x62], k) ([x61], 0%nat).

(** A frame with a chat message, and the dispatcher on an empty outbox. *)
Definition marshaled (r : result bytes) : bytes := match r with Ok b => b | _ => [] end.

Definition example_plain : bytes :=
  marshaled (frame_marshal (mkFrame (Some [x02]) 1 0 (Some (marshaled (app_marshal (example_chat [x01] [x02] [x0a] "hi")))))).

Definition example_outbox : MemPg Outbox.db := mkMemPg (Outbox.mkDb ∅ 1) [].

Definition example_conn (ms : list bytes) : QUICConn chunks := mkQUICConn (Chunks [concat (frame <$> ms)] []) "peer".

Lemma example_conn_unread ms : Forall quic_fits ms → conn_unread (example_conn ms) ms.
Proof. intros Hf. split; [done|]. simpl. by rewrite app_nil_r. Qed.

Lemma example_conn_addr ms : conn_RemoteAddr (example_conn ms) = "peer".
Proof. reflexivity. Qed.

Definition example_ack : bytes := marshaled (app_marshal (ack_message (Some [x01]))).

Lemma example_replies :
  (reply_all (Some (dispatcher_client 7 NoFault)) "peer" [example_plain; [x68]] example_outbox).1
  = Ok [example_ack; echo [x68]].
Proof. vm_compute. reflexivity. Qed.

Lemma example_stages :
  client0 [x01] [x02] [x03] (example_client 0) (ClientHandshake [] toy_key) ∧
  server0 [x01] [x02] [x03] (example_server 0) (ServerHandshake [] toy_key).
Proof.
  split; (eexists; split; [reflexivity|]; split; [|by eexists]; eexists; split; [reflexivity|];
    split; [|by eexists]; eexists; split; [reflexivity|]; split; [reflexivity|by eexists]).
Qed.

Lemma example_fits : Forall quic_fits [x61 :: example_plain; [x61; x68]; x62 :: example_ack; x62 :: echo [x68]].
Proof. rewrite !Forall_cons, Forall_nil. unfold quic_fits. split_and!; try done; vm_compute; congruence. Qed.

Lemma gateway_dispatches_prefix_witness :
  ∃ k, (k ≤ 2)%nat ∧
    gw_disp (gateway_loop (Some (dispatcher_client 7 NoFault)) 3
      (mkGwW (example_server 0) (example_conn [x61 :: example_plain; [x61; x68]]) example_outbox)).2
    = (reply_all (Some (dispatcher_client 7 NoFault)) "peer" (take k [example_plain; [x68]]) example_outbox).2.
Proof.
  destruct (gateway_loop _ 3 _) as [r w'] eqn:E. pose proof example_fits as Hf. rewrite !Forall_cons in Hf.
  destruct Hf as (Hf1 & Hf2 & _).
  refine (proj2 (gateway_dispatches_prefix (Some (dispatcher_client 7 NoFault)) [example_plain; [x68]]
    [x61 :: example_plain; [x61; x68]] (example_client 0)
    (example_client 2) (example_server 0)
    (example_conn [x61 :: example_plain; [x61; x68]]) example_outbox 3 r w' _ _ _ _ E)).
  - reflexivity.
  - reflexivity.
  - apply example_conn_unread. by repeat (apply Forall_cons; split; [done|]).
  - simpl. lia.
Defined.

Lemma gateway_ack_enqueued_witness :
  ∃ p', reply (Some (dispatcher_client 7 NoFault)) "peer" example_plain example_outbox = (Ok (true, example_ack), p') ∧
    Outbox.has_message [x01] (pgdata example_outbox) = false.
Proof.
  destruct (reply (Some (dispatcher_client 7 NoFault)) "peer" example_plain example_outbox) as [r p'] eqn:E.
  assert (r = Ok (true, example_ack)) as -> by (change r with (r, p').1; rewrite <-E; vm_compute; reflexivity).
  exists p'. split; [done|].
  destruct (gateway_ack_enqueued 7 NoFault "peer" example_plain example_ack true example_outbox p' E)
    as (fr & m & mid & route & key & payload & _ & _ & _ & _ & _ & Hno & _). reflexivity.
Defined.
