(* ===== verification/ExampleLoop.v ===== *)
(** * What the example programs share

    The four programs under [examples/] speak the same framing (a type byte, the length
    of the payload as a big-endian [uint32], a JSON payload) and, but for the
    notifications, have the same loop: read, decrypt, handle, and answer ignoring every
    error on the way out.  This file has the framing ([decodeFrame] and the [encode]
    functions of [examples/*/messages.go]), the loop as a function of what a message
    does, the client's half of a conversation, and what holds of them whatever the
    program. *)
From S2P Require Import Prelude Bytes Wire Noise Conn Gateway.

Local Open Scope Z_scope.

(** ** JSON *)

(** [json.Marshal] and [json.Unmarshal] into a fresh variable, for one type.
    [json_faithful]: the values whose encoding loses nothing (their strings are valid
    UTF-8, their numbers finite). *)
Class JSON (A : Type) := {
  json_Marshal : A → result bytes;
  json_Unmarshal : bytes → result A;
  json_faithful : A → Prop;
}.

Class JSONLaws (A : Type) `{JSON A} : Prop := {
  json_roundtrip a b : json_faithful a → json_Marshal a = Ok b → json_Unmarshal b = Ok a;
  json_Marshal_total a : json_faithful a → ∃ b, json_Marshal a = Ok b;
  json_Marshal_no_panic a why : json_Marshal a ≠ Panic why;
  json_Unmarshal_no_panic (b : bytes) why : json_Unmarshal b ≠ Panic why;
}.

(** ** Frames *)

(** [msg := make([]byte, 1+4+len(payload)); msg[0] = t; PutUint32(msg[1:5], ...);
    copy(msg[5:], payload)] *)
Definition message (t : byte) (payload : bytes) : bytes :=
  t :: PutUint32BE (uint32 (Z.of_nat (length payload))) ++ payload.

(** The encoding functions: marshal, then frame. *)
Definition encode {A} `{JSON A} (t : byte) (a : A) : result bytes :=
  match json_Marshal a with
  | Ok payload => Ok (message t payload)
  | Err e => Err e
  | Panic why => Panic why
  end.

(** [msg, _ := encode(...)]: the nil slice when it fails. *)
Definition or_nil {A} (r : result (list A)) : result (list A) :=
  match r with Ok b => Ok b | Err _ => Ok [] | Panic why => Panic why end.

Definition decodeFrame (data : bytes) : result (byte * bytes) :=
  match data with
  | t :: b1 :: b2 :: b3 :: b4 :: rest =>
      let payloadLen := Uint32BE [b1; b2; b3; b4] in
      if Z.of_nat (length data) - 5 <? payloadLen then Err (Errorf "payload overflow")
      else
        let hi := uint32 (5 + payloadLen) in
        if hi <? 5 then Panic "slice bounds out of range" else Ok (t, take (Z.to_nat (hi - 5)) rest)
  | _ => Err (Errorf "frame too short")
  end.

(** ** The server's loop *)

(** A handler: the handshake, what the program does once it is done, then its loop. *)
Definition serve_with {N D} `{Conn N} `{Noise} (turn : M (GwW N D) bool) (joined : D → D) (fuel : nat) (entropy : bytes)
    (key : KeyPair) : M (N * D) unit := λ w,
  match run_proc (ServerHandshake entropy key) w.1 with
  | (Ok session, c) =>
      let '(r, w') := turn_loop turn fuel (mkGwW session c (joined w.2)) in (r, (gw_conn w', gw_disp w'))
  | (Err _, c) => (Ok tt, (c, w.2))
  | (Panic why, c) => (Panic why, (c, w.2))
  end.

Section serve.
Context {N D : Type} `{Conn N} `{Noise}.

(** What the program does with a decrypted message, and its answer if it gives one. *)
Context (answer : bytes → M D (option bytes)).

(** [enc, _ := session.Encrypt(resp); conn.WriteMessage(enc)] *)
Definition send_unchecked (resp : bytes) : M (GwW N D) unit :=
  enc ← attempt (on_session (NoiseSession_Encrypt resp));
  ignore (on_conn (conn_WriteMessage (default [] enc.2))).

Definition serve_answer (pt : bytes) : M (GwW N D) bool :=
  resp ← on_disp (answer pt);
  match resp with
  | None => mret true
  | Some resp => _ ← send_unchecked resp; mret true
  end.

(** One turn: [false] when the handler returns. *)
Definition serve_turn : M (GwW N D) bool :=
  ct ← attempt (on_conn conn_ReadMessage);
  match ct.2 with
  | None => mret false
  | Some ct =>
      pt ← attempt (on_session (NoiseSession_Decrypt ct));
      match pt.2 with
      | None => mret false
      | Some pt => serve_answer pt
      end
  end.

Definition serve_loop (fuel : nat) : M (GwW N D) unit := turn_loop serve_turn fuel.

Definition serve : (D → D) → nat → bytes → KeyPair → M (N * D) unit := serve_with serve_turn.

(** The answers to a sequence of messages, on the program's state alone. *)
Fixpoint answer_all (pts : list bytes) : M D (list bytes) :=
  match pts with
  | [] => mret []
  | pt :: pts =>
      r ← answer pt;
      rs ← answer_all pts;
      mret (match r with Some b => b :: rs | None => rs end)
  end.

End serve.

(** ** The client's half *)

Section request.
Context {N : Type} `{Conn N} `{Noise}.

(** [ct, _ := session.Encrypt(msg)], write it, read the answer, both with [log.Fatalf]
    on error, and [pt, _ := session.Decrypt(...)]. *)
Definition request (msg : bytes) : M (GwW N unit) bytes :=
  ct ← attempt (on_session (NoiseSession_Encrypt msg));
  _ ← wrap "write" (on_conn (conn_WriteMessage (default [] ct.2)));
  respCT ← wrap "read" (on_conn conn_ReadMessage);
  respPT ← attempt (on_session (NoiseSession_Decrypt respCT));
  mret (default [] respPT.2).

(** The loop of a client over what it has to send, which ignores the error of
    encoding: what it makes of each answer. *)
Fixpoint requests {A B} (request : bytes → M (GwW N unit) bytes) (encode : A → result bytes)
    (decode : bytes → result B) (xs : list A) : M (GwW N unit) (list B) :=
  match xs with
  | [] => mret []
  | x :: xs =>
      msg ← lift (or_nil (encode x));
      resp ← request msg;
      b ← lift (decode resp);
      bs ← requests request encode decode xs;
      mret (b :: bs)
  end.

Definition client_loop {A B} : (A → result bytes) → (bytes → result B) → list A → M (GwW N unit) (list B) :=
  requests request.

(** A client on a connection it has dialled: [log.Fatalf] when the handshake fails. *)
Definition connected {A} (entropy : bytes) (key : KeyPair) (body : M (GwW N unit) A) : M N A := λ n,
  match run_proc (ClientHandshake entropy key) n with
  | (Ok session, n) => let '(r, w) := body (mkGwW session n tt) in (r, gw_conn w)
  | (Err e, n) => (Err (Wrap "handshake" e), n)
  | (Panic why, n) => (Panic why, n)
  end.

End request.

(** The two ends [nc] and [n] of a connection over which a client that sends [msgs] and
    a server that answers [rs] talk: each will be delivered what the other side writes,
    and nothing fails. *)
Definition conversation {N Nc} `{Conn N} `{Conn Nc} `{Noise} (ec : bytes) (kc : KeyPair) (es : bytes) (ks : KeyPair)
    (msgs rs : list bytes) (nc : Nc) (n : N) : Prop :=
  ∃ m1 m2 m3 c s c1 s1 cts encs,
    client0 m1 m2 m3 c (ClientHandshake ec kc) ∧ server0 m1 m2 m3 s (ServerHandshake es ks) ∧ paired c s ∧
    encrypt_seq msgs c = (Ok cts, c1) ∧ encrypt_seq rs s = (Ok encs, s1) ∧
    conn_unread n (m1 :: m3 :: cts) ∧ conn_wrote n [] ∧ conn_unread nc (m2 :: encs) ∧ conn_wrote nc [] ∧
    Forall (conn_fits (N:=N)) (m2 :: encs) ∧ Forall (conn_fits (N:=Nc)) (m1 :: m3 :: cts).

(** ** Lemmas *)

Lemma message_cons (t : byte) (payload : bytes) :
  ∃ b1 b2 b3 b4, PutUint32BE (uint32 (Z.of_nat (length payload))) = [b1; b2; b3; b4] ∧
    message t payload = t :: b1 :: b2 :: b3 :: b4 :: payload.
Proof.
  unfold message. pose proof (PutUint32BE_length (uint32 (Z.of_nat (length payload)))) as Hl.
  destruct (PutUint32BE _) as [|b1 [|b2 [|b3 [|b4 [|]]]]]; try done. by exists b1, b2, b3, b4.
Qed.

(** The length of a payload that fits its field. *)
Lemma message_length_field (payload : bytes) b1 b2 b3 b4 :
  Z.of_nat (length payload) < 2 ^ 32 →
  PutUint32BE (uint32 (Z.of_nat (length payload))) = [b1; b2; b3; b4] →
  Uint32BE [b1; b2; b3; b4] = Z.of_nat (length payload).
Proof.
  intros Hl E. rewrite <-E, Uint32BE_PutUint32BE. unfold uint32. rewrite Zmod_mod. apply Z.mod_small. lia.
Qed.

Lemma decodeFrame_message (t : byte) (payload : bytes) :
  Z.of_nat (length payload) + 5 < 2 ^ 32 → decodeFrame (message t payload) = Ok (t, payload).
Proof.
  intros Hl. destruct (message_cons t payload) as (b1 & b2 & b3 & b4 & E & ->). unfold decodeFrame.
  rewrite (message_length_field payload) by (done || lia). cbn [length].
  destruct (Z.ltb_spec (Z.of_nat (S (S (S (S (S (length payload)))))) - 5) (Z.of_nat (length payload))); [lia|].
  unfold uint32. rewrite Z.mod_small by lia. destruct (Z.ltb_spec (5 + Z.of_nat (length payload)) 5); [lia|].
  rewrite take_ge by lia. done.
Qed.

(** What [decodeFrame] accepts is in the message. *)
Lemma decodeFrame_inv (data payload : bytes) (t : byte) :
  decodeFrame data = Ok (t, payload) → ∃ len rest, data = t :: len ++ payload ++ rest ∧ length len = 4%nat.
Proof.
  unfold decodeFrame. intros E. destruct data as [|t' [|b1 [|b2 [|b3 [|b4 rest]]]]]; try done.
  case_match; [done|]. case_match; [done|]. injection E as <- <-.
  eexists [b1; b2; b3; b4], _. split; [|done]. simpl. by rewrite take_drop.
Qed.

Lemma encode_inv {A} `{JSON A} t (a : A) b :
  encode t a = Ok b → ∃ payload, json_Marshal a = Ok payload ∧ b = message t payload.
Proof. unfold encode. destruct (json_Marshal a) eqn:E; [|done..]. intros [= <-]. eauto. Qed.

(** [m] is the message of type [t] that carries [a] without loss. *)
Definition framed {A} `{JSON A} (t : byte) (a : A) (m : bytes) : Prop :=
  json_faithful a ∧ ∃ b, json_Marshal a = Ok b ∧ m = message t b ∧ Z.of_nat (length b) + 5 < 2 ^ 32.

Lemma framed_encode {A} `{JSON A} t (a : A) m : framed t a m → encode t a = Ok m.
Proof. intros (_ & b & Eb & -> & _). unfold encode. by rewrite Eb. Qed.

Lemma framed_decode {A} `{JSONLaws A} t (a : A) m :
  framed t a m → ∃ b, decodeFrame m = Ok (t, b) ∧ json_Unmarshal b = Ok a.
Proof.
  intros (Hf & b & Eb & -> & Hl). exists b. split; [by apply decodeFrame_message|by apply json_roundtrip].
Qed.

Section serve_lemmas.
Context {N D : Type} `{ConnLaws N} `{NoiseLaws} (answer : bytes → M D (option bytes)).
Implicit Types (w : GwW N D) (n : N) (s c : NoiseSession) (d : D).

(** A turn that reads and decrypts the next message of the peer and answers it, and
    ends the loop when there is none. *)
Definition reads_next (turn : M (GwW N D) bool) : Prop := ∀ c s n d p ct c' cts,
  in_step (ns_Send c) (ns_Recv s) → NoiseSession_Encrypt p c = (Ok ct, c') → conn_unread n (ct :: cts) →
  ∃ s1 n1, turn (mkGwW s n d) = serve_answer answer p (mkGwW s1 n1 d) ∧
    in_step (ns_Send c') (ns_Recv s1) ∧ ns_Send s1 = ns_Send s ∧ conn_unread n1 cts ∧
    (∀ os, conn_wrote n os → conn_wrote n1 os).

Definition stops_at_end (turn : M (GwW N D) bool) : Prop := ∀ s n d,
  conn_unread n [] →
  ∃ n', turn (mkGwW s n d) = (Ok false, mkGwW s n' d) ∧ (∀ os, conn_wrote n os → conn_wrote n' os).

Lemma serve_turn_next : reads_next (serve_turn answer).
Proof.
  intros c s n d p ct c' cts Hs E Hu. destruct (Read_next _ _ _ Hu) as (n1 & Er & Hu1 & Hw1).
  destruct (in_step_Decrypt _ _ _ _ _ Hs E) as (s1 & Ed & Hs1 & Hsend & _).
  exists s1, n1. split; [|done]. unfold serve_turn.
  assert (Er' : attempt (on_conn conn_ReadMessage) (mkGwW s n d) = (Ok (None, Some ct), mkGwW s n1 d)).
  { unfold attempt, on_conn, zoom. simpl. by rewrite Er. }
  assert (Ed' : attempt (on_session (NoiseSession_Decrypt ct)) (mkGwW s n1 d) = (Ok (None, Some p), mkGwW s1 n1 d)).
  { unfold attempt, on_session, zoom. simpl. by rewrite Ed. }
  rewrite (bind_run _ _ _ _ _ Er'). cbn [snd]. by rewrite (bind_run _ _ _ _ _ Ed').
Qed.

Lemma serve_turn_end : stops_at_end (serve_turn answer).
Proof.
  intros s n d Hu. destruct (Read_end _ Hu) as (e & n' & Er & Hw). exists n'. split; [|done]. unfold serve_turn.
  assert (Er' : attempt (on_conn conn_ReadMessage) (mkGwW s n d) = (Ok (Some e, None), mkGwW s n' d)).
  { unfold attempt, on_conn, zoom. simpl. by rewrite Er. }
  by rewrite (bind_run _ _ _ _ _ Er').
Qed.

(** Sending an answer touches neither the program's state nor the incoming direction,
    whether it succeeds or not. *)
Lemma send_unchecked_keeps b s n d r w' cts :
  (∀ x p why, (cs_Encrypt x p).1 ≠ Panic why) → (∀ m n why, (conn_WriteMessage m n).1 ≠ Panic why) →
  send_unchecked b (mkGwW s n d) = (r, w') → conn_unread n cts →
  r = Ok tt ∧ gw_disp w' = d ∧ ns_Recv (gw_session w') = ns_Recv s ∧ conn_unread (gw_conn w') cts.
Proof.
  intros He Hw E Hu. unfold send_unchecked in E. step E as r1 w1 E1.
  unfold attempt, on_session, zoom, NoiseSession_Encrypt in E1. simpl in E1. pose proof (He (ns_Send s) b) as Hb.
  destruct (cs_Encrypt (ns_Send s) b) as [[enc|e|why] z]; [| |by destruct (Hb why)]; injection E1 as <- <-.
  all: cbn [snd default] in E; unfold ignore, on_conn, zoom in E; simpl in E.
  1: destruct (conn_WriteMessage enc n) as [r2 n2] eqn:Ew; pose proof (Hw enc n) as Hn.
  2: destruct (conn_WriteMessage [] n) as [r2 n2] eqn:Ew; pose proof (Hw [] n) as Hn.
  all: rewrite Ew in Hn; pose proof (Write_unread _ _ _ _ _ Ew Hu).
  all: destruct r2 as [[]|e2|why]; [| |by destruct (Hn why)]; by injection E as <- <-.
Qed.

(** Sending an answer when nothing fails. *)
Lemma send_unchecked_clean `{!ReliableConn N} b s n d enc s' :
  NoiseSession_Encrypt b s = (Ok enc, s') → conn_fits enc →
  ∃ n', send_unchecked b (mkGwW s n d) = (Ok tt, mkGwW s' n' d) ∧ conn_WriteMessage enc n = (Ok tt, n').
Proof.
  intros Ee Hf. destruct (Write_succeeds n enc Hf) as [n' Ew]. exists n'. split; [|done]. unfold send_unchecked.
  assert (E : attempt (on_session (NoiseSession_Encrypt b)) (mkGwW s n d) = (Ok (None, Some enc), mkGwW s' n d)).
  { unfold attempt, on_session, zoom. simpl. by rewrite Ee. }
  rewrite (bind_run _ _ _ _ _ E). unfold ignore, on_conn, zoom. simpl. by rewrite Ew.
Qed.

(** Every message of the client is handled, whether or not the answers can be sent, and
    one turn more than there are messages is enough. *)
Lemma serve_loop_handles ps c s n d cts c1 rs d' fuel :
  (∀ x p why, (cs_Encrypt x p).1 ≠ Panic why) → (∀ m n why, (conn_WriteMessage m n).1 ≠ Panic why) →
  in_step (ns_Send c) (ns_Recv s) → encrypt_seq ps c = (Ok cts, c1) → conn_unread n cts →
  answer_all answer ps d = (Ok rs, d') → (length ps < fuel)%nat →
  ∃ w', serve_loop answer fuel (mkGwW s n d) = (Ok tt, w') ∧ gw_disp w' = d'.
Proof.
  intros He Hw. revert c s n d cts rs fuel.
  induction ps as [|p ps IH]; intros c s n d cts rs [|fuel] Hs Ec Hu Ea Hf; simpl in Hf; try lia.
  - unfold encrypt_seq, mret, M_ret in Ec. injection Ec as <- <-. injection Ea as <- <-.
    destruct (serve_turn_end s n d Hu) as (n' & Ei & _). unfold serve_loop. cbn [turn_loop]. rewrite (bind_run _ _ _ _ _ Ei). by eexists.
  - simpl in Ec. apply bind_Ok_inv in Ec as (ct & c0 & E1 & Ec). apply bind_Ok_inv in Ec as (cts' & c2 & E2 & Ec).
    unfold mret, M_ret in Ec. injection Ec as <- <-. simpl in Ea.
    apply bind_Ok_inv in Ea as (r & d1 & Ea1 & Ea). apply bind_Ok_inv in Ea as (rs' & d2 & Ea2 & Ea). injection Ea as <- <-.
    destruct (serve_turn_next _ _ _ d _ _ _ _ Hs E1 Hu) as (s1 & n1 & Ei & Hs1 & _ & Hu1 & _).
    assert (Eo : on_disp (answer p) (mkGwW s1 n1 d) = (Ok r, mkGwW s1 n1 d1)).
    { unfold on_disp, zoom. simpl. by rewrite Ea1. }
    unfold serve_answer in Ei. rewrite (bind_run _ _ _ _ _ Eo) in Ei. unfold serve_loop. cbn [turn_loop]. destruct r as [b|].
    + destruct (send_unchecked b (mkGwW s1 n1 d1)) as [rb [s2 n2 d3]] eqn:Es.
      apply (send_unchecked_keeps _ _ _ _ _ _ cts') in Es as Hk; [|done..]. simpl in Hk. destruct Hk as (-> & -> & Hr & Hu2).
      rewrite (bind_run _ _ _ _ _ Es) in Ei. rewrite (bind_run _ _ _ _ _ Ei). rewrite <-Hr in Hs1.
      apply (IH _ _ _ _ _ _ fuel Hs1 E2 Hu2 Ea2). lia.
    + rewrite (bind_run _ _ _ _ _ Ei). apply (IH _ _ _ _ _ _ fuel Hs1 E2 Hu1 Ea2). lia.
Qed.

(** A message on which the program panics stops the loop there. *)
Lemma serve_loop_panics c s n d p ct c' cts why d' fuel :
  in_step (ns_Send c) (ns_Recv s) → NoiseSession_Encrypt p c = (Ok ct, c') → conn_unread n (ct :: cts) →
  answer p d = (Panic why, d') →
  ∃ w', serve_loop answer (S fuel) (mkGwW s n d) = (Panic why, w').
Proof.
  intros Hs E Hu Ea. destruct (serve_turn_next _ _ _ d _ _ _ _ Hs E Hu) as (s1 & n1 & Ei & _).
  assert (Eo : on_disp (answer p) (mkGwW s1 n1 d) = (Panic why, mkGwW s1 n1 d')).
  { unfold on_disp, zoom. simpl. by rewrite Ea. }
  unfold serve_answer in Ei. rewrite (bind_run _ _ _ _ _ Eo) in Ei.
  unfold serve_loop. cbn [turn_loop]. rewrite (bind_run _ _ _ _ _ Ei). by eexists.
Qed.

(** A turn in which nothing fails: it handles the next message of the peer and, if there
    is an answer, writes it. *)
Definition turn_clean (turn : M (GwW N D) bool) : Prop := ∀ c s s0 n d p ct c' cts os r d1,
  in_step (ns_Send c) (ns_Recv s) → NoiseSession_Encrypt p c = (Ok ct, c') → conn_unread n (ct :: cts) →
  conn_wrote n os → ns_Send s = ns_Send s0 → answer p d = (Ok r, d1) →
  let answered s' os' := ∃ s1 n1, turn (mkGwW s n d) = (Ok true, mkGwW s1 n1 d1) ∧ in_step (ns_Send c') (ns_Recv s1) ∧
    ns_Send s1 = ns_Send s' ∧ conn_unread n1 cts ∧ conn_wrote n1 os' in
  match r with
  | None => answered s0 os
  | Some b => ∀ enc s', NoiseSession_Encrypt b s0 = (Ok enc, s') → conn_fits enc → answered s' (os ++ [enc])
  end.

Lemma reads_next_clean `{!ReliableConn N} turn : reads_next turn → turn_clean turn.
Proof.
  intros Hnext c s s0 n d p ct c' cts os r d1 Hs E Hu Hw Hsend Ea answered.
  destruct (Hnext _ _ _ d _ _ _ _ Hs E Hu) as (s1 & n1 & Ei & Hs1 & Hsend1 & Hu1 & Hw1).
  assert (Eo : on_disp (answer p) (mkGwW s1 n1 d) = (Ok r, mkGwW s1 n1 d1)).
  { unfold on_disp, zoom. simpl. by rewrite Ea. }
  unfold serve_answer in Ei. rewrite (bind_run _ _ _ _ _ Eo) in Ei. destruct r as [b|].
  - intros enc s' Ee Hf.
    destruct (send_unchecked_clean b s1 n1 d1 enc _ (NoiseSession_Encrypt_send _ _ _ _ _ Ee (eq_trans Hsend1 Hsend)) Hf)
      as (n2 & Es & Ew).
    rewrite (bind_run _ _ _ _ _ Es) in Ei. unfold answered. eexists _, n2. split; [exact Ei|].
    split_and!; [done|done|by eapply Write_unread|eapply Write_adds; eauto].
  - unfold answered. exists s1, n1. split; [exact Ei|]. split_and!; [done|congruence|done|auto].
Qed.

(** When nothing fails the answers are written, in order. *)
Lemma turn_loop_answers turn ps c s s0 n d cts c1 os rs d' encs s' fuel :
  turn_clean turn → stops_at_end turn →
  in_step (ns_Send c) (ns_Recv s) → encrypt_seq ps c = (Ok cts, c1) → conn_unread n cts → conn_wrote n os →
  answer_all answer ps d = (Ok rs, d') →
  ns_Send s = ns_Send s0 → encrypt_seq rs s0 = (Ok encs, s') → Forall conn_fits encs → (length ps < fuel)%nat →
  ∃ w', turn_loop turn fuel (mkGwW s n d) = (Ok tt, w') ∧ gw_disp w' = d' ∧ conn_wrote (gw_conn w') (os ++ encs).
Proof.
  intros Hclean Hend. revert c s s0 n d cts os rs encs fuel.
  induction ps as [|p ps IH]; intros c s s0 n d cts os rs encs [|fuel] Hs Ec Hu Hw Ea Hsend Ee Hf Hfuel;
    simpl in Hfuel; try lia.
  - unfold encrypt_seq, mret, M_ret in Ec. injection Ec as <- <-. injection Ea as <- <-. injection Ee as <- <-.
    destruct (Hend s n d Hu) as (n' & Ei & Hw'). cbn [turn_loop].
    rewrite (bind_run _ _ _ _ _ Ei). eexists. rewrite app_nil_r. split_and!; [done..|]. by apply Hw'.
  - simpl in Ec. apply bind_Ok_inv in Ec as (ct & c0 & E1 & Ec). apply bind_Ok_inv in Ec as (cts' & c2 & E2 & Ec).
    unfold mret, M_ret in Ec. injection Ec as <- <-. simpl in Ea.
    apply bind_Ok_inv in Ea as (r & d1 & Ea1 & Ea). apply bind_Ok_inv in Ea as (rs' & d2 & Ea2 & Ea). injection Ea as <- <-.
    pose proof (Hclean _ _ s0 _ d _ _ _ _ os _ _ Hs E1 Hu Hw Hsend Ea1) as Hturn. cbv zeta in Hturn. cbn [turn_loop]. destruct r as [b|].
    + apply bind_Ok_inv in Ee as (enc & s0' & Ee1 & Ee). apply bind_Ok_inv in Ee as (encs' & s2 & Ee2 & Ee).
      injection Ee as <- <-. apply Forall_cons in Hf as [Hf1 Hf].
      destruct (Hturn enc s0' Ee1 Hf1) as (s1 & n1 & Ei & Hs1 & Hsend1 & Hu1 & Hw1).
      destruct (IH c0 s1 s0' n1 d1 cts' (os ++ [enc]) rs' encs' fuel) as (w' & El & Hd & Hw'); try done; try lia.
      rewrite (bind_run _ _ _ _ _ Ei). exists w'. split_and!; [done..|]. by rewrite <-app_assoc in Hw'.
    + destruct Hturn as (s1 & n1 & Ei & Hs1 & Hsend1 & Hu1 & Hw1). rewrite (bind_run _ _ _ _ _ Ei).
      eapply (IH c0 s1 s0 n1 d1 cts' os rs' encs fuel); eauto; lia.
Qed.

End serve_lemmas.

(** A session with a client, from the handshake to the end of its messages: they are
    answered in order and the client decrypts the answers. *)
Lemma serve_session {N D} `{ConnLaws N} `{NoiseLaws} `{!ReliableConn N} (answer : bytes → M D (option bytes))
    (turn : M (GwW N D) bool) (joined : D → D) (es : bytes) (ks : KeyPair) (m1 m2 m3 : bytes) (c c1 s s' : NoiseSession)
    (ps cts rs encs os : list bytes) (n : N) (d d' : D) (fuel : nat) :
  turn_clean answer turn → stops_at_end turn →
  server0 m1 m2 m3 s (ServerHandshake es ks) → paired c s →
  encrypt_seq ps c = (Ok cts, c1) → conn_unread n (m1 :: m3 :: cts) → conn_wrote n os →
  answer_all answer ps (joined d) = (Ok rs, d') →
  encrypt_seq rs s = (Ok encs, s') → Forall conn_fits (m2 :: encs) → (length ps < fuel)%nat →
  (∃ n', serve_with turn joined fuel es ks (n, d) = (Ok tt, (n', d')) ∧ conn_wrote n' (os ++ m2 :: encs)) ∧
  (∃ c2, decrypt_seq encs c1 = (Ok rs, c2)).
Proof.
  intros Hclean Hend Hs [Hp1 Hp2] Ep Hu Hw Ea Ee [Hf2 Hf]%Forall_cons Hfuel.
  destruct (run_server_handshake _ _ _ _ _ _ _ _ Hs Hf2 Hu Hw) as (n1 & Eh & Hu1 & Hw1 & _).
  destruct (turn_loop_answers answer turn _ _ _ _ _ _ _ _ _ _ _ _ _ _ Hclean Hend Hp1 Ep Hu1 Hw1 Ea eq_refl Ee Hf Hfuel)
    as (w' & El & Hd & Hw').
  destruct (in_step_messages _ _ _ _ _ Hp1 Ep) as (Hr & _). rewrite <-Hr in Hp2.
  destruct (in_step_messages _ _ _ _ _ Hp2 Ee) as (_ & c2 & Ed & _). split; [|by eauto].
  exists (gw_conn w'). split; [|by rewrite <-app_assoc in Hw']. unfold serve_with. simpl. by rewrite Eh, El, Hd.
Qed.

Section request_lemmas.
Context {N : Type} `{ConnLaws N} `{!ReliableConn N} `{NoiseLaws}.
Implicit Types (n : N) (s c : NoiseSession).

(** A request in which nothing fails. *)
Definition request_answered (request : bytes → M (GwW N unit) bytes) : Prop := ∀ m c n ct c1 r s enc s1 encs os,
  NoiseSession_Encrypt m c = (Ok ct, c1) → conn_fits ct → conn_unread n (enc :: encs) → conn_wrote n os →
  in_step (ns_Send s) (ns_Recv c) → NoiseSession_Encrypt r s = (Ok enc, s1) →
  ∃ c2 n2, request m (mkGwW c n tt) = (Ok r, mkGwW c2 n2 tt) ∧ ns_Send c2 = ns_Send c1 ∧
    in_step (ns_Send s1) (ns_Recv c2) ∧ conn_unread n2 encs ∧ conn_wrote n2 (os ++ [ct]).

Lemma request_clean : request_answered request.
Proof.
  intros m c n ct c1 r s enc s1 encs os Em Hf Hu Hw Hs Er. destruct (Write_succeeds n ct Hf) as [n1 Ew].
  pose proof (Write_unread _ _ _ _ _ Ew Hu) as Hu1. destruct (Read_next _ _ _ Hu1) as (n2 & Erd & Hu2 & Hw2).
  assert (Hc1 : ns_Recv c1 = ns_Recv c).
  { unfold NoiseSession_Encrypt in Em. destruct (cs_Encrypt (ns_Send c) m). by injection Em as -> <-. }
  rewrite <-Hc1 in Hs. destruct (in_step_Decrypt _ _ _ _ _ Hs Er) as (c2 & Ed & Hs2 & Hsend & _).
  exists c2, n2. split; [|split_and!; try done; apply Hw2; by eapply Write_adds]. unfold request.
  assert (E1 : attempt (on_session (NoiseSession_Encrypt m)) (mkGwW c n tt) = (Ok (None, Some ct), mkGwW c1 n tt)).
  { unfold attempt, on_session, zoom. simpl. by rewrite Em. }
  assert (E2 : wrap "write" (on_conn (conn_WriteMessage ct)) (mkGwW c1 n tt) = (Ok tt, mkGwW c1 n1 tt)).
  { unfold wrap, on_conn, zoom. simpl. by rewrite Ew. }
  assert (E3 : wrap "read" (on_conn conn_ReadMessage) (mkGwW c1 n1 tt) = (Ok enc, mkGwW c1 n2 tt)).
  { unfold wrap, on_conn, zoom. simpl. by rewrite Erd. }
  assert (E4 : attempt (on_session (NoiseSession_Decrypt enc)) (mkGwW c1 n2 tt) = (Ok (None, Some r), mkGwW c2 n2 tt)).
  { unfold attempt, on_session, zoom. simpl. by rewrite Ed. }
  rewrite (bind_run _ _ _ _ _ E1). cbn [snd default]. rewrite (bind_run _ _ _ _ _ E2), (bind_run _ _ _ _ _ E3).
  by rewrite (bind_run _ _ _ _ _ E4).
Qed.

(** The client gets the answers of the server in order. *)
Lemma requests_clean {A B} req (encode : A → result bytes) (decode : bytes → result B)
    xs msgs c c0 n cts c1 rs bs s encs s1 os :
  request_answered req →
  Forall2 (λ x m, encode x = Ok m) xs msgs → Forall2 (λ r b, decode r = Ok b) rs bs → length rs = length msgs →
  encrypt_seq msgs c0 = (Ok cts, c1) → ns_Send c = ns_Send c0 → Forall conn_fits cts →
  conn_unread n encs → conn_wrote n os →
  in_step (ns_Send s) (ns_Recv c) → encrypt_seq rs s = (Ok encs, s1) →
  ∃ w', requests req encode decode xs (mkGwW c n tt) = (Ok bs, w') ∧ conn_wrote (gw_conn w') (os ++ cts).
Proof.
  intros Hreq Hx. revert c c0 n cts rs bs s encs os.
  induction Hx as [|x m xs msgs Hm _ IH]; intros c c0 n cts rs bs s encs os Hb Hl Em Hc Hf Hu Hw Hs Er;
    destruct Hb as [|r b rs bs Hr Hb]; try done.
  { injection Em as <- <-. eexists. by rewrite app_nil_r. }
  simpl in Em, Er. apply bind_Ok_inv in Em as (ct & c2 & E1 & Em). apply bind_Ok_inv in Em as (cts' & c3 & E2 & Em).
  injection Em as <- <-. apply bind_Ok_inv in Er as (enc & s2 & F1 & Er). apply bind_Ok_inv in Er as (encs' & s3 & F2 & Er).
  injection Er as <- <-. apply Forall_cons in Hf as [Hf1 Hf].
  destruct (Hreq m c n ct _ r s enc s2 encs' os (NoiseSession_Encrypt_send _ _ _ _ _ E1 Hc) Hf1 Hu Hw Hs F1)
    as (c4 & n4 & E4 & Hc4 & Hs4 & Hu4 & Hw4).
  destruct (IH c4 c2 n4 cts' rs bs s2 encs' (os ++ [ct]) Hb ltac:(by injection Hl) E2 Hc4 Hf Hu4 Hw4 Hs4 F2) as (w' & Ew & Hw').
  exists w'. split; [|by rewrite <-app_assoc in Hw']. simpl. rewrite Hm. unfold mbind at 1, M_bind at 1. simpl.
  rewrite (bind_run _ _ _ _ _ E4), Hr. unfold mbind at 1, M_bind at 1. simpl. by rewrite (bind_run _ _ _ _ _ Ew).
Qed.

End request_lemmas.

Section conversations.
Context {N Nc D : Type} `{ConnLaws N} `{!ReliableConn N} `{Conn Nc} `{!ConnLaws Nc} `{!ReliableConn Nc} `{NoiseLaws}.
Context (ec : bytes) (kc : KeyPair) (es : bytes) (ks : KeyPair).

(** The server's end of a conversation. *)
Lemma conversation_turns (answer : bytes → M D (option bytes)) turn (joined : D → D) msgs rs (nc : Nc) (n : N) d d' fuel :
  turn_clean answer turn → stops_at_end turn →
  conversation ec kc es ks msgs rs nc n → answer_all answer msgs (joined d) = (Ok rs, d') → (length msgs < fuel)%nat →
  ∃ n', serve_with turn joined fuel es ks (n, d) = (Ok tt, (n', d')).
Proof.
  intros Hclean Hend
    (m1 & m2 & m3 & c & s & c1 & s1 & cts & encs & _ & Hs & Hp & Ec & Er & Hu & Hw & _ & _ & Hf & _) Ea Hfuel.
  destruct (serve_session answer turn joined _ _ _ _ _ _ _ _ _ _ _ _ _ _ _ _ _ _ Hclean Hend Hs Hp Ec Hu Hw Ea Er Hf Hfuel)
    as [(n' & E & _) _]. by exists n'.
Qed.

Lemma conversation_server (answer : bytes → M D (option bytes)) (joined : D → D) msgs rs (nc : Nc) (n : N) d d' fuel :
  conversation ec kc es ks msgs rs nc n → answer_all answer msgs (joined d) = (Ok rs, d') → (length msgs < fuel)%nat →
  ∃ n', serve answer joined fuel es ks (n, d) = (Ok tt, (n', d')).
Proof.
  intros Hconv Ea Hfuel. by apply (conversation_turns answer (serve_turn answer) joined msgs rs nc n d d' fuel
    (reads_next_clean answer _ (serve_turn_next answer)) (serve_turn_end answer)).
Qed.

(** The client's end. *)
Lemma conversation_requests {A B} req (encode : A → result bytes) (decode : bytes → result B) xs bs msgs rs (nc : Nc) (n : N) :
  request_answered req → conversation ec kc es ks msgs rs nc n →
  Forall2 (λ x m, encode x = Ok m) xs msgs → Forall2 (λ r b, decode r = Ok b) rs bs → length rs = length msgs →
  ∃ nc', connected ec kc (requests req encode decode xs) nc = (Ok bs, nc').
Proof.
  intros Hreq (m1 & m2 & m3 & c & s & c1 & s1 & cts & encs & Hc & _ & [_ Hp] & Ec & Er & _ & _ & Hu & Hw & _ & Hf) Hx Hb Hl.
  apply Forall_cons in Hf as [Hf1 [Hf3 Hf]%Forall_cons].
  destruct (run_client_handshake _ _ _ _ _ _ _ _ Hc Hf1 Hf3 Hu Hw) as (nc1 & Eh & Hu1 & Hw1).
  destruct (requests_clean req encode decode _ _ c c nc1 _ _ _ _ s _ _ _ Hreq Hx Hb Hl Ec eq_refl Hf Hu1 Hw1 Hp Er) as (w' & El & _).
  exists (gw_conn w'). unfold connected. by rewrite Eh, El.
Qed.

Lemma conversation_client {A B} (encode : A → result bytes) (decode : bytes → result B) xs bs msgs rs (nc : Nc) (n : N) :
  conversation ec kc es ks msgs rs nc n →
  Forall2 (λ x m, encode x = Ok m) xs msgs → Forall2 (λ r b, decode r = Ok b) rs bs → length rs = length msgs →
  ∃ nc', connected ec kc (client_loop encode decode xs) nc = (Ok bs, nc').
Proof. apply conversation_requests, request_clean. Qed.

End conversations.

(** ** A codec for finitely many values, each encoded by its index in unary *)

Section table_json.
Context {A : Type} `{EqDecision A} (table : list A).

Definition table_json : JSON A := {|
  json_Marshal a :=
    match list_find (a =.) table with
    | Some (i, _) => Ok (replicate i x31)
    | None => Err (Errorf "json: unsupported value")
    end;
  json_Unmarshal b :=
    match table !! length b with
    | Some a => Ok a
    | None => Err (Errorf "invalid character")
    end;
  json_faithful a := a ∈ table;
|}.

Lemma table_json_laws : @JSONLaws A table_json.
Proof.
  split; simpl.
  - intros a b _ E. destruct (list_find (a =.) table) as [[i a']|] eqn:Ef; [|done]. injection E as <-.
    apply list_find_Some in Ef as (Ei & <- & _). by rewrite length_replicate, Ei.
  - intros a Ha. destruct (list_find_elem_of (a =.) table a Ha eq_refl) as [[i a'] ->]. eauto.
  - intros a why. by destruct (list_find (a =.) table) as [[]|].
  - intros b why. by destruct (table !! length b).
Qed.

Lemma table_json_faithful a : bool_decide (a ∈ table) = true → @json_faithful A table_json a.
Proof. by apply bool_decide_eq_true. Qed.

End table_json.

(** A value of a concrete table, and its message. *)
Ltac in_table := apply table_json_faithful; vm_compute; reflexivity.
Ltac framed_in_table :=
  split; [in_table|]; eexists; split_and!; [vm_compute; reflexivity|reflexivity|vm_compute; reflexivity].

(** ** The two ends of a conversation in memory *)

Definition toy_client_end (rs : list bytes) : MemConn := mkMemConn ([x02] :: (cons x62 <$> rs)) [] "server".
Definition toy_server_end (msgs : list bytes) : MemConn := mkMemConn ([x01] :: [x03] :: (cons x61 <$> msgs)) [] "client".

Lemma toy_encrypt_seq (k : byte) (i : nat) r ms :
  @encrypt_seq toy_noise ms (@mkNoiseSession toy_noise ([k], i) r) =
    (Ok (cons k <$> ms), @mkNoiseSession toy_noise ([k], length ms + i)%nat r).
Proof.
  revert i. induction ms as [|m ms IH]; intros i; [done|]. simpl. unfold mbind, M_bind. simpl.
  rewrite IH. simpl. by rewrite Nat.add_succ_r.
Qed.

Lemma toy_conversation msgs rs :
  @conversation MemConn MemConn _ _ toy_noise [] toy_key [] toy_key msgs rs (toy_client_end rs) (toy_server_end msgs).
Proof.
  eexists [x01], [x02], [x03], (example_client 0), (example_server 0), _, _, _, _.
  split; [apply example_stages|]. split; [apply example_stages|]. split; [by split|].
  split; [apply toy_encrypt_seq|]. split; [apply toy_encrypt_seq|]. split_and!; try done; by apply Forall_true.
Qed.
