(* ===== verification/Iot.v ===== *)
(** * The telemetry example

    [examples/iot-telemetry]: devices send readings over an encrypted session; the
    server keeps the last thousand of each device and acknowledges every one. *)
From S2P Require Import Prelude Bytes Wire Noise Conn Gateway Float64 ExampleLoop.

Local Open Scope Z_scope.

(** ** messages.go *)

Definition MsgTelemetry : byte := x01.
Definition MsgControlCommand : byte := x02.

Record Telemetry := mkTelemetry {
  tm_DeviceID : string;
  tm_SensorData : gmap string float64;
  tm_TimestampMs : Z;
}.

Record ControlCommand := mkControlCommand {
  cc_DeviceID : string;
  cc_Action : string;
  cc_Params : gmap string string;
}.

(** [telemetryStore]: the records, by device. *)
Notation telemetryStore := (gmap string (list Telemetry)).

Section messages.
Context `{JSON Telemetry} `{JSON ControlCommand}.

Definition encodeTelemetry (t : Telemetry) : result bytes := encode MsgTelemetry t.
Definition encodeCommand (c : ControlCommand) : result bytes := encode MsgControlCommand c.

(** [data[5 : 5+payloadLen]]: the sum wraps around at 2^32, and the upper bound may
    reach into the capacity of the slice, [spare] being the bytes behind its end. *)
Definition decodeMessage (spare data : bytes) : result (byte * bytes) :=
  match data with
  | msgType :: b1 :: b2 :: b3 :: b4 :: rest =>
      let hi := uint32 (5 + Uint32BE [b1; b2; b3; b4]) in
      if (hi <? 5) || (Z.of_nat (length (data ++ spare)) <? hi) then Panic "slice bounds out of range"
      else Ok (msgType, take (Z.to_nat (hi - 5)) (rest ++ spare))
  | _ => Ok (x00, [])
  end.

(** ** server.go: the store *)

Definition records (s : telemetryStore) (deviceID : string) : list Telemetry := default [] (s !! deviceID).

Definition newStore : telemetryStore := ∅.

Definition telemetryStore_add (t : Telemetry) (s : telemetryStore) : telemetryStore :=
  let s := <[tm_DeviceID t := records s (tm_DeviceID t) ++ [t]]> s in
  let n := length (records s (tm_DeviceID t)) in
  if (1000 <? n)%nat then <[tm_DeviceID t := drop (n - 1000) (records s (tm_DeviceID t))]> s else s.

Definition telemetryStore_count (deviceID : string) (s : telemetryStore) : nat := length (records s deviceID).

(** ** server.go: the handler *)

(** The acknowledgement of a reading. *)
Definition ack_command (t : Telemetry) : ControlCommand :=
  mkControlCommand (tm_DeviceID t) "ack" {["count" := "1"]}.

(** What is behind the end of a decrypted message. *)
Context (spare : bytes → bytes).

Definition device_answer (pt : bytes) : M telemetryStore (option bytes) :=
  x ← lift (decodeMessage (spare pt) pt);
  if bool_decide (x.1 = MsgTelemetry) then
    t ← attempt (lift (json_Unmarshal x.2));
    match t.2 with
    | None => mret None
    | Some t =>
        _ ← modify (telemetryStore_add t);
        ackBytes ← lift (or_nil (encodeCommand (ack_command t)));
        mret (Some ackBytes)
    end
  else mret None.

Definition handleDevice {N} `{Conn N} `{Noise} : nat → bytes → KeyPair → M (N * telemetryStore) unit :=
  serve device_answer id.

(** ** server.go: the client *)

(** The reading of round [i], at the time [now]. *)
Definition reading (deviceID : string) (i_now : Z * Z) : Telemetry :=
  mkTelemetry deviceID
    {["temperature" := f_add (f_dec 225 1) (f_mul (f_of_Z i_now.1) (f_dec 1 1));
      "humidity" := f_sub (f_dec 550 1) (f_mul (f_of_Z i_now.1) (f_dec 5 1));
      "pressure" := f_dec 101325 2]}
    i_now.2.

(** What the client makes of an answer: the command in it, if it is one. *)
Definition command_of (respPT : bytes) : result (option (result ControlCommand)) :=
  match decodeMessage (spare respPT) respPT with
  | Ok (respType, respPayload) =>
      if bool_decide (respType = MsgControlCommand) then Ok (Some (json_Unmarshal respPayload)) else Ok None
  | Err _ => Ok None
  | Panic why => Panic why
  end.

(** [runClient] on the connection it dials; [clock] gives the times of the ten rounds. *)
Definition runClient {N} `{Conn N} `{Noise} (entropy : bytes) (clientKey : KeyPair) (deviceID : string)
    (clock : Z → Z) : M N (list (option (result ControlCommand))) :=
  connected entropy clientKey
    (client_loop (λ i, encodeTelemetry (reading deviceID (i, clock i))) command_of (seqZ 0 10)).

End messages.

(** ** Lemmas *)

(** The last [k] elements of a list. *)
Definition last_n {A} (k : nat) (l : list A) : list A := drop (length l - k) l.

Section last_n.
Context {A : Type}.
Implicit Types l : list A.

Lemma last_n_short k l : (length l ≤ k)%nat → last_n k l = l.
Proof. intros Hl. unfold last_n. by replace (length l - k)%nat with 0%nat by lia. Qed.

Lemma length_last_n k l : length (last_n k l) = min k (length l).
Proof. unfold last_n. rewrite length_drop. lia. Qed.

Lemma last_n_app k l l' : last_n k (last_n k l ++ l') = last_n k (l ++ l').
Proof.
  unfold last_n at 1 3. rewrite !length_app, length_last_n. unfold last_n.
  rewrite drop_app, (drop_app l), drop_drop, length_drop. f_equal; f_equal; lia.
Qed.

End last_n.

Lemma records_add t s id :
  records (telemetryStore_add t s) id =
    if bool_decide (tm_DeviceID t = id) then last_n 1000 (records s id ++ [t]) else records s id.
Proof.
  unfold telemetryStore_add, records. case_bool_decide as Hd; [subst id|].
  - rewrite lookup_insert_eq. cbn [default]. case_match eqn:E.
    + by rewrite lookup_insert_eq.
    + rewrite lookup_insert_eq. cbn [default]. apply Nat.ltb_ge in E. by rewrite last_n_short.
  - case_match; by rewrite ?lookup_insert_ne.
Qed.

(** Adding readings one by one keeps the last thousand of every device. *)
Lemma records_adds ts s id :
  (length (records s id) ≤ 1000)%nat →
  records (foldl (flip telemetryStore_add) s ts) id =
    last_n 1000 (records s id ++ filter (λ t, tm_DeviceID t = id) ts).
Proof.
  revert s. induction ts as [|t ts IH]; intros s Hl; simpl.
  { by rewrite filter_nil, app_nil_r, last_n_short. }
  rewrite IH; unfold flip; rewrite records_add; rewrite ?filter_cons; case_bool_decide as Hd.
  - rewrite decide_True, last_n_app, <-app_assoc by done. done.
  - by rewrite decide_False.
  - rewrite length_last_n. lia.
  - done.
Qed.

Section messages_lemmas.
Context `{JSONLaws Telemetry} `{JSONLaws ControlCommand} (spare : bytes → bytes).

(** Within the length of the message [decodeMessage] does what [decodeFrame] of the
    other examples does. *)
Lemma decodeMessage_decodeFrame (sp data payload : bytes) (t : byte) :
  decodeFrame data = Ok (t, payload) → decodeMessage sp data = Ok (t, payload).
Proof.
  unfold decodeFrame, decodeMessage. intros E. destruct data as [|t' [|b1 [|b2 [|b3 [|b4 rest]]]]]; try done.
  destruct (Z.ltb_spec (Z.of_nat (length (t' :: b1 :: b2 :: b3 :: b4 :: rest)) - 5) (Uint32BE [b1; b2; b3; b4]));
    [done|]. destruct (Uint32BE_range [b1; b2; b3; b4] eq_refl) as [Hlo Hhi].
  destruct (Z.ltb_spec (uint32 (5 + Uint32BE [b1; b2; b3; b4])) 5) as [|Hge]; [done|]. injection E as <- <-.
  assert (uint32 (5 + Uint32BE [b1; b2; b3; b4]) = 5 + Uint32BE [b1; b2; b3; b4]) as Hu.
  { unfold uint32 in *. destruct (Z.lt_ge_cases (5 + Uint32BE [b1; b2; b3; b4]) (2 ^ 32)); [apply Z.mod_small; lia|].
    exfalso. revert Hge. rewrite <-(Z.mod_unique (5 + Uint32BE [b1; b2; b3; b4]) (2 ^ 32) 1 (5 + Uint32BE [b1; b2; b3; b4] - 2 ^ 32)); lia. }
  rewrite Hu. rewrite length_app. cbn [length] in *. cbn [orb].
  destruct (Z.ltb_spec (Z.of_nat (S (S (S (S (S (length rest))))) + length sp)) (5 + Uint32BE [b1; b2; b3; b4])); [lia|].
  rewrite take_app_le by lia. done.
Qed.

(** A length field that points past the message and what is behind it. *)
Lemma decodeMessage_panics (sp : bytes) (t b1 b2 b3 b4 : byte) (rest : bytes) :
  Z.of_nat (length (rest ++ sp)) < Uint32BE [b1; b2; b3; b4] < 2 ^ 32 - 5 →
  decodeMessage sp (t :: b1 :: b2 :: b3 :: b4 :: rest) = Panic "slice bounds out of range".
Proof.
  intros Hl. unfold decodeMessage. pose proof (Uint32BE_range [b1; b2; b3; b4] eq_refl).
  unfold uint32. rewrite Z.mod_small by lia.
  destruct (Z.ltb_spec (Z.of_nat (length ((t :: b1 :: b2 :: b3 :: b4 :: rest) ++ sp))) (5 + Uint32BE [b1; b2; b3; b4]))
    as [|Hge]; [by rewrite orb_true_r|].
  rewrite length_app in Hl, Hge. cbn [length] in Hge. lia.
Qed.

(** A reading that is encoded without loss and the acknowledgement it gets. *)
Definition acked (t : Telemetry) (msg ack : bytes) : Prop :=
  framed MsgTelemetry t msg ∧ framed MsgControlCommand (ack_command t) ack.

Lemma device_answer_telemetry t msg ack s :
  acked t msg ack → device_answer spare msg s = (Ok (Some ack), telemetryStore_add t s).
Proof.
  intros [(b & Ed & Ej)%framed_decode Ha]. unfold device_answer, lift, mbind, M_bind.
  rewrite (decodeMessage_decodeFrame _ _ _ _ Ed). cbn [fst snd]. rewrite bool_decide_true by done. unfold attempt.
  rewrite Ej. cbn [snd]. unfold modify, encodeCommand. by rewrite (framed_encode _ _ _ Ha).
Qed.

Lemma device_answer_all ts msgs acks s :
  Forall3 acked ts msgs acks →
  answer_all (device_answer spare) msgs s = (Ok acks, foldl (flip telemetryStore_add) s ts).
Proof.
  intros Hf. revert s. induction Hf as [|t m a ts msgs acks Ha _ IH]; intros s; [done|]. simpl.
  rewrite (bind_run _ _ _ _ _ (device_answer_telemetry _ _ _ s Ha)), (bind_run _ _ _ _ _ (IH _)). done.
Qed.

Lemma command_of_ack t msg ack : acked t msg ack → command_of spare ack = Ok (Some (Ok (ack_command t))).
Proof.
  intros [_ (b & Ed & Ej)%framed_decode]. unfold command_of.
  rewrite (decodeMessage_decodeFrame _ _ _ _ Ed), bool_decide_true by done. by rewrite Ej.
Qed.

Lemma acked_messages ts msgs acks : Forall3 acked ts msgs acks → Forall2 (λ t m, encodeTelemetry t = Ok m) ts msgs.
Proof. induction 1 as [|t m a ts ms acks [Hm _] _ IH]; constructor; [by apply framed_encode|done]. Qed.

Lemma acked_answers ts msgs acks :
  Forall3 acked ts msgs acks → Forall2 (λ t r, command_of spare r = Ok (Some (Ok (ack_command t)))) ts acks.
Proof. induction 1; constructor; [by eapply command_of_ack|done]. Qed.

End messages_lemmas.

(** ** Properties *)

(** The readings of the client's ten rounds. *)
Definition readings (deviceID : string) (clock : Z → Z) : list Telemetry :=
  (λ i, reading deviceID (i, clock i)) <$> seqZ 0 10.

(** A device and the server talk to each other.  When nothing fails, the client
    is acknowledged each of its ten readings, and the server ends with, for every
    device, the last thousand of the readings it had and those it was sent; it never
    keeps more. *)
Theorem iot_session {N Nc} `{ConnLaws N} `{!ReliableConn N} `{Conn Nc} `{!ConnLaws Nc} `{!ReliableConn Nc} `{NoiseLaws}
    `{JSONLaws Telemetry} `{JSONLaws ControlCommand} (spare : bytes → bytes) (ec es : bytes) (kc ks : KeyPair)
    (deviceID : string) (clock : Z → Z) (msgs acks : list bytes) (nc : Nc) (n : N) (s : telemetryStore) (fuel : nat) :
  let ts := readings deviceID clock in
  Forall3 acked ts msgs acks → conversation ec kc es ks msgs acks nc n → (10 < fuel)%nat →
  (∀ id, (telemetryStore_count id s ≤ 1000)%nat) →
  (∃ nc', runClient spare ec kc deviceID clock nc = (Ok ((λ t, Some (Ok (ack_command t))) <$> ts), nc')) ∧
  ∃ n' s', handleDevice spare fuel es ks (n, s) = (Ok tt, (n', s')) ∧
    (∀ id, records s' id = last_n 1000 (records s id ++ filter (λ t, tm_DeviceID t = id) ts)) ∧
    (∀ id, (telemetryStore_count id s' ≤ 1000)%nat).
Proof.
  intros ts Hf Hconv Hfuel Hs. pose proof (Forall3_length_lm _ _ _ _ Hf) as Hlm.
  pose proof (Forall3_length_lr _ _ _ _ Hf) as Hlr. assert (length ts = 10%nat) as Hts by done. split.
  - apply (conversation_client ec kc es ks _ _ _ _ _ _ _ _ Hconv); [| |congruence].
    + apply (Forall2_fmap_l _ (λ t m, encodeTelemetry t = Ok m)). eapply acked_messages, Hf.
    + apply Forall2_fmap_r, Forall2_flip. eapply acked_answers, Hf.
  - destruct (conversation_server ec kc es ks (device_answer spare) id _ _ _ _ s _ fuel Hconv
      (device_answer_all spare _ _ _ s Hf)) as [n' E]; [lia|].
    eexists n', _. split; [exact E|]. assert (Hr := λ id, records_adds ts s id (Hs id)).
    split; [exact Hr|]. intros id. unfold telemetryStore_count. rewrite Hr, length_last_n. lia.
Qed.

(** A frame whose length field points past the message panics in
    [decodeMessage]; what that does to the server is in [IotServer]. *)
Theorem malformed_frame_crashes {N} `{ConnLaws N} `{NoiseLaws} `{JSON Telemetry} `{JSON ControlCommand}
    (spare : bytes → bytes) (b1 b2 b3 b4 t : byte) (rest ct : bytes) (cts : list bytes) (c c' s : NoiseSession)
    (n : N) (st : telemetryStore) (fuel : nat) :
  let pt := t :: b1 :: b2 :: b3 :: b4 :: rest in
  Z.of_nat (length (rest ++ spare pt)) < Uint32BE [b1; b2; b3; b4] < 2 ^ 32 - 5 →
  in_step (ns_Send c) (ns_Recv s) → NoiseSession_Encrypt pt c = (Ok ct, c') → conn_unread n (ct :: cts) →
  ∃ w', serve_loop (device_answer spare) (S fuel) (mkGwW s n st) = (Panic "slice bounds out of range", w').
Proof.
  intros pt Hl Hs Ec Hu. eapply (serve_loop_panics _ _ _ _ st _ _ _ _ _ st); [done..|].
  unfold device_answer, lift, mbind, M_bind. by rewrite (decodeMessage_panics _ _ _ _ _ _ _ Hl : decodeMessage (spare pt) pt = _).
Qed.

(** ** Witnesses *)

#[local] Instance Telemetry_eq_dec : EqDecision Telemetry.
Proof. solve_decision. Defined.

#[local] Instance ControlCommand_eq_dec : EqDecision ControlCommand.
Proof. solve_decision. Defined.

#[local] Existing Instance toy_noise.
#[local] Existing Instance toy_noise_laws.

Definition example_readings : list Telemetry := readings "sensor-001" (λ i, 1000 + i).

#[local] Instance telemetry_json : JSON Telemetry := table_json example_readings.
#[local] Instance telemetry_json_laws : JSONLaws Telemetry := table_json_laws example_readings.
#[local] Instance command_json : JSON ControlCommand := table_json (ack_command <$> example_readings).
#[local] Instance command_json_laws : JSONLaws ControlCommand := table_json_laws (ack_command <$> example_readings).

Definition example_msgs : list bytes := (λ i, message MsgTelemetry (replicate i x31)) <$> seq 0 10.
Definition example_acks : list bytes := replicate 10 (message MsgControlCommand []).

Lemma example_acked : Forall3 acked example_readings example_msgs example_acks.
Proof.
  unfold example_readings, readings, example_msgs, example_acks. cbn [seqZ seq fmap list_fmap replicate].
  repeat (constructor; [split; framed_in_table|]). constructor.
Qed.

Definition example_spare : bytes → bytes := λ _, [].

Lemma iot_session_witness :
  (∃ nc', runClient example_spare [] toy_key "sensor-001" (λ i, 1000 + i) (toy_client_end example_acks) =
     (Ok ((λ t, Some (Ok (ack_command t))) <$> example_readings), nc')) ∧
  ∃ n' s', handleDevice example_spare 11 [] toy_key (toy_server_end example_msgs, newStore) = (Ok tt, (n', s')) ∧
    telemetryStore_count "sensor-001" s' = 10%nat.
Proof.
  destruct (iot_session example_spare [] [] toy_key toy_key "sensor-001" (λ i, 1000 + i) example_msgs example_acks
    (toy_client_end example_acks) (toy_server_end example_msgs) newStore 11 example_acked (toy_conversation _ _))
    as [Hc (n' & s' & Es & Hr & _)].
  - lia.
  - intros id. unfold telemetryStore_count, records, newStore. rewrite lookup_empty. simpl. lia.
  - split; [exact Hc|]. exists n', s'. split; [exact Es|]. unfold telemetryStore_count. rewrite Hr. vm_compute. reflexivity.
Defined.

Lemma malformed_frame_crashes_witness :
  ∃ w', serve_loop (device_answer example_spare) 1
    (mkGwW (example_server 0) (mkMemConn [[x61; x01; x00; x00; x00; x01]] [] "client") newStore)
    = (Panic "slice bounds out of range", w').
Proof.
  apply (malformed_frame_crashes example_spare x00 x00 x00 x01 x01 [] [x61; x01; x00; x00; x00; x01] []
    (example_client 0) (example_client 1) (example_server 0) _ _ 0).
  - vm_compute. done.
  - reflexivity.
  - reflexivity.
  - reflexivity.
Defined.
