(* ===== verification/Finance.v ===== *)
(** * The trading example

    [examples/finance-orders]: traders send orders signed with Ed25519; the server
    verifies each signature, records the order and answers with an execution id. *)
From S2P Require Import Prelude Bytes Wire SenderKeys Noise Conn Gateway Float64 ExampleLoop.

Local Open Scope Z_scope.

(** ** messages.go *)

Definition MsgOrder : byte := x01.
Definition MsgOrderResponse : byte := x02.

Record Order := mkOrder {
  o_OrderID : string;
  o_Instrument : string;
  o_Side : string;
  o_Quantity : float64;
  o_Price : float64;
  o_TimestampMs : Z;
}.

Record SignedOrder := mkSignedOrder { so_Order : bytes; so_Signature : bytes; so_PublicKey : bytes }.

Record OrderResponse := mkOrderResponse { or_OrderID : string; or_Status : string; or_Message : string }.

Record SigningKey := mkSigningKey { sg_Public : bytes; sg_Private : bytes }.

(** [err.Error()] *)
Fixpoint error_Error (e : error) : string :=
  match e with
  | Errorf msg => msg
  | Wrap msg cause => msg +:+ ": " +:+ error_Error cause
  end.

(** ** server.go: the book *)

Record orderBook := mkOrderBook { ob_orders : list Order; ob_seq : Z }.

(** [&orderBook{}] *)
Definition new_book : orderBook := mkOrderBook [] 0.

Definition orderBook_accept (o : Order) : M orderBook string := λ ob,
  let seq := int64 (ob_seq ob + 1) in
  (Ok ("accepted-" +:+ FormatInt seq), mkOrderBook (ob_orders ob ++ [o]) seq).

Definition orderBook_count (ob : orderBook) : nat := length (ob_orders ob).

Section finance.
Context `{Ed25519} `{JSON Order} `{JSON SignedOrder} `{JSON OrderResponse}.

(** [pair] is what [ed25519.GenerateKey] gives. *)
Definition GenerateSigningKey (pair : result (bytes * bytes)) : result SigningKey :=
  match pair with
  | Ok (pub, priv) => Ok (mkSigningKey pub priv)
  | Err e => Err (Wrap "ed25519 keygen" e)
  | Panic why => Panic why
  end.

Definition signOrder (key : SigningKey) (order : Order) : result bytes :=
  match json_Marshal order with
  | Ok orderBytes =>
      match Sign (sg_Private key) orderBytes with
      | Ok sig => encode MsgOrder (mkSignedOrder orderBytes sig (sg_Public key))
      | Err e => Err e
      | Panic why => Panic why
      end
  | Err e => Err e
  | Panic why => Panic why
  end.

Definition verifyOrder (signedBytes : bytes) : result Order :=
  match json_Unmarshal (A:=SignedOrder) signedBytes with
  | Ok signed =>
      match Verify (so_PublicKey signed) (so_Order signed) (so_Signature signed) with
      | Ok true =>
          match json_Unmarshal (A:=Order) (so_Order signed) with
          | Ok order => Ok order
          | Err e => Err (Wrap "unmarshal order" e)
          | Panic why => Panic why
          end
      | Ok false => Err (Errorf "invalid Ed25519 signature")
      | Err e => Err e
      | Panic why => Panic why
      end
  | Err e => Err (Wrap "unmarshal signed" e)
  | Panic why => Panic why
  end.

Definition encodeResponse (resp : OrderResponse) : result bytes := encode MsgOrderResponse resp.

(** ** server.go: the handler *)

Definition trader_answer (pt : bytes) : M orderBook (option bytes) :=
  x ← attempt (lift (decodeFrame pt));
  match x.2 with
  | None => mret None
  | Some (msgType, payload) =>
      if bool_decide (msgType = MsgOrder) then
        order ← attempt (lift (verifyOrder payload));
        match order with
        | (Some err, _) =>
            respBytes ← lift (or_nil (encodeResponse (mkOrderResponse "" "rejected" (error_Error err))));
            mret (Some respBytes)
        | (None, Some order) =>
            execID ← orderBook_accept order;
            respBytes ← lift (or_nil (encodeResponse (mkOrderResponse (o_OrderID order) "filled" execID)));
            mret (Some respBytes)
        | (None, None) => mret None
        end
      else mret None
  end.

Definition handleTrader {N} `{Conn N} `{Noise} : nat → bytes → KeyPair → M (N * orderBook) unit :=
  serve trader_answer id.

(** ** server.go: the client *)

(** The orders it sends; [clock] gives the time of each. *)
Definition client_orders (clock : nat → Z) : list Order := [
  mkOrder "ORD-001" "BTC/USD" "buy" (f_dec 5 1) (f_of_Z 65000) (clock 0%nat);
  mkOrder "ORD-002" "ETH/USD" "sell" (f_of_Z 10) (f_of_Z 3200) (clock 1%nat);
  mkOrder "ORD-003" "BTC/USD" "buy" (f_of_Z 1) (f_of_Z 64999) (clock 2%nat)
].

(** What it makes of an answer, ignoring errors. *)
Definition response_of (respPT : bytes) : result (result OrderResponse) :=
  match decodeFrame respPT with
  | Ok (_, respPayload) => Ok (json_Unmarshal respPayload)
  | Err _ => Ok (json_Unmarshal [])
  | Panic why => Panic why
  end.

(** [runClient] on the connection it dials. *)
Definition runTrader {N} `{Conn N} `{Noise} (entropy : bytes) (clientKey : KeyPair) (sigKey : SigningKey)
    (clock : nat → Z) : M N (list (result OrderResponse)) :=
  connected entropy clientKey (client_loop (signOrder sigKey) response_of (client_orders clock)).

(** ** What the book should hold *)

(** The order in a message, if the message carries one whose signature verifies. *)
Definition order_of (pt : bytes) : option Order :=
  match decodeFrame pt with
  | Ok (msgType, payload) =>
      if bool_decide (msgType = MsgOrder) then
        match verifyOrder payload with Ok order => Some order | _ => None end
      else None
  | _ => None
  end.

(** The execution ids handed out so far are the numbers from 1. *)
Definition book_ok (ob : orderBook) : Prop := ob_seq ob = Z.of_nat (orderBook_count ob).

End finance.

(** ** Lemmas *)

Section finance_lemmas.
Context `{Ed25519Laws} `{JSONLaws Order} `{JSONLaws SignedOrder} `{JSONLaws OrderResponse}.
Implicit Types (o : Order) (ob : orderBook).

(** A signed order as the server reads it. *)
Definition signed_with (key : SigningKey) o (m : bytes) : Prop :=
  signOrder key o = Ok m ∧ json_faithful o ∧ Z.of_nat (length m) < 2 ^ 32 ∧
  ∀ b sig, json_Marshal o = Ok b → Sign (sg_Private key) b = Ok sig → json_faithful (mkSignedOrder b sig (sg_Public key)).

Lemma order_of_signed key o m :
  ed_pair (sg_Public key) (sg_Private key) → signed_with key o m → order_of m = Some o.
Proof.
  intros Hk (Es & Ho & Hl & Hso). unfold signOrder in Es. destruct (json_Marshal o) as [ob| |] eqn:Eo; [|done..].
  destruct (Sign (sg_Private key) ob) as [sig| |] eqn:Esig; [|done..].
  apply encode_inv in Es as (payload & Ep & ->). unfold order_of.
  destruct (message_cons MsgOrder payload) as (b1 & b2 & b3 & b4 & _ & Em). rewrite Em in Hl. cbn [length] in Hl.
  rewrite decodeFrame_message by lia. rewrite bool_decide_true by done. unfold verifyOrder.
  rewrite (json_roundtrip _ _ (Hso _ _ eq_refl Esig) Ep). simpl. rewrite (Verify_Sign _ _ _ _ Hk Esig).
  by rewrite (json_roundtrip _ _ Ho Eo).
Qed.

(** What an accepted order was. *)
Lemma order_of_inv pt o :
  order_of pt = Some o →
  ∃ len payload rest signed, pt = MsgOrder :: len ++ payload ++ rest ∧ length len = 4%nat ∧
    json_Unmarshal payload = Ok signed ∧
    Verify (so_PublicKey signed) (so_Order signed) (so_Signature signed) = Ok true ∧
    json_Unmarshal (so_Order signed) = Ok o.
Proof.
  unfold order_of. destruct (decodeFrame pt) as [[t payload]| |] eqn:Ed; [|done..].
  case_bool_decide; [subst t|done]. apply decodeFrame_inv in Ed as (len & rest & -> & Hl). unfold verifyOrder.
  destruct (json_Unmarshal payload) as [signed| |] eqn:Es; [|done..].
  destruct (Verify _ _ _) as [[]| |] eqn:Ev; [|done..].
  destruct (json_Unmarshal (so_Order signed)) as [o'| |] eqn:Eo; [|done..]. intros [= <-].
  by exists len, payload, rest, signed.
Qed.

(** One message adds the order it carries, if it carries one, and only that. *)
Lemma trader_answer_book pt ob r ob' :
  trader_answer pt ob = (Ok r, ob') → book_ok ob → Z.of_nat (orderBook_count ob) < MaxInt64 →
  ob_orders ob' = ob_orders ob ++ option_list (order_of pt) ∧ book_ok ob'.
Proof.
  unfold trader_answer, order_of, lift, attempt, mbind, M_bind, mret, M_ret. intros E Hok Hlt.
  destruct (decodeFrame pt) as [[t payload]| |]; simpl in E; [|injection E as _ <-; by rewrite app_nil_r|done].
  case_bool_decide; [|injection E as _ <-; by rewrite app_nil_r].
  destruct (verifyOrder payload) as [o| |]; simpl in E; [| |done].
  - unfold orderBook_accept in E. destruct (or_nil _); [|done..]. injection E as _ <-. split; [done|].
    unfold book_ok, orderBook_count in *. simpl. rewrite length_app. simpl. rewrite Hok.
    rewrite int64_small; [lia|]. unfold MinInt64, MaxInt64 in *. lia.
  - destruct (or_nil _); [|done..]. injection E as _ <-. by rewrite app_nil_r.
Qed.

Lemma trader_answer_all_book pts ob rs ob' :
  answer_all trader_answer pts ob = (Ok rs, ob') → book_ok ob →
  Z.of_nat (orderBook_count ob + length pts) ≤ MaxInt64 →
  ob_orders ob' = ob_orders ob ++ omap order_of pts ∧ book_ok ob'.
Proof.
  revert ob rs. induction pts as [|pt pts IH]; intros ob rs E Hok Hlt; simpl in E.
  { injection E as _ <-. by rewrite app_nil_r. }
  apply bind_Ok_inv in E as (r & ob1 & E1 & E). apply bind_Ok_inv in E as (rs' & ob2 & E2 & E). injection E as _ <-.
  simpl in Hlt. destruct (trader_answer_book _ _ _ _ E1 Hok) as [Ho1 Hok1]; [lia|].
  destruct (IH ob1 rs' E2 Hok1) as [Ho2 Hok2].
  { unfold orderBook_count in *. rewrite Ho1, length_app. destruct (order_of pt); simpl; lia. }
  split; [|done]. rewrite Ho2, Ho1, <-app_assoc. simpl. by destruct (order_of pt).
Qed.

(** The answers to valid orders: executions numbered on from [k]. *)
Definition fills (k : Z) (orders : list Order) : list OrderResponse :=
  imap (λ i o, mkOrderResponse (o_OrderID o) "filled" ("accepted-" +:+ FormatInt (k + 1 + Z.of_nat i))) orders.

Lemma fills_cons k o os :
  fills k (o :: os) = mkOrderResponse (o_OrderID o) "filled" ("accepted-" +:+ FormatInt (k + 1)) :: fills (k + 1) os.
Proof.
  unfold fills. rewrite imap_cons. f_equal; [by rewrite Z.add_0_r|]. apply imap_ext. intros i x _. unfold compose.
  by replace (k + 1 + Z.of_nat (S i)) with (k + 1 + 1 + Z.of_nat i) by lia.
Qed.

Lemma trader_answer_all_fills key orders msgs ob rs :
  ed_pair (sg_Public key) (sg_Private key) → Forall2 (signed_with key) orders msgs →
  Forall2 (framed MsgOrderResponse) (fills (ob_seq ob) orders) rs → 0 ≤ ob_seq ob → ob_seq ob + Z.of_nat (length orders) ≤ MaxInt64 →
  answer_all trader_answer msgs ob =
    (Ok rs, mkOrderBook (ob_orders ob ++ orders) (ob_seq ob + Z.of_nat (length orders))).
Proof.
  intros Hk Hs. revert ob rs. induction Hs as [|o m orders msgs Ho _ IH]; intros ob rs Hr Hpos Hmax.
  { inversion Hr; subst. simpl. rewrite app_nil_r, Z.add_0_r. by destruct ob. }
  rewrite fills_cons in Hr. inversion Hr as [|? r ? rs' Hf Hr']; subst. simpl in Hmax.
  assert (Ea : trader_answer m ob =
    (Ok (Some r), mkOrderBook (ob_orders ob ++ [o]) (ob_seq ob + 1))).
  { pose proof (order_of_signed key o m Hk Ho) as Hord. unfold order_of in Hord. unfold trader_answer, lift, attempt, mbind, M_bind.
    destruct (decodeFrame m) as [[t payload]| |]; [|done..]. simpl. case_bool_decide; [|done].
    destruct (verifyOrder payload) as [o'| |]; [|done..]. injection Hord as ->. simpl.
    unfold encodeResponse. rewrite int64_small by (unfold MinInt64, MaxInt64 in *; lia). by rewrite (framed_encode _ _ _ Hf). }
  simpl. rewrite (bind_run _ _ _ _ _ Ea).
  rewrite (bind_run _ _ _ _ _ (IH (mkOrderBook (ob_orders ob ++ [o]) (ob_seq ob + 1)) rs' Hr' ltac:(simpl; lia) ltac:(simpl; lia))).
  unfold mret, M_ret. cbn [ob_orders ob_seq length]. rewrite <-app_assoc.
  by replace (ob_seq ob + 1 + Z.of_nat (length orders)) with (ob_seq ob + Z.of_nat (S (length orders))) by lia.
Qed.

Lemma response_of_framed resp r : framed MsgOrderResponse resp r → response_of r = Ok (Ok resp).
Proof. intros (b & Ed & Ej)%framed_decode. unfold response_of. by rewrite Ed, Ej. Qed.

End finance_lemmas.

(** ** Properties *)

(** The trading client and the server talk to each other.  When nothing fails,
    the server ends with the client's three orders in its book behind those it had, and
    the client is told for each that it was filled, with the next execution id. *)
Theorem trading_session {N Nc} `{ConnLaws N} `{!ReliableConn N} `{Conn Nc} `{!ConnLaws Nc} `{!ReliableConn Nc} `{NoiseLaws}
    `{Ed25519Laws} `{JSONLaws Order} `{JSONLaws SignedOrder} `{JSONLaws OrderResponse}
    (ec es : bytes) (kc ks : KeyPair) (sigKey : SigningKey) (clock : nat → Z) (msgs rs : list bytes) (nc : Nc) (n : N)
    (book : orderBook) (fuel : nat) :
  let orders := client_orders clock in
  ed_pair (sg_Public sigKey) (sg_Private sigKey) → Forall2 (signed_with sigKey) orders msgs →
  book_ok book → Z.of_nat (orderBook_count book) + 3 ≤ MaxInt64 →
  Forall2 (framed MsgOrderResponse) (fills (Z.of_nat (orderBook_count book)) orders) rs →
  conversation ec kc es ks msgs rs nc n → (3 < fuel)%nat →
  (∃ nc', runTrader ec kc sigKey clock nc = (Ok (Ok <$> fills (Z.of_nat (orderBook_count book)) orders), nc')) ∧
  ∃ n' book', handleTrader fuel es ks (n, book) = (Ok tt, (n', book')) ∧
    ob_orders book' = ob_orders book ++ orders ∧ book_ok book'.
Proof.
  intros orders Hk Hs Hok Hmax Hr Hconv Hfuel. pose proof (Forall2_length _ _ _ Hs) as Hl1.
  pose proof (Forall2_length _ _ _ Hr) as Hl2. unfold fills in Hl2. rewrite length_imap in Hl2.
  assert (length orders = 3%nat) as Hthree by done. split.
  - apply (conversation_client ec kc es ks _ _ _ _ _ _ _ _ Hconv); [| |congruence].
    + eapply Forall2_impl; [exact Hs|]. by intros o m [? _].
    + apply Forall2_fmap_r, Forall2_flip. eapply Forall2_impl; [exact Hr|]. intros resp r. apply response_of_framed.
  - unfold book_ok in Hok. rewrite <-Hok in Hr, Hmax.
    destruct (conversation_server ec kc es ks trader_answer id _ _ _ _ book _ fuel Hconv
      (trader_answer_all_fills sigKey _ _ book rs Hk Hs Hr ltac:(lia) ltac:(rewrite Hthree; lia))) as [n' E]; [lia|].
    eexists n', _. split; [exact E|]. split; [done|]. unfold book_ok, orderBook_count. simpl.
    rewrite length_app, Nat2Z.inj_add, Hok. done.
Qed.

(** Only signed orders get into the book.  Whatever a client sends and however
    many answers are lost, when the handler's loop ends the book has grown by exactly
    the orders whose signature verified, in the order they were sent, and by nothing
    else; the execution ids stay in step with it. *)
Theorem book_accepts_signed {N} `{ConnLaws N} `{NoiseLaws}
    `{Ed25519Laws} `{JSONLaws Order} `{JSONLaws SignedOrder} `{JSONLaws OrderResponse}
    (ps cts : list bytes) (c c1 s : NoiseSession) (n : N) (book book1 : orderBook) (rs : list bytes) (fuel : nat) :
  (∀ x p why, (cs_Encrypt x p).1 ≠ Panic why) → (∀ m (n : N) why, (conn_WriteMessage m n).1 ≠ Panic why) →
  in_step (ns_Send c) (ns_Recv s) → encrypt_seq ps c = (Ok cts, c1) → conn_unread n cts →
  answer_all trader_answer ps book = (Ok rs, book1) → (length ps < fuel)%nat →
  book_ok book → Z.of_nat (orderBook_count book + length ps) ≤ MaxInt64 →
  ∃ w', serve_loop trader_answer fuel (mkGwW s n book) = (Ok tt, w') ∧
    ob_orders (gw_disp w') = ob_orders book ++ omap order_of ps ∧ book_ok (gw_disp w') ∧
    ∀ o, o ∈ omap order_of ps → ∃ len payload rest signed,
      MsgOrder :: len ++ payload ++ rest ∈ ps ∧ json_Unmarshal payload = Ok signed ∧
      Verify (so_PublicKey signed) (so_Order signed) (so_Signature signed) = Ok true ∧
      json_Unmarshal (so_Order signed) = Ok o.
Proof.
  intros He Hw Hs Ec Hu Ea Hfuel Hok Hmax.
  destruct (serve_loop_handles trader_answer _ _ _ _ _ _ _ _ _ _ He Hw Hs Ec Hu Ea Hfuel) as (w' & El & Hd).
  exists w'. rewrite Hd. destruct (trader_answer_all_book _ _ _ _ Ea Hok Hmax) as [Ho Hok'].
  split_and!; [done..|]. intros o (pt & Hpt & E)%list_elem_of_omap.
  apply order_of_inv in E as (len & payload & rest & signed & -> & _ & Hj & Hv & Hu'). by exists len, payload, rest, signed.
Qed.

(** A signed order with a public key of the wrong length: [ed25519.Verify] panics; what
    that does to the server is in [FinanceServer]. *)
Theorem bad_key_crashes {N} `{ConnLaws N} `{NoiseLaws} `{Ed25519Laws} `{JSON Order} `{JSON SignedOrder} `{JSON OrderResponse}
    (pt payload ct : bytes) (signed : SignedOrder) (cts : list bytes) (c c' s : NoiseSession)
    (n : N) (book : orderBook) (fuel : nat) :
  decodeFrame pt = Ok (MsgOrder, payload) → json_Unmarshal payload = Ok signed →
  length (so_PublicKey signed) ≠ PublicKeySize →
  in_step (ns_Send c) (ns_Recv s) → NoiseSession_Encrypt pt c = (Ok ct, c') → conn_unread n (ct :: cts) →
  ∃ w', serve_loop trader_answer (S fuel) (mkGwW s n book) = (Panic "ed25519: bad public key length", w').
Proof.
  intros Ed Ej Hl Hs Ec Hu. eapply (serve_loop_panics _ _ _ _ book _ _ _ _ _ book); [done..|].
  unfold trader_answer, attempt, lift, mbind, M_bind. rewrite Ed. simpl. unfold verifyOrder.
  by rewrite Ej, (Verify_bad_key _ _ _ Hl).
Qed.

(** ** Witnesses *)

#[local] Instance Order_eq_dec : EqDecision Order.
Proof. solve_decision. Defined.

#[local] Instance SignedOrder_eq_dec : EqDecision SignedOrder.
Proof. solve_decision. Defined.

#[local] Instance OrderResponse_eq_dec : EqDecision OrderResponse.
Proof. solve_decision. Defined.

#[local] Existing Instance toy_noise.
#[local] Existing Instance toy_noise_laws.
#[local] Existing Instance toy_ed25519.
#[local] Existing Instance toy_ed25519_laws.

Definition example_clock : nat → Z := λ i, 1000 + Z.of_nat i.
Definition example_key : SigningKey := mkSigningKey (replicate 32 x07) (replicate 32 x07).

#[local] Instance order_json : JSON Order := table_json (client_orders example_clock).
#[local] Instance order_json_laws : JSONLaws Order := table_json_laws _.

Definition example_signed : list SignedOrder :=
  (λ i, let b := replicate i x31 in mkSignedOrder b (sg_Private example_key ++ b) (sg_Public example_key)) <$> seq 0 3.

Definition example_forged : SignedOrder := mkSignedOrder [] [] (sg_Public example_key).

#[local] Instance signed_json : JSON SignedOrder := table_json (example_signed ++ [example_forged; mkSignedOrder [] [] []]).
#[local] Instance signed_json_laws : JSONLaws SignedOrder := table_json_laws _.

Definition example_fills : list OrderResponse := fills 0 (client_orders example_clock).

#[local] Instance response_json : JSON OrderResponse := table_json (mkOrderResponse "" "rejected" "invalid Ed25519 signature" :: example_fills).
#[local] Instance response_json_laws : JSONLaws OrderResponse := table_json_laws _.

Definition example_orders : list bytes := (λ i, message MsgOrder (replicate i x31)) <$> seq 0 3.
Definition example_responses : list bytes := (λ i, message MsgOrderResponse (replicate i x31)) <$> seq 1 3.

Lemma example_signed_with : Forall2 (signed_with example_key) (client_orders example_clock) example_orders.
Proof.
  unfold client_orders, example_orders. cbn [seq fmap list_fmap].
  repeat (apply Forall2_cons; split; [unfold signed_with; split_and!; [vm_compute; reflexivity|in_table|vm_compute; reflexivity|]|]).
  4: constructor.
  all: intros b sig Eb Es; vm_compute in Eb; injection Eb as <-; injection Es as <-; in_table.
Qed.

Lemma example_framed : Forall2 (framed MsgOrderResponse) (fills 0 (client_orders example_clock)) example_responses.
Proof.
  unfold fills, client_orders, example_responses. cbn [imap seq fmap list_fmap].
  repeat (apply Forall2_cons; split; [framed_in_table|]). constructor.
Qed.

Lemma trading_session_witness :
  (∃ nc', runTrader [] toy_key example_key example_clock (toy_client_end example_responses) = (Ok (Ok <$> example_fills), nc')) ∧
  ∃ n' book', handleTrader 4 [] toy_key (toy_server_end example_orders, new_book) = (Ok tt, (n', book')) ∧
    ob_orders book' = client_orders example_clock ∧ book_ok book'.
Proof.
  apply (trading_session [] [] toy_key toy_key example_key example_clock example_orders example_responses
    (toy_client_end example_responses) (toy_server_end example_orders) new_book 4).
  - by split.
  - exact example_signed_with.
  - reflexivity.
  - vm_compute. discriminate.
  - exact example_framed.
  - apply toy_conversation.
  - lia.
Defined.

Lemma book_accepts_signed_witness :
  let ps := [message MsgOrder []; message MsgOrder (replicate 3 x31); [x01]] in
  ∃ w', serve_loop trader_answer 4 (mkGwW (example_server 0) (mkMemConn (cons x61 <$> ps) [] "client") new_book) = (Ok tt, w') ∧
    ob_orders (gw_disp w') = take 1 (client_orders example_clock).
Proof.
  intros ps.
  destruct (book_accepts_signed ps (cons x61 <$> ps) (example_client 0) (example_client 3) (example_server 0)
    (mkMemConn (cons x61 <$> ps) [] "client") new_book (mkOrderBook (take 1 (client_orders example_clock)) 1)
    [message MsgOrderResponse [x31]; message MsgOrderResponse []] 4) as (w' & E & Ho & _).
  - intros x p why. discriminate.
  - intros m n why. discriminate.
  - reflexivity.
  - reflexivity.
  - reflexivity.
  - vm_compute. reflexivity.
  - simpl. lia.
  - reflexivity.
  - vm_compute. discriminate.
  - exists w'. split; [exact E|]. rewrite Ho. vm_compute. reflexivity.
Defined.

Lemma bad_key_crashes_witness :
  let pt := message MsgOrder (replicate 4 x31) in
  ∃ w', serve_loop trader_answer 1 (mkGwW (example_server 0) (mkMemConn [x61 :: pt] [] "client") new_book)
    = (Panic "ed25519: bad public key length", w').
Proof.
  intros pt. apply (bad_key_crashes pt (replicate 4 x31) (x61 :: pt) (mkSignedOrder [] [] []) [] (example_client 0)
    (example_client 1) (example_server 0) (mkMemConn [x61 :: pt] [] "client") new_book 0); try (vm_compute; reflexivity).
  discriminate.
Defined.
