(* ===== verification/Game.v ===== *)
(** * The game example

    [examples/game-realtime]: players move and attack in a shared world; every message
    of a player is answered with the state of the world. *)
From S2P Require Import Prelude Bytes Wire Noise Conn Gateway Float64 ExampleLoop.

Local Open Scope Z_scope.

(** ** messages.go *)

Definition MsgGameAction : byte := x01.
Definition MsgStateUpdate : byte := x02.

Record Vec2 := mkVec2 { v_X : float64; v_Y : float64 }.

Record GameAction := mkGameAction {
  ga_PlayerID : string;
  ga_Action : string;
  ga_Direction : Vec2;
  ga_TargetID : string;
  ga_SequenceNum : Z;
  ga_TimestampMs : Z;
}.

Record PlayerState := mkPlayerState {
  ps_PlayerID : string;
  ps_Position : Vec2;
  ps_Health : Z;
  ps_Score : Z;
  ps_Alive : bool;
}.

Record StateUpdate := mkStateUpdate { su_Tick : Z; su_Players : list PlayerState }.

(** ** server.go: the world *)

(** The map holds pointers; two of its entries are the same player only when their keys
    are the same. *)
Record gameWorld := mkGameWorld { gw_players : gmap string PlayerState; gw_tick : Z }.

Definition newWorld : gameWorld := mkGameWorld ∅ 0.

Definition on_players (f : gmap string PlayerState → gmap string PlayerState) (w : gameWorld) : gameWorld :=
  mkGameWorld (f (gw_players w)) (gw_tick w).

Definition gameWorld_spawn (playerID : string) : gameWorld → gameWorld :=
  on_players (insert playerID (mkPlayerState playerID (mkVec2 (f_of_Z 0) (f_of_Z 0)) 100 0 true)).

(** [p.Position.X += d.X * speed; p.Position.Y += d.Y * speed] *)
Definition moved (d : Vec2) (p : PlayerState) : PlayerState :=
  let speed := f_of_Z 5 in
  mkPlayerState (ps_PlayerID p)
    (mkVec2 (f_add (v_X (ps_Position p)) (f_mul (v_X d) speed)) (f_add (v_Y (ps_Position p)) (f_mul (v_Y d) speed)))
    (ps_Health p) (ps_Score p) (ps_Alive p).

(** [dist < 50.0] *)
Definition in_range (p target : PlayerState) : bool :=
  let dx := f_sub (v_X (ps_Position target)) (v_X (ps_Position p)) in
  let dy := f_sub (v_Y (ps_Position target)) (v_Y (ps_Position p)) in
  f_lt (f_sqrt (f_add (f_mul dx dx) (f_mul dy dy))) (f_of_Z 50).

(** [target.Health -= 10; if target.Health <= 0 { target.Alive = false }] *)
Definition hit (target : PlayerState) : PlayerState :=
  let health := int64 (ps_Health target - 10) in
  mkPlayerState (ps_PlayerID target) (ps_Position target) health (ps_Score target)
    (if health <=? 0 then false else ps_Alive target).

(** [p.Score += 100] *)
Definition scored (p : PlayerState) : PlayerState :=
  mkPlayerState (ps_PlayerID p) (ps_Position p) (ps_Health p) (int64 (ps_Score p + 100)) (ps_Alive p).

(** The target's update first, then the attacker's: they may be the same player. *)
Definition gameWorld_applyAction (a : GameAction) (w : gameWorld) : gameWorld :=
  match gw_players w !! ga_PlayerID a with
  | None => w
  | Some p =>
      if negb (ps_Alive p) then w
      else if bool_decide (ga_Action a = "move") then
        on_players (insert (ga_PlayerID a) (moved (ga_Direction a) p)) w
      else if bool_decide (ga_Action a = "attack") then
        match gw_players w !! ga_TargetID a with
        | None => w
        | Some target =>
            if ps_Alive target && in_range p target then
              let w := on_players (insert (ga_TargetID a) (hit target)) w in
              if ps_Health (hit target) <=? 0 then on_players (alter scored (ga_PlayerID a)) w else w
            else w
        end
      else w
  end.

Section game.
Context `{RangeOrder}.

Definition gameWorld_snapshot : M gameWorld StateUpdate := λ w,
  let w := mkGameWorld (gw_players w) (uint64 (gw_tick w + 1)) in
  (Ok (mkStateUpdate (gw_tick w) (range (gw_players w)).*2), w).

Context `{JSON GameAction} `{JSON StateUpdate}.

Definition encodeAction (a : GameAction) : result bytes := encode MsgGameAction a.
Definition encodeStateUpdate (s : StateUpdate) : result bytes := encode MsgStateUpdate s.

(** ** server.go: the handler *)

(** [action.PlayerID = playerID] *)
Definition act_as (playerID : string) (a : GameAction) : GameAction :=
  mkGameAction playerID (ga_Action a) (ga_Direction a) (ga_TargetID a) (ga_SequenceNum a) (ga_TimestampMs a).

Definition send_state : M gameWorld (option bytes) :=
  state ← gameWorld_snapshot;
  stateMsg ← lift (or_nil (encodeStateUpdate state));
  mret (Some stateMsg).

Definition player_answer (playerID : string) (pt : bytes) : M gameWorld (option bytes) :=
  x ← attempt (lift (decodeFrame pt));
  match x.2 with
  | None => mret None
  | Some (msgType, payload) =>
      if bool_decide (msgType = MsgGameAction) then
        action ← attempt (lift (json_Unmarshal payload));
        match action.2 with
        | None => mret None
        | Some action => _ ← modify (gameWorld_applyAction (act_as playerID action)); send_state
        end
      else send_state
  end.

(** The player joins once the handshake is done, under the address of the connection. *)
Definition handlePlayer {N} `{Conn N} `{Noise} (fuel : nat) (entropy : bytes) (key : KeyPair) : M (N * gameWorld) unit := λ w,
  let playerID := conn_RemoteAddr w.1 in
  serve (player_answer playerID) (gameWorld_spawn playerID) fuel entropy key w.

(** ** server.go: the client *)

(** The actions it sends; [clock] gives the time of each. *)
Definition client_actions (playerID : string) (clock : nat → Z) : list GameAction := [
  mkGameAction playerID "move" (mkVec2 (f_of_Z 1) (f_of_Z 0)) "" 1 (clock 0%nat);
  mkGameAction playerID "move" (mkVec2 (f_of_Z 0) (f_of_Z 1)) "" 2 (clock 1%nat);
  mkGameAction playerID "move" (mkVec2 (f_of_Z (-1)) (f_of_Z 0)) "" 3 (clock 2%nat)
].

(** What it makes of an answer: the state in it, if it is one. *)
Definition state_of (respPT : bytes) : result (option (result StateUpdate)) :=
  match decodeFrame respPT with
  | Ok (respType, respPayload) =>
      if bool_decide (respType = MsgStateUpdate) then Ok (Some (json_Unmarshal respPayload)) else Ok None
  | Err _ => Ok None
  | Panic why => Panic why
  end.

(** [runClient] on the connection it dials. *)
Definition runPlayer {N} `{Conn N} `{Noise} (entropy : bytes) (clientKey : KeyPair) (playerID : string)
    (clock : nat → Z) : M N (list (option (result StateUpdate))) :=
  connected entropy clientKey (client_loop encodeAction state_of (client_actions playerID clock)).

End game.

(** ** The rules *)

(** What can happen to a world: a player joins under an address that is not in use, a
    player acts, a state is sent. *)
Inductive game_step `{RangeOrder} : gameWorld → gameWorld → Prop :=
| step_spawn w id : gw_players w !! id = None → game_step w (gameWorld_spawn id w)
| step_act w a : game_step w (gameWorld_applyAction a w)
| step_snapshot w : game_step w (gameWorld_snapshot w).2.

Definition player_ok (id : string) (p : PlayerState) : Prop :=
  ps_PlayerID p = id ∧ 0 ≤ ps_Health p ≤ 100 ∧ ps_Health p mod 10 = 0 ∧ ps_Alive p = (0 <? ps_Health p).

(** The sum of a quantity over the players. *)
Definition total (f : PlayerState → Z) (ps : gmap string PlayerState) : Z := map_fold (λ _ p acc, f p + acc) 0 ps.

Definition died (p : PlayerState) : Z := if ps_Alive p then 0 else 1.

(** Every player is well formed, and the points are those of the deaths. *)
Definition world_ok (w : gameWorld) : Prop :=
  map_Forall player_ok (gw_players w) ∧
  total ps_Score (gw_players w) mod 2 ^ 64 = (100 * total died (gw_players w)) mod 2 ^ 64.

(** ** Lemmas *)

Section totals.
Context (f : PlayerState → Z).
Implicit Types (ps : gmap string PlayerState) (p q : PlayerState).

Lemma total_fresh ps id p : ps !! id = None → total f (<[id := p]> ps) = f p + total f ps.
Proof. intros Hid. unfold total. rewrite map_fold_insert_L; [done|intros; lia|done]. Qed.

Lemma total_replace ps id p q : ps !! id = Some p → total f (<[id := q]> ps) = total f ps - f p + f q.
Proof.
  intros Hid. rewrite <-insert_delete_eq, total_fresh by apply lookup_delete_eq.
  rewrite <-(insert_delete_id ps id p Hid) at 2. rewrite total_fresh by apply lookup_delete_eq. lia.
Qed.

Lemma total_keep ps id p q : ps !! id = Some p → f q = f p → total f (<[id := q]> ps) = total f ps.
Proof. intros Hid Hf. rewrite (total_replace _ _ _ _ Hid). lia. Qed.

End totals.

Lemma hit_ok id p : player_ok id p → ps_Alive p = true →
  player_ok id (hit p) ∧ ps_Health (hit p) = ps_Health p - 10 ∧ ps_Alive (hit p) = (0 <? ps_Health (hit p)).
Proof.
  intros (Hid & Hh & Hm & Ha) Hal. rewrite Ha in Hal. apply Z.ltb_lt in Hal.
  assert (10 ≤ ps_Health p) as Hge.
  { pose proof (Z.div_mod (ps_Health p) 10 ltac:(lia)). destruct (Z.le_gt_cases (ps_Health p / 10) 0); lia. }
  assert (ps_Health (hit p) = ps_Health p - 10) as E.
  { simpl. apply int64_small. unfold MinInt64, MaxInt64. lia. }
  assert (ps_Alive (hit p) = (0 <? ps_Health (hit p))) as Ea.
  { rewrite E. simpl. simpl in E. rewrite E, Ha. destruct (Z.leb_spec (ps_Health p - 10) 0), (Z.ltb_spec 0 (ps_Health p - 10)), (Z.ltb_spec 0 (ps_Health p)); (done || lia). }
  split; [|done]. split_and!; [done| rewrite E; lia| rewrite E; lia| |done].
  rewrite E. rewrite <-Zminus_mod_idemp_l, Hm. done.
Qed.

(** A world in which one player is replaced by a well formed one. *)
Lemma players_ok_insert (ps : gmap string PlayerState) id p : map_Forall player_ok ps → player_ok id p → map_Forall player_ok (<[id := p]> ps).
Proof. intros Hps Hp. by apply map_Forall_insert_2. Qed.

Lemma alter_present (ps : gmap string PlayerState) (f : PlayerState → PlayerState) id q :
  ps !! id = Some q → alter f id ps = <[id := f q]> ps.
Proof.
  intros Hq. apply map_eq. intros i. destruct (decide (i = id)) as [->|].
  - by rewrite lookup_alter_eq, lookup_insert_eq, Hq.
  - by rewrite lookup_alter_ne, lookup_insert_ne.
Qed.

Lemma attack_ok w a p target :
  world_ok w → gw_players w !! ga_PlayerID a = Some p → gw_players w !! ga_TargetID a = Some target →
  ps_Alive target = true →
  let w1 := on_players (insert (ga_TargetID a) (hit target)) w in
  world_ok (if ps_Health (hit target) <=? 0 then on_players (alter scored (ga_PlayerID a)) w1 else w1).
Proof.
  intros [Hall Hsum] Hp Ht Hal w1. destruct (hit_ok _ _ (Hall _ _ Ht) Hal) as (Hok & Hh & Ha).
  assert (map_Forall player_ok (gw_players w1)) as Hall1 by (by apply players_ok_insert).
  assert (total ps_Score (gw_players w1) = total ps_Score (gw_players w)) as Hs1 by (by apply (total_keep _ _ _ target)).
  assert (Hd1 : total died (gw_players w1) = total died (gw_players w) + died (hit target)).
  { unfold w1, on_players. simpl. rewrite (total_replace _ _ _ target) by done. unfold died at 2. rewrite Hal. lia. }
  destruct (Z.leb_spec (ps_Health (hit target)) 0) as [Hle|Hgt].
  - assert (∃ q, gw_players w1 !! ga_PlayerID a = Some q) as [q Hq].
    { unfold w1. simpl. destruct (decide (ga_TargetID a = ga_PlayerID a)) as [->|]; [rewrite lookup_insert_eq|rewrite lookup_insert_ne]; eauto. }
    assert (E : gw_players (on_players (alter scored (ga_PlayerID a)) w1) = <[ga_PlayerID a := scored q]> (gw_players w1)).
    { by apply alter_present. }
    split; rewrite E.
    + apply players_ok_insert; [done|]. by apply Hall1 in Hq.
    + rewrite (total_keep died _ _ q) by done. rewrite (total_replace ps_Score _ _ q) by done. rewrite Hs1, Hd1.
      unfold died at 2. rewrite Ha, (proj2 (Z.ltb_ge _ _) Hle). cbn [ps_Score scored]. unfold int64.
      rewrite Z.mul_add_distr_l, <-(Z.add_mod_idemp_l (100 * total died (gw_players w))), <-Hsum, Z.add_mod_idemp_l by done.
      replace (total ps_Score (gw_players w) - ps_Score q + ((ps_Score q + 100 + 2 ^ 63) mod 2 ^ 64 - 2 ^ 63))
        with ((ps_Score q + 100 + 2 ^ 63) mod 2 ^ 64 + (total ps_Score (gw_players w) - ps_Score q - 2 ^ 63)) by lia.
      rewrite Z.add_mod_idemp_l by done. f_equal. lia.
  - split; [done|]. rewrite Hs1, Hd1. unfold died at 2. rewrite Ha, (proj2 (Z.ltb_lt _ _) Hgt). by rewrite Z.add_0_r.
Qed.

Lemma applyAction_ok a w : world_ok w → world_ok (gameWorld_applyAction a w).
Proof.
  intros Hw. unfold gameWorld_applyAction. destruct (gw_players w !! ga_PlayerID a) as [p|] eqn:Hp; [|done].
  destruct (ps_Alive p); [|done]. cbn [negb]. case_bool_decide.
  { destruct Hw as [Hall Hsum]. split; unfold on_players; cbn [gw_players].
    - apply players_ok_insert; [done|]. by apply Hall in Hp.
    - by rewrite (total_keep ps_Score _ _ p), (total_keep died _ _ p). }
  case_bool_decide; [|done]. destruct (gw_players w !! ga_TargetID a) as [target|] eqn:Ht; [|done].
  destruct (ps_Alive target) eqn:Hal; [|done]. destruct (in_range p target); [|done]. by eapply attack_ok.
Qed.

Lemma game_step_ok `{RangeOrder} w w' : world_ok w → game_step w w' → world_ok w'.
Proof.
  intros Hw Hstep. destruct Hstep as [w id Hid|w a|w]; [|by apply applyAction_ok|done].
  destruct Hw as [Hall Hsum]. split; unfold gameWorld_spawn, on_players; cbn [gw_players].
  - by apply players_ok_insert.
  - by rewrite !total_fresh.
Qed.

Lemma reachable_world_ok `{RangeOrder} w : rtc game_step newWorld w → world_ok w.
Proof.
  intros Hr. apply (rtc_invariant game_step world_ok newWorld w); [|split; [apply map_Forall_empty|done]|exact Hr].
  intros a b. apply game_step_ok.
Qed.

Lemma reachable_points `{RangeOrder} w :
  rtc game_step newWorld w → int64 (total ps_Score (gw_players w)) = int64 (100 * total died (gw_players w)).
Proof.
  intros [_ Hsum]%reachable_world_ok. unfold int64. rewrite <-Z.add_mod_idemp_l, Hsum by done. by rewrite Z.add_mod_idemp_l.
Qed.

(** What an action may do to a player: only its own moves it or gives it points, and
    anyone's attack takes ten points of health. *)
Definition affected (acting : bool) (id : string) (p p' : PlayerState) : Prop :=
  ps_PlayerID p' = ps_PlayerID p ∧
  (acting = false → ps_Position p' = ps_Position p ∧ ps_Score p' = ps_Score p) ∧
  (ps_Health p' = ps_Health p ∧ ps_Alive p' = ps_Alive p ∨
   ps_Alive p = true ∧ ps_Health p' = int64 (ps_Health p - 10) ∧ ps_Alive p' = (0 <? ps_Health p')).

Lemma affected_refl b id p : affected b id p p.
Proof. unfold affected. auto. Qed.

Lemma applyAction_affects a w id p acting :
  gw_players w !! id = Some p → (acting = false → id ≠ ga_PlayerID a) →
  ∃ p', gw_players (gameWorld_applyAction a w) !! id = Some p' ∧ affected acting id p p'.
Proof.
  intros Hid Hact. assert (Hsame : ∃ p', gw_players w !! id = Some p' ∧ affected acting id p p')
    by eauto using affected_refl.
  unfold gameWorld_applyAction. destruct (gw_players w !! ga_PlayerID a) as [me|] eqn:Hme; [|done].
  destruct (ps_Alive me); [|done]. cbn [negb]. case_bool_decide.
  { unfold on_players. cbn [gw_players]. destruct (decide (id = ga_PlayerID a)) as [->|Hne].
    - rewrite lookup_insert_eq. simplify_eq. eexists. split; [done|]. unfold affected. simpl. naive_solver.
    - by rewrite lookup_insert_ne. }
  case_bool_decide; [|done]. destruct (gw_players w !! ga_TargetID a) as [target|] eqn:Ht; [|done].
  destruct (ps_Alive target) eqn:Hal; [|done]. destruct (in_range me target); [|done]. cbn [andb].
  assert (Hhit : ∃ p1, <[ga_TargetID a := hit target]> (gw_players w) !! id = Some p1 ∧ affected acting id p p1).
  { destruct (decide (id = ga_TargetID a)) as [->|Hne]; [|rewrite lookup_insert_ne by done; eauto using affected_refl].
    assert (p = target) as -> by congruence.
    rewrite lookup_insert_eq. eexists. split; [done|]. unfold affected. simpl. split_and!; [done..|].
    right. split_and!; [done..|]. rewrite Hal. destruct (Z.leb_spec (int64 (ps_Health target - 10)) 0),
      (Z.ltb_spec 0 (int64 (ps_Health target - 10))); (done || lia). }
  destruct Hhit as (p1 & Hp1 & Ha1). case_match; [|by eauto].
  unfold on_players. cbn [gw_players]. destruct (decide (id = ga_PlayerID a)) as [->|Hne].
  - rewrite lookup_alter_eq, Hp1. eexists. split; [done|]. unfold affected in *. simpl. naive_solver.
  - rewrite lookup_alter_ne by done. eauto.
Qed.

(** The answer to a message is an action of the player, or none. *)
Lemma player_answer_acts `{RangeOrder} `{JSON GameAction} `{JSON StateUpdate} me pt w r w' :
  player_answer me pt w = (r, w') →
  gw_players w' = gw_players w ∨ ∃ a, ga_PlayerID a = me ∧ gw_players w' = gw_players (gameWorld_applyAction a w).
Proof.
  unfold player_answer, send_state, gameWorld_snapshot, modify, attempt, lift, mbind, M_bind, mret, M_ret. intros E.
  destruct (decodeFrame pt) as [[t payload]| |]; cbn [snd] in E; [|injection E as _ <-; by left..].
  case_bool_decide.
  - destruct (json_Unmarshal payload) as [a| |]; cbn [snd] in E; [|injection E as _ <-; by left..].
    destruct (or_nil _); injection E as _ <-; right; by exists (act_as me a).
  - destruct (or_nil _); injection E as _ <-; by left.
Qed.

(** The states a player is sent while it acts. *)
Fixpoint play `{RangeOrder} (me : string) (actions : list GameAction) (w : gameWorld) : list StateUpdate * gameWorld :=
  match actions with
  | [] => ([], w)
  | a :: actions =>
      let w1 := gameWorld_applyAction (act_as me a) w in
      let w2 := mkGameWorld (gw_players w1) (uint64 (gw_tick w1 + 1)) in
      let '(states, w3) := play me actions w2 in
      (mkStateUpdate (gw_tick w2) (range (gw_players w2)).*2 :: states, w3)
  end.

Section session.
Context `{RangeOrder} `{JSONLaws GameAction} `{JSONLaws StateUpdate}.

Lemma player_answer_all me actions msgs w rs :
  Forall2 (framed MsgGameAction) actions msgs → Forall2 (framed MsgStateUpdate) (play me actions w).1 rs →
  answer_all (player_answer me) msgs w = (Ok rs, (play me actions w).2).
Proof.
  intros Hm. revert w rs. induction Hm as [|a m actions msgs Ha _ IH]; intros w rs Hr; simpl in Hr.
  { inversion Hr; subst. done. }
  destruct (play me actions _) as [states w3] eqn:Ep. simpl in Hr. inversion Hr as [|? r ? rs' Hr1 Hr']; subst.
  apply framed_decode in Ha as (b & Ed & Ej).
  set (w1 := gameWorld_applyAction (act_as me a) w) in *. set (w2 := mkGameWorld (gw_players w1) (uint64 (gw_tick w1 + 1))) in *.
  assert (Ea : player_answer me m w = (Ok (Some r), w2)).
  { unfold player_answer, attempt, lift, mbind, M_bind. rewrite Ed. cbn [snd]. rewrite bool_decide_true, Ej by done. cbn [snd].
    unfold modify, send_state, gameWorld_snapshot, mbind, M_bind, lift. fold w1 w2. unfold encodeStateUpdate.
    change (mkStateUpdate (gw_tick w2) (range (gw_players w2)).*2)
      with (mkStateUpdate (uint64 (gw_tick w1 + 1)) (range (gw_players w1)).*2). by rewrite (framed_encode _ _ _ Hr1). }
  simpl. fold w1 w2. rewrite Ep. rewrite (bind_run _ _ _ _ _ Ea).
  assert (Hrs := IH w2 rs'). rewrite Ep in Hrs. by rewrite (bind_run _ _ _ _ _ (Hrs Hr')).
Qed.

Lemma state_of_framed st r : framed MsgStateUpdate st r → state_of r = Ok (Some (Ok st)).
Proof. intros (b & Ed & Ej)%framed_decode. unfold state_of. by rewrite Ed, bool_decide_true, Ej. Qed.

Lemma play_length me actions w : length (play me actions w).1 = length actions.
Proof.
  revert w. induction actions as [|a actions IH]; intros w; [done|]. simpl.
  match goal with |- context [play me actions ?x] => pose proof (IH x) as Hl; destruct (play me actions x) as [states w3] end.
  simpl in *. by rewrite Hl.
Qed.

End session.

(** ** Properties *)

(** The rules of the game hold in every world that joining, acting and sending
    states lead to: no player's health leaves 0 to 100, a player is alive exactly while
    it has health, and the points of all players together are a hundred for each that
    died (as 64-bit integers). *)
Theorem game_rules `{RangeOrder} (w : gameWorld) :
  rtc game_step newWorld w →
  (∀ id p, gw_players w !! id = Some p →
     ps_PlayerID p = id ∧ 0 ≤ ps_Health p ≤ 100 ∧ ps_Alive p = (0 <? ps_Health p)) ∧
  int64 (total ps_Score (gw_players w)) = int64 (100 * total died (gw_players w)).
Proof.
  intros Hr. split; [|by apply reachable_points]. destruct (reachable_world_ok w Hr) as [Hall _].
  intros id p (? & ? & _ & ?)%Hall. auto.
Qed.

(** C26: whatever bytes a client sends, it acts as itself only.  No message moves
    another player, gives it points or removes it; all it can do to another one is to
    attack it, which takes ten points of health of a player that was alive.  A dead
    player's messages change nothing. *)
Theorem player_isolation `{RangeOrder} `{JSON GameAction} `{JSON StateUpdate} (me : string) (pt : bytes)
    (w w' : gameWorld) (r : result (option bytes)) :
  player_answer me pt w = (r, w') →
  (∀ id p, id ≠ me → gw_players w !! id = Some p →
     ∃ p', gw_players w' !! id = Some p' ∧ affected false id p p') ∧
  (∀ p, gw_players w !! me = Some p → ps_Alive p = false → gw_players w' = gw_players w).
Proof.
  intros E. apply player_answer_acts in E as [->|(a & <- & ->)].
  { split; [|done]. intros id p _ Hp. eauto using affected_refl. }
  split.
  - intros id p Hid Hp. by apply applyAction_affects.
  - intros p Hp Hdead. unfold gameWorld_applyAction. by rewrite Hp, Hdead.
Qed.

(** The game client and the server talk to each other.  When nothing fails, the
    player joins under the address of its connection, its three actions are applied in
    order, and it receives the state of the world after each of them, with the ticks
    counted on. *)
Theorem game_session {N Nc} `{ConnLaws N} `{!ReliableConn N} `{Conn Nc} `{!ConnLaws Nc} `{!ReliableConn Nc} `{NoiseLaws}
    `{RangeOrder} `{JSONLaws GameAction} `{JSONLaws StateUpdate}
    (ec es : bytes) (kc ks : KeyPair) (playerID : string) (clock : nat → Z) (msgs rs : list bytes) (nc : Nc) (n : N)
    (w : gameWorld) (fuel : nat) :
  let run := play (conn_RemoteAddr n) (client_actions playerID clock) (gameWorld_spawn (conn_RemoteAddr n) w) in
  Forall2 (framed MsgGameAction) (client_actions playerID clock) msgs → Forall2 (framed MsgStateUpdate) run.1 rs →
  conversation ec kc es ks msgs rs nc n → (3 < fuel)%nat →
  (∃ nc', runPlayer ec kc playerID clock nc = (Ok ((λ st, Some (Ok st)) <$> run.1), nc')) ∧
  (∃ n', handlePlayer fuel es ks (n, w) = (Ok tt, (n', run.2))).
Proof.
  intros run Hm Hr Hconv Hfuel. pose proof (Forall2_length _ _ _ Hm) as Hl1. pose proof (Forall2_length _ _ _ Hr) as Hl2.
  unfold run in Hl2. rewrite play_length in Hl2. split.
  - apply (conversation_client ec kc es ks _ _ _ _ _ _ _ _ Hconv); [| |congruence].
    + eapply Forall2_impl; [exact Hm|]. intros a m. apply framed_encode.
    + apply Forall2_fmap_r, Forall2_flip. eapply Forall2_impl; [exact Hr|]. intros st r. apply state_of_framed.
  - unfold handlePlayer. eapply (conversation_server ec kc es ks); [exact Hconv|by apply player_answer_all|].
    rewrite <-Hl1. done.
Qed.

(** ** Witnesses *)

#[local] Instance Vec2_eq_dec : EqDecision Vec2.
Proof. solve_decision. Defined.

#[local] Instance GameAction_eq_dec : EqDecision GameAction.
Proof. solve_decision. Defined.

#[local] Instance PlayerState_eq_dec : EqDecision PlayerState.
Proof. solve_decision. Defined.

#[local] Instance StateUpdate_eq_dec : EqDecision StateUpdate.
Proof. solve_decision. Defined.

#[local] Existing Instance toy_noise.
#[local] Existing Instance toy_noise_laws.

Definition example_attack : GameAction := mkGameAction "client" "attack" (mkVec2 (f_of_Z 0) (f_of_Z 0)) "other" 1 0.
Definition example_duel : gameWorld := gameWorld_spawn "other" (gameWorld_spawn "client" newWorld).

Definition example_clock : nat → Z := λ i, 1000 + Z.of_nat i.
Definition example_actions : list GameAction := client_actions "player-1" example_clock ++ [example_attack].
Definition example_run : list StateUpdate * gameWorld :=
  play "client" (client_actions "player-1" example_clock) (gameWorld_spawn "client" newWorld).

#[local] Instance action_json : JSON GameAction := table_json example_actions.
#[local] Instance action_json_laws : JSONLaws GameAction := table_json_laws _.
#[local] Instance state_json : JSON StateUpdate := table_json example_run.1.
#[local] Instance state_json_laws : JSONLaws StateUpdate := table_json_laws _.

(** Ten attacks later the other player is dead. *)
Lemma game_rules_witness :
  let w := Nat.iter 10 (gameWorld_applyAction example_attack) example_duel in
  (ps_Alive <$> gw_players w !! "other") = Some false ∧ (ps_Score <$> gw_players w !! "client") = Some 100 ∧
  int64 (total ps_Score (gw_players w)) = int64 (100 * total died (gw_players w)).
Proof.
  intros w. split; [vm_compute; reflexivity|]. split; [vm_compute; reflexivity|]. refine (proj2 (game_rules w _)).
  transitivity example_duel.
  - eapply rtc_l; [by apply (step_spawn _ "client")|]. eapply rtc_l; [by apply (step_spawn _ "other")|]. apply rtc_refl.
  - unfold w. generalize 10%nat. intros k. induction k as [|k IH]; [apply rtc_refl|].
    eapply rtc_r; [exact IH|]. apply step_act.
Defined.

Lemma player_isolation_witness :
  let w' := (player_answer "client" (message MsgGameAction (replicate 3 x31)) example_duel).2 in
  (∃ p', gw_players w' !! "other" = Some p' ∧
     affected false "other" (mkPlayerState "other" (mkVec2 (f_of_Z 0) (f_of_Z 0)) 100 0 true) p') ∧
  ps_Health <$> gw_players w' !! "other" = Some 90.
Proof.
  intros w'. split; [|vm_compute; reflexivity]. destruct (player_answer _ _ example_duel) as [r w1] eqn:E.
  refine (proj1 (player_isolation "client" _ example_duel w1 r E) "other" _ _ _); [discriminate|reflexivity].
Defined.

Lemma game_session_witness :
  let msgs := (λ i, message MsgGameAction (replicate i x31)) <$> seq 0 3 in
  let rs := (λ i, message MsgStateUpdate (replicate i x31)) <$> seq 0 3 in
  (∃ nc', runPlayer [] toy_key "player-1" example_clock (toy_client_end rs) = (Ok ((λ st, Some (Ok st)) <$> example_run.1), nc')) ∧
  (∃ n', handlePlayer 4 [] toy_key (toy_server_end msgs, newWorld) = (Ok tt, (n', example_run.2))) ∧
  su_Tick <$> example_run.1 = [1; 2; 3].
Proof.
  intros msgs rs.
  destruct (game_session [] [] toy_key toy_key "player-1" example_clock msgs rs (toy_client_end rs) (toy_server_end msgs) newWorld 4)
    as [Hc Hs].
  - unfold msgs, client_actions. cbn [seq fmap list_fmap]. repeat (apply Forall2_cons; split; [framed_in_table|]). constructor.
  - unfold rs, client_actions. cbn [play fst seq fmap list_fmap].
    repeat (apply Forall2_cons; split; [framed_in_table|]). constructor.
  - apply toy_conversation.
  - lia.
  - split; [exact Hc|]. split; [exact Hs|]. vm_compute. reflexivity.
Defined.
