(* ===== verification/Notify.v ===== *)
(** * The notifications example

    [examples/notifications]: clients subscribe to channels; a notification that is
    posted goes to every subscriber of its channel.  The handler of a client and the
    broadcasts share the subscriber's session and connection, so subscribers live in a
    store of their own and the hub holds pointers into it. *)
From S2P Require Import Prelude Bytes Wire Noise Conn Gateway ExampleLoop.

Local Open Scope Z_scope.

(** ** messages.go *)

Definition MsgNotification : byte := x01.
Definition MsgSubscribe : byte := x02.
Definition MsgAck : byte := x03.

Record Notification := mkNotification {
  n_ID : string;
  n_Channel : string;
  n_Title : string;
  n_Body : string;
  n_Priority : string;
  n_TimestampMs : Z;
}.

Record Subscription := mkSubscription { s_Channels : list string; s_UserID : string }.

Record NotifyAck := mkNotifyAck { na_NotificationID : string; na_Status : string }.

(** ** server.go: the hub *)

Record subscriber `{Noise} (N : Type) := mkSubscriber {
  sub_session : NoiseSession;
  sub_conn : N;
  sub_channels : gmap string bool;
  sub_userID : string;
}.
Arguments mkSubscriber {_ N} _ _ _ _.
Arguments sub_session {_ N} _.
Arguments sub_conn {_ N} _.
Arguments sub_channels {_ N} _.
Arguments sub_userID {_ N} _.

(** The subscribers by pointer, and the hub's map of pointers. *)
Record hubW `{Noise} (N : Type) := mkHubW { hub_store : gmap nat (subscriber N); hub_subscribers : gmap string nat }.
Arguments mkHubW {_ N} _ _.
Arguments hub_store {_ N} _.
Arguments hub_subscribers {_ N} _.

Section notify.
Context {N : Type} `{Conn N} `{Noise} `{RangeOrder}.
Context `{JSON Notification} `{JSON Subscription} `{JSON NotifyAck}.

Definition encodeNotification (n : Notification) : result bytes := encode MsgNotification n.
Definition encodeSubscription (s : Subscription) : result bytes := encode MsgSubscribe s.
Definition encodeAck (a : NotifyAck) : result bytes := encode MsgAck a.

Definition newHub : hubW N := mkHubW ∅ ∅.

Definition addSubscriber (id : string) (sub : nat) : M (hubW N) unit :=
  modify (λ w, mkHubW (hub_store w) (<[id := sub]> (hub_subscribers w))).

Definition removeSubscriber (id : string) : M (hubW N) unit :=
  modify (λ w, mkHubW (hub_store w) (delete id (hub_subscribers w))).

(** [sub.channels[ch]] *)
Definition in_channel (sub : subscriber N) (ch : string) : bool := default false (sub_channels sub !! ch).

Definition wants (n : Notification) (sub : subscriber N) : bool := in_channel sub (n_Channel n) || in_channel sub "*".

(** Computations on the session and on the connection of a subscriber. *)
Definition with_session {A} (m : M NoiseSession A) : M (subscriber N) A :=
  zoom sub_session (λ s sub, mkSubscriber s (sub_conn sub) (sub_channels sub) (sub_userID sub)) m.
Definition with_conn {A} (m : M N A) : M (subscriber N) A :=
  zoom sub_conn (λ c sub, mkSubscriber (sub_session sub) c (sub_channels sub) (sub_userID sub)) m.

(** A computation on the subscriber at a pointer. *)
Definition at_pointer {A} (sub : nat) (m : M (subscriber N) A) : M (hubW N) A := λ w,
  match hub_store w !! sub with
  | Some s => let '(r, s') := m s in (r, mkHubW (<[sub := s']> (hub_store w)) (hub_subscribers w))
  | None => (Panic "nil pointer dereference", w)
  end.

(** One subscriber of a broadcast: whether the message was sent. *)
Definition deliver (n : Notification) (msg : bytes) : M (subscriber N) bool := λ sub,
  (if wants n sub then
     ct ← attempt (with_session (NoiseSession_Encrypt msg));
     match ct.2 with
     | None => mret false
     | Some ct => r ← attempt (with_conn (conn_WriteMessage ct)); mret (bool_decide (r.1 = None))
     end
   else mret false) sub.

Fixpoint broadcast_loop (n : Notification) (msg : bytes) (subs : list nat) : M (hubW N) Z :=
  match subs with
  | [] => mret 0
  | sub :: subs =>
      ok ← at_pointer sub (deliver n msg);
      sent ← broadcast_loop n msg subs;
      mret (if (ok : bool) then sent + 1 else sent)
  end.

(** Over the hub's map, in the order in which Go ranges over it. *)
Definition broadcast_range (n : Notification) (msg : bytes) : M (hubW N) Z := λ w,
  broadcast_loop n msg (range (hub_subscribers w)).*2 w.

Definition broadcast (n : Notification) : M (hubW N) Z :=
  msg ← attempt (lift (encodeNotification n));
  match msg.2 with
  | None => mret 0
  | Some msg => broadcast_range n msg
  end.

(** ** server.go: the handler of [/send] *)

(** What the handler answers: an error with its status, or the number of messages. *)
Inductive http_response := HttpError (text : string) (status : Z) | HttpSent (sent : Z).

(** [decode] is [json.NewDecoder(r.Body).Decode(&n)] on the body. *)
Definition send_handler (now : Z) (decode : bytes → result Notification) (method : string) (body : bytes) :
    M (hubW N) http_response :=
  if negb (bool_decide (method = "POST")) then mret (HttpError "POST only" 405)
  else
    n ← attempt (lift (decode body));
    match n.2 with
    | None => mret (HttpError "bad request" 400)
    | Some n =>
        let n := if n_TimestampMs n =? 0
                 then mkNotification (n_ID n) (n_Channel n) (n_Title n) (n_Body n) (n_Priority n) now else n in
        sent ← broadcast n;
        mret (HttpSent sent)
    end.

(** ** server.go: the handler of a client *)

(** [sub.channels = make(map[string]bool); for _, ch := range s.Channels { ... };
    sub.userID = s.UserID] *)
Definition subscribe (s : Subscription) (sub : subscriber N) : subscriber N :=
  mkSubscriber (sub_session sub) (sub_conn sub)
    (foldl (λ m ch, <[ch := true]> m) ∅ (s_Channels s)) (s_UserID s).

(** A decrypted message; an acknowledgement is only logged. *)
Definition client_message (pt : bytes) : M (subscriber N) unit :=
  x ← attempt (lift (decodeFrame pt));
  match x.2 with
  | None => mret tt
  | Some (msgType, payload) =>
      if bool_decide (msgType = MsgSubscribe) then
        s ← attempt (lift (json_Unmarshal payload));
        match s.2 with Some s => modify (subscribe s) | None => mret tt end
      else if bool_decide (msgType = MsgAck) then
        _ ← attempt (lift (json_Unmarshal (A:=NotifyAck) payload)); mret tt
      else mret tt
  end.

(** One turn: [false] when the handler returns. *)
Definition client_turn : M (subscriber N) bool :=
  ct ← attempt (with_conn conn_ReadMessage);
  match ct.2 with
  | None => mret false
  | Some ct =>
      pt ← attempt (with_session (NoiseSession_Decrypt ct));
      match pt.2 with
      | None => mret false
      | Some pt => _ ← client_message pt; mret true
      end
  end.

(** The handler up to its loop: the handshake, then a new subscriber to everything. *)
Definition client_join (conn : N) (session : NoiseSession) : M (hubW N) nat := λ w,
  let clientID := conn_RemoteAddr conn in
  let sub := fresh (dom (hub_store w)) in
  (_ ← modify (λ w, mkHubW (<[sub := mkSubscriber session conn {["*" := true]} clientID]> (hub_store w)) (hub_subscribers w));
   _ ← addSubscriber clientID sub;
   mret sub) w.

(** The loop, with [fuel] turns, when no broadcast comes between. *)
Definition handler_loop (fuel : nat) (sub : nat) : M (hubW N) unit := turn_loop (at_pointer sub client_turn) fuel.

(** [handleClient], with the deferred [removeSubscriber]. *)
Definition handleClient (fuel : nat) (entropy : bytes) (key : KeyPair) (conn : N) : M (hubW N) unit := λ w,
  match run_proc (ServerHandshake entropy key) conn with
  | (Ok session, conn) =>
      match client_join conn session w with
      | (Ok sub, w) =>
          let '(r, w) := handler_loop fuel sub w in
          (r, (removeSubscriber (conn_RemoteAddr conn) w).2)
      | (Err e, w) => (Err e, w)
      | (Panic why, w) => (Panic why, w)
      end
  | (Err _, _) => (Ok tt, w)
  | (Panic why, _) => (Panic why, w)
  end.

(** ** server.go: the client *)

(** What [json.Unmarshal] leaves in the variable when it fails. *)
Context (partial : bytes → Notification).

(** A decrypted message: a notification is logged and acknowledged. *)
Definition notified (respPT : bytes) : M (list Notification) (option bytes) :=
  x ← attempt (lift (decodeFrame respPT));
  match x.2 with
  | Some (msgType, payload) =>
      if bool_decide (msgType = MsgNotification) then
        r ← attempt (lift (json_Unmarshal payload));
        let n := default (partial payload) r.2 in
        _ ← modify (λ seen, seen ++ [n]);
        ackMsg ← lift (or_nil (encodeAck (mkNotifyAck (n_ID n) "delivered")));
        mret (Some ackMsg)
      else mret None
  | None => mret None
  end.

(** One turn of the client's loop; a message that does not decrypt is the nil slice. *)
Definition notified_turn : M (GwW N (list Notification)) bool :=
  respCT ← attempt (on_conn conn_ReadMessage);
  match respCT.2 with
  | None => mret false
  | Some respCT =>
      respPT ← attempt (on_session (NoiseSession_Decrypt respCT));
      serve_answer notified (default [] respPT.2)
  end.

Definition notified_loop (fuel : nat) : M (GwW N (list Notification)) unit := turn_loop notified_turn fuel.

(** [runClient] on the connection it dials: the subscription, then the loop. *)
Definition runSubscriber (fuel : nat) (entropy : bytes) (clientKey : KeyPair) (userID : string) :
    M (N * list Notification) unit := λ w,
  match run_proc (ClientHandshake entropy clientKey) w.1 with
  | (Ok session, conn) =>
      let '(r, w') :=
        (subMsg ← lift (or_nil (encodeSubscription (mkSubscription ["alerts"; "updates"] userID)));
         _ ← send_unchecked subMsg;
         notified_loop fuel) (mkGwW session conn w.2) in
      (r, (gw_conn w', gw_disp w'))
  | (Err e, conn) => (Err (Wrap "handshake" e), (conn, w.2))
  | (Panic why, conn) => (Panic why, (conn, w.2))
  end.

(** ** What a broadcast should do *)

(** An attempt to send a message to a subscriber: it is encrypted with the session of the
    subscriber, the ciphertext is written to its connection, and the attempt counts when
    both succeed.  The channels and the user stay. *)
Inductive attempted (msg : bytes) (s : subscriber N) : bool → subscriber N → Prop :=
| attempt_sent ct session conn :
    NoiseSession_Encrypt msg (sub_session s) = (Ok ct, session) → conn_WriteMessage ct (sub_conn s) = (Ok tt, conn) →
    attempted msg s true (mkSubscriber session conn (sub_channels s) (sub_userID s))
| attempt_not_encrypted e session :
    NoiseSession_Encrypt msg (sub_session s) = (Err e, session) →
    attempted msg s false (mkSubscriber session (sub_conn s) (sub_channels s) (sub_userID s))
| attempt_not_written ct session e conn :
    NoiseSession_Encrypt msg (sub_session s) = (Ok ct, session) → conn_WriteMessage ct (sub_conn s) = (Err e, conn) →
    attempted msg s false (mkSubscriber session conn (sub_channels s) (sub_userID s)).

(** The subscriber at [sub] is sent the message. *)
Definition reaches (w : hubW N) (n : Notification) (msg : bytes) (sub : nat) : bool :=
  match hub_store w !! sub with
  | Some s => match (deliver n msg s).1 with Ok true => true | _ => false end
  | None => false
  end.

(** The hub's pointers point to subscribers, each to one of its own. *)
Definition hub_ok (w : hubW N) : Prop :=
  (∀ id sub, hub_subscribers w !! id = Some sub → is_Some (hub_store w !! sub)) ∧
  (∀ id id' sub, hub_subscribers w !! id = Some sub → hub_subscribers w !! id' = Some sub → id = id').

End notify.

(** What can happen to a hub: a client joins, a subscriber's handler takes a turn, a
    client leaves, a notification is broadcast. *)
Inductive hub_step {N} `{Conn N} `{Noise} `{RangeOrder} `{JSON Notification} `{JSON Subscription} `{JSON NotifyAck} :
    hubW N → hubW N → Prop :=
| hub_join w conn session : hub_step w (client_join conn session w).2
| hub_turn w sub : hub_step w (at_pointer sub client_turn w).2
| hub_leave w id : hub_step w (removeSubscriber id w).2
| hub_broadcast w n : hub_step w (broadcast n w).2.

(** ** Lemmas *)

Lemma filter_ext_elem {A} (P Q : A → Prop) `{∀ x, Decision (P x), ∀ x, Decision (Q x)} (l : list A) :
  (∀ x, x ∈ l → (P x ↔ Q x)) → filter P l = filter Q l.
Proof.
  induction l as [|x l IH]; intros Hpq; [done|]. rewrite !filter_cons, IH by (intros; apply Hpq; by right).
  specialize (Hpq x ltac:(by left)). by destruct (decide (P x)), (decide (Q x)); try tauto.
Qed.

Lemma size_filter {K V} `{Countable K} (P : K * V → Prop) `{∀ x, Decision (P x)} (m : gmap K V) :
  size (filter P m) = length (filter P (map_to_list m)).
Proof.
  rewrite <-length_map_to_list, map_filter_alt, map_to_list_to_map; [done|].
  eapply sublist_NoDup; [apply (NoDup_fst_map_to_list m)|]. apply fmap_sublist, sublist_filter.
Qed.

Lemma length_filter_fmap {A B} (f : A → B) (P : B → Prop) `{∀ x, Decision (P x)} (l : list A) :
  length (filter P (f <$> l)) = length (filter (λ x, P (f x)) l).
Proof.
  induction l as [|x l IH]; [done|]. rewrite fmap_cons, !filter_cons.
  destruct (decide (P (f x))); simpl; by rewrite IH.
Qed.

Section notify_lemmas.
Context {N : Type} `{ConnLaws N} `{NoiseLaws} `{RangeOrderLaws}.
Context `{JSONLaws Notification} `{JSONLaws Subscription} `{JSONLaws NotifyAck}.
Implicit Types (w : hubW N) (s : subscriber N) (n : Notification).

Lemma deliver_unwanted n msg s : wants n s = false → deliver n msg s = (Ok false, s).
Proof. intros Hw. unfold deliver. by rewrite Hw. Qed.

Lemma deliver_sent n msg s ct session conn :
  wants n s = true → NoiseSession_Encrypt msg (sub_session s) = (Ok ct, session) →
  conn_WriteMessage ct (sub_conn s) = (Ok tt, conn) →
  deliver n msg s = (Ok true, mkSubscriber session conn (sub_channels s) (sub_userID s)).
Proof.
  intros Hw Ee Ew. unfold deliver. rewrite Hw.
  assert (E1 : attempt (with_session (NoiseSession_Encrypt msg)) s =
    (Ok (None, Some ct), mkSubscriber session (sub_conn s) (sub_channels s) (sub_userID s))).
  { unfold attempt, with_session, zoom. by rewrite Ee. }
  rewrite (bind_run _ _ _ _ _ E1). cbn [snd].
  assert (E2 : attempt (with_conn (conn_WriteMessage ct)) (mkSubscriber session (sub_conn s) (sub_channels s) (sub_userID s)) =
    (Ok (None, Some tt), mkSubscriber session conn (sub_channels s) (sub_userID s))).
  { unfold attempt, with_conn, zoom. simpl. by rewrite Ew. }
  by rewrite (bind_run _ _ _ _ _ E2).
Qed.

Lemma deliver_no_panic n msg s :
  (∀ x p why, (cs_Encrypt x p).1 ≠ Panic why) → (∀ m (c : N) why, (conn_WriteMessage m c).1 ≠ Panic why) →
  ∃ b s', deliver n msg s = (Ok b, s').
Proof.
  intros He Hw. unfold deliver. destruct (wants n s); [|by eexists _, _].
  unfold attempt, with_session, with_conn, zoom, NoiseSession_Encrypt, mbind, M_bind.
  pose proof (He (ns_Send (sub_session s)) msg) as Hp. destruct (cs_Encrypt _ msg) as [[ct| |why] x]; simpl in *;
    [|by eexists _, _|by destruct (Hp why)].
  pose proof (Hw ct (sub_conn s)) as Hp'. destruct (conn_WriteMessage ct _) as [[[]| |why] c]; simpl in *;
    [by eexists _, _..|by destruct (Hp' why)].
Qed.

Lemma wants_iff n s :
  wants n s = true ↔ sub_channels s !! n_Channel n = Some true ∨ sub_channels s !! "*" = Some true.
Proof.
  unfold wants, in_channel. rewrite orb_true_iff.
  by destruct (sub_channels s !! n_Channel n) as [[]|], (sub_channels s !! "*") as [[]|]; naive_solver.
Qed.

Lemma deliver_attempted n msg s :
  (∀ x p why, (cs_Encrypt x p).1 ≠ Panic why) → (∀ m (c : N) why, (conn_WriteMessage m c).1 ≠ Panic why) →
  wants n s = true → ∃ b s', deliver n msg s = (Ok b, s') ∧ attempted msg s b s'.
Proof.
  intros He Hw Hwant. unfold deliver. rewrite Hwant.
  unfold attempt, with_session, with_conn, zoom, mbind, M_bind. destruct (NoiseSession_Encrypt msg (sub_session s)) as [[ct|e|why] x] eqn:Ee; simpl.
  - destruct (conn_WriteMessage ct (sub_conn s)) as [[[]|e|why] c] eqn:Ew; simpl.
    + eexists _, _. split; [done|]. by econstructor.
    + eexists _, _. split; [done|]. by eapply attempt_not_written.
    + pose proof (Hw ct (sub_conn s) why) as Hp. by rewrite Ew in Hp.
  - eexists _, _. split; [done|]. by eapply attempt_not_encrypted.
  - unfold NoiseSession_Encrypt in Ee. pose proof (He (ns_Send (sub_session s)) msg) as Hp.
    destruct (cs_Encrypt (ns_Send (sub_session s)) msg) as [[] ?]; simplify_eq. by destruct (Hp why).
Qed.

(** Each subscriber of a list of distinct ones is served once. *)
Lemma broadcast_loop_spec n msg subs w :
  (∀ x p why, (cs_Encrypt x p).1 ≠ Panic why) → (∀ m (c : N) why, (conn_WriteMessage m c).1 ≠ Panic why) →
  NoDup subs → Forall (λ sub, is_Some (hub_store w !! sub)) subs →
  ∃ w', broadcast_loop n msg subs w = (Ok (Z.of_nat (length (filter (λ sub, reaches w n msg sub = true) subs))), w') ∧
    hub_subscribers w' = hub_subscribers w ∧
    ∀ sub, hub_store w' !! sub = if decide (sub ∈ subs) then (λ s, (deliver n msg s).2) <$> hub_store w !! sub else hub_store w !! sub.
Proof.
  intros He Hw. revert w. induction subs as [|sub subs IH]; intros w Hnd Hall.
  { exists w. split; [done|]. split; [done|]. intros sub. by rewrite decide_False by apply not_elem_of_nil. }
  apply NoDup_cons in Hnd as [Hni Hnd]. apply Forall_cons in Hall as [[s Hs] Hall].
  destruct (deliver_no_panic n msg s He Hw) as (b & s' & Ed).
  set (w1 := mkHubW (<[sub := s']> (hub_store w)) (hub_subscribers w)).
  assert (Hne : ∀ x, x ∈ subs → hub_store w1 !! x = hub_store w !! x).
  { intros x Hx. unfold w1. simpl. rewrite lookup_insert_ne; [done|]. by intros ->. }
  destruct (IH w1 Hnd) as (w' & El & Hh & Hst).
  { rewrite Forall_forall in *. intros x Hx. rewrite Hne by done. auto. }
  assert (E1 : at_pointer sub (deliver n msg) w = (Ok b, w1)).
  { unfold at_pointer. by rewrite Hs, Ed. }
  exists w'. split; [|split; [done|]].
  - simpl. rewrite (bind_run _ _ _ _ _ E1), (bind_run _ _ _ _ _ El). rewrite filter_cons.
    rewrite (filter_ext_elem (λ sub, reaches w1 n msg sub = true) (λ sub, reaches w n msg sub = true))
      by (intros x Hx; unfold reaches; by rewrite Hne).
    assert (reaches w n msg sub = b) as -> by (unfold reaches; rewrite Hs, Ed; by destruct b).
    unfold mret, M_ret. destruct b; [rewrite decide_True by done|rewrite decide_False by done]; [|done].
    cbn [length]. by rewrite Nat2Z.inj_succ.
  - intros x. rewrite Hst. destruct (decide (x = sub)) as [->|Hx].
    + rewrite decide_False, decide_True by (done || by left). unfold w1. cbn [hub_store].
      rewrite lookup_insert_eq, Hs. change (Some s' = Some (deliver n msg s).2). by rewrite Ed.
    + unfold w1. simpl. rewrite lookup_insert_ne by done.
      destruct (decide (x ∈ subs)); [rewrite decide_True by (by right)|rewrite decide_False by (by rewrite elem_of_cons; intros [])]; done.
Qed.

(** *** The hub stays well formed *)

(** The same pointers are valid and the hub is the same. *)
Definition same_pointers w w' : Prop :=
  hub_subscribers w' = hub_subscribers w ∧ ∀ sub, is_Some (hub_store w' !! sub) ↔ is_Some (hub_store w !! sub).

Lemma same_pointers_ok w w' : same_pointers w w' → hub_ok w → hub_ok w'.
Proof. intros [Hh Hs] [Hv Hi]. split; rewrite Hh; [|done]. intros id sub Hid. apply Hs. eauto. Qed.

Lemma same_pointers_refl w : same_pointers w w.
Proof. done. Qed.

Lemma same_pointers_trans w w1 w2 : same_pointers w w1 → same_pointers w1 w2 → same_pointers w w2.
Proof. intros [Hh Hs] [Hh' Hs']. split; [congruence|]. intros sub. by rewrite Hs', Hs. Qed.

Lemma at_pointer_same {A} sub (m : M (subscriber N) A) w : same_pointers w (at_pointer sub m w).2.
Proof.
  unfold at_pointer. destruct (hub_store w !! sub) as [s|] eqn:Hs; [|apply same_pointers_refl].
  destruct (m s) as [r s']. split; [done|]. intros x. simpl. destruct (decide (x = sub)) as [->|].
  - rewrite lookup_insert_eq, Hs. split; eauto.
  - by rewrite lookup_insert_ne.
Qed.

Lemma broadcast_same n w : same_pointers w (broadcast n w).2.
Proof.
  unfold broadcast, attempt, lift, mbind, M_bind. destruct (encodeNotification n) as [msg| |]; [|done..]. simpl.
  unfold broadcast_range. generalize (range (hub_subscribers w)).*2. intros subs. revert w.
  induction subs as [|sub subs IH]; intros w; [done|]. simpl. unfold mbind, M_bind.
  pose proof (at_pointer_same sub (deliver n msg) w) as Hsame.
  destruct (at_pointer sub (deliver n msg) w) as [[b| |] w1]; [|done..]. eapply same_pointers_trans; [exact Hsame|].
  specialize (IH w1). by destruct (broadcast_loop n msg subs w1) as [[] w2].
Qed.

Lemma join_ok conn session w : hub_ok w → hub_ok (client_join conn session w).2.
Proof.
  intros [Hv Hi]. unfold client_join. set (sub := fresh (dom (hub_store w))).
  assert (Hf : hub_store w !! sub = None) by (apply not_elem_of_dom, is_fresh).
  assert (Hnot : ∀ id, hub_subscribers w !! id ≠ Some sub).
  { intros id Hsub. apply Hv in Hsub as [? ?]. congruence. }
  unfold addSubscriber, modify, mbind, M_bind. simpl. split; simpl.
  - intros id x [[<- <-]|[_ Hx]]%lookup_insert_Some; [rewrite lookup_insert_eq; eauto|].
    destruct (Hv _ _ Hx) as [s Hs]. rewrite lookup_insert_ne by congruence. eauto.
  - intros id id' x [[<- <-]|[_ Hx]]%lookup_insert_Some [[<- Hx']|[_ Hx']]%lookup_insert_Some; [done| | |eauto].
    + by destruct (Hnot id').
    + subst x. by destruct (Hnot id).
Qed.

Lemma hub_step_ok w w' : hub_ok w → hub_step w w' → hub_ok w'.
Proof.
  intros Hok Hstep. destruct Hstep as [w conn session|w sub|w id|w n].
  - by apply join_ok.
  - eapply same_pointers_ok; [apply at_pointer_same|done].
  - destruct Hok as [Hv Hi]. split; simpl.
    + intros id' sub [_ Hs]%lookup_delete_Some. eauto.
    + intros id1 id2 sub [_ Hs1]%lookup_delete_Some [_ Hs2]%lookup_delete_Some. eauto.
  - eapply same_pointers_ok; [apply broadcast_same|done].
Qed.

Lemma reachable_ok w : rtc hub_step newHub w → hub_ok w.
Proof.
  intros Hr. apply (rtc_invariant hub_step hub_ok newHub w); [intros a b; apply hub_step_ok|by split|done].
Qed.

(** *** Broadcasts *)

Lemma hub_pointers w :
  hub_ok w → NoDup (range (hub_subscribers w)).*2 ∧
  (∀ sub, sub ∈ (range (hub_subscribers w)).*2 ↔ ∃ id, hub_subscribers w !! id = Some sub).
Proof.
  intros [_ Hi]. split.
  - assert (NoDup (range (hub_subscribers w))) as Hnd by (rewrite range_perm; apply NoDup_map_to_list).
    assert (Hr : ∀ x, x ∈ range (hub_subscribers w) → hub_subscribers w !! x.1 = Some x.2).
    { intros [id sub]. rewrite range_perm. apply elem_of_map_to_list. }
    induction Hnd as [|[id sub] l Hni _ IH]; [constructor|]. simpl. constructor; [|apply IH; intros; apply Hr; by right].
    intros ([id' sub'] & -> & Hx)%list_elem_of_fmap. simpl in *.
    pose proof (Hr (id, sub') ltac:(by left)) as Hr1. pose proof (Hr (id', sub') ltac:(by right)) as Hr2. simpl in *.
    by rewrite (Hi _ _ _ Hr1 Hr2) in Hni.
  - intros sub. rewrite list_elem_of_fmap. split.
    + intros ([id s] & -> & Hx). rewrite range_perm in Hx. apply elem_of_map_to_list in Hx. by exists id.
    + intros [id Hx]. exists (id, sub). split; [done|]. rewrite range_perm. by apply elem_of_map_to_list.
Qed.

Lemma broadcast_spec n msg w :
  (∀ x p why, (cs_Encrypt x p).1 ≠ Panic why) → (∀ m (c : N) why, (conn_WriteMessage m c).1 ≠ Panic why) →
  hub_ok w → encodeNotification n = Ok msg →
  ∃ w', broadcast n w = (Ok (Z.of_nat (size (filter (λ x, reaches w n msg x.2 = true) (hub_subscribers w)))), w') ∧
    hub_subscribers w' = hub_subscribers w ∧
    (∀ id sub s, hub_subscribers w !! id = Some sub → hub_store w !! sub = Some s →
       hub_store w' !! sub = Some (deliver n msg s).2) ∧
    (∀ sub, (∀ id, hub_subscribers w !! id ≠ Some sub) → hub_store w' !! sub = hub_store w !! sub).
Proof.
  intros He Hw Hok Em. destruct (hub_pointers w Hok) as [Hnd Hin].
  destruct (broadcast_loop_spec n msg (range (hub_subscribers w)).*2 w He Hw Hnd) as (w' & El & Hh & Hst).
  { apply Forall_forall. intros sub [id Hid]%Hin. by eapply Hok. }
  exists w'. split; [|split; [done|split]].
  - unfold broadcast, attempt, lift, mbind, M_bind. rewrite Em. simpl. unfold broadcast_range. rewrite El. do 3 f_equal.
    by rewrite length_filter_fmap, range_perm, size_filter.
  - intros id sub s Hid Hs. rewrite Hst, decide_True by (apply Hin; eauto). by rewrite Hs.
  - intros sub Hnot. rewrite Hst, decide_False; [done|]. rewrite Hin. naive_solver.
Qed.

(** *** A subscriber's handler *)

Lemma subscribed_to (chs : list string) (ch : string) (m : gmap string bool) :
  foldl (λ m ch, <[ch := true]> m) m chs !! ch = (if decide (ch ∈ chs) then Some true else m !! ch : option bool).
Proof.
  revert m. induction chs as [|x chs IH]; intros m; [done|]. simpl. rewrite IH.
  destruct (decide (ch ∈ chs)); [by rewrite decide_True by (by right)|].
  destruct (decide (ch = x)) as [->|]; [by rewrite lookup_insert_eq, decide_True by (by left)|].
  rewrite lookup_insert_ne, decide_False by (done || set_solver). done.
Qed.

(** A turn of the handler when the client's next message is a subscription. *)
Lemma client_turn_subscribe s sn m c ct c' cts os :
  framed MsgSubscribe sn m → in_step (ns_Send c) (ns_Recv (sub_session s)) →
  NoiseSession_Encrypt m c = (Ok ct, c') → conn_unread (sub_conn s) (ct :: cts) → conn_wrote (sub_conn s) os →
  ∃ s', client_turn s = (Ok true, subscribe sn s') ∧ ns_Send (sub_session s') = ns_Send (sub_session s) ∧
    conn_wrote (sub_conn s') os.
Proof.
  intros Hf Hs Ec Hu Hw. destruct (Read_next _ _ _ Hu) as (n1 & Er & _ & Hw1).
  destruct (in_step_Decrypt _ _ _ _ _ Hs Ec) as (s1 & Ed & _ & Hsend & _).
  exists (mkSubscriber s1 n1 (sub_channels s) (sub_userID s)). split; [|auto]. unfold client_turn.
  assert (E1 : attempt (with_conn conn_ReadMessage) s =
    (Ok (None, Some ct), mkSubscriber (sub_session s) n1 (sub_channels s) (sub_userID s))).
  { unfold attempt, with_conn, zoom. by rewrite Er. }
  rewrite (bind_run _ _ _ _ _ E1). cbn [snd].
  assert (E2 : attempt (with_session (NoiseSession_Decrypt ct)) (mkSubscriber (sub_session s) n1 (sub_channels s) (sub_userID s)) =
    (Ok (None, Some m), mkSubscriber s1 n1 (sub_channels s) (sub_userID s))).
  { unfold attempt, with_session, zoom. cbn [sub_session]. by rewrite Ed. }
  rewrite (bind_run _ _ _ _ _ E2). cbn [snd]. apply framed_decode in Hf as (b & Edec & Ej).
  unfold client_message, attempt, lift, mbind, M_bind. rewrite Edec. cbn [snd]. rewrite bool_decide_true by done.
  by rewrite Ej.
Qed.

(** *** The client *)

Context (partial : bytes → Notification).

Lemma notified_answer n m a seen :
  framed MsgNotification n m → framed MsgAck (mkNotifyAck (n_ID n) "delivered") a →
  notified partial m seen = (Ok (Some a), seen ++ [n]).
Proof.
  intros (b & Ed & Ej)%framed_decode Ha. unfold notified, attempt, lift, mbind, M_bind. rewrite Ed. cbn [snd].
  rewrite bool_decide_true, Ej by done. cbn [snd from_option id]. unfold modify, encodeAck. by rewrite (framed_encode _ _ _ Ha).
Qed.

Lemma notified_all ns msgs acks seen :
  Forall2 (framed MsgNotification) ns msgs →
  Forall2 (λ n a, framed MsgAck (mkNotifyAck (n_ID n) "delivered") a) ns acks →
  answer_all (notified partial) msgs seen = (Ok acks, seen ++ ns).
Proof.
  intros Hm. revert acks seen. induction Hm as [|n m ns msgs Hn _ IH]; intros acks seen Ha; inversion Ha; subst.
  { by rewrite app_nil_r. }
  simpl. rewrite (bind_run _ _ _ _ _ (notified_answer _ _ _ _ Hn ltac:(eassumption))).
  rewrite (bind_run _ _ _ _ _ (IH _ _ ltac:(eassumption))). by rewrite <-app_assoc.
Qed.

(** The client's turn differs from the servers' only on messages that do not decrypt. *)
Lemma notified_turn_next : reads_next (notified partial) (notified_turn (N:=N) partial).
Proof.
  intros c s n d p ct c' cts Hs E Hu. destruct (Read_next _ _ _ Hu) as (n1 & Er & Hu1 & Hw1).
  destruct (in_step_Decrypt _ _ _ _ _ Hs E) as (s1 & Ed & Hs1 & Hsend & _).
  exists s1, n1. split; [|done]. unfold notified_turn, attempt, on_conn, on_session, zoom, mbind, M_bind. simpl.
  rewrite Er. simpl. by rewrite Ed.
Qed.

Lemma notified_turn_end : stops_at_end (notified_turn (N:=N) partial).
Proof.
  intros s n d Hu. destruct (Read_end _ Hu) as (e & n' & Er & Hw). exists n'. split; [|done].
  unfold notified_turn, attempt, on_conn, zoom, mbind, M_bind. simpl. by rewrite Er.
Qed.

End notify_lemmas.

(** ** Properties *)

(** C27: a broadcast serves each subscriber once, whatever the order in which
    the hub is traversed.  In every hub that joining, handling, leaving and broadcasting
    lead to, the message is encrypted for and written to exactly the subscribers of the
    hub whose channels contain the channel of the notification or the wildcard; all
    others stay as they are.  It returns the number of those for whom both the encryption
    and the write succeeded. *)
Theorem broadcast_exact {N} `{ConnLaws N} `{NoiseLaws} `{RangeOrderLaws}
    `{JSONLaws Notification} `{JSONLaws Subscription} `{JSONLaws NotifyAck} (n : Notification) (msg : bytes) (w : hubW N) :
  (∀ x p why, (cs_Encrypt x p).1 ≠ Panic why) → (∀ m (c : N) why, (conn_WriteMessage m c).1 ≠ Panic why) →
  rtc hub_step newHub w → encodeNotification n = Ok msg →
  ∃ w' (reached : gset string), broadcast n w = (Ok (Z.of_nat (size reached)), w') ∧
    reached ⊆ dom (hub_subscribers w) ∧ hub_subscribers w' = hub_subscribers w ∧
    (∀ id sub s, hub_subscribers w !! id = Some sub → hub_store w !! sub = Some s →
       ∃ s', hub_store w' !! sub = Some s' ∧
         (sub_channels s !! n_Channel n = Some true ∨ sub_channels s !! "*" = Some true →
            attempted msg s (bool_decide (id ∈ reached)) s') ∧
         (sub_channels s !! n_Channel n ≠ Some true → sub_channels s !! "*" ≠ Some true → s' = s ∧ id ∉ reached)) ∧
    (∀ sub, (∀ id, hub_subscribers w !! id ≠ Some sub) → hub_store w' !! sub = hub_store w !! sub).
Proof.
  intros He Hw Hr%reachable_ok Em. destruct (broadcast_spec n msg w He Hw Hr Em) as (w' & E & Hh & Hin & Hout).
  exists w', (dom (filter (λ x, reaches w n msg x.2 = true) (hub_subscribers w))). rewrite size_dom.
  split_and!; [done|apply dom_filter_subseteq|done| |done]. intros id sub s Hid Hs. exists (deliver n msg s).2.
  split; [by eapply Hin|].
  assert (Hreach : ∀ b s', deliver n msg s = (Ok b, s') →
    bool_decide (id ∈ dom (filter (λ x, reaches w n msg x.2 = true) (hub_subscribers w))) = b).
  { intros b s' Ed. assert (reaches w n msg sub = b) as Hb by (unfold reaches; rewrite Hs, Ed; by destruct b).
    destruct b.
    - apply bool_decide_true, elem_of_dom. exists sub. by apply map_lookup_filter_Some_2.
    - apply bool_decide_false. intros [sub' [Hl Ht]%map_lookup_filter_Some]%elem_of_dom. simpl in Ht. congruence. }
  split.
  - intros (b & s' & Ed & Ha)%wants_iff%(deliver_attempted n msg s He Hw). by rewrite (Hreach _ _ Ed), Ed.
  - intros Hc Hs1. assert (wants n s = false) as Hwant.
    { destruct (wants n s) eqn:Hwant; [|done]. apply wants_iff in Hwant as []; done. }
    pose proof (deliver_unwanted n msg s Hwant) as Ed. rewrite Ed. split; [done|].
    apply Hreach in Ed. by apply bool_decide_eq_false in Ed.
Qed.

(** C28: A subscriber gets the notifications of its channels and no others.  Once
    its handler has read the subscription the client sent, a broadcast on one of the
    channels (or any broadcast, if one is the wildcard) writes one message to its
    connection, which the client decrypts to the notification; any other broadcast
    writes nothing. *)
Theorem subscription_filters {N} `{ConnLaws N} `{!ReliableConn N} `{NoiseLaws} `{RangeOrderLaws}
    `{JSONLaws Notification} `{JSONLaws Subscription} `{JSONLaws NotifyAck}
    (n : Notification) (msg m ct enc : bytes) (sn : Subscription) (c c' session' : NoiseSession) (cts os : list bytes)
    (id : string) (sub : nat) (s : subscriber N) (w : hubW N) :
  (∀ x p why, (cs_Encrypt x p).1 ≠ Panic why) → (∀ m (c : N) why, (conn_WriteMessage m c).1 ≠ Panic why) →
  rtc hub_step newHub w → hub_subscribers w !! id = Some sub → hub_store w !! sub = Some s →
  paired c (sub_session s) → framed MsgSubscribe sn m → NoiseSession_Encrypt m c = (Ok ct, c') →
  conn_unread (sub_conn s) (ct :: cts) → conn_wrote (sub_conn s) os →
  framed MsgNotification n msg → NoiseSession_Encrypt msg (sub_session s) = (Ok enc, session') → conn_fits enc →
  ∃ w1 sent w2 s2, at_pointer sub client_turn w = (Ok true, w1) ∧ broadcast n w1 = (Ok sent, w2) ∧
    hub_store w2 !! sub = Some s2 ∧
    conn_wrote (sub_conn s2) (os ++ if decide (n_Channel n ∈ s_Channels sn ∨ "*" ∈ s_Channels sn) then [enc] else []) ∧
    ∃ c2, NoiseSession_Decrypt enc c' = (Ok msg, c2).
Proof.
  intros He Hw Hr Hid Hs [Hp1 Hp2] Hf Ec Hu Hwrote Hn Een Hfit.
  destruct (client_turn_subscribe s sn m c ct c' cts os Hf Hp1 Ec Hu Hwrote) as (s1 & Et & Hsend & Hwrote1).
  assert (Ea : at_pointer sub client_turn w = (Ok true, mkHubW (<[sub := subscribe sn s1]> (hub_store w)) (hub_subscribers w))).
  { unfold at_pointer. by rewrite Hs, Et. }
  assert (Hok1 : hub_ok (at_pointer sub client_turn w).2).
  { eapply same_pointers_ok; [apply at_pointer_same|]. by apply reachable_ok. }
  rewrite Ea in Hok1. destruct (broadcast_spec n msg _ He Hw Hok1 (framed_encode _ _ _ Hn)) as (w2 & Eb & _ & Hin & _).
  eexists _, _, w2, _. split; [exact Ea|]. split; [exact Eb|].
  split; [eapply Hin; [exact Hid|apply lookup_insert_eq]|]. split.
  - assert (Hwants : wants n (subscribe sn s1) = bool_decide (n_Channel n ∈ s_Channels sn ∨ "*" ∈ s_Channels sn)).
    { unfold wants, in_channel, subscribe. cbn [sub_channels]. rewrite !subscribed_to, !lookup_empty.
      destruct (decide (n_Channel n ∈ s_Channels sn)), (decide ("*" ∈ s_Channels sn)); symmetry;
        [apply bool_decide_true; tauto..|apply bool_decide_false; tauto]. }
    destruct (decide _) as [Hin'|Hin'].
    + rewrite bool_decide_true in Hwants by done. destruct (Write_succeeds (sub_conn s1) enc Hfit) as [n2 Ew].
      rewrite (deliver_sent _ _ _ enc _ n2 Hwants (NoiseSession_Encrypt_send _ _ _ _ _ Een Hsend) Ew).
      by eapply Write_adds.
    + rewrite bool_decide_false in Hwants by done. rewrite deliver_unwanted by done. by rewrite app_nil_r.
  - destruct (in_step_Decrypt _ _ _ _ _ Hp1 Ec) as (_ & _ & _ & _ & Hrecv). rewrite <-Hrecv in Hp2.
    destruct (in_step_Decrypt _ _ _ _ _ Hp2 Een) as (c2 & Ed & _). by exists c2.
Qed.

(** The client sees what it is sent.  When nothing fails it subscribes to
    its two channels, shows the notifications the server sends in order, acknowledges
    each of them once, and returns when the connection ends. *)
Theorem subscriber_acks {N} `{ConnLaws N} `{!ReliableConn N} `{NoiseLaws}
    `{JSONLaws Notification} `{JSONLaws Subscription} `{JSONLaws NotifyAck} (partial : bytes → Notification)
    (ec m1 m2 m3 subMsg : bytes) (kc : KeyPair) (userID : string) (c c1 s s1 : NoiseSession)
    (ns : list Notification) (msgs acks cts encs : list bytes) (nc : N) (fuel : nat) :
  client0 m1 m2 m3 c (ClientHandshake ec kc) → paired c s →
  Forall2 (framed MsgNotification) ns msgs → encrypt_seq msgs s = (Ok encs, s1) →
  framed MsgSubscribe (mkSubscription ["alerts"; "updates"] userID) subMsg →
  Forall2 (λ n a, framed MsgAck (mkNotifyAck (n_ID n) "delivered") a) ns acks →
  encrypt_seq (subMsg :: acks) c = (Ok cts, c1) →
  conn_unread nc (m2 :: encs) → conn_wrote nc [] → Forall conn_fits (m1 :: m3 :: cts) → (length ns < fuel)%nat →
  ∃ nc', runSubscriber partial fuel ec kc userID (nc, []) = (Ok tt, (nc', ns)) ∧ conn_wrote nc' (m1 :: m3 :: cts).
Proof.
  intros Hc [_ Hp] Hn Es Hsub Ha Ec Hu Hw [Hf1 [Hf3 Hf]%Forall_cons]%Forall_cons Hfuel.
  destruct (run_client_handshake _ _ _ _ _ _ _ _ Hc Hf1 Hf3 Hu Hw) as (nc1 & Eh & Hu1 & Hw1).
  simpl in Ec. apply bind_Ok_inv in Ec as (ct & c2 & E1 & Ec). apply bind_Ok_inv in Ec as (cts' & c3 & E2 & Ec).
  injection Ec as <- <-. apply Forall_cons in Hf as [Hf0 Hf].
  destruct (send_unchecked_clean subMsg c nc1 ([] : list Notification) ct c2 E1 Hf0) as (nc2 & Esend & Ew).
  assert (Hr : ns_Recv c2 = ns_Recv c).
  { unfold NoiseSession_Encrypt in E1. destruct (cs_Encrypt (ns_Send c) subMsg). by injection E1 as _ <-. }
  rewrite <-Hr in Hp. rewrite (Forall2_length _ _ _ Hn) in Hfuel.
  destruct (turn_loop_answers (notified partial) (notified_turn partial) msgs s c2 c2 nc2 [] encs s1 _ acks ns cts' c3 fuel
    (reads_next_clean _ _ (notified_turn_next partial)) (notified_turn_end partial) Hp Es (Write_unread _ _ _ _ _ Ew Hu1)
    (Write_adds _ _ _ _ Hf0 Ew Hw1) (notified_all partial _ _ _ [] Hn Ha) eq_refl E2 Hf Hfuel) as (w' & El & Hd & Hw').
  exists (gw_conn w'). split; [|by rewrite <-app_assoc in Hw'].
  unfold runSubscriber, encodeSubscription. simpl. rewrite Eh, (framed_encode _ _ _ Hsub). unfold mbind at 1, M_bind at 1. simpl.
  rewrite (bind_run _ _ _ _ _ Esend). unfold notified_loop. by rewrite El, Hd.
Qed.

(** ** Witnesses *)

#[local] Instance Notification_eq_dec : EqDecision Notification.
Proof. solve_decision. Defined.

#[local] Instance Subscription_eq_dec : EqDecision Subscription.
Proof. solve_decision. Defined.

#[local] Instance NotifyAck_eq_dec : EqDecision NotifyAck.
Proof. solve_decision. Defined.

#[local] Existing Instance toy_noise.
#[local] Existing Instance toy_noise_laws.

Definition example_note : Notification := mkNotification "n1" "alerts" "title" "body" "high" 1000.

#[local] Instance note_json : JSON Notification := table_json [example_note].
#[local] Instance note_json_laws : JSONLaws Notification := table_json_laws _.
#[local] Instance sub_json : JSON Subscription :=
  table_json [mkSubscription ["alerts"; "updates"] "user-1"; mkSubscription ["news"] "user-2"].
#[local] Instance sub_json_laws : JSONLaws Subscription := table_json_laws _.
#[local] Instance ack_json : JSON NotifyAck := table_json [mkNotifyAck "n1" "delivered"].
#[local] Instance ack_json_laws : JSONLaws NotifyAck := table_json_laws _.

(** A hub with two clients; the second has sent a subscription. *)
Definition example_subscribe (i : nat) : bytes := message MsgSubscribe (replicate i x31).
Definition example_hub (i : nat) : hubW MemConn :=
  (client_join (mkMemConn [x61 :: example_subscribe i] [] "b") (example_server 0)
    (client_join (mkMemConn [] [] "a") (example_server 0) newHub).2).2.

Lemma example_hub_reachable i : rtc hub_step newHub (example_hub i).
Proof.
  eapply rtc_l; [apply (hub_join _ (mkMemConn [] [] "a") (example_server 0))|].
  eapply rtc_l; [apply (hub_join _ (mkMemConn [x61 :: example_subscribe i] [] "b") (example_server 0))|].
  apply rtc_refl.
Qed.

Lemma example_no_panic :
  (∀ (x : CipherState) p why, (cs_Encrypt x p).1 ≠ Panic why) ∧ (∀ m (c : MemConn) why, (conn_WriteMessage m c).1 ≠ Panic why).
Proof. done. Qed.

(** The second client has subscribed to other news: the first one, which takes every
    channel, is written the message. *)
Lemma broadcast_exact_witness :
  let w := (at_pointer 1 client_turn (example_hub 1)).2 in
  ∃ w' s', broadcast example_note w = (Ok 1, w') ∧ hub_store w' !! 0%nat = Some s' ∧
    attempted (message MsgNotification []) (mkSubscriber (example_server 0) (mkMemConn [] [] "a") {["*" := true]} "a") true s'.
Proof.
  intros w.
  destruct (broadcast_exact example_note (message MsgNotification []) w) as (w' & reached & E & Hsub & _ & Hin & _).
  - apply example_no_panic.
  - apply example_no_panic.
  - eapply rtc_r; [apply example_hub_reachable|apply hub_turn].
  - vm_compute. reflexivity.
  - destruct (Hin "a" 0%nat (mkSubscriber (example_server 0) (mkMemConn [] [] "a") {["*" := true]} "a")) as (s' & Hs' & Ha & _);
      [vm_compute; reflexivity..|].
    assert (Hsize : (broadcast example_note w).1 = Ok 1) by (vm_compute; reflexivity).
    rewrite E in Hsize. cbn [fst] in Hsize. injection Hsize as Hsize. exists w', s'. rewrite E, Hsize.
    split; [reflexivity|]. split; [exact Hs'|]. specialize (Ha (or_intror eq_refl)).
    destruct (bool_decide ("a" ∈ reached)); [exact Ha|].
    inversion Ha as [|e x He|ct x e c He Hwr]; [discriminate He|]. injection He as <- _. discriminate Hwr.
Defined.

(** The second client subscribed to a channel the notification is not on. *)
Lemma subscription_filters_witness :
  ∃ w1 sent w2 s2, at_pointer 1 client_turn (example_hub 1) = (Ok true, w1) ∧ broadcast example_note w1 = (Ok sent, w2) ∧
    hub_store w2 !! 1%nat = Some s2 ∧ conn_wrote (sub_conn s2) [].
Proof.
  destruct (subscription_filters example_note (message MsgNotification []) (example_subscribe 1) (x61 :: example_subscribe 1)
    (x62 :: message MsgNotification []) (mkSubscription ["news"] "user-2") (example_client 0) (example_client 1) (example_server 1)
    [] [] "b" 1 (mkSubscriber (example_server 0) (mkMemConn [x61 :: example_subscribe 1] [] "b") {["*" := true]} "b") (example_hub 1))
    as (w1 & sent & w2 & s2 & Et & Eb & Hs & Hw & _).
  - apply example_no_panic.
  - apply example_no_panic.
  - apply example_hub_reachable.
  - vm_compute. reflexivity.
  - vm_compute. reflexivity.
  - by split.
  - framed_in_table.
  - reflexivity.
  - reflexivity.
  - reflexivity.
  - framed_in_table.
  - reflexivity.
  - exact I.
  - exists w1, sent, w2, s2. split; [exact Et|]. split; [exact Eb|]. split; [exact Hs|]. vm_compute in Hw. vm_compute. exact Hw.
Defined.

Lemma subscriber_acks_witness :
  ∃ nc', runSubscriber (λ _, example_note) 2 [] toy_key "user-1"
      (mkMemConn [[x02]; x62 :: message MsgNotification []] [] "server", []) = (Ok tt, (nc', [example_note])) ∧
    conn_wrote nc' [[x01]; [x03]; x61 :: example_subscribe 0; x61 :: message MsgAck []].
Proof.
  apply (subscriber_acks (λ _, example_note) [] [x01] [x02] [x03] (example_subscribe 0) toy_key "user-1"
    (example_client 0) (example_client 2) (example_server 0) (example_server 1) [example_note]
    [message MsgNotification []] [message MsgAck []] [x61 :: example_subscribe 0; x61 :: message MsgAck []]
    [x62 :: message MsgNotification []] (mkMemConn [[x02]; x62 :: message MsgNotification []] [] "server") 2).
  - apply example_stages.
  - by split.
  - apply Forall2_cons. split; [framed_in_table|constructor].
  - reflexivity.
  - framed_in_table.
  - apply Forall2_cons. split; [framed_in_table|constructor].
  - reflexivity.
  - reflexivity.
  - reflexivity.
  - by apply Forall_true.
  - simpl. lia.
Defined.
