(* ===== verification/Starters.v ===== *)
(** * The Go starters

    [starters/go/main.go], an echo server and its client, and [starters/interop/server.go],
    the echo server that the starters in other languages are tested against.  Unlike the
    examples they stop at the first error. *)
From S2P Require Import Prelude Bytes Wire Noise Conn Gateway ExampleLoop.

Local Open Scope Z_scope.

(** ** The servers *)

(** [map[string]interface{}{"echo": ..., "timestamp": ...}] *)
Record EchoReply := mkEchoReply { er_echo : string; er_timestamp : Z }.

Section starters.
Context {N D : Type} `{Conn N} `{Noise}.

(** One turn of a server that answers a message with [reply] and returns on every
    error. *)
Definition strict_turn (reply : bytes → M D bytes) : M (GwW N D) bool :=
  ct ← attempt (on_conn conn_ReadMessage);
  match ct.2 with
  | None => mret false
  | Some ct =>
      pt ← attempt (on_session (NoiseSession_Decrypt ct));
      match pt.2 with
      | None => mret false
      | Some pt =>
          r ← on_disp (reply pt);
          enc ← attempt (on_session (NoiseSession_Encrypt r));
          match enc.2 with
          | None => mret false
          | Some enc => w ← attempt (on_conn (conn_WriteMessage enc)); mret (bool_decide (w.1 = None))
          end
      end
  end.

(** [time.Now().UnixMilli()] *)
Context (now : M D Z) `{JSON EchoReply}.

(** [reply, _ := json.Marshal(...)] *)
Definition echo_reply (pt : bytes) : M D bytes :=
  t ← now;
  lift (or_nil (json_Marshal (mkEchoReply (string_of_bytes pt) t))).

(** The handlers of [/ws]. *)
Definition starter_server : nat → bytes → KeyPair → M (N * D) unit := serve_with (strict_turn echo_reply) id.
Definition interop_server : nat → bytes → KeyPair → M (N * D) unit := serve_with (strict_turn mret) id.

(** ** The client *)

(** Every error is fatal. *)
Definition strict_request (msg : bytes) : M (GwW N unit) bytes :=
  ct ← wrap "encrypt" (on_session (NoiseSession_Encrypt msg));
  _ ← wrap "write" (on_conn (conn_WriteMessage ct));
  replyCT ← wrap "read" (on_conn conn_ReadMessage);
  wrap "decrypt" (on_session (NoiseSession_Decrypt replyCT)).

Definition starter_messages : list string := ["Hello FProto!"; "Encrypted message"; "Goodbye!"].

(** [runClient] on the connection it dials: the replies it prints. *)
Definition starter_client (entropy : bytes) (clientKey : KeyPair) : M N (list bytes) :=
  connected entropy clientKey (requests strict_request (λ msg, Ok (bytes_of_string msg)) Ok starter_messages).

End starters.

(** ** Lemmas *)

Section lemmas.
Context {N D : Type} `{ConnLaws N} `{!ReliableConn N} `{NoiseLaws}.
Context (reply : bytes → M D bytes).

(** Every message is answered. *)
Definition always (p : bytes) : M D (option bytes) := r ← reply p; mret (Some r).

Lemma strict_turn_clean : turn_clean always (strict_turn (N:=N) reply).
Proof.
  intros c s s0 n d p ct c' cts os r d1 Hs E Hu Hw Hsend Ea answered.
  apply bind_Ok_inv in Ea as (b & d2 & Ea & Er). injection Er as <- <-. intros enc s' Ee Hf. unfold answered. clear answered.
  destruct (Read_next _ _ _ Hu) as (n1 & Er & Hu1 & Hw1).
  destruct (in_step_Decrypt _ _ _ _ _ Hs E) as (s1 & Ed & Hs1 & Hsend1 & _).
  destruct (Write_succeeds n1 enc Hf) as [n2 Ew].
  pose proof (NoiseSession_Encrypt_send _ _ _ _ _ Ee (eq_trans Hsend1 Hsend)) as Ee1.
  exists (mkNoiseSession (ns_Send s') (ns_Recv s1)), n2. split; [|split_and!; [exact Hs1|reflexivity|by eapply Write_unread|eapply Write_adds; eauto]].
  unfold strict_turn, attempt, on_conn, on_session, on_disp, zoom, mbind, M_bind. simpl.
  rewrite Er. simpl. rewrite Ed. simpl. rewrite Ea. simpl. rewrite Ee1. simpl. by rewrite Ew.
Qed.

Lemma strict_turn_end : stops_at_end (strict_turn (N:=N) reply).
Proof.
  intros s n d Hu. destruct (Read_end _ Hu) as (e & n' & Er & Hw). exists n'. split; [|done].
  unfold strict_turn, attempt, on_conn, zoom, mbind, M_bind. simpl. by rewrite Er.
Qed.

Lemma strict_request_answered : request_answered (strict_request (N:=N)).
Proof.
  intros m c n ct c1 r s enc s1 encs os Em Hf Hu Hw Hs Er. destruct (Write_succeeds n ct Hf) as [n1 Ew].
  pose proof (Write_unread _ _ _ _ _ Ew Hu) as Hu1. destruct (Read_next _ _ _ Hu1) as (n2 & Erd & Hu2 & Hw2).
  assert (Hc1 : ns_Recv c1 = ns_Recv c).
  { unfold NoiseSession_Encrypt in Em. destruct (cs_Encrypt (ns_Send c) m). by injection Em as -> <-. }
  rewrite <-Hc1 in Hs. destruct (in_step_Decrypt _ _ _ _ _ Hs Er) as (c2 & Ed & Hs2 & Hsend & _).
  exists c2, n2. split; [|split_and!; try done; apply Hw2; by eapply Write_adds].
  unfold strict_request, wrap, on_conn, on_session, zoom, mbind, M_bind. simpl.
  rewrite Em. simpl. rewrite Ew. simpl. rewrite Erd. simpl. by rewrite Ed.
Qed.

(** The answers to a sequence of messages. *)
Fixpoint replies (pts : list bytes) : M D (list bytes) :=
  match pts with [] => mret [] | pt :: pts => r ← reply pt; rs ← replies pts; mret (r :: rs) end.

Lemma answer_all_replies pts d rs d' : replies pts d = (Ok rs, d') → answer_all always pts d = (Ok rs, d').
Proof.
  revert d rs. induction pts as [|pt pts IH]; intros d rs E; [done|]. simpl in E.
  apply bind_Ok_inv in E as (r & d1 & E1 & E). apply bind_Ok_inv in E as (rs' & d2 & E2 & E). injection E as <- <-. simpl.
  assert (Ea : always pt d = (Ok (Some r), d1)) by (unfold always; by rewrite (bind_run _ _ _ _ _ E1)).
  by rewrite (bind_run _ _ _ _ _ Ea), (bind_run _ _ _ _ _ (IH _ _ E2)).
Qed.

End lemmas.

(** The interop server's answers are the messages. *)
Lemma replies_mret {D} pts (d : D) : replies mret pts d = (Ok pts, d).
Proof. revert d. induction pts as [|pt pts IH]; intros d; [done|]. simpl. unfold mbind, M_bind. simpl. by rewrite IH. Qed.

(** ** Properties *)

(** The starter's client and server talk to each other, and so do the client
    and the interop server.  When nothing fails, the client prints the replies of the
    server to its three messages, in order; those of the interop server are the
    messages themselves. *)
Theorem starter_session {N Nc D} `{ConnLaws N} `{!ReliableConn N} `{Conn Nc} `{!ConnLaws Nc} `{!ReliableConn Nc} `{NoiseLaws}
    `{JSON EchoReply} (now : M D Z) (ec es : bytes) (kc ks : KeyPair) (rs : list bytes) (nc : Nc) (n : N) (d d' : D) (fuel : nat) :
  let msgs := bytes_of_string <$> starter_messages in
  (3 < fuel)%nat →
  (conversation ec kc es ks msgs rs nc n → replies (echo_reply now) msgs d = (Ok rs, d') →
     (∃ nc', starter_client ec kc nc = (Ok rs, nc')) ∧ ∃ n', starter_server now fuel es ks (n, d) = (Ok tt, (n', d'))) ∧
  (conversation ec kc es ks msgs msgs nc n →
     (∃ nc', starter_client ec kc nc = (Ok msgs, nc')) ∧ ∃ n', interop_server fuel es ks (n, d) = (Ok tt, (n', d))).
Proof.
  intros msgs Hfuel.
  assert (Hclient : ∀ rs, length rs = 3%nat → conversation ec kc es ks msgs rs nc n → ∃ nc', starter_client ec kc nc = (Ok rs, nc')).
  { intros rs' Hl Hconv. apply (conversation_requests ec kc es ks _ _ _ _ _ _ _ _ _ strict_request_answered Hconv); [| |done].
    - apply Forall2_fmap_r. by apply Forall_Forall2_diag, Forall_true.
    - by apply Forall_Forall2_diag, Forall_true. }
  split.
  - intros Hconv Er. assert (length rs = 3%nat) as Hl.
    { unfold msgs, starter_messages in Er. simpl in Er.
      apply bind_Ok_inv in Er as (? & ? & _ & Er). apply bind_Ok_inv in Er as (? & ? & Er' & Er). injection Er as <- _.
      apply bind_Ok_inv in Er' as (? & ? & _ & Er). apply bind_Ok_inv in Er as (? & ? & Er' & Er). injection Er as <- _.
      apply bind_Ok_inv in Er' as (? & ? & _ & Er). apply bind_Ok_inv in Er as (? & ? & Er' & Er). injection Er as <- _.
      by injection Er' as <- _. }
    split; [by apply Hclient|]. eapply (conversation_turns ec kc es ks (always (echo_reply now)));
      [apply strict_turn_clean|apply strict_turn_end|exact Hconv|by apply answer_all_replies|done].
  - intros Hconv. split; [by apply Hclient|]. eapply (conversation_turns ec kc es ks (always mret));
      [apply strict_turn_clean|apply strict_turn_end|exact Hconv|by apply answer_all_replies, replies_mret|done].
Qed.

(** ** Witnesses *)

#[local] Instance EchoReply_eq_dec : EqDecision EchoReply.
Proof. solve_decision. Defined.

#[local] Existing Instance toy_noise.
#[local] Existing Instance toy_noise_laws.

(** A clock that ticks with every call. *)
Definition example_now : M Z Z := λ t, (Ok t, t + 1).

Definition starter_replies : list EchoReply := imap (λ i m, mkEchoReply m (1000 + Z.of_nat i)) starter_messages.
#[local] Instance reply_json : JSON EchoReply := table_json starter_replies.

Definition example_reply_bytes : list bytes := (λ i, replicate i x31) <$> seq 0 3.

Lemma starter_session_witness :
  let msgs := bytes_of_string <$> starter_messages in
  ((∃ nc', starter_client [] toy_key (toy_client_end example_reply_bytes) = (Ok example_reply_bytes, nc')) ∧
   ∃ n', starter_server example_now 4 [] toy_key (toy_server_end msgs, 1000) = (Ok tt, (n', 1003))) ∧
  ((∃ nc', starter_client [] toy_key (toy_client_end msgs) = (Ok msgs, nc')) ∧
   ∃ n', interop_server 4 [] toy_key (toy_server_end msgs, tt) = (Ok tt, (n', tt))).
Proof.
  intros msgs. split.
  - refine (proj1 (starter_session example_now [] [] toy_key toy_key example_reply_bytes (toy_client_end example_reply_bytes)
      (toy_server_end msgs) 1000 1003 4 _) _ _); [lia|apply toy_conversation|vm_compute; reflexivity].
  - refine (proj2 (starter_session (λ t, (Ok 0, t)) [] [] toy_key toy_key [] (toy_client_end msgs)
      (toy_server_end msgs) tt tt 4 _) _); [lia|apply toy_conversation].
Defined.
