(* ===== verification/Sdk.v ===== *)
(** * The Go SDK

    [sdk/go]: the client ([client.go]) with its handshake ([crypto.go]), the dialling and
    both transports ([transport.go]), and the reconnection with exponential backoff
    ([reconnect.go]).  The mutex of the client makes [Connect], [Send] and [Close] one
    step each.  The dialling of the libraries, the timer, the random numbers and the
    context are an environment. *)
From S2P Require Import Prelude Bytes Postgres Messages Outbox Wire Noise Conn Gateway Float64.

Local Open Scope Z_scope.

(** ** crypto.go *)

(** [if err != nil { return nil, err }] *)
Definition or_return {A B} (r : result A) (k : A → proc B) : proc B :=
  match r with
  | Ok a => k a
  | Err e => Ret (Err e)
  | Panic s => Ret (Panic s)
  end.

Definition sdk_GenerateKeyPair `{Noise} (rnd : result bytes) : result KeyPair :=
  match GenerateKeypair rnd with
  | Ok kp => Ok (mkKeyPair (Private kp) (Public kp))
  | Err e => Err (Wrap "generate keypair" e)
  | Panic why => Panic why
  end.

Definition clientHandshake `{Noise} (entropy : bytes) (key : KeyPair) : proc NoiseSession :=
  or_return (NewHandshakeState true key entropy) (λ hs,
  let '(r1, hs) := hs_WriteMessage hs in
  or_return r1 (λ '(msg1, _, _),
  Send msg1 (λ w1, or_return w1 (λ _,
  Recv (λ m2, or_return m2 (λ msg2,
  let '(r2, hs) := hs_ReadMessage hs msg2 in
  or_return r2 (λ _,
  let '(r3, hs) := hs_WriteMessage hs in
  or_return r3 (λ '(msg3, csSend, csRecv),
  Send msg3 (λ w3, or_return w3 (λ _,
  match csSend, csRecv with
  | Some csSend, Some csRecv => Ret (Ok (mkNoiseSession csSend csRecv))
  | _, _ => Ret (Err (Errorf "handshake incomplete"))
  end)))))))))).

(** ** reconnect.go: configuration *)

Record ReconnectConfig := mkReconnectConfig {
  InitialDelay : Z;
  MaxDelay : Z;
  Multiplier : float64;
  Jitter : float64;
  MaxAttempts : Z;
}.

Definition DefaultReconnectConfig : ReconnectConfig :=
  mkReconnectConfig (1 * Second) (30 * Second) (f_of_Z 2) (f_dec 2 1) 0.

(** ** client.go *)

Record Config := mkConfig {
  ServerAddr : string;
  TransportType : string;
  TLSSkipVerify : bool;
  Reconnect : ReconnectConfig;
}.

(** [Transport]: a connection that can be closed. *)
Class Transport (N : Type) `{Conn N} := { Transport_Close : M N unit }.

(** What the client asks of its surroundings: the dialling of websocket and quic-go,
    [rand.Float64], the wait for a timer or the end of the context, and the random bytes
    of the handshake. *)
Class SdkEnv (E N : Type) := {
  env_dialWS : string → M E N;
  env_dialQUIC : string → bool → M E N;
  env_rand : M E float64;
  env_wait : Z → M E unit;
  env_entropy : E → bytes * E;
}.

Record Client `{Noise} (N : Type) := mkClient {
  cl_conn : option N;
  cl_session : option NoiseSession;
  cl_key : KeyPair;
  cl_config : Config;
  cl_closed : bool;
}.
Arguments mkClient {_ N} _ _ _ _ _.
Arguments cl_conn {_ N} _.
Arguments cl_session {_ N} _.
Arguments cl_key {_ N} _.
Arguments cl_config {_ N} _.
Arguments cl_closed {_ N} _.

Definition New `{Noise} {N} (key : KeyPair) (config : Config) : Client N := mkClient None None key config false.

Section client.
Context {N E : Type} `{Transport N} `{SdkEnv E N} `{Noise}.

(** The client and its surroundings. *)
Notation W := (Client N * E)%type.

Definition dial (cfg : Config) : M E N :=
  if bool_decide (TransportType cfg ∈ ["websocket"; "ws"; ""]) then env_dialWS (ServerAddr cfg)
  else if bool_decide (TransportType cfg = "quic") then env_dialQUIC (ServerAddr cfg) (TLSSkipVerify cfg)
  else throw (Errorf "unknown transport: %s").

Definition on_env {A} (m : M E A) : M W A := zoom snd (λ e w, (fst w, e)) m.

Definition set_conn (conn : N) (c : Client N) : Client N :=
  mkClient (Some conn) (cl_session c) (cl_key c) (cl_config c) (cl_closed c).
Definition set_session (s : NoiseSession) (c : Client N) : Client N :=
  mkClient (cl_conn c) (Some s) (cl_key c) (cl_config c) (cl_closed c).
Definition set_closed (b : bool) (c : Client N) : Client N :=
  mkClient (cl_conn c) (cl_session c) (cl_key c) (cl_config c) b.

(** An operation on the connection [conn], which the client holds. *)
Definition on_transport {A} (conn : N) (m : M N A) : M W A := λ w,
  let '(r, conn') := m conn in (r, (set_conn conn' w.1, w.2)).

(** A failed handshake closes the connection, which the client keeps. *)
Definition Client_Connect : M W unit := λ w,
  let c := w.1 in
  match dial (cl_config c) w.2 with
  | (Err e, env) => (Err (Wrap "dial" e), (c, env))
  | (Panic why, env) => (Panic why, (c, env))
  | (Ok conn, env) =>
      let '(entropy, env) := env_entropy env in
      match run_proc (clientHandshake entropy (cl_key c)) conn with
      | (Ok session, conn) => (Ok tt, (set_closed false (set_session session (set_conn conn c)), env))
      | (Err e, conn) =>
          let '(_, conn) := Transport_Close conn in (Err (Wrap "handshake" e), (set_conn conn c, env))
      | (Panic why, conn) => (Panic why, (set_conn conn c, env))
      end
  end.

Definition Client_Send (plaintext : bytes) : M W unit := λ w,
  match cl_closed w.1, cl_conn w.1 with
  | false, Some conn =>
      match cl_session w.1 with
      | None => (Panic "nil pointer dereference", w)
      | Some session =>
          let '(r, session') := NoiseSession_Encrypt plaintext session in
          let w' := (set_session session' w.1, w.2) in
          match r with
          | Ok ct => on_transport conn (conn_WriteMessage ct) w'
          | Err e => (Err e, w')
          | Panic s => (Panic s, w')
          end
      end
  | _, _ => (Err (Errorf "client not connected"), w)
  end.

(** [noiseSession.Decrypt]: unlike the server's it does not wrap the error. *)
Definition noiseSession_Decrypt (ciphertext : bytes) : M NoiseSession bytes := λ s,
  let '(r, cs) := cs_Decrypt (ns_Recv s) ciphertext in (r, mkNoiseSession (ns_Send s) cs).

Definition Client_Receive : M W bytes := λ w,
  match cl_conn w.1 with
  | None => (Err (Errorf "client not connected"), w)
  | Some conn =>
      let '(r, w') := on_transport conn conn_ReadMessage w in
      match r, cl_session w.1 with
      | Ok ct, Some session =>
          let '(r, session') := noiseSession_Decrypt ct session in (r, (set_session session' w'.1, w'.2))
      | Ok _, None => (Panic "nil pointer dereference", w')
      | Err e, _ => (Err e, w')
      | Panic why, _ => (Panic why, w')
      end
  end.

Definition Client_Close : M W unit := λ w,
  let w' := (set_closed true w.1, w.2) in
  match cl_conn w.1 with
  | Some conn => on_transport conn Transport_Close w'
  | None => (Ok tt, w')
  end.

(** ** reconnect.go *)

(** What a conversion of a [float64] that does not fit gives. *)
Context (overflow : float64 → Z).

Definition applyJitter (d : Z) (jitter : float64) : M E Z :=
  if f_le jitter (f_of_Z 0) then mret d
  else
    let delta := f_mul (f_of_Z d) jitter in
    let min := f_sub (f_of_Z d) delta in
    let max := f_add (f_of_Z d) delta in
    r ← env_rand;
    mret (int64_of_float overflow (f_add min (f_mul r (f_sub max min)))).

(** [NextDelay], with [math.Pow] a parameter. *)
Definition NextDelay (pow : float64 → float64 → float64) (attempt_ : Z) (cfg : ReconnectConfig) : M E Z :=
  let delay := f_mul (f_of_Z (InitialDelay cfg)) (pow (Multiplier cfg) (f_of_Z attempt_)) in
  let delay := if f_lt (f_of_Z (MaxDelay cfg)) delay then f_of_Z (MaxDelay cfg) else delay in
  applyJitter (int64_of_float overflow delay) (Jitter cfg).

(** [delay = time.Duration(float64(delay) * cfg.Multiplier)], at most [MaxDelay]. *)
Definition next_delay (cfg : ReconnectConfig) (delay : Z) : Z :=
  let d := int64_of_float overflow (f_mul (f_of_Z delay) (Multiplier cfg)) in
  if MaxDelay cfg <? d then MaxDelay cfg else d.

(** The loop over a connection attempt; [fuel] bounds the attempts, and running out of
    it is a panic. *)
Fixpoint reconnect_loop (connect : M W unit) (cfg : ReconnectConfig) (fuel : nat) (delay attempts : Z) : M W unit :=
  match fuel with
  | O => panic "out of fuel"
  | S fuel =>
      r ← attempt connect;
      match r.1 with
      | None => mret tt
      | Some err =>
          let attempts := attempts + 1 in
          if (0 <? MaxAttempts cfg) && (MaxAttempts cfg <=? attempts) then throw err
          else
            jittered ← on_env (applyJitter delay (Jitter cfg));
            _ ← on_env (env_wait jittered);
            reconnect_loop connect cfg fuel (next_delay cfg delay) attempts
      end
  end.

(** The configuration the loop uses. *)
Definition effective (cfg : ReconnectConfig) : ReconnectConfig :=
  if InitialDelay cfg =? 0 then DefaultReconnectConfig else cfg.

Definition Client_ConnectWithReconnect (fuel : nat) : M W unit := λ w,
  let cfg := effective (Reconnect (cl_config w.1)) in
  reconnect_loop Client_Connect cfg fuel (InitialDelay cfg) 0 w.

(** The delay before the attempt after the first [k] waits, without jitter. *)
Fixpoint backoff (cfg : ReconnectConfig) (k : nat) : Z :=
  match k with O => InitialDelay cfg | S k => next_delay cfg (backoff cfg k) end.

(** Sending and receiving several messages. *)
Fixpoint send_all (ps : list bytes) : M W unit :=
  match ps with [] => mret tt | p :: ps => Client_Send p ;; send_all ps end.

Fixpoint receive_all (k : nat) : M W (list bytes) :=
  match k with
  | O => mret []
  | S k => p ← Client_Receive; ps ← receive_all k; mret (p :: ps)
  end.

End client.

(** ** transport.go: the QUIC transport *)

Record quicTransport (S : Type) := mkQuicTransport { qt_stream : S }.
Arguments mkQuicTransport {S} _.
Arguments qt_stream {S} _.

Section quic_transport.
Context {S : Type} `{Stream S} `{StreamCloser S}.

Definition on_quic {A} (m : M S A) : M (quicTransport S) A := zoom qt_stream (λ s _, mkQuicTransport s) m.

(** Without a limit of its own the length prefix is the only one. *)
Definition sdk_fits (m : bytes) : Prop := Z.of_nat (length m) < 2 ^ 32.

#[export] Instance quicTransport_Conn : Conn (quicTransport S) := {
  conn_ReadMessage := on_quic quicTransport_ReadMessage;
  conn_WriteMessage m := on_quic (quicTransport_WriteMessage m);
  conn_RemoteAddr _ := "";
  conn_unread q ms := Forall sdk_fits ms ∧ incoming (qt_stream q) = concat (frame <$> ms);
  conn_wrote q ms := sent (qt_stream q) = concat (frame <$> ms);
  conn_fits := sdk_fits;
}.

Definition quicTransport_Close : M S unit := _ ← ignore stream_Close; conn_CloseWithError.

#[export] Instance quicTransport_Transport : Transport (quicTransport S) := {
  Transport_Close := on_quic quicTransport_Close;
}.

End quic_transport.

(** [dialQUIC] over the dialler of quic-go: a connection, then a stream of it. *)
Definition dialQUIC {Q C S} (dial_addr : string → bool → M Q C) (open_stream : C → M Q S) (addr : string) (insecure : bool) :
    M Q (quicTransport S) :=
  conn ← dial_addr addr insecure;
  stream ← open_stream conn;
  mret (mkQuicTransport stream).

(** ** transport.go: the WebSocket transport *)

Record wsTransport (S : Type) := mkWsTransport { wst_conn : S }.
Arguments mkWsTransport {S} _.
Arguments wst_conn {S} _.

Definition dialWS {Q S} (dial : string → M Q S) (url : string) : M Q (wsTransport S) :=
  c ← dial url; mret (mkWsTransport c).

Section ws_transport.
Context {S : Type} `{WebSocket S}.

Definition on_wst {A} (m : M S A) : M (wsTransport S) A := zoom wst_conn (λ s _, mkWsTransport s) m.

Definition wsTransport_read : M S bytes := x ← ws_ReadMessage; mret x.2.
Definition wsTransport_ReadMessage : M (wsTransport S) bytes := on_wst wsTransport_read.
Definition wsTransport_WriteMessage (data : bytes) : M (wsTransport S) unit := on_wst (ws_WriteMessage BinaryMessage data).
Definition wsTransport_Close : M (wsTransport S) unit := on_wst ws_Close.

#[export] Instance wsTransport_Conn : Conn (wsTransport S) := {
  conn_ReadMessage := wsTransport_ReadMessage;
  conn_WriteMessage := wsTransport_WriteMessage;
  conn_RemoteAddr _ := "";
  conn_unread w ms := ws_unread (wst_conn w) ms;
  conn_wrote w ms := ws_wrote (wst_conn w) ms;
  conn_fits _ := True;
}.

#[export] Instance wsTransport_Transport : Transport (wsTransport S) := { Transport_Close := wsTransport_Close }.

End ws_transport.

(** ** The same process up to the texts of its errors *)

Inductive proc_equiv {A} : proc A → proc A → Prop :=
| equiv_Ok a : proc_equiv (Ret (Ok a)) (Ret (Ok a))
| equiv_Err e e' : proc_equiv (Ret (Err e)) (Ret (Err e'))
| equiv_Panic why : proc_equiv (Ret (Panic why)) (Ret (Panic why))
| equiv_Recv k k' : (∀ r, proc_equiv (k r) (k' r)) → proc_equiv (Recv k) (Recv k')
| equiv_Send b k k' : (∀ r, proc_equiv (k r) (k' r)) → proc_equiv (Send b k) (Send b k').

(** ** Lemmas *)

#[export] Instance proc_equiv_equivalence {A} : Equivalence (@proc_equiv A).
Proof.
  split.
  - intros p. induction p as [[]| |]; by constructor.
  - intros p q. induction 1; by constructor.
  - intros p q r Hpq. revert r. induction Hpq; inversion 1; subst; try constructor; eauto.
Qed.

Section equiv.
Context {A B : Type}.
Implicit Types (k : A → proc B) (r : result A).

Lemma try_or_return what r k k' :
  (∀ a, proc_equiv (k a) (k' a)) → proc_equiv (try_then what r k) (or_return r k').
Proof. intros Hk. destruct r; simpl; [apply Hk|constructor..]. Qed.

End equiv.

(** The stages of a handshake do not depend on the texts of errors. *)
Lemma failed_equiv {A} (p q : proc A) : proc_equiv p q → failed p → failed q.
Proof. intros Hpq [e ->]. inversion Hpq; subst. by eexists. Qed.

Lemma client0_equiv {A} m1 m2 m3 (rc : A) p q :
  proc_equiv p q → client0 m1 m2 m3 rc p → client0 m1 m2 m3 rc q.
Proof.
  intros Hpq (k & -> & (k1 & E1 & (k2 & E2 & E3 & F2) & F1) & F0).
  inversion Hpq as [| | | |? ? k' Hk]; subst. exists k'. split; [done|].
  split; [|intros e; eapply failed_equiv; [apply Hk|apply F0]]. pose proof (Hk (Ok tt)) as H1. rewrite E1 in H1.
  inversion H1 as [| | |? k1' Hk1|]; subst. exists k1'. split; [done|]. split; [|intros e; eapply failed_equiv; [apply Hk1|apply F1]].
  pose proof (Hk1 (Ok m2)) as H2. rewrite E2 in H2. inversion H2 as [| | | |? ? k2' Hk2]; subst.
  exists k2'. split; [done|]. split; [|intros e; eapply failed_equiv; [apply Hk2|apply F2]].
  pose proof (Hk2 (Ok tt)) as H3. rewrite E3 in H3. by inversion H3.
Qed.

Lemma handshake_equiv `{Noise} (entropy : bytes) (key : KeyPair) :
  proc_equiv (ClientHandshake entropy key) (clientHandshake entropy key).
Proof.
  apply try_or_return. intros hs. destruct (hs_WriteMessage hs) as [r1 hs1].
  apply try_or_return. intros [[msg1 ?] ?]. constructor. intros w1. destruct w1 as [[]| |]; simpl; [|constructor..].
  constructor. intros m2. destruct m2 as [msg2| |]; simpl; [|constructor..].
  destruct (hs_ReadMessage hs1 msg2) as [r2 hs2]. apply try_or_return. intros _.
  destruct (hs_WriteMessage hs2) as [r3 hs3]. apply try_or_return. intros [[msg3 [cs|]] [cr|]];
    constructor; intros w3; destruct w3 as [[]| |]; simpl; constructor.
Qed.

(** The framing of the SDK is the server's, with other texts of errors when writing and
    without the limit when reading. *)
Section quic_transport_lemmas.
Context {S : Type} `{StreamLaws S}.
Implicit Types (s : S) (m : bytes).

Lemma quicTransport_WriteMessage_same m s r s' :
  quicTransport_WriteMessage m s = (r, s') →
  ∃ r', QUICConn_WriteMessage m s = (r', s') ∧ (r = Ok tt → r' = Ok tt).
Proof.
  unfold quicTransport_WriteMessage, QUICConn_WriteMessage, mbind, M_bind, wrap. intros E.
  destruct (stream_Write _ s) as [[[]| |] s1]; [|simplify_eq; eexists; split; [done|naive_solver]..].
  destruct (stream_Write m s1) as [[[]| |] s2]; simplify_eq; eexists; (split; [done|naive_solver]).
Qed.

Lemma quicTransport_ReadMessage_sent s r s' : quicTransport_ReadMessage s = (r, s') → sent s' = sent s.
Proof.
  unfold quicTransport_ReadMessage. intros E. step E as r1 s1 E1. apply ReadFull_sent in E1.
  destruct r1 as [b|e|why]; [|by injection E as _ <-|by injection E as _ <-].
  apply ReadFull_sent in E. congruence.
Qed.

#[export] Instance quicTransport_ConnLaws : ConnLaws (quicTransport S).
Proof.
  split; cbn [conn_unread conn_wrote conn_ReadMessage conn_WriteMessage conn_fits quicTransport_Conn]; unfold on_quic, zoom.
  - intros q m ms [[Hm Hms]%Forall_cons Hin]. rewrite fmap_cons in Hin. cbn [concat] in Hin.
    destruct (quicTransport_ReadMessage_frame _ _ _ Hin Hm) as (s' & E & Hin'). rewrite E.
    eexists. split; [done|]. split; [done|]. intros os Hos. simpl. by rewrite (quicTransport_ReadMessage_sent _ _ _ E).
  - intros q [_ Hin]. destruct (quicTransport_ReadMessage (qt_stream q)) as [r s'] eqn:E.
    pose proof (quicTransport_ReadMessage_sent _ _ _ E) as Hs. unfold quicTransport_ReadMessage in E.
    destruct (ReadFull_short 4 (qt_stream q)) as (e & s1 & E1 & _); [rewrite Hin; simpl; lia|].
    rewrite (bind_run _ _ _ _ _ E1) in E. injection E as <- <-. eexists _, _. split; [done|]. intros os Hos. simpl. congruence.
  - intros q m q' os Hm E Hos. destruct (quicTransport_WriteMessage m (qt_stream q)) as [r0 s'] eqn:Ew. simplify_eq/=.
    destruct (quicTransport_WriteMessage_same _ _ _ _ Ew) as (r' & E' & Hok). rewrite (Hok eq_refl) in E'.
    apply write_frame in E'; [|done]. rewrite E', Hos, fmap_app, concat_app. cbn. by rewrite app_nil_r.
  - intros q m r q' ms E [Hms Hin]. destruct (quicTransport_WriteMessage m (qt_stream q)) as [r0 s'] eqn:Ew. simplify_eq/=.
    destruct (quicTransport_WriteMessage_same _ _ _ _ Ew) as (r' & E' & _).
    apply QUICConn_WriteMessage_incoming in E' as [-> _]. done.
  - done.
  - done.
Qed.

End quic_transport_lemmas.

#[export] Instance wsTransport_ConnLaws {S} `{WebSocketLaws S} : ConnLaws (wsTransport S).
Proof.
  split; cbn [conn_unread conn_wrote conn_ReadMessage conn_WriteMessage conn_RemoteAddr conn_fits wsTransport_Conn];
    unfold wsTransport_ReadMessage, wsTransport_WriteMessage, on_wst, zoom.
  - intros [s] m ms Hu. destruct (ws_Read_next _ _ _ Hu) as (t & s' & E & Hu' & Hw). simpl.
    unfold wsTransport_read. rewrite (bind_run _ _ _ _ _ E). eauto 6.
  - intros [s] Hu. destruct (ws_Read_end _ Hu) as (e & s' & E & Hw). simpl.
    unfold wsTransport_read. rewrite (bind_run _ _ _ _ _ E). eauto 6.
  - intros [s] m c' os _ E Hw. simpl in *. destruct (ws_WriteMessage _ _ s) as [r s'] eqn:E1. injection E as -> <-.
    by eapply ws_Write_adds.
  - intros [s] m r c' ms E Hu. simpl in *. destruct (ws_WriteMessage _ _ s) as [r1 s'] eqn:E1. injection E as <- <-.
    by eapply ws_Write_unread.
  - done.
  - done.
Qed.

Section conversation.
Context {N E : Type} `{Transport N} `{!ConnLaws N} `{!ReliableConn N} `{SdkEnv E N} `{NoiseLaws}.
Implicit Types (c : Client N) (s : NoiseSession) (e : E).

(** [Connect] over a connection on which the server answers. *)
Lemma Connect_spec m1 m2 m3 s c nc e e1 e2 entropy ms :
  client0 m1 m2 m3 s (ClientHandshake entropy (cl_key c)) →
  dial (cl_config c) e = (Ok nc, e1) → env_entropy e1 = (entropy, e2) →
  conn_unread nc (m2 :: ms) → conn_wrote nc [] → conn_fits m1 → conn_fits m3 →
  ∃ nc', Client_Connect (c, e) = (Ok tt, (mkClient (Some nc') (Some s) (cl_key c) (cl_config c) false, e2)) ∧
    conn_unread nc' ms ∧ conn_wrote nc' [m1; m3].
Proof.
  intros Hc%(client0_equiv _ _ _ _ _ _ (handshake_equiv entropy (cl_key c))) Ed Ee Hu Hw Hf1 Hf3.
  destruct (run_client_handshake _ _ _ _ _ _ _ _ Hc Hf1 Hf3 Hu Hw) as (nc' & Er & Hu' & Hw').
  exists nc'. split; [|done]. unfold Client_Connect. simpl. by rewrite Ed, Ee, Er.
Qed.

Lemma send_all_spec ps s s' cts nc k cfg e ms os :
  encrypt_seq ps s = (Ok cts, s') → Forall conn_fits cts → conn_unread nc ms → conn_wrote nc os →
  ∃ nc', send_all ps (mkClient (Some nc) (Some s) k cfg false, e) =
           (Ok tt, (mkClient (Some nc') (Some s') k cfg false, e)) ∧
    conn_unread nc' ms ∧ conn_wrote nc' (os ++ cts).
Proof.
  revert s cts nc os. induction ps as [|p ps IH]; intros s cts nc os Ep Hf Hu Hw; simpl in Ep.
  { unfold mret, M_ret in Ep. injection Ep as <- <-. exists nc. by rewrite app_nil_r. }
  apply bind_Ok_inv in Ep as (ct & s1 & E1 & Ep). apply bind_Ok_inv in Ep as (cts' & s2 & E2 & Ep).
  unfold mret, M_ret in Ep. injection Ep as <- <-. apply Forall_cons in Hf as [Hf1 Hf].
  destruct (Write_succeeds nc ct Hf1) as [nc1 Ew].
  destruct (IH s1 cts' nc1 (os ++ [ct]) E2 Hf) as (nc' & Ers & Hu' & Hw').
  { by eapply Write_unread. } { by eapply Write_adds. }
  exists nc'. rewrite <-app_assoc in Hw'. split; [|done]. simpl.
  assert (Es : Client_Send p (mkClient (Some nc) (Some s) k cfg false, e) =
               (Ok tt, (mkClient (Some nc1) (Some s1) k cfg false, e))).
  { unfold Client_Send, on_transport. simpl. by rewrite E1, Ew. }
  by rewrite (bind_run _ _ _ _ _ Es).
Qed.

Lemma receive_all_spec cts rs s s' nc k cfg e b os :
  decrypt_seq cts s = (Ok rs, s') → conn_unread nc cts → conn_wrote nc os →
  ∃ nc', receive_all (length rs) (mkClient (Some nc) (Some s) k cfg b, e) =
           (Ok rs, (mkClient (Some nc') (Some s') k cfg b, e)) ∧ conn_wrote nc' os.
Proof.
  revert rs s nc. induction cts as [|ct cts IH]; intros rs s nc Ed Hu Hw; simpl in Ed.
  { unfold mret, M_ret in Ed. injection Ed as <- <-. by exists nc. }
  apply bind_Ok_inv in Ed as (p & s1 & E1 & Ed). apply bind_Ok_inv in Ed as (rs' & s2 & E2 & Ed).
  unfold mret, M_ret in Ed. injection Ed as <- <-. destruct (Read_next _ _ _ Hu) as (nc1 & Er & Hu1 & Hw1).
  destruct (IH rs' s1 nc1 E2 Hu1 (Hw1 _ Hw)) as (nc' & Ers & Hw'). exists nc'. split; [|done]. simpl.
  assert (Es : Client_Receive (mkClient (Some nc) (Some s) k cfg b, e) =
               (Ok p, (mkClient (Some nc1) (Some s1) k cfg b, e))).
  { unfold Client_Receive, on_transport. simpl. rewrite Er. simpl. unfold noiseSession_Decrypt.
    unfold NoiseSession_Decrypt in E1. apply wrap_Ok_inv in E1. destruct (cs_Decrypt (ns_Recv s) ct). by injection E1 as -> <-. }
  rewrite (bind_run _ _ _ _ _ Es). by rewrite (bind_run _ _ _ _ _ Ers).
Qed.

End conversation.

Section reconnect_lemmas.
Context {N E : Type} `{Transport N} `{SdkEnv E N} `{Noise} (overflow : float64 → Z).

Lemma applyJitter_none d j (e : E) : f_le j (f_of_Z 0) = true → applyJitter overflow d j e = (Ok d, e).
Proof. unfold applyJitter. by intros ->. Qed.

(** The calls of the environment between two attempts. *)
Definition pause (e e' : E) : Prop := (∃ r, env_rand e = (r, e')) ∨ (∃ d r, env_wait d e = (r, e')).

Definition no_panic {W A} (m : M W A) : Prop := ∀ w why w', m w ≠ (Panic why, w').

Lemma applyJitter_inv d j e r e' :
  no_panic env_rand → applyJitter overflow d j e = (r, e') →
  (e' = e ∨ pause e e') ∧ ((∃ z, r = Ok z) ∨ ∃ x, r = Err x).
Proof.
  intros Hn. unfold applyJitter. case_match; [unfold mret, M_ret; intros [= <- <-]; eauto|]. cbv zeta. intros Ej.
  step Ej as rr e1 Er. destruct rr as [x|x|why]; [unfold mret, M_ret in Ej; injection Ej as <- <-|injection Ej as <- <-|by apply Hn in Er].
  all: split; [right; left; by eauto|by eauto].
Qed.

(** One failed attempt and the wait after it, by their outcome. *)
Lemma reconnect_loop_S connect cfg fuel delay attempts w :
  reconnect_loop overflow connect cfg (S fuel) delay attempts w =
  match connect w with
  | (Ok _, w1) => (Ok tt, w1)
  | (Panic why, w1) => (Panic why, w1)
  | (Err err, w1) =>
      if (0 <? MaxAttempts cfg) && (MaxAttempts cfg <=? attempts + 1) then (Err err, w1)
      else match applyJitter overflow delay (Jitter cfg) w1.2 with
           | (Ok d, e2) =>
               match env_wait d e2 with
               | (Ok _, e3) => reconnect_loop overflow connect cfg fuel (next_delay overflow cfg delay) (attempts + 1) (w1.1, e3)
               | (Err x, e3) => (Err x, (w1.1, e3))
               | (Panic why, e3) => (Panic why, (w1.1, e3))
               end
           | (Err x, e2) => (Err x, (w1.1, e2))
           | (Panic why, e2) => (Panic why, (w1.1, e2))
           end
  end.
Proof.
  cbn [reconnect_loop]. unfold mbind, M_bind, attempt, on_env, zoom, throw, mret, M_ret.
  destruct (connect w) as [[[]|err|why] w1]; simpl; [done| |done]. case_match; [done|].
  destruct (applyJitter overflow delay (Jitter cfg) w1.2) as [[d|x|why] e2]; [|done..]. simpl.
  by destruct (env_wait d e2) as [[[]|x|why] e3].
Qed.

(** With a bound on the attempts the loop ends, without running out of fuel. *)
Lemma reconnect_loop_ends connect cfg fuel delay attempts w r w' :
  no_panic connect → no_panic env_rand → (∀ d, no_panic (env_wait d)) →
  attempts < MaxAttempts cfg → 0 ≤ attempts → MaxAttempts cfg - attempts ≤ Z.of_nat fuel →
  reconnect_loop overflow connect cfg fuel delay attempts w = (r, w') →
  (r = Ok tt ∧ (∃ w0, connect w0 = (Ok tt, w')) ∨ ∃ e, r = Err e) ∧
  ∀ count : Client N * E → Z,
    (∀ w0 r0 w1, connect w0 = (r0, w1) → count w1 ≤ count w0 + 1) →
    (∀ c e e', pause e e' → count (c, e') = count (c, e)) →
    count w' ≤ count w + (MaxAttempts cfg - attempts).
Proof.
  intros Hc Hr Hw. revert delay attempts w.
  induction fuel as [|fuel IH]; intros delay attempts w Hlt Hpos Hf Er; [lia|]. rewrite reconnect_loop_S in Er.
  destruct (connect w) as [[[]|err|why] w1] eqn:E1; [| |by apply Hc in E1].
  { injection Er as <- <-. split; [left; eauto|]. intros count Hinc Hpause. apply Hinc in E1. lia. }
  destruct ((0 <? MaxAttempts cfg) && (MaxAttempts cfg <=? attempts + 1)) eqn:Hm.
  { injection Er as <- <-. split; [right; eauto|]. intros count Hinc Hpause. apply Hinc in E1. lia. }
  assert (attempts + 1 < MaxAttempts cfg) by lia.
  destruct (applyJitter overflow delay (Jitter cfg) w1.2) as [rj e2] eqn:E2.
  destruct (applyJitter_inv _ _ _ _ _ Hr E2) as [Hp2 Hok2].
  assert (Hcount2 : ∀ count : Client N * E → Z, (∀ c e e', pause e e' → count (c, e') = count (c, e)) → count (w1.1, e2) = count w1).
  { intros count Hpause. destruct w1 as [c1 e1], Hp2 as [->|Hp2]; [done|by apply Hpause]. }
  destruct rj as [d|x|why]; [|injection Er as <- <-; split; [right; eauto|intros count Hinc Hpause; apply Hinc in E1; rewrite (Hcount2 _ Hpause); lia]|naive_solver].
  destruct (env_wait d e2) as [rw e3] eqn:E3.
  assert (Hcount3 : ∀ count : Client N * E → Z, (∀ c e e', pause e e' → count (c, e') = count (c, e)) → count (w1.1, e3) = count w1).
  { intros count Hpause. rewrite <-(Hcount2 _ Hpause). apply Hpause. right. eauto. }
  destruct rw as [[]|x|why]; [|injection Er as <- <-; split; [right; eauto|intros count Hinc Hpause; apply Hinc in E1; rewrite (Hcount3 _ Hpause); lia]|by apply Hw in E3].
  destruct (IH (next_delay overflow cfg delay) (attempts + 1) (w1.1, e3)) as [Hres Hcnt]; [lia..|done|].
  split; [done|]. intros count Hinc Hpause. specialize (Hcnt count Hinc Hpause). apply Hinc in E1. rewrite (Hcount3 _ Hpause) in Hcnt. lia.
Qed.

(** The delays: the first one times powers of the multiplier, up to the largest one. *)
Definition delay_after (cfg : ReconnectConfig) (m : Z) (k : nat) : Z := Z.min (InitialDelay cfg * m ^ Z.of_nat k) (MaxDelay cfg).

Lemma next_delay_after cfg m k :
  Multiplier cfg = f_of_Z m → 1 ≤ m → 0 < InitialDelay cfg ≤ MaxDelay cfg → MaxDelay cfg * m < 2 ^ 53 →
  next_delay overflow cfg (delay_after cfg m k) = delay_after cfg m (S k).
Proof.
  intros Hm Hm1 Hd Hmax. unfold next_delay. rewrite Hm. set (d := delay_after cfg m k).
  assert (Hp : 1 ≤ m ^ Z.of_nat k) by (pose proof (Z.pow_pos_nonneg m (Z.of_nat k)); lia).
  assert (0 < d ≤ MaxDelay cfg) as Hrange by (unfold d, delay_after; nia).
  rewrite float_product by nia. unfold delay_after. rewrite Nat2Z.inj_succ, Z.pow_succ_r by lia.
  unfold d, delay_after in *. set (x := m ^ Z.of_nat k) in *. destruct (Z.ltb_spec (MaxDelay cfg) (Z.min (InitialDelay cfg * x) (MaxDelay cfg) * m)); nia.
Qed.

Lemma Client_Connect_config w r w' : Client_Connect (N:=N) (E:=E) w = (r, w') → cl_config w'.1 = cl_config w.1.
Proof. unfold Client_Connect. intros Ec. by repeat (case_match; simplify_eq/=). Qed.

(** Attempts ([None]) and waits ([Some]) in turn. *)
Definition attempts_and_waits (cfg : ReconnectConfig) (m : Z) (j k : nat) : list (option Z) :=
  None :: concat ((λ i, [Some (delay_after cfg m i); None]) <$> seq j k).

Lemma reconnect_loop_waits connect cfg m (log : Client N * E → list (option Z)) (I : Client N → Prop) fuel j attempts w r w' :
  f_le (Jitter cfg) (f_of_Z 0) = true →
  Multiplier cfg = f_of_Z m → 1 ≤ m → 0 < InitialDelay cfg ≤ MaxDelay cfg → MaxDelay cfg * m < 2 ^ 53 →
  (∀ w0 r0 w1, I w0.1 → connect w0 = (r0, w1) → I w1.1 ∧ log w1 = log w0 ++ [None]) →
  (∀ c d e r0 e', env_wait d e = (r0, e') → log (c, e') = log (c, e) ++ [Some d]) →
  I w.1 → (0 < MaxAttempts cfg → attempts < MaxAttempts cfg) →
  reconnect_loop overflow connect cfg (S fuel) (delay_after cfg m j) attempts w = (r, w') →
  ∃ k last, log w' = log w ++ attempts_and_waits cfg m j k ++ last ∧
    (0 < MaxAttempts cfg → attempts + Z.of_nat k < MaxAttempts cfg) ∧
    (last = [Some (delay_after cfg m (j + k))] ∧ r ≠ Ok tt ∨
     last = [] ∧ ∀ err, r = Err err → 0 < MaxAttempts cfg ∧ attempts + Z.of_nat k + 1 = MaxAttempts cfg).
Proof.
  intros Hj Hm Hm1 Hd Hmax Hc Hw. revert j attempts w. induction fuel as [|fuel IH]; intros j attempts w Hi Ha Er;
    rewrite reconnect_loop_S in Er; destruct (connect w) as [r1 w1] eqn:E1; destruct (Hc _ _ _ Hi E1) as [Hi1 Hl1].
  all: destruct r1 as [[]|err|why]; [injection Er as <- <-; exists 0%nat, []; rewrite app_nil_r; split_and!; [done|lia|by right]|
    |injection Er as <- <-; exists 0%nat, []; rewrite app_nil_r; split_and!; [done|lia|by right]].
  all: destruct ((0 <? MaxAttempts cfg) && (MaxAttempts cfg <=? attempts + 1)) eqn:Hlim;
    [injection Er as <- <-; exists 0%nat, []; rewrite app_nil_r; split_and!; [done|lia|right; split; [done|]; intros; lia]|].
  all: rewrite applyJitter_none in Er by done; destruct w1 as [c1 e1]; cbn [fst snd] in *;
    destruct (env_wait (delay_after cfg m j) e1) as [rw e3] eqn:E3; pose proof (Hw c1 _ _ _ _ E3) as Hl3; rewrite Hl1 in Hl3.
  all: assert (Hstop : ∀ x, x ≠ Ok tt → (x, (c1, e3)) = (r, w') →
    ∃ k last, log w' = log w ++ attempts_and_waits cfg m j k ++ last ∧
      (0 < MaxAttempts cfg → attempts + Z.of_nat k < MaxAttempts cfg) ∧
      (last = [Some (delay_after cfg m (j + k))] ∧ r ≠ Ok tt ∨
       last = [] ∧ ∀ err, r = Err err → 0 < MaxAttempts cfg ∧ attempts + Z.of_nat k + 1 = MaxAttempts cfg))
    by (intros x Hx [= <- <-]; exists 0%nat, [Some (delay_after cfg m j)]; rewrite Nat.add_0_r, Hl3;
        split_and!; [by rewrite <-app_assoc|lia|by left]).
  - destruct rw as [[]|x|why]; [apply (Hstop (Panic "out of fuel"))|apply (Hstop (Err x))|apply (Hstop (Panic why))]; [done|exact Er|done|exact Er|done|exact Er].
  - destruct rw as [[]|x|why]; [|apply (Hstop (Err x)); [done|exact Er]|apply (Hstop (Panic why)); [done|exact Er]].
    rewrite (next_delay_after cfg m) in Er by done.
    apply IH in Er as (k & last & Hl & Hk & Hlast); [|done|lia].
    exists (S k), last. rewrite Hl, Hl3. split_and!; [|lia|].
    + unfold attempts_and_waits. cbn [seq fmap list_fmap concat]. rewrite <-!app_assoc. done.
    + rewrite Nat.add_succ_r. destruct Hlast as [?|[? Hend]]; [by left|right]. split; [done|]. intros err' He. destruct (Hend _ He). lia.
Qed.

End reconnect_lemmas.

(** A client of the SDK and the gateway talk to each other. *)
Lemma sdk_talks {N Nc E D} `{ConnLaws N} `{!ReliableConn N} `{Transport Nc} `{!ConnLaws Nc}
    `{!ReliableConn Nc} `{SdkEnv E Nc} `{NoiseLaws} `{FrameCodec} `{AppCodec}
    (dispatcher : option (slice → slice → AppMessage → M D slice))
    (es entropy m1 m2 m3 : bytes) (ks : KeyPair) (c c1 s s' : NoiseSession) (client : Client Nc)
    (ps cts rs encs : list bytes) (n : N) (nc : Nc) (d d' : D) (e e1 e2 : E) (fuel : nat) :
  client0 m1 m2 m3 c (ClientHandshake entropy (cl_key client)) →
  server0 m1 m2 m3 s (ServerHandshake es ks) → paired c s →
  encrypt_seq ps c = (Ok cts, c1) → reply_all dispatcher (conn_RemoteAddr n) ps d = (Ok rs, d') →
  encrypt_seq rs s = (Ok encs, s') →
  dial (cl_config client) e = (Ok nc, e1) → env_entropy e1 = (entropy, e2) →
  conn_unread n (m1 :: m3 :: cts) → conn_wrote n [] → conn_unread nc (m2 :: encs) → conn_wrote nc [] →
  Forall (conn_fits (N:=N)) (m2 :: encs) → Forall (conn_fits (N:=Nc)) (m1 :: m3 :: cts) → (length ps < fuel)%nat →
  (∃ n', handleConn dispatcher fuel es ks (n, d) = (Ok tt, (n', d')) ∧ conn_wrote n' (m2 :: encs)) ∧
  (∃ nc' c2, (Client_Connect ;; send_all ps ;; receive_all (length rs)) (client, e) =
       (Ok rs, (mkClient (Some nc') (Some c2) (cl_key client) (cl_config client) false, e2)) ∧
     conn_wrote nc' (m1 :: m3 :: cts)).
Proof.
  intros Hc Hs Hp Ep Er Ee Ed Een Hu Hw Hun Hwn Hf [Hf1 [Hf3 Hfc]%Forall_cons]%Forall_cons Hfuel.
  destruct (gateway_serves dispatcher _ _ _ _ _ _ _ _ _ _ _ _ _ _ _ _ _ _ Hs Hp Ep Hu Hw Er Ee Hf Hfuel)
    as [Hserver [c2 Edec]]. split; [done|].
  destruct (Connect_spec _ _ _ _ _ _ _ _ _ _ _ Hc Ed Een Hun Hwn Hf1 Hf3) as (nc1 & Econ & Hu1 & Hw1).
  destruct (send_all_spec _ _ _ _ _ (cl_key client) (cl_config client) e2 _ _ Ep Hfc Hu1 Hw1) as (nc2 & Esend & Hu2 & Hw2).
  destruct (receive_all_spec _ _ _ _ _ (cl_key client) (cl_config client) e2 false _ Edec Hu2 Hw2) as (nc3 & Erecv & Hw3).
  exists nc3, c2. split; [|done]. rewrite (bind_run _ _ _ _ _ Econ). by rewrite (bind_run _ _ _ _ _ Esend).
Qed.

(** ** Properties *)

(** C4: a client of the SDK and the gateway talk to each other.  Let [m1], [m2] and
    [m3] be the messages of a handshake and [c] and [s] the sessions it leads to.  When
    each connection delivers what the other side writes and no call fails, [Connect]
    succeeds, the gateway hands the messages of [Send] to the dispatcher in order, and
    as many calls of [Receive] return its answers in order.  What each side has written
    is what the other one was to be delivered. *)
Theorem sdk_gateway_conversation {N Nc E D} `{ConnLaws N} `{!ReliableConn N} `{Transport Nc} `{!ConnLaws Nc}
    `{!ReliableConn Nc} `{SdkEnv E Nc} `{NoiseLaws} `{FrameCodec} `{AppCodec}
    (dispatcher : option (slice → slice → AppMessage → M D slice))
    (es entropy m1 m2 m3 : bytes) (ks : KeyPair) (c c1 s s' : NoiseSession) (client : Client Nc)
    (ps cts rs encs : list bytes) (n : N) (nc : Nc) (d d' : D) (e e1 e2 : E) (fuel : nat) :
  client0 m1 m2 m3 c (ClientHandshake entropy (cl_key client)) →
  server0 m1 m2 m3 s (ServerHandshake es ks) → paired c s →
  encrypt_seq ps c = (Ok cts, c1) → reply_all dispatcher (conn_RemoteAddr n) ps d = (Ok rs, d') →
  encrypt_seq rs s = (Ok encs, s') →
  dial (cl_config client) e = (Ok nc, e1) → env_entropy e1 = (entropy, e2) →
  conn_unread n (m1 :: m3 :: cts) → conn_wrote n [] → conn_unread nc (m2 :: encs) → conn_wrote nc [] →
  Forall (conn_fits (N:=N)) (m2 :: encs) → Forall (conn_fits (N:=Nc)) (m1 :: m3 :: cts) → (length ps < fuel)%nat →
  (∃ n', handleConn dispatcher fuel es ks (n, d) = (Ok tt, (n', d')) ∧ conn_wrote n' (m2 :: encs)) ∧
  (∃ nc' c2, (Client_Connect ;; send_all ps ;; receive_all (length rs)) (client, e) =
       (Ok rs, (mkClient (Some nc') (Some c2) (cl_key client) (cl_config client) false, e2)) ∧
     conn_wrote nc' (m1 :: m3 :: cts)).
Proof. apply sdk_talks. Qed.

(** C21: with a bound on the attempts and a first delay, [ConnectWithReconnect]
    returns, after at most that many attempts (counted by anything an attempt raises by
    at most one and a pause leaves alone); when it succeeds the client is connected. *)
Theorem reconnect_terminates {N E} `{Transport N} `{SdkEnv E N} `{Noise} (overflow : float64 → Z) (fuel : nat)
    (w w' : Client N * E) (r : result unit) :
  let cfg := Reconnect (cl_config w.1) in
  no_panic (@Client_Connect N E _ _ _ _) → no_panic env_rand → (∀ d, no_panic (env_wait d)) →
  InitialDelay cfg ≠ 0 → 0 < MaxAttempts cfg ≤ Z.of_nat fuel →
  Client_ConnectWithReconnect overflow fuel w = (r, w') →
  (r = Ok tt ∧ cl_closed w'.1 = false ∧ is_Some (cl_conn w'.1) ∧ is_Some (cl_session w'.1) ∨ ∃ err, r = Err err) ∧
  ∀ count : Client N * E → Z,
    (∀ w0 r0 w1, Client_Connect w0 = (r0, w1) → count w1 ≤ count w0 + 1) →
    (∀ c e e', pause e e' → count (c, e') = count (c, e)) →
    count w' ≤ count w + MaxAttempts cfg.
Proof.
  intros cfg Hc Hr Hw Hd Hm. unfold Client_ConnectWithReconnect, effective. fold cfg.
  rewrite (proj2 (Z.eqb_neq _ _) Hd). intros Er.
  destruct (reconnect_loop_ends overflow _ cfg fuel (InitialDelay cfg) 0 w r w' Hc Hr Hw) as [Hres Hcnt]; [lia..|exact Er|].
  split; [|by rewrite Z.sub_0_r in Hcnt]. destruct Hres as [[-> [w0 E0]]|]; [left|by right].
  split; [done|]. unfold Client_Connect in E0. repeat (case_match; simplify_eq/=). by eauto.
Qed.


(** The default backoff doubles from one second up to thirty. *)
Theorem default_backoff (overflow : float64 → Z) (k : nat) :
  backoff overflow DefaultReconnectConfig k = Z.min (2 ^ Z.of_nat k * Second) (30 * Second).
Proof.
  do 5 (destruct k as [|k]; [reflexivity|]). rewrite Z.min_r.
  2:{ unfold Second. rewrite !Nat2Z.inj_succ, !Z.pow_succ_r by lia. pose proof (Z.pow_pos_nonneg 2 (Z.of_nat k)). lia. }
  induction k as [|k IH]; [reflexivity|].
  change (backoff overflow DefaultReconnectConfig (S (S (S (S (S (S k)))))))
    with (next_delay overflow DefaultReconnectConfig (backoff overflow DefaultReconnectConfig (S (S (S (S (S k))))))).
  rewrite IH. reflexivity.
Qed.

(** ** Witnesses and findings *)

#[local] Existing Instance toy_noise.
#[local] Existing Instance toy_noise_laws.
#[local] Existing Instance toy_app_codec.
#[local] Existing Instance toy_frame_codec.

(** Surroundings in which the outcomes of dialling are given in advance, with a log of the
    dials ([None]) and the waits. *)
Record ToyEnv (N : Type) := mkToyEnv { te_dials : list (option N); te_log : list (option Z) }.
Arguments mkToyEnv {N} _ _.
Arguments te_dials {N} _.
Arguments te_log {N} _.

Definition toy_dial {N} : M (ToyEnv N) N := λ e,
  match te_dials e with
  | Some n :: rs => (Ok n, mkToyEnv rs (te_log e ++ [None]))
  | _ :: rs => (Err (Errorf "connection refused"), mkToyEnv rs (te_log e ++ [None]))
  | [] => (Err (Errorf "connection refused"), mkToyEnv [] (te_log e ++ [None]))
  end.

#[export] Instance toy_env N : SdkEnv (ToyEnv N) N := {
  env_dialWS _ := toy_dial;
  env_dialQUIC _ _ := toy_dial;
  env_rand := mret (f_of_Z 0);
  env_wait d e := (Ok tt, mkToyEnv (te_dials e) (te_log e ++ [Some d]));
  env_entropy e := ([], e);
}.

#[export] Instance quicTransport_reliable : ReliableConn (quicTransport chunks).
Proof. split. intros [s] m _. by eexists. Qed.

#[export] Instance MemConn_Transport : Transport MemConn := {
  Transport_Close c := (Ok tt, mkMemConn [] (mem_out c) (mem_addr c));
}.

Definition toy_config (transport : string) (r : ReconnectConfig) : Config := mkConfig "localhost" transport true r.

Definition example_transport (ms : list bytes) : quicTransport chunks := mkQuicTransport (Chunks [concat (frame <$> ms)] []).

Definition example_sdk : Client (quicTransport chunks) * ToyEnv (quicTransport chunks) :=
  (New toy_key (toy_config "quic" DefaultReconnectConfig),
   mkToyEnv [Some (example_transport [[x02]; x62 :: example_ack; x62 :: echo [x68]])] []).

Lemma example_transport_unread ms : Forall sdk_fits ms → conn_unread (example_transport ms) ms.
Proof. intros Hf. split; [done|]. simpl. by rewrite app_nil_r. Qed.

Lemma quic_sdk_fits ms : Forall quic_fits ms → Forall sdk_fits ms.
Proof. intros Hf. eapply Forall_impl; [exact Hf|]. unfold quic_fits, sdk_fits, quicMaxMsgSize. intros m ?. simpl in *. lia. Qed.

Lemma sdk_gateway_conversation_witness :
  ∃ n' d' w', handleConn (Some (dispatcher_client 7 NoFault)) 3 [] toy_key
      (example_conn [[x01]; [x03]; x61 :: example_plain; [x61; x68]], example_outbox) = (Ok tt, (n', d')) ∧
    (Client_Connect ;; send_all [example_plain; [x68]] ;; receive_all 2) example_sdk =
      (Ok [example_ack; echo [x68]], w').
Proof.
  destruct (reply_all (Some (dispatcher_client 7 NoFault)) "peer" [example_plain; [x68]] example_outbox) as [r d'] eqn:Er.
  pose proof example_replies as Hr. rewrite Er in Hr. simpl in Hr. subst r.
  pose proof example_fits as Hf. rewrite !Forall_cons in Hf. destruct Hf as (Hf1 & Hf2 & Hf3 & Hf4 & _).
  assert (Hfs : Forall quic_fits [[x02]; x62 :: example_ack; x62 :: echo [x68]]) by (by repeat (apply Forall_cons; split; [done|])).
  assert (Hfc : Forall quic_fits [[x01]; [x03]; x61 :: example_plain; [x61; x68]]) by (by repeat (apply Forall_cons; split; [done|])).
  destruct (sdk_gateway_conversation (N:=QUICConn chunks) (Nc:=quicTransport chunks) (Some (dispatcher_client 7 NoFault))
    [] [] [x01] [x02] [x03] toy_key (example_client 0) (example_client 2) (example_server 0) (example_server 2) example_sdk.1
    [example_plain; [x68]] [x61 :: example_plain; [x61; x68]] [example_ack; echo [x68]] [x62 :: example_ack; x62 :: echo [x68]]
    (example_conn [[x01]; [x03]; x61 :: example_plain; [x61; x68]])
    (example_transport [[x02]; x62 :: example_ack; x62 :: echo [x68]]) example_outbox d' example_sdk.2 (mkToyEnv [] [None]) (mkToyEnv [] [None]) 3)
    as [(n' & Es & _) (nc' & c2 & Ec & _)].
  - apply example_stages.
  - apply example_stages.
  - split; reflexivity.
  - reflexivity.
  - rewrite example_conn_addr. exact Er.
  - reflexivity.
  - reflexivity.
  - reflexivity.
  - by apply example_conn_unread.
  - reflexivity.
  - by apply example_transport_unread, quic_sdk_fits.
  - reflexivity.
  - exact Hfs.
  - by apply quic_sdk_fits.
  - simpl. lia.
  - eexists n', d', _. split; [exact Es|exact Ec].
Defined.

(** The dials that are refused ([None]) and a connection that answers the handshake. *)
Definition example_reconnect (r : ReconnectConfig) (dials : list (option MemConn)) : Client MemConn * ToyEnv MemConn :=
  (New toy_key (toy_config "ws" r), mkToyEnv dials []).

Definition answering : option MemConn := Some (mkMemConn [[x02]] [] "server").

Lemma toy_dial_spec (cfg : Config) (e e1 : ToyEnv MemConn) (r : result MemConn) :
  dial cfg e = (r, e1) →
  (∀ why, r ≠ Panic why) ∧ (TransportType cfg = "ws" → te_log e1 = te_log e ++ [None]) ∧
  (length (te_dials e) ≤ S (length (te_dials e1)))%nat.
Proof.
  destruct e as [[|[n|] ds] ws]; unfold dial; repeat case_bool_decide; intros [= <- <-];
    (split_and!; [done|first [done|intros Ht; exfalso; rewrite Ht in *; set_solver]|simpl; lia]).
Qed.

Lemma toy_connect_no_panic : no_panic (@Client_Connect MemConn (ToyEnv MemConn) _ _ _ _).
Proof.
  intros [c e] why w' Ec. unfold Client_Connect in Ec. cbn [fst snd] in Ec.
  destruct (dial (cl_config c) e) as [rd e1] eqn:Ed. apply toy_dial_spec in Ed as [Hnp _].
  destruct rd as [[i o a]|x|]; [|simplify_eq|naive_solver].
  simpl in Ec. destruct i as [|m2 ms]; simpl in Ec; [by simplify_eq|].
  destruct m2 as [|[] [|? ?]]; simpl in Ec; simplify_eq.
Qed.

Lemma toy_connect_log w r w' :
  @Client_Connect MemConn (ToyEnv MemConn) _ _ _ _ w = (r, w') →
  (TransportType (cl_config w.1) = "ws" → te_log w'.2 = te_log w.2 ++ [None]) ∧
  (length (te_dials w.2) ≤ S (length (te_dials w'.2)))%nat.
Proof.
  destruct w as [c e]. unfold Client_Connect. cbn [fst snd]. intros Ec.
  destruct (dial (cl_config c) e) as [rd e1] eqn:Ed. apply toy_dial_spec in Ed as [_ Hl].
  destruct rd as [n|x|why]; [|simplify_eq/=; exact Hl..]. cbn [env_entropy toy_env] in Ec.
  destruct (run_proc (clientHandshake [] (cl_key c)) n) as [[s|x|why] n']; simplify_eq/=; exact Hl.
Qed.

Definition two_attempts : ReconnectConfig := mkReconnectConfig Second (30 * Second) (f_of_Z 2) (f_of_Z 0) 2.

Lemma reconnect_terminates_witness :
  ∃ w', Client_ConnectWithReconnect (λ _, 0) 2 (example_reconnect two_attempts [None; answering]) = (Ok tt, w') ∧
    - Z.of_nat (length (te_dials w'.2)) ≤ - 2 + 2.
Proof.
  destruct (Client_ConnectWithReconnect (λ _, 0) 2 (example_reconnect two_attempts [None; answering])) as [r w'] eqn:E.
  assert (r = Ok tt) as -> by (change r with (r, w').1; rewrite <-E; vm_compute; reflexivity).
  exists w'. split; [done|].
  refine (proj2 (reconnect_terminates (λ _, 0) 2 (example_reconnect two_attempts [None; answering]) w' (Ok tt)
    toy_connect_no_panic _ _ _ _ E) (λ w, - Z.of_nat (length (te_dials w.2))) _ _).
  - by intros e why e' [=].
  - by intros d e why e' [=].
  - done.
  - simpl. lia.
  - intros w0 r0 w1 [_ Hl]%toy_connect_log. lia.
  - intros c e e' [[r Hp]|(d & r & Hp)]; simpl in Hp; unfold mret, M_ret in Hp; by simplify_eq/=.
Defined.

Definition doubling : ReconnectConfig := mkReconnectConfig Second (30 * Second) (f_of_Z 2) (f_of_Z 0) 0.


(** A client whose handshake failed keeps the connection without a session: [Send] is
    not refused, it panics. *)
Example send_after_failed_handshake :
  let w := (Client_Connect (example_reconnect two_attempts [Some (mkMemConn [] [] "server")])).2 in
  (Client_Connect (example_reconnect two_attempts [Some (mkMemConn [] [] "server")])).1 =
    Err (Wrap "handshake" (Errorf "EOF")) ∧
  (Client_Send [x61] w).1 = Panic "nil pointer dereference".
Proof. vm_compute. split; reflexivity. Qed.

(** A configuration that bounds the attempts but leaves the first delay to its default
    is replaced as a whole: the bound is lost, here the third dial is reached. *)
Example zero_delay_drops_max_attempts :
  let cfg := mkReconnectConfig 0 0 (f_of_Z 0) (f_of_Z 0) 1 in
  (Client_ConnectWithReconnect (λ _, 0) 3 (example_reconnect cfg [None; None; answering])).1 = Ok tt.
Proof. vm_compute. reflexivity. Qed.
