(* ===== verification/Process.v ===== *)
(** * A service as a process

    What the [main] functions of [server/cmd] have in common: a process that returns,
    exits or panics, deferred calls, logging, the clients of libraries that it opens and
    closes, the context that a signal cancels, the start-up of logs, traces and metrics,
    and the loop that serves gRPC calls.  Go routines take turns: a call that is served
    and a turn of a background loop each happen at once. *)
From S2P Require Import Prelude Grpc Observability Consumers.

Local Open Scope Z_scope.

(** ** Outcomes *)

(** A value; or the process is still at work (it may be killed there); or it is gone with
    an exit status, without running deferred calls: after [logger.Fatal] or a panic in
    another goroutine; or [main] itself panics, which runs them. *)
Inductive outcome (A : Type) :=
| Done (a : A)
| Running
| Gone (status : Z)
| Panicking (why : string).
Arguments Done {A} _.
Arguments Running {A}.
Arguments Gone {A} _.
Arguments Panicking {A} _.

(** ** Libraries *)

(** What [main] opens and most of which it closes again. *)
Inductive resource :=
| RLogger
| RTracer
| RMeter
| RPool (dsn : string)
| RProducer (brokers : list string) (cfg : sarama_Config)
| RConsumer (brokers : list string) (group : string) (cfg : sarama_Config)
| RAdmin (brokers : list string)
| RRedis (addr : string)
| RS3 (endpoint accessKey secretKey : string) (useSSL : bool)
| RGrpcConn (addr : string)
| RListener (addr : string).

(** Those with a deferred [Sync], [Shutdown] or [Close]; the listener is closed by the
    server that gets it. *)
Definition deferred (r : resource) : bool :=
  match r with RRedis _ | RS3 _ _ _ _ | RGrpcConn _ | RListener _ => false | _ => true end.

(** The constructors of the libraries and their [Close].  [host_Ping] is the [PING] to a
    Redis server. *)
Class Host (H : Type) := {
  host_open : resource → M H unit;
  host_close : resource → M H unit;
  host_Ping : string → M H unit;
}.

(** [Closed r cancelled]: with the state of the context at that time. *)
Inductive event :=
| Opened (r : resource)
| Closed (r : resource) (cancelled : bool)
| Serving.

(** The process: the world of its component, the global state of OpenTelemetry, the other
    libraries, what it has logged, what has happened, and whether [ctx] is cancelled. *)
Record Proc (W G H : Type) := mkProc {
  pr_world : W;
  pr_otel : G;
  pr_host : H;
  pr_log : list log_line;
  pr_events : list event;
  pr_ctx : bool;
}.
Arguments mkProc {W G H} _ _ _ _ _ _.
Arguments pr_world {W G H} _.
Arguments pr_otel {W G H} _.
Arguments pr_host {W G H} _.
Arguments pr_log {W G H} _.
Arguments pr_events {W G H} _.
Arguments pr_ctx {W G H} _.

Definition PM (W G H A : Type) : Type := Proc W G H → outcome A * Proc W G H.

#[export] Instance PM_ret W G H : MRet (PM W G H) := λ A a p, (Done a, p).
#[export] Instance PM_bind W G H : MBind (PM W G H) := λ A B f m p,
  match m p with
  | (Done a, p') => f a p'
  | (Running, p') => (Running, p')
  | (Gone s, p') => (Gone s, p')
  | (Panicking why, p') => (Panicking why, p')
  end.

Section process.
Context {W G H : Type} `{Otel G} `{Host H}.

Definition on_world {A} (m : M W A) : M (Proc W G H) A :=
  zoom pr_world (λ w p, mkProc w (pr_otel p) (pr_host p) (pr_log p) (pr_events p) (pr_ctx p)) m.
Definition on_otel {A} (m : M G A) : M (Proc W G H) A :=
  zoom pr_otel (λ g p, mkProc (pr_world p) g (pr_host p) (pr_log p) (pr_events p) (pr_ctx p)) m.
Definition on_host {A} (m : M H A) : M (Proc W G H) A :=
  zoom pr_host (λ h p, mkProc (pr_world p) (pr_otel p) h (pr_log p) (pr_events p) (pr_ctx p)) m.

Definition happens (e : event) : M (Proc W G H) unit :=
  modify (λ p, mkProc (pr_world p) (pr_otel p) (pr_host p) (pr_log p) (pr_events p ++ [e]) (pr_ctx p)).

Definition log (lg : Logger) (lv : Level) (msg : string) : M (Proc W G H) unit :=
  modify (λ p, mkProc (pr_world p) (pr_otel p) (pr_host p) (pr_log p ++ [log_entry lg lv msg []]) (pr_events p) (pr_ctx p)).

Definition cancel : M (Proc W G H) unit :=
  modify (λ p, mkProc (pr_world p) (pr_otel p) (pr_host p) (pr_log p) (pr_events p) true).

(** A call of a library that opens a client. *)
Definition acquire {A} (r : resource) (m : M (Proc W G H) A) : M (Proc W G H) A := x ← m; happens (Opened r);; mret x.

Definition open_ (r : resource) : M (Proc W G H) unit := acquire r (on_host (host_open r)).

(** A deferred [Close]: its error is dropped. *)
Definition close_ (r : resource) : M (Proc W G H) unit := λ p,
  let '(x, p) := on_host (host_close r) p in
  let p := (happens (Closed r (pr_ctx p)) p).2 in
  (match x with Panic why => Panic why | _ => Ok tt end, p).

(** ** Control *)

(** A call whose error is not looked at by the caller, or that has none. *)
Definition perform {A} (m : M (Proc W G H) A) (dflt : A) : PM W G H A := λ p,
  match m p with
  | (Ok a, p') => (Done a, p')
  | (Err _, p') => (Done dflt, p')
  | (Panic why, p') => (Panicking why, p')
  end.

(** [if err != nil { logger.Fatal(msg, zap.Error(err)) }] *)
Definition fatal {A} (lg : Logger) (msg : string) (m : M (Proc W G H) A) : PM W G H A := λ p,
  match m p with
  | (Ok a, p') => (Done a, p')
  | (Err _, p') => (Gone 1, (log lg FatalLevel msg p').2)
  | (Panic why, p') => (Panicking why, p')
  end.

(** [if err != nil { logger.Warn(msg, zap.Error(err)) }] *)
Definition warn {A} (lg : Logger) (lv : Level) (msg : string) (m : M (Proc W G H) A) : PM W G H (option A) := λ p,
  match m p with
  | (Ok a, p') => (Done (Some a), p')
  | (Err _, p') => (Done None, (log lg lv msg p').2)
  | (Panic why, p') => (Panicking why, p')
  end.

(** [defer cleanup()] and the rest of the function. *)
Definition defer {A} (cleanup : M (Proc W G H) unit) (body : PM W G H A) : PM W G H A := λ p,
  match body p with
  | (Done a, p') =>
      match cleanup p' with (Panic why, p'') => (Panicking why, p'') | (_, p'') => (Done a, p'') end
  | (Panicking why, p') =>
      match cleanup p' with (Panic why', p'') => (Panicking why', p'') | (_, p'') => (Panicking why, p'') end
  | x => x
  end.

(** Open a client, or exit, and close it when the rest is over. *)
Definition with_client {A} (lg : Logger) (msg : string) (r : resource) (body : PM W G H A) : PM W G H A :=
  _ ← fatal lg msg (open_ r); defer (close_ r) body.

(** ** Logs, traces and metrics *)

Context (Build : zap_Config → M H Logger).

Definition open_logger (name : string) : M (Proc W G H) Logger := acquire RLogger (on_host (NewLogger Build name)).

Definition open_tracer (name otlpEndpoint : string) : M (Proc W G H) TracerProvider :=
  acquire RTracer (on_otel (InitTracer name "0.5.0" otlpEndpoint)).

Definition open_meter : M (Proc W G H) MeterProvider := acquire RMeter (on_otel InitMeter).

(** The goroutine that serves [/metrics]: when it cannot listen the service goes on. *)
Definition serve_metrics (lg : Logger) (what metricsAddr : string) : PM W G H unit :=
  _ ← perform (log lg InfoLevel what) tt;
  _ ← warn lg ErrorLevel "Metrics server error" (on_host (host_open (RListener metricsAddr)));
  mret tt.

(** The beginning of every service: [panic] without a logger, no traces when the
    exporter cannot be made, exit without metrics. *)
Definition with_observability (name otlpEndpoint : string) (body : Logger → PM W G H unit) : PM W G H unit := λ p,
  match open_logger name p with
  | (Ok lg, p) =>
      defer (close_ RLogger) (defer cancel (
        tp ← warn lg WarnLevel "Tracing init failed, continuing without traces" (open_tracer name otlpEndpoint);
        (match tp with Some _ => defer (close_ RTracer) | None => id end) (
          _ ← fatal lg "Metrics init failed" open_meter;
          defer (close_ RMeter) (body lg)))) p
  | (Err e, p) => (Panicking "logger init", p)
  | (Panic why, p) => (Panicking why, p)
  end.

(** [svc.Run(ctx)] of a consumer: a panic in it ends the process; a run of the model that
    is cut off by its fuel is a process that is still at work.  [ctx_err] says whether the
    signal has cancelled [ctx] when it returns. *)
Definition run_service (lg : Logger) (hello bye msg : string) (ctx_err : M W bool) (m : M W unit) : PM W G H unit := λ p,
  let p := (happens Serving (log lg InfoLevel hello p).2).2 in
  match on_world m p with
  | (Ok _, p') =>
      let '(c, p') := on_world ctx_err p' in
      (Done tt, match c with Ok true => (cancel (log lg InfoLevel bye p').2).2 | _ => p' end)
  | (Err _, p') => (Gone 1, (log lg FatalLevel msg p').2)
  | (Panic why, p') => (if bool_decide (why = "out of fuel") then Running else Gone 2, p')
  end.

End process.

(** ** Serving gRPC calls *)

(** What happens to a server: a call comes in (with the span of its context and the time
    it takes), a background loop has a turn, the process gets a signal, or [Serve] fails.
    [cancelled]: whether the goroutine that handles the signal gets to [cancel()] before
    [main] runs its deferred calls. *)
Inductive serve_event (Q B : Type) :=
| SCall (q : Q) (sc : SpanContext) (duration : Z)
| STurn (b : B)
| SSignal (cancelled : bool)
| SFail (e : error).
Arguments SCall {Q B} _ _ _.
Arguments STurn {Q B} _.
Arguments SSignal {Q B} _.
Arguments SFail {Q B} _.

(** The component with the answers that clients have got. *)
Record Rpc (W Q R : Type) := mkRpc { rp_world : W; rp_answers : list (Q * result R) }.
Arguments mkRpc {W Q R} _ _.
Arguments rp_world {W Q R} _.
Arguments rp_answers {W Q R} _.

Section serve.
Context {W G H Q R B : Type}.
Context (method : Q → string) (handle : Q → M W R) (turn : B → M W unit).

(** A call through the interceptor of the server.  No interceptor recovers a panic. *)
Definition serve_call (lg : Logger) (q : Q) (sc : SpanContext) (duration : Z) : PM (Rpc W Q R) G H unit := λ p,
  let '(r, (w, lines)) :=
    loggingUnaryInterceptor lg sc (method q) duration (handle q) (rp_world (pr_world p), pr_log p) in
  match r with
  | Panic why =>
      (Gone 2, mkProc (mkRpc w (rp_answers (pr_world p))) (pr_otel p) (pr_host p) lines (pr_events p) (pr_ctx p))
  | _ =>
      (Done tt, mkProc (mkRpc w (rp_answers (pr_world p) ++ [(q, r)])) (pr_otel p) (pr_host p) lines (pr_events p) (pr_ctx p))
  end.

Definition serve_turn (b : B) : PM (Rpc W Q R) G H unit := λ p,
  let '(r, w) := turn b (rp_world (pr_world p)) in
  let p := mkProc (mkRpc w (rp_answers (pr_world p))) (pr_otel p) (pr_host p) (pr_log p) (pr_events p) (pr_ctx p) in
  match r with Panic _ => (Gone 2, p) | _ => (Done tt, p) end.

(** [srv.Serve(lis)].  On a signal [GracefulStop] lets it return without an error; an
    error of it is fatal. *)
Fixpoint serve (lg : Logger) (bye : string) (es : list (serve_event Q B)) : PM (Rpc W Q R) G H unit :=
  match es with
  | [] => λ p, (Running, p)
  | SCall q sc duration :: es => _ ← serve_call lg q sc duration; serve lg bye es
  | STurn b :: es => _ ← serve_turn b; serve lg bye es
  | SSignal cancelled :: _ =>
      _ ← perform (log lg InfoLevel bye) tt;
      if (cancelled : bool) then perform cancel tt else mret tt
  | SFail e :: _ => fatal lg "gRPC serve error" (throw e)
  end.

(** From [net.Listen] on. *)
Definition listen_and_serve `{Host H} (lg : Logger) (addr hello bye : string) (es : list (serve_event Q B)) :
    PM (Rpc W Q R) G H unit :=
  _ ← fatal lg "Listen failed" (open_ (RListener addr));
  _ ← perform (log lg InfoLevel hello) tt;
  _ ← perform (happens Serving) tt;
  serve lg bye es.

End serve.

(** ** What a process opens and closes *)

Definition opens (es : list event) : list resource :=
  omap (λ e, match e with Opened r => if deferred r then Some r else None | _ => None end) es.

Definition closes (es : list event) : list resource :=
  omap (λ e, match e with Closed r _ => Some r | _ => None end) es.

Section lemmas.
Context {W G H : Type} `{Otel G} `{Host H}.

(** A call that opens and closes nothing that is to be closed. *)
Definition stays {A} (m : M (Proc W G H) A) : Prop := ∀ p r p', m p = (r, p') →
  ∃ es, pr_events p' = pr_events p ++ es ∧ opens es = [] ∧ closes es = [].

Definition idle {A} (m : PM W G H A) : Prop := ∀ p o p', m p = (o, p') →
  ∃ es, pr_events p' = pr_events p ++ es ∧ opens es = [] ∧ closes es = [].

(** A computation that, when it is over, has closed what it has opened, the last one
    first; and one that exits or is cut off has closed nothing. *)
Definition releases {A} (m : PM W G H A) : Prop := ∀ p o p', m p = (o, p') →
  ∃ es, pr_events p' = pr_events p ++ es ∧
    match o with Done _ | Panicking _ => closes es = reverse (opens es) | Running | Gone _ => closes es = [] end.

Lemma opens_app es es' : opens (es ++ es') = opens es ++ opens es'.
Proof. apply omap_app. Qed.

Lemma closes_app es es' : closes (es ++ es') = closes es ++ closes es'.
Proof. apply omap_app. Qed.

Lemma stays_same {A} (m : M (Proc W G H) A) : (∀ p r p', m p = (r, p') → pr_events p' = pr_events p) → stays m.
Proof. intros Hm p r p' E%Hm. exists []. by rewrite app_nil_r. Qed.

Lemma stays_world {A} (m : M W A) : stays (on_world m).
Proof. apply stays_same. intros p r p'. unfold on_world, zoom. destruct (m _). by intros [= <- <-]. Qed.

Lemma stays_otel {A} (m : M G A) : stays (on_otel m).
Proof. apply stays_same. intros p r p'. unfold on_otel, zoom. destruct (m _). by intros [= <- <-]. Qed.

Lemma stays_host {A} (m : M H A) : stays (on_host m).
Proof. apply stays_same. intros p r p'. unfold on_host, zoom. destruct (m _). by intros [= <- <-]. Qed.

Lemma stays_log lg lv msg : stays (log lg lv msg).
Proof. apply stays_same. by intros p r p' [= <- <-]. Qed.

Lemma stays_cancel : stays cancel.
Proof. apply stays_same. by intros p r p' [= <- <-]. Qed.

Lemma stays_happens e : opens [e] = [] → closes [e] = [] → stays (happens e).
Proof. intros ?? p r p' [= <- <-]. by exists [e]. Qed.

Lemma stays_ret {A} (a : A) : stays (mret a).
Proof. apply stays_same. by intros p r p' [= <- <-]. Qed.

Lemma stays_bind {A B} (m : M (Proc W G H) A) (f : A → M (Proc W G H) B) : stays m → (∀ a, stays (f a)) → stays (a ← m; f a).
Proof.
  intros Hm Hf p r p' E. step E as r1 p1 E1. destruct (Hm _ _ _ E1) as (es & He & Ho & Hc).
  destruct r1 as [a| |]; [|injection E as <- <-; by exists es..]. destruct (Hf _ _ _ _ E) as (es' & He' & Ho' & Hc').
  exists (es ++ es'). by rewrite opens_app, closes_app, Ho, Ho', Hc, Hc', He', He, (assoc_L (++)).
Qed.

Lemma stays_open r : deferred r = false → stays (open_ r).
Proof.
  intros Hd. apply stays_bind; [apply stays_host|]. intros x. apply stays_bind; [|intros _; apply stays_ret].
  apply stays_happens; [|done]. simpl. by rewrite Hd.
Qed.

Lemma idle_fatal {A} lg msg (m : M (Proc W G H) A) : stays m → idle (fatal lg msg m).
Proof. intros Hm p o p'. unfold fatal. destruct (m p) as [[] p1] eqn:E; destruct (Hm _ _ _ E) as (es & ? & ? & ?); intros [= <- <-]; by exists es. Qed.

Lemma idle_warn {A} lg lv msg (m : M (Proc W G H) A) : stays m → idle (warn lg lv msg m).
Proof. intros Hm p o p'. unfold warn. destruct (m p) as [[] p1] eqn:E; destruct (Hm _ _ _ E) as (es & ? & ? & ?); intros [= <- <-]; by exists es. Qed.

Lemma idle_perform {A} (m : M (Proc W G H) A) d : stays m → idle (perform m d).
Proof. intros Hm p o p'. unfold perform. destruct (m p) as [[] p1] eqn:E; destruct (Hm _ _ _ E) as (es & ? & ? & ?); intros [= <- <-]; by exists es. Qed.

Lemma idle_releases {A} (m : PM W G H A) : idle m → releases m.
Proof. intros Hm p o p' E. destruct (Hm _ _ _ E) as (es & He & Ho & Hc). exists es. rewrite Ho, Hc. by destruct o. Qed.

Lemma releases_bind {A B} (m : PM W G H A) (f : A → PM W G H B) : idle m → (∀ a, releases (f a)) → releases (a ← m; f a).
Proof.
  intros Hm Hf p o p'. unfold mbind, PM_bind. destruct (m p) as [o1 p1] eqn:E1. intros E.
  destruct (Hm _ _ _ E1) as (es & He & Ho & Hc). destruct o1 as [a|s| |].
  2-4: injection E as <- <-; exists es; by rewrite ?Ho, Hc.
  destruct (Hf _ _ _ _ E) as (es' & He' & Hr). exists (es ++ es').
  rewrite He', He, (assoc_L (++)), closes_app, opens_app, Ho, Hc. done.
Qed.

Lemma idle_bind {A B} (m : PM W G H A) (f : A → PM W G H B) : idle m → (∀ a, idle (f a)) → idle (a ← m; f a).
Proof.
  intros Hm Hf p o p'. unfold mbind, PM_bind. destruct (m p) as [o1 p1] eqn:E1. intros E.
  destruct (Hm _ _ _ E1) as (es & He & Ho & Hc). destruct o1 as [a|s| |]; [|injection E as <- <-; by exists es..].
  destruct (Hf _ _ _ _ E) as (es' & He' & Ho' & Hc'). exists (es ++ es').
  by rewrite He', He, (assoc_L (++)), closes_app, opens_app, Ho, Ho', Hc, Hc'.
Qed.

Lemma releases_ret {A} (a : A) : releases (mret a).
Proof. intros p o p' [= <- <-]. exists []. by rewrite app_nil_r. Qed.

(** A deferred call that closes nothing. *)
Lemma releases_defer_stays {A} c (body : PM W G H A) : stays c → releases body → releases (defer c body).
Proof.
  intros Hc Hb p o p'. unfold defer. destruct (body p) as [o1 p1] eqn:Eb. destruct (Hb _ _ _ Eb) as (es & He & Hr).
  destruct o1 as [a|s| |why].
  2,3: intros [= <- <-]; by exists es.
  1,2: destruct (c p1) as [x p2] eqn:Ec; destruct (Hc _ _ _ Ec) as (es' & He' & Ho' & Hc');
    intros E; exists (es ++ es'); rewrite opens_app, closes_app, Ho', Hc', !app_nil_r, (assoc_L (++)), <-He;
    destruct x; injection E as <- <-; done.
Qed.

(** The events of a client that is opened, used and closed. *)
Lemma client_events r es c :
  deferred r = true → closes es = reverse (opens es) →
  closes ([Opened r] ++ es ++ [Closed r c]) = reverse (opens ([Opened r] ++ es ++ [Closed r c])).
Proof.
  intros Hd Hr. rewrite !closes_app, !opens_app, Hr. simpl. rewrite Hd. simpl. by rewrite app_nil_r, reverse_cons.
Qed.

Lemma releases_client {A} r (body : PM W G H A) (p p1 p' : Proc W G H) o :
  deferred r = true → releases body → pr_events p1 = pr_events p ++ [Opened r] → defer (close_ r) body p1 = (o, p') →
  ∃ es, pr_events p' = pr_events p ++ es ∧
    match o with Done _ | Panicking _ => closes es = reverse (opens es) | Running | Gone _ => closes es = [] end.
Proof.
  intros Hd Hb Hop. unfold defer. destruct (body p1) as [o1 p2] eqn:Eb. destruct (Hb _ _ _ Eb) as (es & He & Hr).
  rewrite Hop, <-(assoc_L (++)) in He. destruct o1 as [a|s| |why].
  2,3: intros [= <- <-]; exists ([Opened r] ++ es); by rewrite closes_app.
  1,2: unfold close_, on_host, zoom; destruct (host_close r _) as [x h]; intros E;
    exists ([Opened r] ++ es ++ [Closed r (pr_ctx p2)]);
    pose proof (client_events _ _ (pr_ctx p2) Hd Hr); destruct x; injection E as <- <-;
    (split; [simpl; by rewrite He, <-!(assoc_L (++))|done]).
Qed.

(** Opening a client is seen only when it succeeds. *)
Lemma acquire_events {A} r (m : M (Proc W G H) A) p x p' :
  (∀ p x p', m p = (x, p') → pr_events p' = pr_events p) → acquire r m p = (x, p') →
  match x with Ok _ => pr_events p' = pr_events p ++ [Opened r] | _ => pr_events p' = pr_events p end.
Proof.
  intros Hm E. unfold acquire in E. step E as x1 p1 E1. apply Hm in E1. destruct x1; injection E as <- <-; [|done..].
  simpl. by rewrite E1.
Qed.

Lemma host_events {A} (m : M H A) (p : Proc W G H) x p' : on_host m p = (x, p') → pr_events p' = pr_events p.
Proof. unfold on_host, zoom. destruct (m _). by intros [= <- <-]. Qed.

Lemma otel_events {A} (m : M G A) (p : Proc W G H) x p' : on_otel m p = (x, p') → pr_events p' = pr_events p.
Proof. unfold on_otel, zoom. destruct (m _). by intros [= <- <-]. Qed.

(** Open, or exit; then close what was opened. *)
Lemma releases_acquire {A B} lg msg r (m : M (Proc W G H) A) (body : A → PM W G H B) :
  deferred r = true → (∀ p x p', m p = (x, p') → pr_events p' = pr_events p) → (∀ a, releases (body a)) →
  releases (a ← fatal lg msg (acquire r m); defer (close_ r) (body a)).
Proof.
  intros Hd Hm Hb p o p'. unfold mbind, PM_bind, fatal. destruct (acquire r m p) as [x p1] eqn:E.
  apply acquire_events in E; [|done]. destruct x as [a|e|why].
  - by eapply releases_client.
  - intros [= <- <-]. exists []. by rewrite app_nil_r.
  - intros [= <- <-]. exists []. by rewrite app_nil_r.
Qed.

Lemma releases_with_client {A} lg msg r (body : PM W G H A) :
  deferred r = true → releases body → releases (with_client lg msg r body).
Proof. intros Hd Hb. apply releases_acquire; [done|apply host_events|done]. Qed.

Lemma fatal_wrap {A} lg msg what (m : M (Proc W G H) A) p : fatal lg msg (wrap what m) p = fatal lg msg m p.
Proof. unfold fatal, wrap. by destruct (m p) as [[] ?]. Qed.

(** Calls before the one that opens the client. *)
Lemma releases_pre {A B C} lg msg (pre : M (Proc W G H) A) (m : A → M (Proc W G H) B) (k : B → PM W G H C) :
  stays pre → (∀ a, releases (b ← fatal lg msg (m a); k b)) → releases (b ← fatal lg msg (a ← pre; m a); k b).
Proof.
  intros Hp Hm p o p' E. destruct (pre p) as [r1 p1] eqn:E1. destruct (Hp _ _ _ E1) as (es1 & He1 & Ho1 & Hc1).
  unfold fatal in E. unfold mbind at 1, PM_bind at 1, mbind at 1, M_bind at 1 in E. rewrite E1 in E. destruct r1 as [a|e|why].
  2,3: injection E as <- <-; exists es1; by rewrite ?Ho1, Hc1.
  destruct (Hm a p1 o p' E) as (es & He & Hr). exists (es1 ++ es).
  by rewrite closes_app, opens_app, Ho1, Hc1, He, He1, (assoc_L (++)).
Qed.

(** The same when a failure is only reported. *)
Lemma releases_optional {A B} lg lv msg r (m : M (Proc W G H) A) (body : PM W G H B) :
  deferred r = true → (∀ p x p', m p = (x, p') → pr_events p' = pr_events p) → releases body →
  releases (a ← warn lg lv msg (acquire r m); (match a with Some _ => defer (close_ r) | None => id end) body).
Proof.
  intros Hd Hm Hb p o p'. unfold mbind, PM_bind, warn. destruct (acquire r m p) as [x p1] eqn:E.
  apply acquire_events in E; [|done]. destruct x as [a|e|why].
  - by eapply releases_client.
  - intros E'. apply Hb in E' as (es & He & Hr). exists es. by rewrite He, <-E.
  - intros [= <- <-]. exists []. by rewrite app_nil_r.
Qed.

Lemma idle_serve_metrics lg what metricsAddr : idle (serve_metrics lg what metricsAddr).
Proof.
  apply idle_bind; [apply idle_perform, stays_log|]. intros _.
  apply idle_bind; [apply idle_warn, stays_host|]. intros _ q o' q' [= <- <-]. exists []. by rewrite app_nil_r.
Qed.

Lemma releases_with_observability Build name otlp (body : Logger → PM W G H unit) :
  (∀ lg, releases (body lg)) → releases (with_observability Build name otlp body).
Proof.
  intros Hb p o p'. unfold with_observability. destruct (open_logger Build name p) as [x p1] eqn:E.
  apply acquire_events in E; [|apply host_events]. destruct x as [lg|e|why].
  2,3: intros [= <- <-]; exists []; by rewrite app_nil_r.
  apply releases_client; [done| |done]. apply releases_defer_stays; [apply stays_cancel|].
  apply releases_optional; [done|apply otel_events|]. by apply releases_acquire; [|apply otel_events|].
Qed.

End lemmas.

Section serve_lemmas.
Context {W G H Q R B : Type} `{Otel G} `{Host H}.
Context (method : Q → string) (handle : Q → M W R) (turn : B → M W unit).

Lemma serve_idle lg bye es : idle (H:=H) (G:=G) (serve method handle turn lg bye es).
Proof.
  induction es as [|e es IH]; [intros p o p' [= <- <-]; exists []; by rewrite app_nil_r|].
  destruct e as [q sc d|b|c|e]; cbn [serve].
  - apply idle_bind; [|done]. intros p o p'. unfold serve_call. destruct (loggingUnaryInterceptor _ _ _ _ _ _) as [r [w l]].
    intros E. exists []. rewrite app_nil_r. destruct r; by injection E as <- <-.
  - apply idle_bind; [|done]. intros p o p'. unfold serve_turn. destruct (turn b _) as [r w].
    intros E. exists []. rewrite app_nil_r. destruct r; by injection E as <- <-.
  - apply idle_bind; [apply idle_perform, stays_log|]. intros _. destruct c; [apply idle_perform, stays_cancel|].
    intros p o p' [= <- <-]. exists []. by rewrite app_nil_r.
  - apply idle_fatal, stays_same. by intros p r p' [= <- <-].
Qed.

Lemma releases_listen_and_serve lg addr hello bye es : releases (listen_and_serve (G:=G) method handle turn lg addr hello bye es).
Proof.
  apply releases_bind; [by apply idle_fatal, stays_open|]. intros _. apply releases_bind; [apply idle_perform, stays_log|].
  intros _. apply releases_bind.
  - by apply idle_perform, stays_happens.
  - intros _. apply idle_releases, serve_idle.
Qed.

End serve_lemmas.

Lemma releases_run_service {W G H} `{Otel G} `{Host H} lg hello bye msg c (m : M W unit) :
  releases (G:=G) (H:=H) (run_service lg hello bye msg c m).
Proof.
  apply idle_releases. intros p o p'. unfold run_service, on_world, zoom. simpl. destruct (m _) as [r w]. intros E.
  exists [Serving]. destruct r; [|by injection E as <- <-..]. simpl in E. destruct (c w) as [x w'].
  destruct x as [[]| |]; by injection E as <- <-.
Qed.

(** ** What happens to the component *)

Section keeps.
Context {W G H : Type} `{Otel G} `{Host H}.

(** A computation that takes the component along [R]. *)
Definition keepsM (R : relation W) {A} (m : M (Proc W G H) A) : Prop := ∀ p r p', m p = (r, p') → R (pr_world p) (pr_world p').

Definition keeps (R : relation W) {A} (m : PM W G H A) : Prop := ∀ p o p', m p = (o, p') → R (pr_world p) (pr_world p').

Lemma keepsM_host {A} (m : M H A) : keepsM (=) (on_host m).
Proof. intros p r p'. unfold on_host, zoom. destruct (m _). by intros [= <- <-]. Qed.

Lemma keepsM_otel {A} (m : M G A) : keepsM (=) (on_otel m).
Proof. intros p r p'. unfold on_otel, zoom. destruct (m _). by intros [= <- <-]. Qed.

Lemma keepsM_lift {A} (r : result A) : keepsM (=) (lift r).
Proof. by intros p x p' [= <- <-]. Qed.

Lemma keepsM_modify f : (∀ p, pr_world (f p) = pr_world p) → keepsM (=) (modify f).
Proof. intros Hf p r p' [= <- <-]. by rewrite Hf. Qed.

Lemma keepsM_close r : keepsM (=) (close_ r).
Proof. intros p x p'. unfold close_, on_host, zoom. destruct (host_close r _). by intros [= <- <-]. Qed.

Lemma keepsM_log lg lv msg : keepsM (=) (log lg lv msg).
Proof. by apply keepsM_modify. Qed.

Lemma keepsM_happens e : keepsM (=) (happens e).
Proof. by apply keepsM_modify. Qed.

Lemma keepsM_cancel : keepsM (=) cancel.
Proof. by apply keepsM_modify. Qed.

Section relation.
Context (R : relation W) `{!Reflexive R}.

Lemma keeps_eq {A} (m : PM W G H A) : keeps (=) m → keeps R m.
Proof. intros Hm p o p' E%Hm. by rewrite E. Qed.

Lemma keepsM_world {A} (m : M W A) : (∀ w r w', m w = (r, w') → R w w') → keepsM R (on_world m).
Proof. intros Hm p r p'. unfold on_world, zoom. destruct (m _) eqn:E. intros [= <- <-]. simpl. by eapply Hm. Qed.

Lemma keepsM_acquire {A} r (m : M (Proc W G H) A) : keepsM R m → keepsM R (acquire r m).
Proof.
  intros Hm p x p' E. unfold acquire in E. step E as x1 p1 E1. apply Hm in E1. by destruct x1; injection E as <- <-.
Qed.

Lemma keepsM_wrap {A} msg (m : M (Proc W G H) A) : keepsM R m → keepsM R (wrap msg m).
Proof. intros Hm p x p' (r & E & _)%wrap_inv. by eapply Hm. Qed.

Lemma keeps_fatal {A} lg msg (m : M (Proc W G H) A) : keepsM R m → keeps R (fatal lg msg m).
Proof. intros Hm p o p'. unfold fatal. destruct (m p) as [[] p1] eqn:E; apply Hm in E; by intros [= <- <-]. Qed.

Lemma keeps_warn {A} lg lv msg (m : M (Proc W G H) A) : keepsM R m → keeps R (warn lg lv msg m).
Proof. intros Hm p o p'. unfold warn. destruct (m p) as [[] p1] eqn:E; apply Hm in E; by intros [= <- <-]. Qed.

Lemma keeps_perform {A} (m : M (Proc W G H) A) d : keepsM R m → keeps R (perform m d).
Proof. intros Hm p o p'. unfold perform. destruct (m p) as [[] p1] eqn:E; apply Hm in E; by intros [= <- <-]. Qed.

Lemma keeps_ret {A} (a : A) : keeps R (mret a).
Proof. by intros p o p' [= <- <-]. Qed.

(** First a part that leaves the component alone. *)
Lemma keeps_after {A B} (m : PM W G H A) (f : A → PM W G H B) : keeps (=) m → (∀ a, keeps R (f a)) → keeps R (a ← m; f a).
Proof.
  intros Hm Hf p o p'. unfold mbind, PM_bind. destruct (m p) as [o1 p1] eqn:E1. apply Hm in E1. rewrite E1. intros E.
  destruct o1; [|by injection E as <- <-..]. by eapply Hf.
Qed.

Lemma keeps_bind `{!Transitive R} {A B} (m : PM W G H A) (f : A → PM W G H B) :
  keeps R m → (∀ a, keeps R (f a)) → keeps R (a ← m; f a).
Proof.
  intros Hm Hf p o p'. unfold mbind, PM_bind. destruct (m p) as [o1 p1] eqn:E1. apply Hm in E1. intros E.
  destruct o1; [|by injection E as <- <-..]. etrans; [exact E1|by eapply Hf].
Qed.

Lemma keeps_defer {A} c (body : PM W G H A) : keepsM (=) c → keeps R body → keeps R (defer c body).
Proof.
  intros Hc Hb p o p'. unfold defer. destruct (body p) as [o1 p1] eqn:E1. apply Hb in E1. intros E.
  destruct o1; [|by injection E as <- <-..|]; destruct (c p1) as [x p2] eqn:Ec; apply Hc in Ec; rewrite Ec in E1;
    destruct x; by injection E as <- <-.
Qed.

End relation.

Lemma keepsM_open r : keepsM (=) (open_ r).
Proof. apply keepsM_acquire, keepsM_host. Qed.

Lemma keeps_open_ r lg msg : keeps (=) (fatal lg msg (open_ r)).
Proof. apply keeps_fatal, keepsM_open. Qed.

Lemma keeps_with_client (R : relation W) `{!Reflexive R} {A} lg msg r (body : PM W G H A) :
  keeps R body → keeps R (with_client lg msg r body).
Proof. intros Hb. apply keeps_after; [done|apply keeps_open_|]. intros _. by apply keeps_defer; [apply keepsM_close|]. Qed.

Lemma keeps_serve_metrics lg what metricsAddr : keeps (=) (serve_metrics lg what metricsAddr).
Proof.
  apply keeps_bind; [apply _|apply keeps_perform, keepsM_log|]. intros _.
  apply keeps_bind; [apply _|apply keeps_warn, keepsM_host|]. intros _. by apply keeps_ret.
Qed.

Lemma keeps_with_observability (R : relation W) `{!Reflexive R} Build name otlp (body : Logger → PM W G H unit) :
  (∀ lg, keeps R (body lg)) → keeps R (with_observability Build name otlp body).
Proof.
  intros Hb p o p'. unfold with_observability. destruct (open_logger Build name p) as [x p1] eqn:E.
  apply (keepsM_acquire (=) _ _ (keepsM_host _)) in E. rewrite E. destruct x as [lg|e|why]; [|by intros [= <- <-]..].
  apply keeps_defer; [apply keepsM_close|]. apply keeps_defer; [apply keepsM_cancel|].
  apply keeps_after; [done|apply keeps_warn, keepsM_acquire, keepsM_otel|]. intros tp.
  assert (keeps R (_ ← fatal lg "Metrics init failed" open_meter; defer (close_ RMeter) (body lg))) as Hk.
  { apply keeps_after; [done|apply keeps_fatal, keepsM_acquire, keepsM_otel|]. intros _.
    by apply keeps_defer; [apply keepsM_close|]. }
  destruct tp; [|exact Hk]. by apply keeps_defer; [apply keepsM_close|exact Hk].
Qed.

End keeps.

(** What a client that has got an answer knows: the handler has run, with that result, at
    some time between. *)
Section served.
Context {W G H Q R B : Type} `{Otel G} `{Host H}.
Context (method : Q → string) (handle : Q → M W R) (turn : B → M W unit) (step : relation W).
Context (handle_step : ∀ q w r w', handle q w = (r, w') → rtc step w w').
Context (turn_step : ∀ b w r w', turn b w = (r, w') → rtc step w w').

Definition served (x y : Rpc W Q R) : Prop :=
  rtc step (rp_world x) (rp_world y) ∧
  ∃ new, rp_answers y = rp_answers x ++ new ∧
    ∀ q r, (q, r) ∈ new → ∃ w w', rtc step (rp_world x) w ∧ handle q w = (r, w') ∧ rtc step w' (rp_world y).

#[export] Instance served_preorder : PreOrder served.
Proof.
  split.
  - intros x. split; [done|]. exists []. rewrite app_nil_r. split; [done|]. by intros q r ?%not_elem_of_nil.
  - intros x y z [Hs1 (new1 & Ha1 & Hn1)] [Hs2 (new2 & Ha2 & Hn2)]. split; [by etrans|]. exists (new1 ++ new2).
    rewrite Ha2, Ha1, (assoc_L (++)). split; [done|]. intros q r [Hin|Hin]%elem_of_app.
    + destruct (Hn1 _ _ Hin) as (w & w' & ? & ? & ?). exists w, w'. split_and!; [done..|by etrans].
    + destruct (Hn2 _ _ Hin) as (w & w' & ? & ? & ?). exists w, w'. split_and!; [by etrans|done..].
Qed.

Lemma serve_call_served lg q sc d : keeps (G:=G) (H:=H) served (serve_call method handle lg q sc d).
Proof.
  intros p o p'. unfold serve_call, loggingUnaryInterceptor. cbn [fst snd].
  destruct (handle q (rp_world (pr_world p))) as [r w] eqn:Eh. pose proof (handle_step _ _ _ _ Eh) as Hs.
  assert (served (pr_world p) (mkRpc w (rp_answers (pr_world p) ++ [(q, r)]))).
  { split; [done|]. exists [(q, r)]. split; [done|]. intros q' r' ?%list_elem_of_singleton. simplify_eq. eauto using rtc_refl. }
  destruct r as [a|e|why]; intros [= <- <-]; [done..|]. split; [done|]. exists []. simpl. rewrite app_nil_r. split; [done|].
  by intros q' r' ?%not_elem_of_nil.
Qed.

Lemma serve_turn_served b : keeps (G:=G) (H:=H) served (serve_turn (Q:=Q) (R:=R) turn b).
Proof.
  intros p o p'. unfold serve_turn. destruct (turn b _) as [r w] eqn:Et. pose proof (turn_step _ _ _ _ Et) as Hs.
  assert (served (pr_world p) (mkRpc w (rp_answers (pr_world p)))).
  { split; [done|]. exists []. simpl. rewrite app_nil_r. split; [done|]. by intros q' r' ?%not_elem_of_nil. }
  destruct r as [a|e|why]; by intros [= <- <-].
Qed.

Lemma serve_served lg bye es : keeps (G:=G) (H:=H) served (serve method handle turn lg bye es).
Proof.
  induction es as [|e es IH]; [by intros p o p' [= <- <-]|]. destruct e as [q sc d|b|c|e]; cbn [serve].
  - apply keeps_bind; [apply _..|apply serve_call_served|done].
  - apply keeps_bind; [apply _..|apply serve_turn_served|done].
  - apply keeps_eq; [apply _|]. apply keeps_bind; [apply _|apply keeps_perform, keepsM_log|]. intros _.
    destruct c; [apply keeps_perform, keepsM_cancel|by apply keeps_ret].
  - apply keeps_eq; [apply _|]. apply keeps_fatal, (keepsM_lift (Err e)).
Qed.

Lemma listen_and_serve_served lg addr hello bye es :
  keeps (G:=G) served (listen_and_serve method handle turn lg addr hello bye es).
Proof.
  apply keeps_after; [apply _|apply keeps_open_|]. intros _.
  apply keeps_after; [apply _|apply keeps_perform, keepsM_log|]. intros _.
  apply keeps_after; [apply _|apply keeps_perform, keepsM_happens|]. intros _. apply serve_served.
Qed.

End served.

(** ** Both at once *)

Section well_behaved.
Context {W G H : Type} `{Otel G} `{Host H}.

(** A part of the start-up: it opens nothing that is to be closed and leaves the component
    alone. *)
Definition part {A} (m : PM W G H A) : Prop := idle m ∧ keeps (=) m.

(** A computation that closes what it opens and takes the component along [R]. *)
Definition well_behaved (R : relation W) {A} (m : PM W G H A) : Prop := releases m ∧ keeps R m.

Lemma part_fatal {A} lg msg (m : M (Proc W G H) A) : stays m → keepsM (=) m → part (fatal lg msg m).
Proof. split; [by apply idle_fatal|by apply keeps_fatal]. Qed.

Lemma part_warn {A} lg lv msg (m : M (Proc W G H) A) : stays m → keepsM (=) m → part (warn lg lv msg m).
Proof. split; [by apply idle_warn|by apply keeps_warn]. Qed.

Lemma part_perform {A} (m : M (Proc W G H) A) d : stays m → keepsM (=) m → part (perform m d).
Proof. split; [by apply idle_perform|by apply keeps_perform]. Qed.

Lemma part_bind {A B} (m : PM W G H A) (f : A → PM W G H B) : part m → (∀ a, part (f a)) → part (a ← m; f a).
Proof. intros [??] Hf. split; [apply idle_bind; [done|apply Hf]|apply keeps_bind; [apply _|done|apply Hf]]. Qed.

Lemma part_ret {A} (a : A) : part (mret a).
Proof. split; [|by apply keeps_ret]. intros p o p' [= <- <-]. exists []. by rewrite app_nil_r. Qed.

Lemma part_log lg lv msg : part (perform (log lg lv msg) tt).
Proof. apply part_perform; [apply stays_log|apply keepsM_log]. Qed.

Lemma part_serving : part (perform (happens Serving) tt).
Proof. by apply part_perform; [apply stays_happens|apply keepsM_happens]. Qed.

Lemma part_metrics lg what addr : part (serve_metrics lg what addr).
Proof. split; [apply idle_serve_metrics|apply keeps_serve_metrics]. Qed.

Lemma stays_lift {A} (r : result A) : stays (W:=W) (G:=G) (H:=H) (lift r).
Proof. apply stays_same. by intros p x p' [= <- <-]. Qed.

Lemma stays_wrap {A} msg (m : M (Proc W G H) A) : stays m → stays (wrap msg m).
Proof. intros Hm p x p' (r & E & _)%wrap_inv. by eapply Hm. Qed.

Lemma part_lift {A} lg msg (r : result A) : part (fatal lg msg (lift r)).
Proof. apply part_fatal; [apply stays_lift|apply keepsM_lift]. Qed.

Lemma part_open r lg msg : deferred r = false → part (fatal lg msg (open_ r)).
Proof. intros Hd. apply part_fatal; [by apply stays_open|apply keepsM_open]. Qed.

Context (R : relation W) `{!Reflexive R}.

Lemma well_behaved_bind {A B} (m : PM W G H A) (f : A → PM W G H B) :
  part m → (∀ a, well_behaved R (f a)) → well_behaved R (a ← m; f a).
Proof. intros [??] Hf. split; [apply releases_bind; [done|apply Hf]|apply keeps_after; [done..|apply Hf]]. Qed.

(** A call on the component itself, such as a migration. *)
Lemma well_behaved_world {A B} lg msg (m : M W A) (f : A → PM W G H B) :
  (∀ w r w', m w = (r, w') → ∀ z, R w' z → R w z) → (∀ a, well_behaved R (f a)) →
  well_behaved R (a ← fatal lg msg (on_world m); f a).
Proof.
  intros Hm Hf. split; [apply releases_bind; [apply idle_fatal, stays_world|apply Hf]|].
  intros p o p'. unfold mbind, PM_bind, fatal, on_world, zoom. destruct (m (pr_world p)) as [r w] eqn:E.
  pose proof (Hm _ _ _ E) as HR. destruct r; intros E'; [|by injection E' as <- <-; apply HR..].
  apply HR. by apply Hf in E'.
Qed.

Lemma well_behaved_client {A} lg msg r (body : PM W G H A) :
  deferred r = true → well_behaved R body → well_behaved R (with_client lg msg r body).
Proof. intros Hd [??]. split; [by apply releases_with_client|by apply keeps_with_client]. Qed.

Lemma well_behaved_observability Build name otlp (body : Logger → PM W G H unit) :
  (∀ lg, well_behaved R (body lg)) → well_behaved R (with_observability Build name otlp body).
Proof. intros Hb. split; [apply releases_with_observability, Hb|apply keeps_with_observability; [done|apply Hb]]. Qed.

End well_behaved.

Create HintDb process.
#[export] Hint Resolve part_log part_serving part_metrics part_lift part_open part_ret : process.
#[export] Hint Resolve stays_host stays_otel stays_log stays_lift stays_open stays_wrap : process.
#[export] Hint Resolve keepsM_host keepsM_otel keepsM_lift keepsM_log keepsM_acquire keepsM_wrap keepsM_open : process.

Lemma pair_eq_1 {A B} (x : A * B) a : x.1 = a → x = (a, x.2).
Proof. destruct x. simpl. by intros ->. Qed.

(** ** Examples *)

(** Libraries that refuse to open some resources. *)
Record MemHost := mkMemHost { mh_refuses : resource → bool }.

#[export] Instance mem_host : Host MemHost := {|
  host_open r := λ h, (if mh_refuses h r then Err (Errorf "refused") else Ok tt, h);
  host_close _ := mret tt;
  host_Ping a := λ h, (if mh_refuses h (RRedis a) then Err (Errorf "refused") else Ok tt, h);
|}.

Definition mem_build (cfg : zap_Config) : M MemHost Logger := mret (mkLogger (zc_InitialFields cfg)).

Definition fresh_proc {W} (w : W) (refuses : resource → bool) : Proc W MemOtel MemHost :=
  mkProc w start_otel (mkMemHost refuses) [] [] false.
