(* ===== verification/GatewayMetrics.v ===== *)
(** * What the gateway measures

    [handleConn] of [server/cmd/gateway/main.go] with its metrics and spans, which
    [Gateway] leaves out: the same handler, in a world that also keeps what has been
    recorded.  The theorem says that recording changes nothing and what the numbers mean. *)
From S2P Require Import Prelude Bytes Postgres Messages Wire Noise Conn Gateway.

Local Open Scope Z_scope.

(** ** Measurements *)

(** [Add] on the counters, [Record] on the histogram, and the spans: started, marked as
    failed ([RecordError] with [SetStatus]), ended. *)
Inductive obs :=
| OActiveConnections (n : Z)
| OHandshakeDuration
| OMessagesReceived
| OMessagesSent
| OStart (span : string)
| OError (span : string)
| OEnd (span : string).

#[export] Instance obs_eq_dec : EqDecision obs.
Proof. solve_decision. Defined.

Definition active (os : list obs) : Z :=
  foldr (λ o n, match o with OActiveConnections k => k + n | _ => n end) 0 os.

Definition count (o : obs) (os : list obs) : nat := length (filter (o =.) os).

(** Spans started and not ended. *)
Definition open_spans (span : string) (os : list obs) : Z :=
  Z.of_nat (count (OStart span) os) - Z.of_nat (count (OEnd span) os).

(** ** handleConn *)

Definition Obs (W : Type) : Type := W * list obs.

Definition emit {W} (os : list obs) : M (Obs W) unit := modify (λ x, (x.1, x.2 ++ os)).

Definition run {W A} (m : M W A) : M (Obs W) A := zoom fst (λ w x, (w, x.2)) m.

Section gateway.
Context {N D : Type} `{Conn N} `{Noise} `{FrameCodec} `{AppCodec}.
Context (dispatcher : option (slice → slice → AppMessage → M D slice)).

(** The answer to a message and what is recorded on the way. *)
Definition measured_reply (addr : string) (pt : bytes) : M (Obs (GwW N D)) (bool * bytes) :=
  match dispatcher with
  | None => mret (false, echo pt)
  | Some dispatch =>
      x ← lift (parse pt);
      match x with
      | None => mret (false, echo pt)
      | Some (frame, appMsg) =>
          emit [OStart "gateway.dispatch"];;
          r ← run (on_disp (attempt (dispatch (Some (bytes_of_string addr)) (fr_SessionId frame) appMsg)));
          match r with
          | (None, Some ackId) =>
              emit [OEnd "gateway.dispatch"; OMessagesSent];;
              ackBytes ← attempt (lift (app_marshal (ack_message ackId)));
              mret (true, default [] ackBytes.2)
          | _ =>
              emit [OError "gateway.dispatch"; OEnd "gateway.dispatch"];;
              mret (false, echo pt)
          end
      end
  end.

Definition measured_answer (pt : bytes) : M (Obs (GwW N D)) bool :=
  addr ← run (λ w, (Ok (conn_RemoteAddr (gw_conn w)), w));
  resp ← measured_reply addr pt;
  enc ← run (attempt (on_session (NoiseSession_Encrypt resp.2)));
  match enc.2 with
  | None => mret resp.1
  | Some enc =>
      r ← run (attempt (on_conn (conn_WriteMessage enc)));
      if (resp.1 : bool) then mret true
      else if bool_decide (r.1 = None) then emit [OMessagesSent];; mret true
      else mret false
  end.

Definition measured_iter : M (Obs (GwW N D)) bool :=
  r ← run (attempt (on_conn conn_ReadMessage));
  match r.2 with
  | None => mret false
  | Some ct =>
      emit [OMessagesReceived; OStart "gateway.decrypt"];;
      r ← run (attempt (on_session (NoiseSession_Decrypt ct)));
      match r.2 with
      | None => emit [OError "gateway.decrypt"; OEnd "gateway.decrypt"];; mret false
      | Some pt => emit [OEnd "gateway.decrypt"];; measured_answer pt
      end
  end.

(** The deferred calls run when the handler returns and when it panics. *)
Definition measured_handleConn (fuel : nat) (entropy : bytes) (serverKey : KeyPair) : M (Obs (N * D)) unit := λ '((c, d), os),
  let os := os ++ [OStart "gateway.connection"; OActiveConnections 1; OStart "gateway.handshake"] in
  let deferred := [OActiveConnections (-1); OEnd "gateway.connection"] in
  match run_proc (ServerHandshake entropy serverKey) c with
  | (Ok session, c) =>
      let os := os ++ [OHandshakeDuration; OEnd "gateway.handshake"] in
      let '(r, (w', os)) := turn_loop measured_iter fuel (mkGwW session c d, os) in
      (r, ((gw_conn w', gw_disp w'), os ++ deferred))
  | (Err _, c) =>
      (Ok tt, ((c, d), os ++ [OHandshakeDuration; OError "gateway.handshake"; OEnd "gateway.handshake"] ++ deferred))
  | (Panic why, c) => (Panic why, ((c, d), os ++ deferred))
  end.

End gateway.

(** ** Lemmas *)

Lemma active_app os os' : active (os ++ os') = active os + active os'.
Proof. induction os as [|o os IH]; simpl; [done|]. destruct o; lia. Qed.

Lemma count_app o os os' : count o (os ++ os') = (count o os + count o os')%nat.
Proof. unfold count. by rewrite filter_app, length_app. Qed.

Lemma open_spans_app s os os' : open_spans s (os ++ os') = open_spans s os + open_spans s os'.
Proof. unfold open_spans. rewrite !count_app. lia. Qed.

(** What a turn records, by its outcome. *)
Definition reply_obs (r : result (bool * bytes)) (es : list obs) : Prop :=
  match r with
  | Ok (true, _) => es = [OStart "gateway.dispatch"; OEnd "gateway.dispatch"; OMessagesSent]
  | Ok (false, _) => es = [] ∨ es = [OStart "gateway.dispatch"; OError "gateway.dispatch"; OEnd "gateway.dispatch"]
  | Err _ => es = []
  | Panic _ => es = [] ∨ es = [OStart "gateway.dispatch"] ∨
      es = [OStart "gateway.dispatch"; OEnd "gateway.dispatch"; OMessagesSent]
  end.

(** Sums over what is recorded: messages sent, messages received, and whether the spans
    are ended. *)
Record measures (es : list obs) (sent received : nat) (ended : Prop) : Prop := {
  ms_sent : count OMessagesSent es = sent;
  ms_received : count OMessagesReceived es = received;
  ms_active : active es = 0;
  ms_handshake : count OHandshakeDuration es = 0%nat;
  ms_ended : ended → ∀ span, open_spans span es = 0;
}.

Definition returns {A} (r : result A) : Prop := match r with Panic _ => False | _ => True end.

Lemma measures_app es es' s s' n n' (P P' Q : Prop) :
  measures es s n P → measures es' s' n' P' → (Q → P ∧ P') → measures (es ++ es') (s + s') (n + n') Q.
Proof.
  intros [Hs Hn Ha Hh He] [Hs' Hn' Ha' Hh' He'] HQ. split; rewrite ?count_app, ?active_app; [lia..|].
  intros [HP HP']%HQ span. rewrite open_spans_app, He, He' by done. done.
Qed.

Lemma measures_weaken es s n (P Q : Prop) : measures es s n P → (Q → P) → measures es s n Q.
Proof. intros [????] ?. split; auto. Qed.

(** A list in which each span is ended. *)
Lemma open_spans_cons span o os :
  open_spans span (o :: os) =
    (match o with
     | OStart s => if bool_decide (s = span) then 1 else 0
     | OEnd s => if bool_decide (s = span) then -1 else 0
     | _ => 0
     end + open_spans span os).
Proof.
  unfold open_spans, count. rewrite !filter_cons. destruct o; repeat case_decide; repeat case_bool_decide; simplify_eq; simpl; try lia.
Qed.

Ltac measured := split; [reflexivity..|]; intros _ span; cbn [app]; rewrite ?open_spans_cons; repeat case_bool_decide; reflexivity.

Lemma measures_reply r es : reply_obs r es → ∃ sent, (sent ≤ 1)%nat ∧ measures es sent 0 (returns r) ∧
  match r with Ok (acked, _) => sent = if acked then 1%nat else 0%nat | _ => True end.
Proof.
  destruct r as [[[] ?]|e|why]; simpl.
  - intros ->. exists 1%nat. split_and!; [done| |done]. measured.
  - intros [->| ->]; exists 0%nat; (split_and!; [lia| |done]); measured.
  - intros ->. exists 0%nat. split_and!; [lia| |done]. measured.
  - intros [->|[->| ->]]; [exists 0%nat|exists 0%nat|exists 1%nat]; (split_and!; [lia| |done]; split; done).
Qed.

Section lemmas.
Context {N D : Type} `{Conn N} `{Noise} `{FrameCodec} `{AppCodec}.
Context (dispatcher : option (slice → slice → AppMessage → M D slice)).
Implicit Types (w : GwW N D) (s : NoiseSession) (n : N) (d : D).

Lemma measured_reply_spec addr pt s n d os r w' os' :
  measured_reply dispatcher addr pt (mkGwW s n d, os) = (r, (w', os')) →
  ∃ d' es, reply dispatcher addr pt d = (r, d') ∧ w' = mkGwW s n d' ∧ os' = os ++ es ∧ reply_obs r es.
Proof.
  unfold measured_reply, reply. destruct dispatcher as [dispatch|].
  2:{ unfold mret, M_ret. intros [= <- <- <-]. exists d, []. rewrite app_nil_r. simpl. eauto. }
  intros E. step E as r1 x1 E1. unfold lift in E1. injection E1 as <- <-. unfold mbind at 1, M_bind at 1, lift at 1.
  destruct (parse pt) as [[[frame m]|]|e|why].
  2-4: injection E as <- <- <-; exists d, []; rewrite app_nil_r; simpl; eauto.
  step E as r2 x2 E2. unfold emit, modify in E2. injection E2 as <- <-. simpl in E.
  step E as r3 x3 E3. unfold run, on_disp, zoom in E3. simpl in E3. unfold mbind at 1, M_bind at 1, attempt at 1.
  destruct (dispatch _ _ m d) as [[ack|e|why] d1] eqn:Ed; unfold attempt in E3; rewrite Ed in E3; injection E3 as <- <-.
  - step E as r4 x4 E4. unfold emit, modify in E4. injection E4 as <- <-. simpl in E.
    step E as r5 x5 E5. unfold attempt, lift in E5. unfold mbind at 1, M_bind at 1, attempt, lift. destruct (app_marshal _).
    1,2,3: injection E5 as <- <-; injection E as <- <- <-; exists d1; eexists; rewrite <-?(assoc_L (++)); simpl; eauto 6.
  - injection E as <- <- <-. exists d1; eexists. rewrite <-(assoc_L (++)). simpl. eauto 6.
  - injection E as <- <- <-. exists d1; eexists. simpl. eauto 6.
Qed.

Lemma measured_answer_spec pt w os r w' os' :
  measured_answer dispatcher pt (w, os) = (r, (w', os')) →
  gateway_answer dispatcher pt w = (r, w') ∧
  ∃ es sent, os' = os ++ es ∧ measures es sent 0 (returns r) ∧ (sent ≤ 1)%nat ∧ (r = Ok true → sent = 1%nat).
Proof.
  destruct w as [s n d]. unfold measured_answer, gateway_answer. intros E.
  step E as r1 x1 E1. unfold run, zoom in E1. simpl in E1. injection E1 as <- <-.
  step E as r2 x2 E2. destruct x2 as [w2 os2]. unfold mbind at 1, M_bind at 1. cbn [gw_conn gw_session gw_disp]. unfold mbind at 1, M_bind at 1, on_disp, zoom. cbn [gw_disp gw_session gw_conn].
  apply measured_reply_spec in E2 as (d1 & es & -> & -> & -> & Hes). apply measures_reply in Hes as (sent & Hle & Hms & Hsent).
  destruct r2 as [[acked b]|e|why].
  2,3: injection E as <- <- <-; split; [done|]; exists es, sent; by split_and!.
  step E as r3 x3 E3. unfold run, attempt, on_session, zoom in E3. simpl in E3. unfold mbind at 1, M_bind at 1, attempt at 1, on_session, zoom.
  cbn [gw_session gw_conn gw_disp snd fst] in *. destruct (NoiseSession_Encrypt b s) as [[enc|e|why] s1].
  2,3: injection E3 as <- <-; injection E as <- <- <-; (split; [done|]); exists es, sent; (split_and!; [done| |done|by intros [= ->]]).
  2: by eapply measures_weaken. 2: by eapply measures_weaken.
  injection E3 as <- <-. cbn [snd] in *. step E as r4 x4 E4. unfold run, attempt, on_conn, zoom in E4. simpl in E4.
  unfold mbind at 1, M_bind at 1, attempt, on_conn, zoom. cbn [gw_session gw_conn gw_disp].
  destruct (conn_WriteMessage enc n) as [[[]|e|why] n1]; injection E4 as <- <-; cbn [fst] in *.
  3: injection E as <- <- <-; (split; [done|]); exists es, sent; (split_and!; [done|by eapply measures_weaken|done|done]).
  - rewrite bool_decide_true in E |- * by done. rewrite orb_true_r. destruct acked.
    + injection E as <- <- <-. split; [done|]. exists es, sent. by split_and!.
    + step E as r5 x5 E5. unfold emit, modify in E5. injection E5 as <- <-. injection E as <- <- <-. split; [done|].
      exists (es ++ [OMessagesSent]), (sent + 1)%nat. rewrite (assoc_L (++)), Hsent. split_and!; [done| |done|done].
      rewrite Hsent in Hms. apply (measures_app _ _ 0 1 0 0 _ True _ Hms); [measured|done].
  - rewrite bool_decide_false in E |- * by done. rewrite orb_false_r.
    destruct acked; injection E as <- <- <-; (split; [done|]); exists es, sent; by split_and!.
Qed.

Lemma measured_iter_spec w os r w' os' :
  measured_iter dispatcher (w, os) = (r, (w', os')) →
  gateway_iter dispatcher w = (r, w') ∧
  ∃ es sent received, os' = os ++ es ∧ measures es sent received (returns r) ∧ (sent ≤ received ≤ 1)%nat ∧
    (r = Ok true → sent = received).
Proof.
  destruct w as [s n d]. unfold measured_iter, gateway_iter. intros E.
  step E as r1 x1 E1. unfold run, attempt, on_conn, zoom in E1. simpl in E1. unfold mbind at 1, M_bind at 1, attempt at 1, on_conn, zoom.
  cbn [gw_session gw_conn gw_disp] in *. destruct (conn_ReadMessage n) as [[ct|e|why] n1]; injection E1 as <- <-.
  2,3: injection E as <- <- <-; (split; [done|]); exists [], 0%nat, 0%nat; rewrite app_nil_r; (split_and!; [done|measured|lia|lia|done]).
  cbn [snd] in *. step E as r2 x2 E2. unfold emit, modify in E2. injection E2 as <- <-. simpl in E.
  step E as r3 x3 E3. unfold run, attempt, on_session, zoom in E3. simpl in E3. unfold mbind at 1, M_bind at 1, attempt, on_session, zoom.
  cbn [gw_session gw_conn gw_disp]. destruct (NoiseSession_Decrypt ct s) as [[pt|e|why] s1]; injection E3 as <- <-; cbn [snd] in *.
  - step E as r4 x4 E4. unfold emit, modify in E4. injection E4 as <- <-. simpl in E. rewrite <-(assoc_L (++)) in E.
    apply measured_answer_spec in E as (-> & es & sent & -> & Hms & Hle & Htrue). split; [done|].
    eexists _, (0 + sent)%nat, (1 + 0)%nat. rewrite <-(assoc_L (++)).
    split_and!; [done|eapply (measures_app _ _ 0 sent 1 0 True); [measured|exact Hms|done]|simpl; lia|lia|intros ?%Htrue; lia].
  - step E as r4 x4 E4. unfold emit, modify in E4. injection E4 as <- <-. injection E as <- <- <-. split; [done|].
    eexists _, 0%nat, 1%nat. rewrite <-(assoc_L (++)). split_and!; [done|measured|lia|lia|done].
  - injection E as <- <- <-. split; [done|]. eexists _, 0%nat, 1%nat. split_and!; [done|by split|lia|lia|done].
Qed.

Lemma measured_loop_spec fuel w os r w' os' :
  turn_loop (measured_iter dispatcher) fuel (w, os) = (r, (w', os')) →
  gateway_loop dispatcher fuel w = (r, w') ∧
  ∃ es sent received, os' = os ++ es ∧ measures es sent received (returns r) ∧ (sent ≤ received ≤ sent + 1)%nat.
Proof.
  revert w os. induction fuel as [|fuel IH]; intros w os E; simpl in E.
  { injection E as <- <- <-. split; [done|]. exists [], 0%nat, 0%nat. rewrite app_nil_r. split_and!; [done|measured|lia|lia]. }
  step E as r1 x1 E1. destruct x1 as [w1 os1]. apply measured_iter_spec in E1 as (Ei & es & sent & received & -> & Hms & Hle & Htrue).
  cbn [gateway_loop]. rewrite (bind_run _ _ _ _ _ Ei). destruct r1 as [[]|e|why].
  2-4: injection E as <- <- <-; (split; [done|]); exists es, sent, received; (split_and!; [done|exact Hms|lia|lia]).
  apply IH in E as (-> & es2 & sent2 & received2 & -> & Hms2 & Hle2). split; [done|].
  exists (es ++ es2), (sent + sent2)%nat, (received + received2)%nat. rewrite (Htrue eq_refl), (assoc_L (++)) in *.
  split_and!; [done|by eapply measures_app|lia|lia].
Qed.

End lemmas.

(** Evaluate the counts of what is written out. *)
Ltac eval_counts :=
  repeat match goal with
  | |- context [count ?o ?l] => let v := eval vm_compute in (count o l) in change (count o l) with v
  end.

(** ** Properties *)

(** C32: recording changes nothing: the measured handler does on the connection and
    the dispatcher what the handler does, with the same outcome.  However it ends, by a
    panic included, the connection is taken off [ActiveConnections] again; no message is
    counted as sent that was not counted as received, and at most the last one received
    is missing from those sent; and when it returns, the duration of the handshake has
    been recorded once and every span that was started has been ended. *)
Theorem gateway_measures {N D} `{Conn N} `{Noise} `{FrameCodec} `{AppCodec}
    (dispatcher : option (slice → slice → AppMessage → M D slice)) (fuel : nat) (entropy : bytes) (serverKey : KeyPair)
    (x x' : N * D) (os os' : list obs) (r : result unit) :
  measured_handleConn dispatcher fuel entropy serverKey (x, os) = (r, (x', os')) →
  handleConn dispatcher fuel entropy serverKey x = (r, x') ∧
  ∃ es, os' = os ++ es ∧ active es = 0 ∧
    (count OMessagesSent es ≤ count OMessagesReceived es ≤ count OMessagesSent es + 1)%nat ∧
    ((∀ why, r ≠ Panic why) → count OHandshakeDuration es = 1%nat ∧ ∀ span, open_spans span es = 0).
Proof.
  destruct x as [c d]. unfold measured_handleConn, handleConn. cbn [fst snd].
  destruct (run_proc _ c) as [[session|e|why] c1].
  - destruct (turn_loop _ fuel _) as [r1 [w1 os1]] eqn:El.
    apply measured_loop_spec in El as (-> & es & sent & received & -> & [Hs Hn Ha Hh He] & Hle). intros [= -> <- <-].
    split; [done|]. eexists. rewrite <-!(assoc_L (++)). split; [done|].
    rewrite !active_app, !count_app, Hs, Hn, Ha, Hh. eval_counts. split_and!; [done|lia|lia|].
    intros Hr. split; [done|]. intros span. rewrite !open_spans_app, He by (by destruct r; [| |eapply Hr]).
    rewrite !open_spans_cons. repeat case_bool_decide; simplify_eq; reflexivity.
  - intros [= <- <- <-]. split; [done|]. eexists. rewrite <-!(assoc_L (++)). split; [done|]. eval_counts. split_and!; [done|lia|lia|].
    intros _. split; [done|]. intros span. cbn [app]. rewrite !open_spans_cons. repeat case_bool_decide; simplify_eq; reflexivity.
  - intros [= <- <- <-]. split; [done|]. eexists. rewrite <-!(assoc_L (++)). split; [done|]. eval_counts. split_and!; [done|lia|lia|].
    intros Hr. by destruct (Hr why).
Qed.

(** ** Examples *)

#[local] Existing Instance toy_noise.
#[local] Existing Instance toy_app_codec.
#[local] Existing Instance toy_frame_codec.

(** A client that does the handshake and sends one message. *)
Definition example_visit : QUICConn chunks := example_conn [[x01]; [x03]; [x61; x68]].

Definition example_measured : result unit * Obs (QUICConn chunks * unit) :=
  measured_handleConn None 3 [] toy_key ((example_visit, tt), []).

Lemma gateway_measures_witness :
  handleConn None 3 [] toy_key (example_visit, tt) = (example_measured.1, example_measured.2.1) ∧
  active example_measured.2.2 = 0.
Proof.
  assert (measured_handleConn None 3 [] toy_key ((example_visit, tt), []) =
    (example_measured.1, (example_measured.2.1, example_measured.2.2))) as E by by vm_compute.
  destruct (gateway_measures (N:=QUICConn chunks) (D:=unit) None 3 [] toy_key (example_visit, tt) example_measured.2.1 []
    example_measured.2.2 example_measured.1 E) as [E' (es & -> & Ha & _)].
  split; [exact E'|exact Ha].
Defined.

Example example_measured_values :
  example_measured.1 = Ok tt ∧ count OMessagesReceived example_measured.2.2 = 1%nat ∧
  count OMessagesSent example_measured.2.2 = 1%nat ∧ count OHandshakeDuration example_measured.2.2 = 1%nat.
Proof. vm_compute. done. Qed.
