(* ===== verification/GatewayServer.v ===== *)
(** * The gateway as a server

    What [main] of [server/cmd/gateway/main.go] puts around [handleConn]: the handler of
    [/ws], the loop that accepts QUIC connections, and the goroutines of many connections
    that share one dispatcher client.  A turn of a
    handler touches the shared client in one call only, so turns of different
    connections are interleaved as a whole. *)
From S2P Require Import Prelude Bytes Messages Wire Noise Postgres Outbox StreamConn Conn Gateway.

Local Open Scope Z_scope.

(** ** Connections *)

(** The goroutine of a connection: after the handshake, in its loop; or returned, with the
    connection closed. *)
Inductive conn_state `{Noise} (N : Type) :=
| CRunning (session : NoiseSession) (conn : N)
| CDone (conn : N).
Arguments CRunning {_ N} _ _.
Arguments CDone {_ N} _.

Record Server `{Noise} (N D : Type) := mkServer { sv_conns : list (conn_state N); sv_disp : D }.
Arguments mkServer {_ N D} _ _.
Arguments sv_conns {_ N D} _.
Arguments sv_disp {_ N D} _.

(** A turn that has got a message: of which connection, its address, the message. *)
Record turn := mkTurn { t_conn : nat; t_addr : string; t_msg : bytes }.

Section server.
Context {N D : Type} `{Conn N} `{Closer N} `{Noise} `{FrameCodec} `{AppCodec}.
Context (dispatcher : option (slice → slice → AppMessage → M D slice)).
Implicit Types (s : NoiseSession) (n : N) (d : D).

(** The start of a connection, by the handler of [/ws] or of an accepted QUIC
    connection: [handleConn] up to its loop. *)
Definition start_conn (entropy : bytes) (serverKey : KeyPair) (n : N) : result (conn_state N) :=
  match run_proc (ServerHandshake entropy serverKey) n with
  | (Ok session, n) => Ok (CRunning session n)
  | (Err _, n) => Ok (CDone (closed n))
  | (Panic why, _) => Panic why
  end.

(** The message that a turn reads and decrypts. *)
Definition turn_message s n : option bytes :=
  match conn_ReadMessage n with
  | (Ok ct, _) => match NoiseSession_Decrypt ct s with (Ok pt, _) => Some pt | _ => None end
  | _ => None
  end.

Definition turns_of (i : nat) s n : list turn :=
  match turn_message s n with Some pt => [mkTurn i (conn_RemoteAddr n) pt] | None => [] end.

(** The goroutine after a turn: in its loop again; or returned, also when the turn has
    panicked, and the deferred [conn.Close()] has run. *)
Definition after_turn (r : result bool) (w : GwW N D) : conn_state N :=
  match r with Ok true => CRunning (gw_session w) (gw_conn w) | _ => CDone (closed (gw_conn w)) end.

(** A new connection, or a turn of one of those that run.  A turn that panics is the last
    one of its connection; over QUIC it is the last step of the process
    ([GatewayMain.take_turn]). *)
Inductive server_step : Server N D → list turn → Server N D → Prop :=
| step_connect entropy key n st conns d :
    start_conn entropy key n = Ok st →
    server_step (mkServer conns d) [] (mkServer (conns ++ [st]) d)
| step_turn i s n r w' conns d :
    conns !! i = Some (CRunning s n) →
    gateway_iter dispatcher (mkGwW s n d) = (r, w') →
    server_step (mkServer conns d) (turns_of i s n) (mkServer (<[i := after_turn r w']> conns) (gw_disp w')).

Inductive server_run : Server N D → list turn → Server N D → Prop :=
| run_nil x : server_run x [] x
| run_snoc x ts y us z : server_run x ts y → server_step y us z → server_run x (ts ++ us) z.

(** The dispatcher after the messages of some turns, one after the other. *)
Definition dispatch_turns (ts : list turn) (d : D) : D :=
  foldl (λ d t, (reply dispatcher (t_addr t) (t_msg t) d).2) d ts.

(** The messages of one connection. *)
Definition messages_of (i : nat) (ts : list turn) : list bytes := t_msg <$> filter (λ t, t_conn t = i) ts.

(** The connection [st] will be delivered what a client encrypts for [ps]. *)
Definition fed (ps : list bytes) (st : conn_state N) : Prop :=
  match st with
  | CRunning s n => ∃ c c1 cts, in_step (ns_Send c) (ns_Recv s) ∧ encrypt_seq ps c = (Ok cts, c1) ∧ conn_unread n cts
  | CDone _ => True
  end.

End server.

(** ** Lemmas *)

Section lemmas.
Context {N D : Type} `{ConnLaws N} `{Closer N} `{NoiseLaws} `{FrameCodec} `{AppCodec}.
Context (dispatcher : option (slice → slice → AppMessage → M D slice)).
Implicit Types (s : NoiseSession) (n : N) (d : D) (x y z : Server N D).

(** Whoever is at the other end, a turn does to the dispatcher what its message asks
    for. *)
Lemma gateway_iter_turn i s n d r w' :
  gateway_iter dispatcher (mkGwW s n d) = (r, w') → gw_disp w' = dispatch_turns dispatcher (turns_of i s n) d.
Proof.
  unfold gateway_iter, turns_of, turn_message. intros E. step E as r1 w1 E1.
  unfold attempt, on_conn, zoom in E1. simpl in E1. destruct (conn_ReadMessage n) as [rr n1] eqn:Er.
  destruct rr as [ct|e|why]; injection E1 as <- <-; [|by injection E as _ <-..]. cbn [snd] in E.
  step E as r2 w2 E2. unfold attempt, on_session, zoom in E2. simpl in E2.
  destruct (NoiseSession_Decrypt ct s) as [rd s1] eqn:Ed.
  destruct rd as [pt|e|why]; injection E2 as <- <-; [|by injection E as _ <-..]. cbn [snd] in E.
  apply (gateway_answer_disp dispatcher) in E. simpl in *. by rewrite E, (Read_addr _ _ _ Er).
Qed.

Lemma turn_message_next c s n p ct c' cts :
  in_step (ns_Send c) (ns_Recv s) → NoiseSession_Encrypt p c = (Ok ct, c') → conn_unread n (ct :: cts) →
  turn_message s n = Some p.
Proof.
  intros Hs E Hu. unfold turn_message. destruct (Read_next _ _ _ Hu) as (n1 & -> & _).
  by destruct (in_step_Decrypt _ _ _ _ _ Hs E) as (s1 & -> & _).
Qed.

Lemma turn_message_end s n : conn_unread n [] → turn_message s n = None.
Proof. intros Hu. unfold turn_message. by destruct (Read_end _ Hu) as (e & n' & -> & _). Qed.

(** A turn takes the next message of the client, if there is one. *)
Lemma fed_turn ps i s n d r w' :
  fed ps (CRunning s n) → gateway_iter dispatcher (mkGwW s n d) = (r, w') →
  ∃ ps', ps = messages_of i (turns_of i s n) ++ ps' ∧ fed ps' (after_turn r w').
Proof.
  intros (c & c1 & cts & Hs & Ec & Hu) E. unfold messages_of, turns_of. destruct ps as [|p ps].
  - simpl in Ec. unfold mret, M_ret in Ec. injection Ec as <- <-. rewrite (turn_message_end _ _ Hu). exists []. split; [done|].
    destruct (gateway_iter_end dispatcher s n d Hu) as (n' & Ei & _). rewrite Ei in E. by injection E as <- <-.
  - simpl in Ec. apply bind_Ok_inv in Ec as (ct & c0 & E1 & Ec). apply bind_Ok_inv in Ec as (cts' & c2 & E2 & Ec).
    unfold mret, M_ret in Ec. injection Ec as <- <-. rewrite (turn_message_next _ _ _ _ _ _ _ Hs E1 Hu).
    exists ps. rewrite filter_cons_True by done. split; [done|].
    destruct (gateway_iter_next dispatcher _ _ _ d _ _ _ _ Hs E1 Hu) as (s1 & n1 & Ei & Hs1 & _ & Hu1 & _). rewrite Ei in E.
    destruct (gateway_answer_keeps _ _ _ _ _ _ E Hu1) as (_ & Hu2 & _ & Hr & _). simpl in Hr.
    destruct r as [[]|e|why]; [|done..]. exists c0, c2, cts'. by rewrite Hr.
Qed.

Lemma messages_of_app i ts us : messages_of i (ts ++ us) = messages_of i ts ++ messages_of i us.
Proof. unfold messages_of. by rewrite filter_app, fmap_app. Qed.

Lemma messages_of_other i j s n : i ≠ j → messages_of j (turns_of i s n) = [].
Proof. intros Hne. unfold messages_of, turns_of. destruct (turn_message s n); [|done]. by rewrite filter_cons_False. Qed.

(** A step leaves the other connections alone. *)
Lemma server_step_fed x ts y i st ps :
  server_step dispatcher x ts y → sv_conns x !! i = Some st → fed ps st →
  ∃ st' ps', sv_conns y !! i = Some st' ∧ ps = messages_of i ts ++ ps' ∧ fed ps' st'.
Proof.
  intros Hst Hi Hf. destruct Hst as [entropy key n st0 conns d Hst0|j s n r w' conns d Hj E]; simpl in *.
  - exists st, ps. split_and!; [by apply lookup_app_l_Some|done|done].
  - destruct (decide (j = i)) as [->|Hne].
    + simplify_eq. destruct (fed_turn ps i _ _ _ _ _ Hf E) as (ps' & -> & Hf').
      eexists _, ps'. split_and!; [|done|exact Hf']. apply list_lookup_insert_eq. by eapply lookup_lt_Some.
    + exists st, ps. rewrite list_lookup_insert_ne, messages_of_other by done. done.
Qed.

Lemma server_run_spec x ts y :
  server_run dispatcher x ts y →
  sv_disp y = dispatch_turns dispatcher ts (sv_disp x) ∧
  ∀ i st ps, sv_conns x !! i = Some st → fed ps st →
    ∃ st' ps', sv_conns y !! i = Some st' ∧ ps = messages_of i ts ++ ps' ∧ fed ps' st'.
Proof.
  induction 1 as [x|x ts y us z _ [IHd IHf] Hst]; [split; [done|]; intros i st ps ??; by exists st, ps|]. split.
  - unfold dispatch_turns. rewrite foldl_app. fold (dispatch_turns dispatcher ts (sv_disp x)). rewrite <-IHd.
    destruct Hst as [|i s n r w' conns d Hi E]; [done|]. by eapply gateway_iter_turn.
  - intros i st ps Hi Hf. destruct (IHf i st ps Hi Hf) as (st1 & ps1 & Hi1 & -> & Hf1).
    destruct (server_step_fed _ _ _ _ _ _ Hst Hi1 Hf1) as (st2 & ps2 & Hi2 & -> & Hf2).
    exists st2, ps2. rewrite messages_of_app, (assoc_L (++)). done.
Qed.

End lemmas.

(** ** Accepting QUIC connections *)

(** A connection at the listener: [qp_stream] is the stream its peer opens, [None] when
    it opens none. *)
Record quic_peer (S : Type) := mkPeer { qp_stream : option S; qp_addr : string }.
Arguments mkPeer {S} _ _.
Arguments qp_stream {S} _.
Arguments qp_addr {S} _.

(** The goroutine that accepts: in [listener.Accept], in [AcceptStream] of a connection,
    or returned. *)
Inductive accept_pc S := AAccept | AStream (p : quic_peer S) | AReturned.
Arguments AAccept {S}.
Arguments AStream {S} _.
Arguments AReturned {S}.

(** [ac_queue]: connections not accepted yet; [ac_served]: those with a goroutine of
    [handleConn], in the order they were started; [ac_done]: [ctx] is cancelled. *)
Record Acceptor (S : Type) := mkAcceptor {
  ac_pc : accept_pc S;
  ac_queue : list (quic_peer S);
  ac_served : list (QUICConn S);
  ac_done : bool;
}.
Arguments mkAcceptor {S} _ _ _ _.
Arguments ac_pc {S} _.
Arguments ac_queue {S} _.
Arguments ac_served {S} _.
Arguments ac_done {S} _.

(** What happens: a connection arrives at the listener, [Accept] returns one,
    [AcceptStream] returns a stream, the call that waits fails, [main] cancels [ctx]. *)
Inductive accept_event S := EArrive (p : quic_peer S) | EConn | EStream | EFail | ECancel.
Arguments EArrive {S} _.
Arguments EConn {S}.
Arguments EStream {S}.
Arguments EFail {S}.
Arguments ECancel {S}.

(** One event in the loop; [None] when it cannot happen.  After an error the loop goes
    on unless [ctx] is cancelled. *)
Definition accept_step {S} (a : Acceptor S) (e : accept_event S) : option (Acceptor S) :=
  match e, a with
  | EArrive p, mkAcceptor pc q served c => Some (mkAcceptor pc (q ++ [p]) served c)
  | ECancel, mkAcceptor pc q served _ => Some (mkAcceptor pc q served true)
  | EConn, mkAcceptor AAccept (p :: q) served c => Some (mkAcceptor (AStream p) q served c)
  | EStream, mkAcceptor (AStream (mkPeer (Some s) addr)) q served c =>
      Some (mkAcceptor AAccept q (served ++ [mkQUICConn s addr]) c)
  | EFail, mkAcceptor AReturned _ _ _ => None
  | EFail, mkAcceptor _ q served c => Some (mkAcceptor (if c then AReturned else AAccept) q served c)
  | _, _ => None
  end.

Fixpoint accept_run {S} (a : Acceptor S) (es : list (accept_event S)) : option (Acceptor S) :=
  match es with
  | [] => Some a
  | e :: es => a ← accept_step a e; accept_run a es
  end.

Definition arrivals {S} (es : list (accept_event S)) : list (quic_peer S) :=
  omap (λ e, match e with EArrive p => Some p | _ => None end) es.

Definition no_failure {S} (es : list (accept_event S)) : bool :=
  forallb (λ e, match e with EFail => false | _ => true end) es.

(** The connections still to be served, in order. *)
Definition peer_conn {S} (p : quic_peer S) : option (QUICConn S) :=
  (λ s, mkQUICConn s (qp_addr p)) <$> qp_stream p.

Definition waiting {S} (a : Acceptor S) : list (quic_peer S) :=
  match ac_pc a with AStream p => [p] | _ => [] end ++ ac_queue a.

(** ** Lemmas on accepting *)

(** A step takes at most one connection off those that wait, and serves it unless it
    fails. *)
Lemma accept_step_takes {S} (a a1 : Acceptor S) e :
  accept_step a e = Some a1 →
  ∃ xs ys, waiting a ++ arrivals [e] = xs ++ waiting a1 ∧ ac_served a1 = ac_served a ++ ys ∧
    ys `sublist_of` omap peer_conn xs ∧ (no_failure [e] = true → ys = omap peer_conn xs).
Proof.
  destruct e as [p| | | |], a as [pc q served c]; intros E; unfold waiting.
  1,5: injection E as <-; exists [], []; simpl; rewrite ?app_nil_r, ?(assoc_L (++)); by split_and!.
  - destruct pc, q; simplify_eq/=. exists [], []. by rewrite !app_nil_r.
  - destruct pc as [|[[s|] addr]|]; simplify_eq/=. exists [mkPeer (Some s) addr], [mkQUICConn s addr]. by rewrite app_nil_r.
  - destruct pc as [|p|]; simplify_eq/=; [exists [], []|exists [p], []]; destruct c; rewrite !app_nil_r;
      (split_and!; [done..|apply sublist_nil_l|done]).
Qed.

Lemma accept_step_order {S} (a a1 : Acceptor S) e rest :
  accept_step a e = Some a1 →
  ac_served a1 ++ omap peer_conn (waiting a1 ++ rest) `sublist_of`
    ac_served a ++ omap peer_conn (waiting a ++ arrivals [e] ++ rest) ∧
  (no_failure [e] = true →
    ac_served a1 ++ omap peer_conn (waiting a1 ++ rest) =
      ac_served a ++ omap peer_conn (waiting a ++ arrivals [e] ++ rest)).
Proof.
  intros (xs & ys & Hw & -> & Hsub & Heq)%accept_step_takes.
  rewrite (assoc_L (++) (waiting a)), Hw, <-!(assoc_L (++)), !omap_app. split; [|by intros ->%Heq].
  by repeat apply sublist_app.
Qed.

Lemma accept_step_stuck {S} (a a1 : Acceptor S) e p :
  accept_step a e = Some a1 → no_failure [e] = true → ac_pc a = AStream p → qp_stream p = None →
  ac_pc a1 = AStream p ∧ ac_served a1 = ac_served a.
Proof. destruct a as [pc q served c], e, p as [[s|] addr]; intros E ???; simplify_eq/=; done. Qed.

Lemma arrivals_cons {S} (e : accept_event S) es : arrivals (e :: es) = arrivals [e] ++ arrivals es.
Proof. by destruct e. Qed.

Lemma no_failure_cons {S} (e : accept_event S) es : no_failure (e :: es) = true → no_failure [e] = true ∧ no_failure es = true.
Proof. by destruct e. Qed.

(** ** Properties *)

(** C3: many connections at once.  Whatever the interleaving of their turns with
    each other and with new connections, and whoever is at the other ends, the shared
    dispatcher is in the state it reaches when the decrypted messages are handed to it
    one after the other in the order of the turns; and of a connection whose client
    encrypts the messages [ps] those turns have handed over the first ones, each once
    and in order, the others being still to come. *)
Theorem gateway_connections {N D} `{ConnLaws N} `{Closer N} `{NoiseLaws} `{FrameCodec} `{AppCodec}
    (dispatcher : option (slice → slice → AppMessage → M D slice)) (x y : Server N D) (ts : list turn) :
  server_run dispatcher x ts y →
  sv_disp y = dispatch_turns dispatcher ts (sv_disp x) ∧
  ∀ i st ps, sv_conns x !! i = Some st → fed ps st →
    messages_of i ts `prefix_of` ps ∧ ∃ st', sv_conns y !! i = Some st' ∧ fed (drop (length (messages_of i ts)) ps) st'.
Proof.
  intros Hrun. destruct (server_run_spec dispatcher _ _ _ Hrun) as [Hd Hf]. split; [done|]. intros i st ps Hi Hfed.
  destruct (Hf i st ps Hi Hfed) as (st' & ps' & Hi' & -> & Hfed'). split; [by exists ps'|].
  exists st'. by rewrite drop_app_length.
Qed.

(** QUIC connections are served in the order in which they came, each at most once; and
    without failures none is passed over, so that everything behind a connection whose
    peer opens no stream waits for it, however many others arrive and even after the
    gateway is told to stop. *)
Theorem quic_accept_order {S} (a a' : Acceptor S) (es : list (accept_event S)) :
  accept_run a es = Some a' →
  ac_served a' `sublist_of` ac_served a ++ omap peer_conn (waiting a ++ arrivals es) ∧
  (no_failure es = true →
    ac_served a' ++ omap peer_conn (waiting a') = ac_served a ++ omap peer_conn (waiting a ++ arrivals es) ∧
    (∀ p, ac_pc a = AStream p → qp_stream p = None → ac_served a' = ac_served a)).
Proof.
  revert a. induction es as [|e es IH]; intros a E.
  - injection E as <-. rewrite app_nil_r. split; [by apply sublist_inserts_r|done].
  - simpl in E. destruct (accept_step a e) as [a1|] eqn:E1; [|done]. destruct (IH _ E) as [Hs Hf].
    destruct (accept_step_order _ _ _ (arrivals es) E1) as [Hs1 Hf1]. rewrite arrivals_cons. split; [by etrans|].
    intros [He Hes]%no_failure_cons. destruct (Hf Hes) as [Hall Hstuck]. split; [by rewrite Hall, Hf1|].
    intros p Hp Hn. destruct (accept_step_stuck _ _ _ _ E1 He Hp Hn) as [Hp1 <-]. by eapply Hstuck.
Qed.

(** ** Examples *)

#[local] Existing Instance toy_noise.
#[local] Existing Instance toy_noise_laws.
#[local] Existing Instance toy_app_codec.
#[local] Existing Instance toy_frame_codec.

Definition example_gateway : Server (QUICConn chunks) (MemPg Outbox.db) :=
  mkServer [CRunning (example_server 0) (example_conn [x61 :: example_plain; [x61; x68]]);
            CRunning (example_server 0) (example_conn [[x61; x69]])] example_outbox.

Definition example_turns : list turn := [mkTurn 1 "peer" [x69]; mkTurn 0 "peer" example_plain].

(** The second connection has its turn first, then the first one. *)
Lemma example_run :
  ∃ y, server_run (Some (dispatcher_client 7 NoFault)) example_gateway example_turns y.
Proof.
  eexists. change example_turns with (([] ++ [mkTurn 1 "peer" [x69]]) ++ [mkTurn 0 "peer" example_plain]).
  eapply run_snoc; [eapply run_snoc; [apply run_nil|]|].
  - change [mkTurn 1 "peer" [x69]] with (turns_of 1 (example_server 0) (example_conn [[x61; x69]])).
    eapply step_turn; [reflexivity|vm_compute; reflexivity].
  - change [mkTurn 0 "peer" example_plain]
      with (turns_of 0 (example_server 0) (example_conn [x61 :: example_plain; [x61; x68]])).
    eapply step_turn; [reflexivity|vm_compute; reflexivity].
Qed.

Lemma gateway_connections_witness :
  ∃ y : Server (QUICConn chunks) (MemPg Outbox.db), sv_disp y = dispatch_turns (Some (dispatcher_client 7 NoFault)) example_turns example_outbox ∧
    ∃ st, sv_conns y !! 0%nat = Some st ∧ fed [[x68]] st.
Proof.
  destruct example_run as [y Hrun]. exists y.
  destruct (gateway_connections _ _ _ _ Hrun) as [Hd Hc]. split; [exact Hd|].
  refine (proj2 (Hc 0%nat _ [example_plain; [x68]] eq_refl _)).
  exists (example_client 0), (example_client 2), [x61 :: example_plain; [x61; x68]].
  split_and!; [reflexivity|reflexivity|]. apply example_conn_unread. pose proof example_fits as Hf.
  rewrite !Forall_cons in Hf. rewrite !Forall_cons. naive_solver.
Defined.

(** A peer that opens no stream keeps two others waiting. *)
Example quic_accept_blocked :
  let a := mkAcceptor AAccept [] [] false in
  let es := [EArrive (mkPeer None "silent"); EConn; EArrive (mkPeer (Some 1) "a"); EArrive (mkPeer (Some 2) "b")] in
  (ac_served <$> accept_run a es) = Some [] ∧
  (ac_served <$> accept_run a (es ++ [EFail; EConn; EStream; EConn; EStream])) = Some [mkQUICConn 1 "a"; mkQUICConn 2 "b"].
Proof. split; reflexivity. Qed.

Lemma quic_accept_order_witness :
  ac_served (mkAcceptor (AStream (mkPeer None "silent")) [mkPeer (Some 1) "a"] [] false) = [] ∧
  [mkQUICConn 1 "a"] `sublist_of` omap peer_conn [mkPeer None "silent"; mkPeer (Some 1) "a"; mkPeer (Some 2) "b"].
Proof.
  split.
  - refine (proj2 (proj2 (quic_accept_order (mkAcceptor (AStream (mkPeer None "silent")) [] [] false) _
      [EArrive (mkPeer (Some 1) "a")] eq_refl) eq_refl) _ eq_refl eq_refl).
  - exact (proj1 (quic_accept_order (mkAcceptor AAccept [] [] false) (mkAcceptor AAccept [mkPeer (Some 2) "b"] [mkQUICConn 1 "a"] false)
      [EArrive (mkPeer None "silent"); EConn; EArrive (mkPeer (Some 1) "a"); EFail; EArrive (mkPeer (Some 2) "b"); EConn; EStream] eq_refl)).
Defined.
