(* ===== verification/GatewayMain.v ===== *)
(** * The gateway and the echo server as processes

    [main] of [server/cmd/gateway/main.go] and of [server/cmd/echo-server/main.go]: the
    start-up, with [ListenQUIC] and [GenerateSelfSignedTLS] of
    [proto-core/transport/quic.go], and then the connections of [GatewayServer] until a
    signal comes. *)
From S2P Require Import Prelude Bytes Postgres Messages Outbox Wire Noise Conn Gateway GatewayServer Observability Process.

Local Open Scope Z_scope.

(** ** quic.go: certificate and listener *)

(** The template of the certificate. *)
Record x509_Certificate := mkCertificate {
  SerialNumber : Z; NotBefore : Z; NotAfter : Z; IPAddresses : list (list Z); DNSNames : list string;
}.

(** [crypto/ecdsa], [crypto/x509], [encoding/pem] and [crypto/tls]. *)
Class Tls := {
  ecdsa_Key : Type;
  tls_Certificate : Type;
  ecdsa_GenerateKey : result bytes → result ecdsa_Key;
  x509_CreateCertificate : result bytes → x509_Certificate → ecdsa_Key → result bytes;
  x509_MarshalECPrivateKey : ecdsa_Key → result bytes;
  pem_EncodeToMemory : string → bytes → bytes;
  tls_X509KeyPair : bytes → bytes → result tls_Certificate;
}.

Record tls_Config `{Tls} := mkTlsConfig { Certificates : list tls_Certificate; NextProtos : list string }.

(** [if err != nil { panic(err) }] *)
Definition must {A} (r : result A) : result A := match r with Err _ => Panic "self-signed certificate" | _ => r end.

Definition self_signed_template (now1 now2 : Z) : x509_Certificate :=
  mkCertificate 1 now1 (now2 + 24 * Hour) [[127; 0; 0; 1]] ["localhost"].

(** [now1] and [now2] are the two readings of the clock, [rnd1] and [rnd2] what
    [rand.Reader] gives. *)
Definition GenerateSelfSignedTLS `{Tls} (now1 now2 : Z) (rnd1 rnd2 : result bytes) : result tls_Config :=
  match must (ecdsa_GenerateKey rnd1) with
  | Ok key =>
      match must (x509_CreateCertificate rnd2 (self_signed_template now1 now2) key) with
      | Ok certDER =>
          match must (x509_MarshalECPrivateKey key) with
          | Ok keyDER =>
              let certPEM := pem_EncodeToMemory "CERTIFICATE" certDER in
              let keyPEM := pem_EncodeToMemory "EC PRIVATE KEY" keyDER in
              match must (tls_X509KeyPair certPEM keyPEM) with
              | Ok tlsCert => Ok (mkTlsConfig _ [tlsCert] [])
              | Err e => Err e
              | Panic why => Panic why
              end
          | Err e => Err e
          | Panic why => Panic why
          end
      | Err e => Err e
      | Panic why => Panic why
      end
  | Err e => Err e
  | Panic why => Panic why
  end.

Definition quicALPN : string := "proto/1".
Definition quicIdleTimeout : Z := 120 * Second.

(** [quic.ListenAddr] is a parameter. *)
Definition ListenQUIC `{Tls} {Q L} (ListenAddr : string → tls_Config → Z → M Q L) (addr : string) (tlsConf : tls_Config) : M Q L :=
  wrap "quic listen" (ListenAddr addr (mkTlsConfig _ (Certificates tlsConf) [quicALPN]) quicIdleTimeout).

(** ** Connections of a process *)

(** A peer connects, a connection has its turn, the process gets a signal, or the HTTP
    server fails. *)
Inductive gw_event (N : Type) := GConnect (entropy : bytes) (n : N) | GTurn (i : nat) | GSignal | GHttpFails (e : error).
Arguments GConnect {N} _ _.
Arguments GTurn {N} _.
Arguments GSignal {N}.
Arguments GHttpFails {N} _.

Section connections.
Context {N D G H : Type} `{Conn N} `{Closer N} `{Noise}.
Context (over_http : N → bool) (iter : M (GwW N D) bool) (serverKey : KeyPair).

Definition put_server (x : Server N D) (p : Proc (Server N D) G H) : Proc (Server N D) G H :=
  mkProc x (pr_otel p) (pr_host p) (pr_log p) (pr_events p) (pr_ctx p).

(** A connection that comes to a listener that is [up].  Its handshake and its turns
    follow [start_conn] and [after_turn]; a panic is recovered for connections over HTTP
    and ends the process for the others. *)
Definition connect (up : bool) (entropy : bytes) (n : N) : PM (Server N D) G H unit := λ p,
  if negb up then (Done tt, p)
  else match start_conn entropy serverKey n with
       | Ok st => (Done tt, put_server (mkServer (sv_conns (pr_world p) ++ [st]) (sv_disp (pr_world p))) p)
       | Err _ => (Done tt, p)
       | Panic _ => (if over_http n then Done tt else Gone 2, p)
       end.

Definition take_turn (i : nat) : PM (Server N D) G H unit := λ p,
  match sv_conns (pr_world p) !! i with
  | Some (CRunning s n) =>
      let '(r, w') := iter (mkGwW s n (sv_disp (pr_world p))) in
      let dead := match r with Panic _ => negb (over_http n) | _ => false end in
      (if dead then Gone 2 else Done tt,
       put_server (mkServer (<[i := after_turn r w']> (sv_conns (pr_world p))) (gw_disp w')) p)
  | _ => (Done tt, p)
  end.

End connections.

(** ** gateway *)

Record gateway_flags := mkGatewayFlags {
  gf_ws : string; gf_quic : string; gf_metrics : string; gf_dispatcher : string; gf_otlp : string;
}.

Definition gateway_defaults : gateway_flags := mkGatewayFlags ":8080" ":8443" ":9090" "localhost:50053" "localhost:4317".

Section gateway_main.
Context {N D G H : Type} `{Conn N} `{Closer N} `{Noise} `{FrameCodec} `{AppCodec} `{Otel G} `{Host H} `{Tls}.
Context (Build : zap_Config → M H Logger) (over_http : N → bool).
(** The RPC of the dispatcher and [quic.ListenAddr]. *)
Context (Dispatch : slice → slice → AppMessage → M D slice) (ListenAddr : string → tls_Config → Z → M H unit).

(** The client of the dispatcher: [None] without an address and when it cannot be made,
    and the gateway then runs in echo mode. *)
Definition dispatcherClient (lg : Logger) (addr : string) :
    PM (Server N D) G H (option (slice → slice → AppMessage → M D slice)) :=
  if bool_decide (addr = "") then mret None
  else
    c ← warn lg WarnLevel "Dispatcher gRPC connect failed, echo mode" (open_ (RGrpcConn addr));
    match c with
    | Some _ => _ ← perform (log lg InfoLevel "Gateway -> Dispatcher") tt; mret (Some Dispatch)
    | None => mret None
    end.

(** [http.ListenAndServe] on the WebSocket address: whether it serves. *)
Definition listen_ws (lg : Logger) (addr : string) : PM (Server N D) G H bool :=
  _ ← perform (log lg InfoLevel "WebSocket Gateway") tt;
  r ← warn lg ErrorLevel "WS server error" (open_ (RListener addr));
  mret (bool_decide (r = Some tt)).

Definition listen_quic (lg : Logger) (addr : string) (tlsConf : tls_Config) : PM (Server N D) G H bool :=
  r ← warn lg ErrorLevel "QUIC listen error" (acquire (RListener addr) (on_host (ListenQUIC ListenAddr addr tlsConf)));
  match r with
  | Some _ => _ ← perform (log lg InfoLevel "QUIC Gateway") tt; mret true
  | None => mret false
  end.

(** A call that panics instead of returning an error. *)
Definition perform_or_panic {W A} (m : M (Proc W G H) A) : PM W G H A := λ p,
  match m p with
  | (Ok a, p') => (Done a, p')
  | (Err _, p') => (Panicking "error", p')
  | (Panic why, p') => (Panicking why, p')
  end.

(** Until [<-sigCh] returns. *)
Fixpoint gateway_serve (lg : Logger) (iter : M (GwW N D) bool) (key : KeyPair) (ws quic : bool) (es : list (gw_event N)) :
    PM (Server N D) G H unit :=
  match es with
  | [] => λ p, (Running, p)
  | GConnect entropy n :: es =>
      _ ← connect over_http key (if over_http n then ws else quic) entropy n; gateway_serve lg iter key ws quic es
  | GTurn i :: es => _ ← take_turn over_http iter i; gateway_serve lg iter key ws quic es
  | GHttpFails _ :: es =>
      _ ← perform (log lg ErrorLevel "WS server error") tt; gateway_serve lg iter key false quic es
  | GSignal :: _ => _ ← perform (log lg InfoLevel "Gateway завершает работу...") tt; perform cancel tt
  end.

(** [rnd], [rnd1] and [rnd2] are what [rand.Reader] gives for the key of the server and
    for the certificate, [now1] and [now2] the times of its template. *)
Definition gateway_main (f : gateway_flags) (rnd rnd1 rnd2 : result bytes) (now1 now2 : Z) (es : list (gw_event N)) :
    PM (Server N D) G H unit :=
  with_observability Build "gateway" (gf_otlp f) (λ lg,
    metrics ← fatal lg "App metrics init failed" (on_otel (NewMetrics "gateway"));
    _ ← serve_metrics lg "Metrics + pprof endpoint" (gf_metrics f);
    serverKey ← fatal lg "Ошибка генерации ключей" (lift (GenerateKeyPair rnd));
    _ ← perform (log lg InfoLevel "Gateway публичный ключ сгенерирован") tt;
    dispatcher ← dispatcherClient lg (gf_dispatcher f);
    ws ← listen_ws lg (gf_ws f);
    tlsConf ← perform_or_panic (lift (GenerateSelfSignedTLS now1 now2 rnd1 rnd2));
    quic ← listen_quic lg (gf_quic f) tlsConf;
    _ ← perform (happens Serving) tt;
    gateway_serve lg (gateway_iter dispatcher) serverKey ws quic es).

End gateway_main.

(** ** echo-server *)

Section echo_main.
Context {N G H : Type} `{Conn N} `{Closer N} `{Noise} `{Host H}.

(** The standard logger, without fields. *)
Definition std_log : Logger := mkLogger [].

(** [http.ListenAndServe], which returns only with an error; no signal is handled, so one
    ends the process at once, with the status of [SIGTERM]. *)
Fixpoint echo_serve (key : KeyPair) (es : list (gw_event N)) : PM (Server N unit) G H unit :=
  match es with
  | [] => λ p, (Running, p)
  | GConnect entropy n :: es => _ ← connect (λ _, true) key true entropy n; echo_serve key es
  | GTurn i :: es => _ ← take_turn (λ _, true) echo_iter i; echo_serve key es
  | GHttpFails e :: _ => fatal std_log "Ошибка сервера" (throw e)
  | GSignal :: _ => λ p, (Gone 143, p)
  end.

Definition echo_main (addr : string) (rnd : result bytes) (es : list (gw_event N)) : PM (Server N unit) G H unit :=
  serverKey ← fatal std_log "Ошибка генерации ключей" (lift (GenerateKeyPair rnd));
  _ ← perform (log std_log InfoLevel "Серверный публичный ключ") tt;
  _ ← perform (log std_log InfoLevel "Эхо-сервер запущен") tt;
  _ ← fatal std_log "Ошибка сервера" (open_ (RListener addr));
  _ ← perform (happens Serving) tt;
  echo_serve serverKey es.

End echo_main.

(** ** Lemmas *)

Section lemmas.
Context {N D G H : Type} `{Conn N} `{Closer N} `{Noise} `{FrameCodec} `{AppCodec} `{Otel G} `{Host H}.
Context (dispatcher : option (slice → slice → AppMessage → M D slice)) (over_http : N → bool).

(** Some turns of the server. *)
Definition runs (x y : Server N D) : Prop := ∃ ts, server_run dispatcher x ts y.

#[export] Instance runs_preorder : PreOrder runs.
Proof.
  split; [intros x; exists []; constructor|]. intros x y z [ts Hxy] [us Hyz]. exists (ts ++ us).
  induction Hyz as [|y us z vs u _ IH Hst]; [by rewrite app_nil_r|]. rewrite (assoc_L (++)). by eapply run_snoc; [apply IH|].
Qed.

Lemma runs_step x ts y : server_step dispatcher x ts y → runs x y.
Proof. intros Hst. exists ([] ++ ts). eapply run_snoc; [constructor|done]. Qed.

Lemma connect_runs key up entropy n : keeps (G:=G) (H:=H) runs (connect over_http key up entropy n).
Proof.
  intros p o p'. unfold connect. destruct up; [|by intros [= _ <-]].
  destruct (start_conn entropy key n) as [st| |] eqn:E; intros [= _ <-]; [|done..]. eapply runs_step.
  destruct p as [[conns d] ?????]. by eapply step_connect.
Qed.

Lemma take_turn_runs i : keeps (G:=G) (H:=H) runs (take_turn over_http (gateway_iter dispatcher) i).
Proof.
  intros p o p'. unfold take_turn. destruct p as [[conns d] ?????]. simpl. destruct (conns !! i) as [[s n|n]|] eqn:Hi.
  2,3: by intros [= _ <-].
  destruct (gateway_iter dispatcher _) as [r w'] eqn:E. intros [= _ <-]. eapply runs_step. by eapply step_turn.
Qed.

Lemma gateway_serve_runs lg key ws quic es :
  keeps (G:=G) (H:=H) runs (gateway_serve over_http lg (gateway_iter dispatcher) key ws quic es).
Proof.
  revert ws quic. induction es as [|e es IH]; intros ws quic; [by intros p o p' [= <- <-]|].
  destruct e as [entropy n|i| |e]; cbn [gateway_serve].
  - apply keeps_bind; [apply _..|apply connect_runs|done].
  - apply keeps_bind; [apply _..|apply take_turn_runs|done].
  - apply keeps_eq; [apply _|]. apply keeps_bind; [apply _|apply keeps_perform, keepsM_log|]. intros _.
    apply keeps_perform, keepsM_cancel.
  - apply keeps_after; [apply _|apply keeps_perform, keepsM_log|done].
Qed.

Lemma gateway_serve_idle lg (iter : M (GwW N D) bool) key ws quic es : idle (G:=G) (H:=H) (gateway_serve over_http lg iter key ws quic es).
Proof.
  revert ws quic. induction es as [|e es IH]; intros ws quic.
  { intros p o p' [= <- <-]. exists []. by rewrite app_nil_r. }
  destruct e as [entropy n|i| |e]; cbn [gateway_serve]; (apply idle_bind; [|intros _]); try done.
  - intros p o p' E. exists []. rewrite app_nil_r. revert E. unfold connect.
    repeat case_match; intros E; simplify_eq; done.
  - intros p o p' E. exists []. rewrite app_nil_r. revert E. unfold take_turn. repeat case_match; intros E; simplify_eq; done.
  - apply idle_perform, stays_log.
  - apply idle_perform, stays_cancel.
  - apply idle_perform, stays_log.
Qed.

End lemmas.

(** *** Which connections the process makes *)

(** The connections to other services, and that it serves. *)
Definition telling (e : event) : bool := match e with Opened (RGrpcConn _) | Serving => true | _ => false end.

Definition told (evs : list event) : list event := List.filter telling evs.

Lemma told_elem e evs : telling e = true → e ∈ told evs ↔ e ∈ evs.
Proof. intros He. unfold told. rewrite !list_elem_of_In, filter_In. tauto. Qed.

Section traced.
Context {W G H : Type} `{Otel G} `{Host H}.

Definition traced (T : list event → relation W) {A} (m : PM W G H A) : Prop := ∀ p o p', m p = (o, p') →
  ∃ evs, pr_events p' = pr_events p ++ evs ∧ T (told evs) (pr_world p) (pr_world p').

Definition silentM {A} (m : M (Proc W G H) A) : Prop := ∀ p r p', m p = (r, p') →
  ∃ evs, pr_events p' = pr_events p ++ evs ∧ told evs = [] ∧ pr_world p' = pr_world p.

Definition silent {A} (m : PM W G H A) : Prop := traced (λ es x y, es = [] ∧ y = x) m.

Lemma silentM_same {A} (m : M (Proc W G H) A) :
  (∀ p r p', m p = (r, p') → pr_events p' = pr_events p ∧ pr_world p' = pr_world p) → silentM m.
Proof. intros Hm p r p' [He Hw]%Hm. exists []. by rewrite app_nil_r. Qed.

Lemma silentM_host {A} (m : M H A) : silentM (on_host m).
Proof. apply silentM_same. intros p r p'. unfold on_host, zoom. destruct (m _). by intros [= <- <-]. Qed.

Lemma silentM_otel {A} (m : M G A) : silentM (on_otel m).
Proof. apply silentM_same. intros p r p'. unfold on_otel, zoom. destruct (m _). by intros [= <- <-]. Qed.

Lemma silentM_lift {A} (r : result A) : silentM (lift r).
Proof. apply silentM_same. by intros p x p' [= <- <-]. Qed.

Lemma silentM_log lg lv msg : silentM (log lg lv msg).
Proof. apply silentM_same. by intros p r p' [= <- <-]. Qed.

Lemma silentM_cancel : silentM cancel.
Proof. apply silentM_same. by intros p r p' [= <- <-]. Qed.

Lemma silentM_acquire {A} r (m : M (Proc W G H) A) : telling (Opened r) = false → silentM m → silentM (acquire r m).
Proof.
  intros Ht Hm p x p' E. unfold acquire in E. step E as x1 p1 E1. apply Hm in E1 as (evs & He & Hf & Hw).
  destruct x1; injection E as <- <-; [|by exists evs..]. exists (evs ++ [Opened r]).
  unfold told in *. rewrite List.filter_app, Hf. cbn [List.filter]. rewrite Ht. simpl. by rewrite He, (assoc_L (++)).
Qed.

Lemma silentM_close r : silentM (close_ r).
Proof.
  intros p x p'. unfold close_, on_host, zoom. destruct (host_close r _) as [y h]. intros [= <- <-].
  by exists [Closed r (pr_ctx p)].
Qed.

Lemma silent_fatal {A} lg msg (m : M (Proc W G H) A) : silentM m → silent (fatal lg msg m).
Proof. intros Hm p o p'. unfold fatal. destruct (m p) as [[] p1] eqn:E; destruct (Hm _ _ _ E) as (es & ? & ? & ?); intros [= <- <-]; by exists es. Qed.

Lemma silent_warn {A} lg lv msg (m : M (Proc W G H) A) : silentM m → silent (warn lg lv msg m).
Proof. intros Hm p o p'. unfold warn. destruct (m p) as [[] p1] eqn:E; destruct (Hm _ _ _ E) as (es & ? & ? & ?); intros [= <- <-]; by exists es. Qed.

Lemma silent_perform {A} (m : M (Proc W G H) A) d : silentM m → silent (perform m d).
Proof. intros Hm p o p'. unfold perform. destruct (m p) as [[] p1] eqn:E; destruct (Hm _ _ _ E) as (es & ? & ? & ?); intros [= <- <-]; by exists es. Qed.

Lemma silent_perform_or_panic {A} (m : M (Proc W G H) A) : silentM m → silent (perform_or_panic m).
Proof. intros Hm p o p'. unfold perform_or_panic. destruct (m p) as [[] p1] eqn:E; destruct (Hm _ _ _ E) as (es & ? & ? & ?); intros [= <- <-]; by exists es. Qed.

Lemma silent_ret {A} (a : A) : silent (mret a).
Proof. intros p o p' [= <- <-]. exists []. by rewrite app_nil_r. Qed.

Section bind.
Context (T : list event → relation W) (T_nil : ∀ x, T [] x x).

Lemma traced_bind {A B} (m : PM W G H A) (f : A → PM W G H B) : silent m → (∀ a, traced T (f a)) → traced T (a ← m; f a).
Proof using T_nil.
  intros Hm Hf p o p'. unfold mbind, PM_bind. destruct (m p) as [o1 p1] eqn:E1. intros E.
  destruct (Hm _ _ _ E1) as (es & He & Ht & Hw). destruct o1 as [a|s| |].
  2-4: injection E as <- <-; exists es; by rewrite Ht, Hw.
  destruct (Hf _ _ _ _ E) as (es' & He' & HT). exists (es ++ es'). rewrite He', He, (assoc_L (++)). split; [done|].
  unfold told in *. rewrite List.filter_app, Ht. by rewrite <-Hw.
Qed.

Lemma traced_defer {A} c (body : PM W G H A) : silentM c → traced T body → traced T (defer c body).
Proof.
  intros Hc Hb p o p'. unfold defer. destruct (body p) as [o1 p1] eqn:E1. destruct (Hb _ _ _ E1) as (es & He & HT). intros E.
  destruct o1; [|by injection E as <- <-; exists es..|].
  all: destruct (c p1) as [x p2] eqn:Ec; destruct (Hc _ _ _ Ec) as (es' & He' & Ht' & Hw'); exists (es ++ es');
    rewrite (assoc_L (++)), <-He; unfold told in *; rewrite List.filter_app, Ht', app_nil_r, <-Hw' in *;
    destruct x; injection E as <- <-; done.
Qed.

Lemma traced_observability Build name otlp (body : Logger → PM W G H unit) :
  (∀ lg, traced T (body lg)) → traced T (with_observability Build name otlp body).
Proof using T_nil.
  intros Hb p o p'. unfold with_observability. destruct (open_logger Build name p) as [x p1] eqn:E. intros E'.
  destruct (silentM_acquire RLogger _ eq_refl (silentM_host _) _ _ _ E) as (es & He & Ht & Hw).
  assert (Hrest : ∀ lg, traced T (defer (close_ RLogger) (defer cancel (
    tp ← warn lg WarnLevel "Tracing init failed, continuing without traces" (open_tracer name otlp);
    (match tp with Some _ => defer (close_ RTracer) | None => id end) (
      _ ← fatal lg "Metrics init failed" open_meter; defer (close_ RMeter) (body lg)))))).
  { intros lg. apply traced_defer; [apply silentM_close|]. apply traced_defer; [apply silentM_cancel|].
    apply traced_bind; [by apply silent_warn, silentM_acquire, silentM_otel|]. intros tp.
    assert (traced T (_ ← fatal lg "Metrics init failed" open_meter; defer (close_ RMeter) (body lg))) as Hk.
    { apply traced_bind; [by apply silent_fatal, silentM_acquire, silentM_otel|]. intros _. by apply traced_defer; [apply silentM_close|]. }
    destruct tp; [|exact Hk]. by apply traced_defer; [apply silentM_close|exact Hk]. }
  destruct x as [lg|e|why]; [|injection E' as <- <-; exists es; by rewrite Ht, Hw..].
  destruct (Hrest lg _ _ _ E') as (es' & He' & HT). exists (es ++ es'). rewrite He', He, (assoc_L (++)). split; [done|].
  unfold told in *. rewrite List.filter_app, Ht, <-Hw. done.
Qed.

End bind.

Lemma silent_bind {A B} (m : PM W G H A) (f : A → PM W G H B) : silent m → (∀ a, silent (f a)) → silent (a ← m; f a).
Proof. by apply traced_bind. Qed.

Lemma silent_serve_metrics lg what addr : silent (serve_metrics lg what addr).
Proof.
  apply silent_bind; [apply silent_perform, silentM_log|]. intros _.
  apply silent_bind; [apply silent_warn, silentM_host|]. intros _. apply silent_ret.
Qed.

End traced.

Section main_lemmas.
Context {N D G H : Type} `{Conn N} `{Closer N} `{Noise} `{FrameCodec} `{AppCodec} `{Otel G} `{Host H} `{Tls}.
Context (Build : zap_Config → M H Logger) (over_http : N → bool).
Context (Dispatch : slice → slice → AppMessage → M D slice) (ListenAddr : string → tls_Config → Z → M H unit).

(** *** The dispatcher *)

(** The turns of the server are handed to the dispatcher exactly when the connection to it
    was made; it is made to no empty address, and to any other when the library makes it. *)
Definition dialled (addr : string) (es : list event) (x y : Server N D) : Prop :=
  let dial := Opened (RGrpcConn addr) in
  (∃ d ts, server_run d x ts y ∧ (d = Some Dispatch ∧ dial ∈ es ∨ d = None ∧ dial ∉ es)) ∧
  (addr = "" → dial ∉ es) ∧
  (addr ≠ "" → Serving ∈ es → (∀ h, ∃ h', host_open (RGrpcConn addr) h = (Ok tt, h')) → dial ∈ es).

Lemma dialled_none addr es x y : runs None x y → es = [] ∨ addr = "" ∧ es = [Serving] → dialled addr es x y.
Proof.
  intros [ts Hr] Hes. assert (Opened (RGrpcConn addr) ∉ es) by (destruct Hes as [->|[_ ->]]; set_solver).
  split; [exists None, ts; auto|]. split; [done|]. intros Ha Hs. destruct Hes as [->|[-> _]]; [by apply not_elem_of_nil in Hs|done].
Qed.

Lemma dialled_nil addr x : dialled addr [] x x.
Proof. apply dialled_none; [done|by left]. Qed.

(** The server with the dispatcher client [d]. *)
Definition served_with d (es : list event) (x y : Server N D) : Prop := runs d x y ∧ (es = [] ∨ es = [Serving]).

Lemma dispatcherClient_dials lg addr (f : option (slice → slice → AppMessage → M D slice) → PM (Server N D) G H unit) :
  (∀ d, traced (served_with d) (f d)) → traced (dialled addr) (d ← dispatcherClient Dispatch lg addr; f d).
Proof.
  intros Hf. unfold dispatcherClient. case_bool_decide as Ha.
  { intros p o p' (evs & He & Hr & Hes)%(Hf None). exists evs. split; [done|]. apply dialled_none; [done|]. naive_solver. }
  intros p o p'. unfold mbind, PM_bind, warn, open_, acquire, on_host, zoom, perform, log, happens, modify. cbn -[told].
  unfold mbind, M_bind, mret, M_ret, PM_ret. cbn -[told].
  destruct (host_open (RGrpcConn addr) (pr_host p)) as [[[]|e|why] h] eqn:Eh; cbn -[told]; intros E.
  - apply Hf in E as (evs & He & [ts Hr] & Hes). cbn [pr_events pr_world] in *.
    exists (Opened (RGrpcConn addr) :: evs). split; [by rewrite He, <-(assoc_L (++))|].
    assert (Opened (RGrpcConn addr) ∈ told (Opened (RGrpcConn addr) :: evs)) by (apply told_elem; [done|by left]).
    split; [exists (Some Dispatch), ts; auto|done].
  - apply Hf in E as (evs & He & [ts Hr] & Hes). cbn [pr_events pr_world] in *. exists evs. split; [done|].
    split; [exists None, ts; split; [done|right; split; [done|destruct Hes as [->| ->]; set_solver]]|]. split; [done|].
    intros _ _ Hh. destruct (Hh (pr_host p)) as [h' Eh']. congruence.
  - injection E as <- <-. exists []. rewrite app_nil_r. split; [done|]. apply dialled_nil.
Qed.

Lemma gateway_serve_events lg (iter : M (GwW N D) bool) key ws quic es (p : Proc (Server N D) G H) o p' :
  gateway_serve over_http lg iter key ws quic es p = (o, p') → pr_events p' = pr_events p.
Proof.
  revert p ws quic. induction es as [|e es IH]; intros p ws quic; [by intros [= <- <-]|].
  destruct e as [entropy n|i| |e]; cbn [gateway_serve]; unfold mbind, PM_bind.
  - destruct (connect _ _ _ _ _ p) as [o1 p1] eqn:E1. intros E. transitivity (pr_events p1).
    + destruct o1; [by eapply IH|by injection E as <- <-..].
    + revert E1. unfold connect. repeat case_match; intros E1; by simplify_eq.
  - destruct (take_turn _ _ _ p) as [o1 p1] eqn:E1. intros E. transitivity (pr_events p1).
    + destruct o1; [by eapply IH|by injection E as <- <-..].
    + revert E1. unfold take_turn. repeat case_match; intros E1; by simplify_eq.
  - by intros [= <- <-].
  - cbn -[gateway_serve]. intros E. by apply IH in E.
Qed.

Lemma silent_listen_ws lg addr : silent (listen_ws (N:=N) (D:=D) (G:=G) lg addr).
Proof.
  apply silent_bind; [apply silent_perform, silentM_log|]. intros _.
  apply silent_bind; [by apply silent_warn, silentM_acquire, silentM_host|]. intros r. apply silent_ret.
Qed.

Lemma silent_listen_quic lg addr conf : silent (listen_quic (N:=N) (D:=D) (G:=G) ListenAddr lg addr conf).
Proof.
  apply silent_bind; [by apply silent_warn, silentM_acquire, silentM_host|]. intros []; [|apply silent_ret].
  apply silent_bind; [apply silent_perform, silentM_log|]. intros _. apply silent_ret.
Qed.

Lemma gateway_serve_traced d lg key ws quic es :
  traced (G:=G) (H:=H) (served_with d) (_ ← perform (happens Serving) tt; gateway_serve over_http lg (gateway_iter d) key ws quic es).
Proof.
  intros p o p'. unfold mbind, PM_bind. cbn -[gateway_serve told]. intros E. exists [Serving].
  split; [apply gateway_serve_events in E; by rewrite E|]. split; [|by right]. by apply gateway_serve_runs in E.
Qed.

Lemma gateway_main_traced f rnd rnd1 rnd2 now1 now2 es :
  traced (dialled (gf_dispatcher f)) (gateway_main (G:=G) Build over_http Dispatch ListenAddr f rnd rnd1 rnd2 now1 now2 es).
Proof.
  pose proof (dialled_nil (gf_dispatcher f)) as Hnil. assert (∀ d x, served_with d [] x x) as Hserved by (split; [done|by left]).
  apply traced_observability; [done|]. intros lg.
  apply traced_bind; [done|apply silent_fatal, silentM_otel|]. intros metrics.
  apply traced_bind; [done|apply silent_serve_metrics|]. intros _.
  apply traced_bind; [done|apply silent_fatal, silentM_lift|]. intros key.
  apply traced_bind; [done|apply silent_perform, silentM_log|]. intros _.
  apply dispatcherClient_dials. intros d.
  apply traced_bind; [done|apply silent_listen_ws|]. intros ws.
  apply traced_bind; [done|apply silent_perform_or_panic, silentM_lift|]. intros conf.
  apply traced_bind; [done|apply silent_listen_quic|]. intros quic. apply gateway_serve_traced.
Qed.

(** *** What it closes *)

Lemma part_listen_ws lg addr : part (listen_ws (N:=N) (D:=D) (G:=G) lg addr).
Proof. apply part_bind; [auto with process|]. intros _. apply part_bind; [apply part_warn; auto with process|]. intros r. apply part_ret. Qed.

Lemma part_listen_quic lg addr conf : part (listen_quic (N:=N) (D:=D) (G:=G) ListenAddr lg addr conf).
Proof.
  apply part_bind.
  - apply part_warn; [|unfold ListenQUIC; auto with process].
    apply stays_bind; [apply stays_host|]. intros x. apply stays_bind; [by apply stays_happens|]. intros _. apply stays_ret.
  - intros []; [|auto with process]. apply part_bind; auto with process.
Qed.

Lemma part_dispatcherClient lg addr : part (dispatcherClient (N:=N) (G:=G) Dispatch lg addr).
Proof.
  unfold dispatcherClient. case_bool_decide; [auto with process|]. apply part_bind; [apply part_warn; auto with process|].
  intros []; [|auto with process]. apply part_bind; auto with process.
Qed.

Lemma part_perform_or_panic {W A} (r : result A) : part (W:=W) (G:=G) (H:=H) (perform_or_panic (lift r)).
Proof. split; intros p o p'; unfold perform_or_panic, lift; destruct r; intros [= <- <-]; [exists []; by rewrite app_nil_r..|done|done|done]. Qed.

Lemma gateway_main_releases f rnd rnd1 rnd2 now1 now2 es :
  releases (gateway_main (G:=G) Build over_http Dispatch ListenAddr f rnd rnd1 rnd2 now1 now2 es).
Proof.
  apply releases_with_observability. intros lg.
  apply releases_bind; [apply part_fatal; auto with process|]. intros metrics.
  apply releases_bind; [apply part_metrics|]. intros _.
  apply releases_bind; [apply part_lift|]. intros key.
  apply releases_bind; [apply part_log|]. intros _.
  apply releases_bind; [apply part_dispatcherClient|]. intros d.
  apply releases_bind; [apply part_listen_ws|]. intros ws.
  apply releases_bind; [apply part_perform_or_panic|]. intros conf.
  apply releases_bind; [apply part_listen_quic|]. intros quic.
  apply releases_bind; [apply part_serving|]. intros _. apply idle_releases, gateway_serve_idle.
Qed.

End main_lemmas.

(** ** Properties *)

(** C31: the gateway as a process.  Whatever connects to it, whatever the peers do
    and however the process ends, the shared dispatcher has got exactly the messages of
    the turns that its connections had, one after the other: by the RPC if the process has
    made the connection to the address of its flag, and not at all, in echo mode,
    otherwise.  With an empty address it makes no connection; with another one it has
    made it by the time it serves, unless the library fails to.  A process that returns or
    panics has shut down what it had opened for logs, traces and metrics, the last one
    first, while one that exits shuts down nothing. *)
Theorem gateway_process {N D G H} `{ConnLaws N} `{Closer N} `{NoiseLaws} `{FrameCodec} `{AppCodec} `{Otel G} `{Host H} `{Tls}
    (Build : zap_Config → M H Logger) (over_http : N → bool) (Dispatch : slice → slice → AppMessage → M D slice)
    (ListenAddr : string → tls_Config → Z → M H unit) (f : gateway_flags) (rnd rnd1 rnd2 : result bytes) (now1 now2 : Z)
    (es : list (gw_event N)) (p p' : Proc (Server N D) G H) (o : outcome unit) :
  gateway_main Build over_http Dispatch ListenAddr f rnd rnd1 rnd2 now1 now2 es p = (o, p') →
  let dial := Opened (RGrpcConn (gf_dispatcher f)) in
  ∃ evs, pr_events p' = pr_events p ++ evs ∧
    (∃ d ts, server_run d (pr_world p) ts (pr_world p') ∧
       sv_disp (pr_world p') = dispatch_turns d ts (sv_disp (pr_world p)) ∧
       (d = Some Dispatch ∧ dial ∈ evs ∨ d = None ∧ dial ∉ evs)) ∧
    (gf_dispatcher f = "" → dial ∉ evs) ∧
    (gf_dispatcher f ≠ "" → Serving ∈ evs → (∀ h, ∃ h', host_open (RGrpcConn (gf_dispatcher f)) h = (Ok tt, h')) → dial ∈ evs) ∧
    match o with Done _ | Panicking _ => closes evs = reverse (opens evs) | Running | Gone _ => closes evs = [] end.
Proof.
  intros E dial. destruct (gateway_main_releases _ _ _ _ _ _ _ _ _ _ _ _ _ _ E) as (evs & He & Hr).
  destruct (gateway_main_traced _ _ _ _ _ _ _ _ _ _ _ _ _ _ E) as (evs' & He' & Hd).
  rewrite He' in He. apply app_inv_head in He as ->. exists evs. split; [done|].
  pose proof (told_elem dial evs eq_refl) as Ht. pose proof (told_elem Serving evs eq_refl) as Hts.
  destruct Hd as ((d & ts & Hrun & Hd) & He1 & He2). fold dial in Hd, He1, He2. rewrite Ht in Hd, He1, He2. rewrite Hts in He2.
  split; [|split; [exact He1|split; [exact He2|exact Hr]]]. exists d, ts. split; [done|]. split; [|done]. by apply (server_run_spec d) in Hrun as [-> _].
Qed.

(** ** Examples *)

#[local] Existing Instance toy_noise.
#[local] Existing Instance toy_noise_laws.
#[local] Existing Instance toy_app_codec.
#[local] Existing Instance toy_frame_codec.

#[export] Instance toy_tls : Tls := {|
  ecdsa_Key := bytes; tls_Certificate := bytes * bytes;
  ecdsa_GenerateKey rnd := rnd;
  x509_CreateCertificate rnd _ key := (λ r, r ++ key) <$> rnd;
  x509_MarshalECPrivateKey key := Ok key;
  pem_EncodeToMemory ty b := bytes_of_string ty ++ b;
  tls_X509KeyPair cert key := Ok (cert, key);
|}.

(** A client over QUIC sends a message for the dispatcher; then the gateway is told to
    stop. *)
Definition example_start : Proc (Server (QUICConn chunks) (MemPg Outbox.db)) MemOtel MemHost :=
  fresh_proc (mkServer [] example_outbox) (λ _, false).

Local Notation example_process es :=
  (gateway_main mem_build (λ _, false) (dispatcher_client 7 NoFault) (λ _ _ _, mret tt) gateway_defaults (Ok []) (Ok [x01]) (Ok [x02])
    0 0 es example_start).

Definition example_client_events : list (gw_event (QUICConn chunks)) :=
  [GConnect [] (example_conn [[x01]; [x03]; x61 :: example_plain]); GTurn 0; GSignal].

Example example_process_runs :
  (example_process example_client_events).1 = Done tt ∧
  pr_events (example_process example_client_events).2 =
    [Opened RLogger; Opened RTracer; Opened RMeter; Opened (RGrpcConn "localhost:50053"); Opened (RListener ":8080");
     Opened (RListener ":8443"); Serving; Closed RMeter true; Closed RTracer true; Closed RLogger true].
Proof. vm_compute. done. Qed.

Lemma example_process_done : ∃ y, example_process example_client_events = (Done tt, y).
Proof.
  exists (example_process example_client_events).2. assert ((example_process example_client_events).1 = Done tt) as E by by vm_compute.
  exact (pair_eq_1 (example_process example_client_events) (Done tt) E).
Qed.

Lemma gateway_process_witness :
  ∃ y, example_process example_client_events = (Done tt, y) ∧
    (∃ ts, sv_disp (pr_world y) = dispatch_turns (Some (dispatcher_client 7 NoFault)) ts example_outbox) ∧
    closes (pr_events y) = reverse (opens (pr_events y)).
Proof.
  destruct example_process_done as [y E]. exists y. split; [exact E|].
  destruct (gateway_process mem_build (λ _, false) (dispatcher_client 7 NoFault) (λ _ _ _, mret tt) gateway_defaults (Ok []) (Ok [x01])
    (Ok [x02]) 0 0 example_client_events example_start y (Done tt) E)
    as (evs & Hevs & (d & ts & _ & Hd & Hdial) & _ & _ & Hc).
  assert (Hin : Opened (RGrpcConn "localhost:50053") ∈ evs).
  { pose proof (proj2 example_process_runs) as Hrun. rewrite E in Hrun. cbn [snd] in Hrun. rewrite Hevs in Hrun.
    simpl in Hrun. rewrite Hrun. do 3 apply list_elem_of_further. apply list_elem_of_here. }
  split; [|rewrite Hevs; exact Hc]. exists ts. destruct Hdial as [[Hsome _]|[_ Hno]]; [|destruct (Hno Hin)].
  rewrite Hd, Hsome. reflexivity.
Defined.

Example example_row : Outbox.rows (pgdata (sv_disp (pr_world (example_process example_client_events).2))) !! 1 ≠ None.
Proof. vm_compute. done. Qed.
