(* ===== verification/ExampleServer.v ===== *)
(** * A server whose connections share a state under a lock

    What [runServer] of the programs under [examples/] and [starters/] have in common: a
    goroutine for each connection, which does the handshake and then reads, handles and
    answers messages, and a state that all of them share.  The goroutines are
    interleaved at every call on a connection and at every section of a handler that
    holds the lock of the shared state; [IotServer], [GameServer], [FinanceServer] and
    [StarterMain] are the programs. *)
From S2P Require Import Prelude Bytes Wire Noise Conn Gateway ExampleLoop Observability Process GatewayMain.

Local Open Scope Z_scope.

(** ** Handlers by the sections that hold the lock *)

(** A handler has returned, or it holds the lock for one [section] and goes on as [rest]
    says, given the state as the section found it. *)
Inductive prog (D A : Type) :=
| Fin (r : result A)
| Locked (section : D → D) (rest : D → prog D A).
Arguments Fin {D A} _.
Arguments Locked {D A} _ _.

(** A handler that is alone. *)
Fixpoint run_prog {D A} (p : prog D A) : M D A := λ d,
  match p with
  | Fin r => (r, d)
  | Locked section rest => run_prog (rest d) (section d)
  end.

(** [resp, _ := encode(...)], to be sent. *)
Definition send_encoded {D} (r : result bytes) : prog D (option bytes) :=
  Fin (match or_nil r with Ok b => Ok (Some b) | Err e => Err e | Panic why => Panic why end).

(** Nothing happens between the handshake and the loop. *)
Definition no_hello {D} (_ : string) : prog D (option bytes) := Fin (Ok None).

(** ** Goroutines *)

(** The goroutine of a connection: before the handshake ([entropy] is what it will draw),
    in [ReadMessage], at work on a message, or returned.  [id] is the address the handler
    has asked for once. *)
Inductive goroutine `{Noise} (N D : Type) :=
| GStarted (entropy : bytes) (conn : N)
| GReading (id : string) (session : NoiseSession) (conn : N)
| GBusy (id : string) (session : NoiseSession) (conn : N) (p : prog D (option bytes))
| GReturned (conn : N).
Arguments GStarted {_ N D} _ _.
Arguments GReading {_ N D} _ _ _.
Arguments GBusy {_ N D} _ _ _ _.
Arguments GReturned {_ N D} _.

Record Srv `{Noise} (N D : Type) := mkSrv { srv_conns : list (goroutine N D); srv_shared : D }.
Arguments mkSrv {_ N D} _ _.
Arguments srv_conns {_ N D} _.
Arguments srv_shared {_ N D} _.

(** What a goroutine does when it is its turn: it goes on, or it panics, and then only
    its deferred calls run. *)
Inductive next `{Noise} (N D : Type) := Goes (g : goroutine N D) | Panics (conn : N).
Arguments Goes {_ N D} _.
Arguments Panics {_ N D} _.

(** What is to be seen of a step: a connection, or a message that is read. *)
Inductive label (N : Type) := LConnect (entropy : bytes) (n : N) | LRead (i : nat) (pt : bytes).
Arguments LConnect {N} _ _.
Arguments LRead {N} _ _.

Definition connections {N} (ts : list (label N)) : list (bytes * N) :=
  omap (λ t, match t with LConnect entropy n => Some (entropy, n) | LRead _ _ => None end) ts.

Definition messages_of {N} (i : nat) (ts : list (label N)) : list bytes :=
  omap (λ t, match t with LRead j pt => if decide (j = i) then Some pt else None | LConnect _ _ => None end) ts.

Section resume.
Context {N D : Type} `{Conn N} `{Noise} `{Closer N}.

(** The key of the server, nil when it was not checked that it could be generated; what
    the handler does before its loop and for each message; how it sends an answer, and
    whether it goes on after that. *)
Context (key : option KeyPair) (hello : string → prog D (option bytes)) (handle : string → bytes → prog D (option bytes)).
Context (send : bytes → M (GwW N unit) bool).

Definition returns (n : N) : next N D := Goes (GReturned (closed n)).

Definition resume_handshake (entropy : bytes) (n : N) : next N D :=
  match key with
  | None => Panics (closed n)
  | Some key =>
      match run_proc (ServerHandshake entropy key) n with
      | (Ok s, n) => Goes (GBusy (conn_RemoteAddr n) s n (hello (conn_RemoteAddr n)))
      | (Err _, n) => returns n
      | (Panic _, n) => Panics (closed n)
      end
  end.

Definition resume_read (id : string) (s : NoiseSession) (n : N) : next N D :=
  match conn_ReadMessage n with
  | (Ok ct, n) =>
      match NoiseSession_Decrypt ct s with
      | (Ok pt, s) => Goes (GBusy id s n (handle id pt))
      | (Err _, _) => returns n
      | (Panic _, _) => Panics (closed n)
      end
  | (Err _, n) => returns n
  | (Panic _, n) => Panics (closed n)
  end.

Definition resume_fin (id : string) (s : NoiseSession) (n : N) (r : result (option bytes)) : next N D :=
  match r with
  | Ok None => Goes (GReading id s n)
  | Ok (Some b) =>
      match send b (mkGwW s n tt) with
      | (Ok true, w) => Goes (GReading id (gw_session w) (gw_conn w))
      | (Panic _, w) => Panics (closed (gw_conn w))
      | (_, w) => returns (gw_conn w)
      end
  | Err _ => returns n
  | Panic _ => Panics (closed n)
  end.

Definition resume (g : goroutine N D) (d : D) : next N D * D :=
  match g with
  | GStarted entropy n => (resume_handshake entropy n, d)
  | GReading id s n => (resume_read id s n, d)
  | GBusy id s n (Locked section rest) => (Goes (GBusy id s n (rest d)), section d)
  | GBusy id s n (Fin r) => (resume_fin id s n r, d)
  | GReturned n => (Goes (GReturned n), d)
  end.

(** The goroutine afterwards, whether it has panicked or not. *)
Definition after (x : next N D) : goroutine N D := match x with Goes g => g | Panics n => GReturned n end.

(** The message a goroutine gets when it is its turn. *)
Definition reads (i : nat) (g : goroutine N D) : list (label N) :=
  match g with
  | GReading id s n =>
      match conn_ReadMessage n with
      | (Ok ct, _) => match NoiseSession_Decrypt ct s with (Ok pt, _) => [LRead i pt] | _ => [] end
      | _ => []
      end
  | _ => []
  end.

(** A new connection, or a turn of one goroutine. *)
Inductive srv_step : Srv N D → list (label N) → Srv N D → Prop :=
| srv_connect entropy n gs d : srv_step (mkSrv gs d) [LConnect entropy n] (mkSrv (gs ++ [GStarted entropy n]) d)
| srv_turn i g gs d :
    gs !! i = Some g →
    srv_step (mkSrv gs d) (reads i g) (mkSrv (<[i := after (resume g d).1]> gs) (resume g d).2).

Inductive srv_run : Srv N D → list (label N) → Srv N D → Prop :=
| srv_nil x : srv_run x [] x
| srv_snoc x ts y us z : srv_run x ts y → srv_step y us z → srv_run x (ts ++ us) z.

(** ** The process *)

(** A peer connects, one cannot be accepted (or upgraded), a goroutine has its turn, or
    [http.ListenAndServe] returns. *)
Inductive net_event := NConnect (entropy : bytes) (n : N) | NRefused (e : error) | NTurn (i : nat) | NServeFails (e : error).

(** The connections that come, in order. *)
Definition connects (es : list net_event) : list (bytes * N) :=
  omap (λ e, match e with NConnect entropy n => Some (entropy, n) | _ => None end) es.

Section process.
Context {G L : Type}.

Definition put_srv (x : Srv N D) : PM (Srv N D) G L unit := λ p,
  (Done tt, mkProc x (pr_otel p) (pr_host p) (pr_log p) (pr_events p) (pr_ctx p)).

(** [go handle(conn, key, state)], or the call in the goroutine of [net/http]. *)
Definition spawn (entropy : bytes) (n : N) : PM (Srv N D) G L unit := λ p,
  put_srv (mkSrv (srv_conns (pr_world p) ++ [GStarted entropy n]) (srv_shared (pr_world p))) p.

(** [recovered]: [net/http] recovers the panic of a handler; any other panic ends the
    process. *)
Definition take_turn (recovered : bool) (i : nat) : PM (Srv N D) G L unit := λ p,
  match srv_conns (pr_world p) !! i with
  | None => (Done tt, p)
  | Some g =>
      let '(x, d) := resume g (srv_shared (pr_world p)) in
      let p := (put_srv (mkSrv (<[i := after x]> (srv_conns (pr_world p))) d) p).2 in
      match x with Panics _ => (if recovered then Done tt else Gone 2, p) | Goes _ => (Done tt, p) end
  end.

(** [for { conn, err := AcceptQUIC(ctx, listener); if err != nil { log; continue }; go
    handle(conn, ...) }] *)
Fixpoint accept_loop (es : list net_event) : PM (Srv N D) G L unit :=
  match es with
  | [] => λ p, (Running, p)
  | NConnect entropy n :: es => _ ← spawn entropy n; accept_loop es
  | NTurn i :: es => _ ← take_turn false i; accept_loop es
  | (NRefused _ | NServeFails _) :: es => _ ← perform (log std_log InfoLevel "accept") tt; accept_loop es
  end.

(** [http.ListenAndServe] with the handler of [/ws]; [msg] is what the handler logs when
    the upgrade fails, [end_] what the program logs when serving does. *)
Fixpoint http_serve (msg end_ : string) (es : list net_event) : PM (Srv N D) G L unit :=
  match es with
  | [] => λ p, (Running, p)
  | NConnect entropy n :: es => _ ← spawn entropy n; http_serve msg end_ es
  | NTurn i :: es => _ ← take_turn true i; http_serve msg end_ es
  | NRefused _ :: es => _ ← perform (log std_log InfoLevel msg) tt; http_serve msg end_ es
  | NServeFails e :: _ => fatal std_log end_ (throw e)
  end.

End process.
End resume.
Arguments NConnect {N} _ _.
Arguments NRefused {N} _.
Arguments NTurn {N} _.
Arguments NServeFails {N} _.

(** [enc, _ := session.Encrypt(resp); conn.WriteMessage(enc)] and back to the loop. *)
Definition send_and_go_on {N} `{Conn N} `{Noise} (resp : bytes) : M (GwW N unit) bool := _ ← send_unchecked resp; mret true.

(** ** What the sections of a handler do *)

Section sections.
Context {D A : Type}.

(** Every section takes the state along [R]. *)
Fixpoint sections (R : relation D) (p : prog D A) : Prop :=
  match p with
  | Fin _ => True
  | Locked section rest => ∀ d, R d (section d) ∧ sections R (rest d)
  end.

(** No section changes the state. *)
Definition quiet : prog D A → Prop := sections (λ d d', d' = d).

(** One section applies [op], the others change nothing. *)
Fixpoint commits (op : D → D) (p : prog D A) : Prop :=
  match p with
  | Fin _ => False
  | Locked section rest =>
      (∀ d, section d = op d ∧ quiet (rest d)) ∨ (∀ d, section d = d ∧ commits op (rest d))
  end.

Lemma sections_impl (R R' : relation D) p : (∀ d d', R d d' → R' d d') → sections R p → sections R' p.
Proof. intros HR. induction p as [r|section rest IH]; [done|]. intros Hp d. destruct (Hp d). auto. Qed.

Lemma quiet_locked section (rest : D → prog D A) : quiet (Locked section rest) → ∀ d, section d = d ∧ quiet (rest d).
Proof. done. Qed.

(** Alone, such handlers have the effect that they commit. *)
Lemma run_quiet p (d : D) : quiet p → (run_prog p d).2 = d.
Proof. revert d. induction p as [r|section rest IH]; intros d Hp; [done|]. simpl. destruct (Hp d) as [-> ?]. auto. Qed.

Lemma run_commits op p (d : D) : commits op p → (run_prog p d).2 = op d.
Proof.
  revert d. induction p as [r|section rest IH]; intros d; [done|]. intros [Hc|Hc]; destruct (Hc d) as [Es ?]; simpl; rewrite Es.
  - by apply run_quiet.
  - auto.
Qed.

End sections.

(** ** Lemmas on labels *)

Lemma srv_messages_of_app {N} i (ts us : list (label N)) : messages_of i (ts ++ us) = messages_of i ts ++ messages_of i us.
Proof. apply omap_app. Qed.

Lemma connections_app {N} (ts us : list (label N)) : connections (ts ++ us) = connections ts ++ connections us.
Proof. apply omap_app. Qed.

Lemma reads_connections {N D} `{Conn N} `{Noise} i (g : goroutine N D) : connections (reads i g) = [].
Proof. destruct g; try done. unfold reads. by repeat case_match. Qed.

Lemma reads_other {N D} `{Conn N} `{Noise} i j (g : goroutine N D) : i ≠ j → messages_of j (reads i g) = [].
Proof. intros Hne. destruct g; try done. unfold reads. repeat case_match; try done. simpl. by rewrite decide_False. Qed.

(** ** Lemmas on runs *)

Section runs.
Context {N D : Type} `{Conn N} `{Noise} `{Closer N}.
Context (key : option KeyPair) (hello : string → prog D (option bytes)) (handle : string → bytes → prog D (option bytes)).
Context (send : bytes → M (GwW N unit) bool).
Implicit Types (s : NoiseSession) (n : N) (d : D) (g : goroutine N D) (x y z : Srv N D).
Local Notation resume := (resume key hello handle send).
Local Notation srv_step := (srv_step key hello handle send).
Local Notation srv_run := (srv_run key hello handle send).

Lemma srv_run_trans x ts y us z : srv_run x ts y → srv_run y us z → srv_run x (ts ++ us) z.
Proof.
  intros Hxy. induction 1 as [|y us z vs u _ IH Hst]; [by rewrite app_nil_r|]. rewrite (assoc_L (++)). by eapply srv_snoc; [apply IH|].
Qed.

(** A run in which connections [cs] may come, the first ones first. *)
Definition srv_runs (cs : list (bytes * N)) x y : Prop := ∃ ts, srv_run x ts y ∧ connections ts `prefix_of` cs.

Lemma srv_runs_refl cs x : srv_runs cs x x.
Proof. exists []. split; [constructor|apply prefix_nil]. Qed.

(** *** The process runs the server *)

Lemma spawn_runs {G L} entropy n cs (loop : PM (Srv N D) G L unit) :
  keeps (srv_runs cs) loop → keeps (srv_runs ((entropy, n) :: cs)) (_ ← spawn entropy n; loop).
Proof.
  intros Hl p o p' (ts & Hrun & Hc)%Hl. exists ([LConnect entropy n] ++ ts). split; [|by apply prefix_cons].
  eapply srv_run_trans; [|exact Hrun]. eapply (srv_snoc _ _ _ _ _ []); [constructor|]. destruct p as [[gs d] ?????]. apply srv_connect.
Qed.

Lemma srv_take_turn_runs {G L} recovered i cs (loop : PM (Srv N D) G L unit) :
  keeps (srv_runs cs) loop → keeps (srv_runs cs) (_ ← take_turn key hello handle send recovered i; loop).
Proof.
  intros Hl p o p'. unfold mbind, PM_bind, take_turn. destruct p as [[gs d] ?????]. simpl.
  destruct (gs !! i) as [g|] eqn:Hi; [|apply Hl].
  assert (Hturn : ∀ y, srv_runs cs (mkSrv (<[i := after (resume g d).1]> gs) (resume g d).2) y → srv_runs cs (mkSrv gs d) y).
  { intros y (ts & Hrun & Hc). exists (reads i g ++ ts). rewrite connections_app, reads_connections. split; [|done].
    eapply srv_run_trans; [|exact Hrun]. eapply (srv_snoc _ _ _ _ _ []); [constructor|]. by apply srv_turn. }
  destruct (resume g d) as [[g'|n] d']; simpl in Hturn; [intros E%Hl; by apply Hturn|].
  destruct recovered; [intros E%Hl; by apply Hturn|]. intros [= _ <-]. apply Hturn, srv_runs_refl.
Qed.

Lemma accept_loop_runs {G L} es : keeps (G:=G) (H:=L) (srv_runs (connects es)) (accept_loop key hello handle send es).
Proof.
  induction es as [|[entropy n|e|i|e] es IH]; cbn [accept_loop].
  - intros p o p' [= _ <-]. apply srv_runs_refl.
  - by apply spawn_runs.
  - intros p o p' E. by apply IH in E.
  - by apply srv_take_turn_runs.
  - intros p o p' E. by apply IH in E.
Qed.

Lemma http_serve_runs {G L} msg end_ es : keeps (G:=G) (H:=L) (srv_runs (connects es)) (http_serve key hello handle send msg end_ es).
Proof.
  induction es as [|[entropy n|e|i|e] es IH]; cbn [http_serve].
  - intros p o p' [= _ <-]. apply srv_runs_refl.
  - by apply spawn_runs.
  - intros p o p' E. by apply IH in E.
  - by apply srv_take_turn_runs.
  - intros p o p' [= _ <-]. apply srv_runs_refl.
Qed.

(** A loop that accepts goes on, unless a goroutine panics. *)
Lemma accept_loop_outcome {G L} es (p p' : Proc (Srv N D) G L) o :
  accept_loop key hello handle send es p = (o, p') → o = Running ∨ o = Gone 2.
Proof.
  revert p. induction es as [|[entropy n|e|i|e] es IH]; intros p; cbn [accept_loop].
  1: intros [= <- _]; by left.
  1,2,4: apply IH.
  unfold mbind, PM_bind, take_turn. destruct (srv_conns _ !! i) as [g|]; [|apply IH]. simpl.
  destruct (resume g _) as [[g'|m] d]; [apply IH|]. intros [= <- _]. by right.
Qed.

(** Whatever else happens first, the turn in which a goroutine panics is the last one. *)
Lemma accept_loop_dies {G L} es es' i id s n why (p : Proc (Srv N D) G L) :
  srv_conns (pr_world p) !! i = Some (GBusy id s n (Fin (Panic why))) →
  (accept_loop key hello handle send (es ++ NTurn i :: es') p).1 = Gone 2.
Proof.
  revert p. induction es as [|[entropy m|e|j|e] es IH]; intros p Hi; cbn [accept_loop app].
  - unfold mbind, PM_bind, take_turn. by rewrite Hi.
  - apply IH. simpl. by apply lookup_app_l_Some.
  - by apply IH.
  - unfold mbind, PM_bind, take_turn. destruct (srv_conns (pr_world p) !! j) as [g|] eqn:Hj; [|by apply IH]. simpl.
    destruct (decide (j = i)) as [->|Hne]; [by simplify_eq|].
    destruct (resume g _) as [[g'|m] d]; [|done]. apply IH. simpl. by rewrite list_lookup_insert_ne.
  - by apply IH.
Qed.

(** A server behind [net/http] outlives the panics of its handlers. *)
Lemma http_serve_outcome {G L} msg end_ es (p p' : Proc (Srv N D) G L) o :
  http_serve key hello handle send msg end_ es p = (o, p') → o = Running ∨ o = Gone 1.
Proof.
  revert p. induction es as [|[entropy n|e|i|e] es IH]; intros p; cbn [http_serve].
  - intros [= <- _]. by left.
  - apply IH.
  - apply IH.
  - unfold mbind, PM_bind, take_turn. destruct (srv_conns _ !! i) as [g|]; [|apply IH]. simpl.
    destruct (resume g _) as [[g'|m] d]; apply IH.
  - intros [= <- _]. by right.
Qed.

End runs.

(** ** What the clients send *)

Section clients.
Context {N D : Type} `{ConnLaws N} `{NoiseLaws} `{Closer N}.
Context (key : option KeyPair) (hello : string → prog D (option bytes)) (handle : string → bytes → prog D (option bytes)).
Context (send : bytes → M (GwW N unit) bool).
Implicit Types (s c : NoiseSession) (n : N) (d : D) (g : goroutine N D) (x y z : Srv N D).

(** Sending an answer does not touch the incoming direction. *)
Context (send_keeps : ∀ b s n w' cts, send b (mkGwW s n tt) = (Ok true, w') → conn_unread n cts →
  ns_Recv (gw_session w') = ns_Recv s ∧ conn_unread (gw_conn w') cts).
Context (write_no_panic : ∀ m n why, (conn_WriteMessage m n).1 ≠ Panic why).

(** The connection will be delivered what a client encrypts for [ps]. *)
Definition incoming s n (ps : list bytes) : Prop :=
  ∃ c c1 cts, in_step (ns_Send c) (ns_Recv s) ∧ encrypt_seq ps c = (Ok cts, c1) ∧ conn_unread n cts.

(** The same, after the messages of the handshake. *)
Definition calls (entropy : bytes) n (ps : list bytes) : Prop :=
  ∃ k m1 m2 m3 c s c1 cts, key = Some k ∧ server0 m1 m2 m3 s (ServerHandshake entropy k) ∧ in_step (ns_Send c) (ns_Recv s) ∧
    encrypt_seq ps c = (Ok cts, c1) ∧ conn_unread n (m1 :: m3 :: cts).

Definition fed g (ps : list bytes) : Prop :=
  match g with
  | GStarted entropy n => calls entropy n ps
  | GReading _ s n | GBusy _ s n _ => incoming s n ps
  | GReturned _ => True
  end.

(** A handshake that succeeds has read its messages and nothing more. *)
Lemma handshake_incoming entropy k n s' n' ps :
  key = Some k → calls entropy n ps → run_proc (ServerHandshake entropy k) n = (Ok s', n') → incoming s' n' ps.
Proof.
  intros Hk (k0 & m1 & m2 & m3 & c & s & c1 & cts & Hk0 & (k1 & Ep & (k2 & E2 & (k3 & E3 & E4 & _) & Hfail) & _) & Hs & Ec & Hu) E.
  rewrite Hk in Hk0. injection Hk0 as <-. rewrite Ep in E. destruct (Read_next _ _ _ Hu) as (n1 & R1 & Hu1 & _). simpl in E.
  rewrite R1, E2 in E. simpl in E. destruct (conn_WriteMessage m2 n1) as [r n2] eqn:W2. pose proof (Write_unread _ _ _ _ _ W2 Hu1) as Hu2.
  destruct r as [[]|e|why].
  - rewrite E3 in E. simpl in E. destruct (Read_next _ _ _ Hu2) as (n3 & R3 & Hu3 & _). rewrite R3, E4 in E.
    injection E as <- <-. by exists c, c1, cts.
  - by destruct (Hfail e) as [e' Ef]; rewrite Ef in E.
  - destruct (write_no_panic m2 n1 why). by rewrite W2.
Qed.

(** A turn takes the next message of the client, if it is in [ReadMessage]. *)
Lemma fed_resume i g d ps :
  fed g ps → ∃ ps', ps = messages_of i (reads i g) ++ ps' ∧ fed (after (resume key hello handle send g d).1) ps'.
Proof.
  destruct g as [entropy n|id s n|id s n p|n]; intros Hf; [| | |by exists ps].
  - exists ps. split; [done|]. cbn [resume fst]. unfold resume_handshake. destruct key as [k|] eqn:Hk; [|done].
    destruct (run_proc _ n) as [[s'| |] n'] eqn:E; [|done..]. simpl. by eapply handshake_incoming.
  - destruct Hf as (c & c1 & cts & Hs & Ec & Hu). unfold reads. cbn [resume fst]. unfold resume_read. destruct ps as [|p ps].
    + simpl in Ec. injection Ec as <- <-. destruct (Read_end _ Hu) as (e & n' & Er & _). rewrite Er. by exists [].
    + simpl in Ec. apply bind_Ok_inv in Ec as (ct & c0 & E1 & Ec). apply bind_Ok_inv in Ec as (cts' & c2 & E2 & Ec).
      injection Ec as <- <-. destruct (Read_next _ _ _ Hu) as (n1 & Er & Hu1 & _).
      destruct (in_step_Decrypt _ _ _ _ _ Hs E1) as (s1 & Ed & Hs1 & _). rewrite Er, Ed. exists ps. simpl. rewrite decide_True by done.
      split; [done|]. by exists c0, c2, cts'.
  - exists ps. split; [done|]. destruct p as [r|section rest]; [|exact Hf]. cbn [resume fst]. unfold resume_fin.
    destruct r as [[b|]| |]; [|exact Hf|done..]. destruct Hf as (c & c1 & cts & Hs & Ec & Hu).
    destruct (send b _) as [[[]| |] w] eqn:E; [|done..]. destruct (send_keeps _ _ _ _ _ E Hu) as [Hr Hu']. simpl. exists c, c1, cts. by rewrite Hr.
Qed.

(** A step adds a connection or changes one. *)
Lemma srv_step_conns x us y :
  srv_step key hello handle send x us y →
  (∃ entropy n, us = [LConnect entropy n] ∧ srv_conns y = srv_conns x ++ [GStarted entropy n] ∧ srv_shared y = srv_shared x) ∨
  (∃ i g, srv_conns x !! i = Some g ∧ us = reads i g ∧ srv_shared y = (resume key hello handle send g (srv_shared x)).2 ∧
     srv_conns y = <[i := after (resume key hello handle send g (srv_shared x)).1]> (srv_conns x)).
Proof. intros [entropy n gs d|i g gs d Hi]; [left|right]; simpl; eauto 8. Qed.

(** Connections are numbered in the order in which they come; nothing is read from one
    that has not come yet. *)
Lemma srv_run_numbers d ts y :
  srv_run key hello handle send (mkSrv [] d) ts y →
  length (srv_conns y) = length (connections ts) ∧ ∀ i, (length (srv_conns y) ≤ i)%nat → messages_of i ts = [].
Proof.
  intros Hrun. remember (mkSrv [] d) as x eqn:Hx. induction Hrun as [x|x ts y us z _ IH Hst]; [by subst x|].
  destruct (IH Hx) as [Hl Hn]. rewrite connections_app, length_app.
  apply srv_step_conns in Hst as [(e & n & -> & -> & _)|(i & g & Hi & -> & _ & ->)].
  - rewrite length_app, Hl. split; [done|]. intros j Hj. simpl in Hj. rewrite srv_messages_of_app, Hn by lia. done.
  - rewrite length_insert, reads_connections, Nat.add_0_r. split; [done|]. intros j Hj. apply lookup_lt_Some in Hi.
    by rewrite srv_messages_of_app, Hn, reads_other by lia.
Qed.

(** What has been read from a connection is what its client has sent first. *)
Lemma srv_run_fed d ts y i entropy n ps :
  srv_run key hello handle send (mkSrv [] d) ts y → connections ts !! i = Some (entropy, n) → calls entropy n ps →
  ∃ g ps', srv_conns y !! i = Some g ∧ ps = messages_of i ts ++ ps' ∧ fed g ps'.
Proof.
  intros Hrun Hi Hc. remember (mkSrv [] d) as x eqn:Hx. induction Hrun as [x|x ts y us z Hrun IH Hst]; [done|].
  subst x. destruct (srv_run_numbers _ _ _ Hrun) as [Hl Hn]. specialize (IH eq_refl). rewrite connections_app in Hi.
  apply srv_step_conns in Hst as [(e & m & -> & -> & _)|(j & g & Hj & -> & _ & ->)]; rewrite srv_messages_of_app.
  - apply lookup_app_Some in Hi as [Hi|[Hge Hi]].
    + destruct (IH Hi) as (g & ps' & Hg & -> & Hf). exists g, ps'. rewrite app_nil_r. split_and!; [by apply lookup_app_l_Some|done..].
    + apply list_lookup_singleton_Some in Hi as [Hi [= -> ->]]. exists (GStarted entropy n), ps. rewrite Hn by lia.
      split_and!; [|done..]. rewrite lookup_app_r by lia. by replace (i - length (srv_conns y))%nat with 0%nat by lia.
  - rewrite reads_connections, app_nil_r in Hi. destruct (IH Hi) as (g' & ps' & Hg & -> & Hf).
    destruct (decide (j = i)) as [->|Hne].
    + simplify_eq. destruct (fed_resume i g (srv_shared y) ps' Hf) as (ps2 & -> & Hf2). eexists _, ps2.
      split_and!; [|by rewrite (assoc_L (++))|exact Hf2]. apply list_lookup_insert_eq. by eapply lookup_lt_Some.
    + exists g', ps'. rewrite list_lookup_insert_ne, reads_other, app_nil_r by done. done.
Qed.

End clients.

(** ** One effect for each message *)

(** The effects of one connection. *)
Definition effects_of {X} (i : nat) (xs : list (nat * X)) : list X := (filter (λ x, x.1 = i) xs).*2.

Section linear.
Context {N D X : Type} `{Conn N} `{Noise} `{Closer N}.
Context (key : option KeyPair) (hello : string → prog D (option bytes)) (handle : string → bytes → prog D (option bytes)).
Context (send : bytes → M (GwW N unit) bool).

(** What a message asks for, and what that does to the state.  A handler does it in one
    section and nothing else. *)
Context (effect : bytes → option X) (op : X → D → D).
Context (hello_quiet : ∀ id, quiet (hello id)).
Context (handle_commits : ∀ id pt,
  match effect pt with Some x => commits (op x) (handle id pt) | None => quiet (handle id pt) end).

(** What the rest of a handler promises to the client of a connection, given the effects
    so far: true at its beginning, and kept by its own sections and by the others. *)
Context (start : D) (promise : nat → list (nat * X) → prog D (option bytes) → Prop).
Context (promise_hello : ∀ i xs id, promise i xs (hello id)) (promise_handle : ∀ i xs id pt, promise i xs (handle id pt)).
Context (promise_grow : ∀ i xs ys p, promise i xs p → promise i (xs ++ ys) p).
Context (promise_section : ∀ i xs section rest new,
  let d := foldl (λ d x, op x.2 d) start xs in
  promise i xs (Locked section rest) → section d = foldl (λ d x, op x d) d new → promise i (xs ++ (pair i <$> new)) (rest d)).

Definition promised (i : nat) (xs : list (nat * X)) (g : goroutine N D) : Prop :=
  match g with GBusy _ _ _ p => promise i xs p | _ => True end.

Lemma promised_resume i xs g new :
  let d := foldl (λ d x, op x.2 d) start xs in
  promised i xs g → (resume key hello handle send g d).2 = foldl (λ d x, op x d) d new →
  promised i (xs ++ (pair i <$> new)) (after (resume key hello handle send g d).1).
Proof using promise_hello promise_handle promise_section.
  intros d. destruct g as [entropy n|id s n|id s n [r|section rest]|n]; cbn [resume fst snd]; intros Hp Hd.
  - unfold resume_handshake. destruct key; [|done]. destruct (run_proc _ n) as [[| |] ?]; [|done..]. apply promise_hello.
  - unfold resume_read. destruct (conn_ReadMessage n) as [[ct| |] n1]; [|done..].
    destruct (NoiseSession_Decrypt ct s) as [[pt| |] s1]; [|done..]. apply promise_handle.
  - unfold resume_fin. destruct r as [[b|]| |]; [|done..]. by destruct (send b _) as [[[]| |] w].
  - exact (promise_section i xs section rest new Hp Hd).
  - done.
Qed.

(** The effects that a goroutine has still to commit. *)
Definition owes (g : goroutine N D) (l : list X) : Prop :=
  match g, l with
  | GBusy _ _ _ p, [x] => commits (op x) p
  | GBusy _ _ _ p, [] => quiet p
  | _, _ => l = []
  end.

Lemma owes_length g l : owes g l → (length l ≤ 1)%nat.
Proof. destruct g, l as [|? [|]]; simpl; (lia || done). Qed.

(** A turn commits what it owes, or goes on owing it, and owes what it reads. *)
Lemma owes_resume i g d l :
  owes g l →
  ∃ xs l', (resume key hello handle send g d).2 = foldl (λ d x, op x d) d xs ∧
    owes (after (resume key hello handle send g d).1) l' ∧ l ++ omap effect (messages_of i (reads i g)) = xs ++ l'.
Proof.
  destruct g as [entropy n|id s n|id s n p|n]; cbn [resume fst snd].
  - destruct l; [|done]. intros _. exists [], []. split; [done|]. split; [|done]. unfold resume_handshake.
    destruct key; [|done]. destruct (run_proc _ n) as [[| |] ?]; [|done..]. apply hello_quiet.
  - destruct l; [|done]. intros _. unfold resume_read, reads. destruct (conn_ReadMessage n) as [[ct| |] n1]; [|by exists [], []..].
    destruct (NoiseSession_Decrypt ct s) as [[pt| |] s1]; [|by exists [], []..]. simpl. rewrite decide_True by done. simpl.
    pose proof (handle_commits id pt) as Hh. destruct (effect pt) as [x|]; [by exists [], [x]|by exists [], []].
  - destruct p as [r|section rest].
    + destruct l as [|x [|]]; try done. intros _. exists [], []. split; [done|]. split; [|done]. unfold resume_fin.
      destruct r as [[b|]| |]; [|done..]. by destruct (send b _) as [[[]| |] w].
    + destruct l as [|x [|]]; try done.
      * intros Hq. destruct (quiet_locked _ _ Hq d) as [Es Hr]. by exists [], [].
      * intros [Hc|Hc]; destruct (Hc d) as [Es Hr]; [by exists [x], []|by exists [], [x]].
  - destruct l; [|done]. intros _. by exists [], [].
Qed.

(** Every run has an order of the effects that explains the state, in which those of
    each connection come in the order of its messages, each once; at most one is still
    to come.  All promises hold. *)
Lemma srv_run_linear ts y :
  srv_run key hello handle send (mkSrv [] start) ts y →
  ∃ xs, srv_shared y = foldl (λ d x, op x.2 d) start xs ∧
    (∀ i, (length (srv_conns y) ≤ i)%nat → effects_of i xs = []) ∧
    ∀ i g, srv_conns y !! i = Some g →
      promised i xs g ∧ ∃ l, owes g l ∧ omap effect (messages_of i ts) = effects_of i xs ++ l.
Proof.
  intros Hrun. remember (mkSrv [] start) as x eqn:Hx. induction Hrun as [x|x ts y us z Hrun IH Hst]; [subst x; by exists []|].
  subst x. destruct (IH eq_refl) as (xs & Hd & Hno & Hex). destruct (srv_run_numbers _ _ _ _ _ _ _ Hrun) as [_ Hn].
  apply srv_step_conns in Hst as [(e & m & -> & Hgs & Hs)|(j & g & Hj & -> & Hs & Hgs)]; rewrite Hgs.
  - exists xs. rewrite Hs. split; [done|]. split; [intros i Hi; rewrite length_app in Hi; apply Hno; simpl in Hi; lia|].
    intros i g [Hg|[Hge Hg]]%lookup_app_Some; rewrite srv_messages_of_app, app_nil_r; [by apply Hex|].
    apply list_lookup_singleton_Some in Hg as [Hi <-]. split; [done|]. exists []. by rewrite Hn, Hno by lia.
  - destruct (Hex _ _ Hj) as (Hpr & l & Hl & Hm). destruct (owes_resume j g (srv_shared y) l Hl) as (new & l' & Ed & Hl' & Heq).
    exists (xs ++ (pair j <$> new)).
    assert (Hnew : ∀ i, effects_of i (pair j <$> new) = if decide (j = i) then new else []).
    { intros i. unfold effects_of. clear. induction new as [|x new IH]; [by case_decide|]. rewrite fmap_cons, filter_cons. simpl.
      destruct (decide (j = i)); [by rewrite fmap_cons, IH|done]. }
    assert (Happ : ∀ i, effects_of i (xs ++ (pair j <$> new)) = effects_of i xs ++ effects_of i (pair j <$> new)).
    { intros i. unfold effects_of. by rewrite filter_app, fmap_app. }
    split; [|split].
    + rewrite Hs, Ed, foldl_app, <-Hd. by rewrite foldl_fmap.
    + intros i Hi. rewrite length_insert in Hi. rewrite Happ, Hno, Hnew by done. apply lookup_lt_Some in Hj. by rewrite decide_False by lia.
    + intros i g' Hg'. rewrite Happ, Hnew, srv_messages_of_app, omap_app. destruct (decide (j = i)) as [->|Hne].
      * rewrite list_lookup_insert_eq in Hg' by (by eapply lookup_lt_Some). injection Hg' as <-.
        split; [rewrite Hd in *; by apply promised_resume|]. exists l'. split; [done|]. by rewrite Hm, <-!(assoc_L (++)), Heq.
      * rewrite list_lookup_insert_ne in Hg' by done. rewrite reads_other, !app_nil_r by done.
        destruct (Hex _ _ Hg') as [Hp' Hl2]. split; [|done]. destruct g'; [done..| |done]. by apply promise_grow.
Qed.

End linear.

(** ** The shared state along a relation *)

Section along.
Context {N D : Type} `{Conn N} `{Noise} `{Closer N}.
Context (key : option KeyPair) (hello : string → prog D (option bytes)) (handle : string → bytes → prog D (option bytes)).
Context (send : bytes → M (GwW N unit) bool) (R : relation D).
Context (hello_along : ∀ id, sections R (hello id)) (handle_along : ∀ id pt, sections R (handle id pt)).

Definition busy_along (g : goroutine N D) : Prop := match g with GBusy _ _ _ p => sections R p | _ => True end.

Lemma resume_along g d :
  busy_along g →
  rtc R d (resume key hello handle send g d).2 ∧ busy_along (after (resume key hello handle send g d).1).
Proof.
  destruct g as [entropy n|id s n|id s n [r|section rest]|n]; cbn [resume fst snd]; intros Hb.
  - split; [done|]. unfold resume_handshake. destruct key; [|done]. destruct (run_proc _ n) as [[| |] ?]; [apply hello_along|done..].
  - split; [done|]. unfold resume_read. destruct (conn_ReadMessage n) as [[ct| |] n1]; [|done..].
    destruct (NoiseSession_Decrypt ct s) as [[pt| |] s1]; [apply handle_along|done..].
  - split; [done|]. unfold resume_fin. destruct r as [[b|]| |]; [|done..]. by destruct (send b _) as [[[]| |] w].
  - destruct (Hb d) as [HR Hr]. split; [by apply rtc_once|exact Hr].
  - done.
Qed.

Lemma srv_run_along d ts y :
  srv_run key hello handle send (mkSrv [] d) ts y → rtc R d (srv_shared y).
Proof.
  intros Hrun. remember (mkSrv [] d) as x eqn:Hx.
  cut (rtc R d (srv_shared y) ∧ Forall busy_along (srv_conns y)); [by intros []|].
  induction Hrun as [x|x ts y us z _ IH Hst]; [subst x; by split|]. destruct (IH Hx) as [Hd Hall].
  apply srv_step_conns in Hst as [(e & m & -> & -> & ->)|(j & g & Hj & -> & -> & ->)].
  - split; [done|]. by apply Forall_app_2; [|apply Forall_singleton].
  - rewrite Forall_lookup in Hall. destruct (resume_along g (srv_shared y) (Hall _ _ Hj)) as [Hr Hb].
    split; [by etrans|]. apply Forall_insert; [by rewrite Forall_lookup|done].
Qed.

End along.

(** ** What one connection keeps *)

(** A property that no turn of a goroutine breaks, whatever the others do to the state. *)
Lemma srv_run_each {N D} `{Conn N} `{Noise} `{Closer N} key hello handle send (inv : goroutine N D → Prop) d ts y i entropy n :
  (∀ g d, inv g → inv (after (resume key hello handle send g d).1)) →
  srv_run key hello handle send (mkSrv [] d) ts y → connections ts !! i = Some (entropy, n) → inv (GStarted entropy n) →
  ∃ g, srv_conns y !! i = Some g ∧ inv g.
Proof.
  intros Hinv Hrun Hi Hstart. remember (mkSrv [] d) as x eqn:Hx. induction Hrun as [x|x ts y us z Hrun IH Hst]; [done|].
  subst x. destruct (srv_run_numbers _ _ _ _ _ _ _ Hrun) as [Hl _]. specialize (IH eq_refl). rewrite connections_app in Hi.
  apply srv_step_conns in Hst as [(e & m & -> & -> & _)|(j & g & Hj & -> & _ & ->)].
  - apply lookup_app_Some in Hi as [Hi|[Hge Hi]].
    + destruct (IH Hi) as (g & Hg & Hgi). exists g. split; [by apply lookup_app_l_Some|done].
    + apply list_lookup_singleton_Some in Hi as [Hi [= -> ->]]. eexists. split; [|exact Hstart].
      rewrite lookup_app_r by lia. by replace (i - length (srv_conns y))%nat with 0%nat by lia.
  - rewrite reads_connections, app_nil_r in Hi. destruct (IH Hi) as (g' & Hg & Hgi). destruct (decide (j = i)) as [->|Hne].
    + simplify_eq. eexists. split; [apply list_lookup_insert_eq; by eapply lookup_lt_Some|by apply Hinv].
    + exists g'. by rewrite list_lookup_insert_ne.
Qed.

(** ** A goroutine that is alone *)

Section alone.
Context {N D : Type} `{Conn N} `{Noise} `{Closer N}.
Context (key : KeyPair) (hello : string → prog D (option bytes)) (handle : string → bytes → prog D (option bytes)).
Implicit Types (s : NoiseSession) (n : N) (d : D).

(** Turns of one goroutine and of no other. *)
Definition alone (x y : goroutine N D * D) : Prop :=
  resume (Some key) hello handle send_and_go_on x.1 x.2 = (Goes y.1, y.2).

Lemma alone_prog id s n p d r d' : run_prog p d = (r, d') → rtc alone (GBusy id s n p, d) (GBusy id s n (Fin r), d').
Proof.
  revert d. induction p as [r0|section rest IH]; intros d E; [by injection E as <- <-|].
  apply (rtc_l _ _ (GBusy id s n (rest d), section d)); [done|]. by apply IH.
Qed.

(** Sending does not depend on the shared state. *)
Lemma send_disp {U} b s n (u : U) r w' :
  send_unchecked b (mkGwW s n u) = (r, w') →
  gw_disp w' = u ∧ send_unchecked b (mkGwW s n tt) = (r, mkGwW (gw_session w') (gw_conn w') tt).
Proof.
  unfold send_unchecked, attempt, ignore, on_session, on_conn, zoom, mbind, M_bind. simpl.
  destruct (NoiseSession_Encrypt b s) as [[ct| |] s1]; simpl.
  - destruct (conn_WriteMessage ct n) as [[[]| |] n1]; intros E; by simplify_eq/=.
  - destruct (conn_WriteMessage [] n) as [[[]| |] n1]; intros E; by simplify_eq/=.
  - intros E. by simplify_eq/=.
Qed.

(** A turn of the loop of [ExampleLoop] is some turns of the goroutine. *)
Lemma alone_turn id s n d b w' :
  ExampleLoop.serve_turn (λ pt, run_prog (handle id pt)) (mkGwW s n d) = (Ok b, w') →
  rtc alone (GReading id s n, d)
    (if b then GReading id (gw_session w') (gw_conn w') else GReturned (closed (gw_conn w')), gw_disp w').
Proof.
  unfold ExampleLoop.serve_turn. intros E. apply bind_Ok_inv in E as (r1 & w1 & E1 & E). unfold attempt, on_conn, zoom in E1. simpl in E1.
  destruct (conn_ReadMessage n) as [rr n1] eqn:Er. destruct rr as [ct|e|why]; simplify_eq/=.
  2: { unfold mret, M_ret in E. injection E as <- <-. apply rtc_once. unfold alone. simpl. unfold resume_read. by rewrite Er. }
  apply bind_Ok_inv in E as (r2 & w2 & E2 & E). unfold attempt, on_session, zoom in E2. simpl in E2.
  destruct (NoiseSession_Decrypt ct s) as [rd s1] eqn:Ed. destruct rd as [pt|e|why]; simplify_eq/=.
  2: { unfold mret, M_ret in E. injection E as <- <-. apply rtc_once. unfold alone. simpl. unfold resume_read. by rewrite Er, Ed. }
  assert (Hread : alone (GReading id s n, d) (GBusy id s1 n1 (handle id pt), d)).
  { unfold alone. simpl. unfold resume_read. by rewrite Er, Ed. }
  eapply rtc_l; [exact Hread|]. unfold serve_answer in E. apply bind_Ok_inv in E as (resp & w3 & E3 & E).
  unfold on_disp, zoom in E3. simpl in E3. destruct (run_prog _ d) as [r d1] eqn:Ep. injection E3 as -> <-.
  etrans; [by eapply alone_prog|]. destruct resp as [resp|].
  - apply bind_Ok_inv in E as ([] & [s2 n2 d2] & Es & E). injection E as <- <-. apply rtc_once. unfold alone. simpl.
    unfold send_and_go_on, mbind, M_bind. apply send_disp in Es as [Hd ->]. simpl in Hd. by subst d2.
  - injection E as <- <-. by apply rtc_once.
Qed.

Lemma alone_loop id fuel s n d w' :
  turn_loop (ExampleLoop.serve_turn (λ pt, run_prog (handle id pt))) fuel (mkGwW s n d) = (Ok tt, w') →
  rtc alone (GReading id s n, d) (GReturned (closed (gw_conn w')), gw_disp w').
Proof.
  revert s n d. induction fuel as [|fuel IH]; intros s n d E; [done|]. cbn [turn_loop] in E.
  apply bind_Ok_inv in E as (b & [s1 n1 d1] & E1 & E). apply alone_turn in E1. simpl in E1. etrans; [exact E1|].
  destruct b; [by apply IH|]. by injection E as <-.
Qed.

(** Handlers that answer alike have the same turns. *)
Lemma serve_turn_ext (f g : bytes → M D (option bytes)) (w : GwW N D) :
  (∀ pt d, f pt d = g pt d) → ExampleLoop.serve_turn f w = ExampleLoop.serve_turn g w.
Proof.
  intros Hfg. unfold ExampleLoop.serve_turn, serve_answer, attempt, on_conn, on_session, on_disp, zoom, mbind, M_bind. simpl.
  destruct (conn_ReadMessage (gw_conn w)) as [[ct| |] n1]; [|done..]. simpl.
  destruct (NoiseSession_Decrypt ct (gw_session w)) as [[pt| |] s1]; [|done..]. simpl. by rewrite Hfg.
Qed.

Lemma turn_loop_ext {W} (t u : M W bool) fuel w : (∀ w, t w = u w) → turn_loop t fuel w = turn_loop u fuel w.
Proof.
  intros Htu. revert w. induction fuel as [|fuel IH]; intros w; [done|]. cbn [turn_loop]. unfold mbind, M_bind. rewrite Htu.
  destruct (u w) as [[[]| |] w1]; [apply IH|done..].
Qed.

(** A handler of [ExampleLoop] that returns is its goroutine when no other runs. *)
Lemma alone_serve answer joined fuel entropy n d n' d' :
  (∀ r n1, run_proc (ServerHandshake entropy key) n = (r, n1) → conn_RemoteAddr n1 = conn_RemoteAddr n) →
  (∀ pt d, answer pt d = run_prog (handle (conn_RemoteAddr n) pt) d) →
  (∀ d, run_prog (hello (conn_RemoteAddr n)) d = (Ok None, joined d)) →
  ExampleLoop.serve answer joined fuel entropy key (n, d) = (Ok tt, (n', d')) →
  rtc alone (GStarted entropy n, d) (GReturned (closed n'), d').
Proof.
  intros Haddr Ha Hj. unfold ExampleLoop.serve, serve_with. cbn [fst snd]. destruct (run_proc _ n) as [[s|e|why] n1] eqn:Eh.
  - rewrite (turn_loop_ext _ (ExampleLoop.serve_turn (λ pt, run_prog (handle (conn_RemoteAddr n) pt))))
      by (intros w; by apply serve_turn_ext).
    destruct (turn_loop _ fuel _) as [r w'] eqn:El. intros [= -> <- <-]. apply alone_loop in El.
    apply (rtc_l _ _ (GBusy (conn_RemoteAddr n) s n1 (hello (conn_RemoteAddr n)), d)).
    { unfold alone. simpl. unfold resume_handshake. by rewrite Eh, (Haddr _ _ eq_refl). }
    etrans; [by apply alone_prog|]. by eapply rtc_l; [|exact El].
  - intros [= <- <-]. apply rtc_once. unfold alone. simpl. unfold resume_handshake. by rewrite Eh.
  - done.
Qed.

End alone.

(** The handshake leaves the address of the connection as it is. *)
Lemma run_proc_addr {N A} `{ConnLaws N} (p : proc A) (n n' : N) r :
  run_proc p n = (r, n') → conn_RemoteAddr n' = conn_RemoteAddr n.
Proof.
  revert n. induction p as [x|k IH|b k IH]; intros n; simpl.
  - by intros [= _ <-].
  - destruct (conn_ReadMessage n) as [x n1] eqn:E. intros E'. by rewrite (IH _ _ E'), (Read_addr _ _ _ E).
  - destruct (conn_WriteMessage b n) as [x n1] eqn:E. intros E'. by rewrite (IH _ _ E'), (Write_addr _ _ _ _ E).
Qed.

(** Sending an answer does not touch the incoming direction. *)
Lemma send_and_go_on_keeps {N} `{ConnLaws N} `{Noise} b s (n : N) w' cts :
  send_and_go_on b (mkGwW s n tt) = (Ok true, w') → conn_unread n cts →
  ns_Recv (gw_session w') = ns_Recv s ∧ conn_unread (gw_conn w') cts.
Proof.
  unfold send_and_go_on, send_unchecked, attempt, ignore, on_session, on_conn, zoom, NoiseSession_Encrypt, mbind, M_bind, mret, M_ret. simpl.
  intros E Hu. destruct (cs_Encrypt (ns_Send s) b) as [[ct| |] x]; simpl in E; [| |done].
  - destruct (conn_WriteMessage ct n) as [r n1] eqn:Ew. pose proof (Write_unread _ _ _ _ _ Ew Hu). by destruct r; simplify_eq/=.
  - destruct (conn_WriteMessage [] n) as [r n1] eqn:Ew. pose proof (Write_unread _ _ _ _ _ Ew Hu). by destruct r; simplify_eq/=.
Qed.

(** ** Clients and effects together *)

Lemma effects_of_elem {X} i x (xs : list (nat * X)) : (i, x) ∈ xs → x ∈ effects_of i xs.
Proof. intros Hin. apply list_elem_of_fmap. exists (i, x). split; [done|]. by apply list_elem_of_filter. Qed.

(** The effects that satisfy [P] are those of one connection when no other has any. *)
Lemma effects_of_filter {X} i (P : X → Prop) `{∀ x, Decision (P x)} (xs : list (nat * X)) :
  (∀ j x, (j, x) ∈ xs → P x → j = i) → filter P xs.*2 = filter P (effects_of i xs).
Proof.
  unfold effects_of. induction xs as [|[j x] xs IH]; intros Hxs; [done|]. rewrite fmap_cons, !filter_cons. simpl.
  rewrite IH by (intros k y Hy; apply Hxs; by right). destruct (decide (P x)) as [HP|HP].
  - rewrite (Hxs j x ltac:(by left) HP), decide_True by done. rewrite fmap_cons, filter_cons. by rewrite decide_True.
  - destruct (decide (j = i)); [|done]. rewrite fmap_cons, filter_cons. by rewrite decide_False.
Qed.

Section served.
Context {N D X : Type} `{ConnLaws N} `{NoiseLaws} `{Closer N}.
Context (key : option KeyPair) (hello : string → prog D (option bytes)) (handle : string → bytes → prog D (option bytes)).
Context (effect : bytes → option X) (op : X → D → D).
Context (hello_quiet : ∀ id, quiet (hello id)).
Context (handle_commits : ∀ id pt,
  match effect pt with Some x => commits (op x) (handle id pt) | None => quiet (handle id pt) end).

(** Of some connections it is known what their clients send. *)
Definition clients (cs : list (bytes * N)) (client : nat → option (list bytes)) : Prop :=
  ∀ i ps, client i = Some ps → ∃ entropy n, cs !! i = Some (entropy, n) ∧ calls key entropy n ps.

(** The order [xs] of the effects explains the state [d']: they are those of messages on
    the connections [cs], and those of a client are the effects of the first messages that
    it sends, each once and in order. *)
Definition explains (cs : list (bytes * N)) (client : nat → option (list bytes)) (xs : list (nat * X)) (d d' : D) : Prop :=
  d' = foldl (λ d x, op x.2 d) d xs ∧
  (∀ i x, (i, x) ∈ xs → (i < length cs)%nat ∧ ∃ pt, effect pt = Some x) ∧
  ∀ i ps, client i = Some ps → effects_of i xs `prefix_of` omap effect ps.

(** With what the handlers promise to their clients. *)
Lemma srv_runs_promised (promise : nat → list (nat * X) → prog D (option bytes) → Prop) cs client d y :
  (∀ i xs id, promise i xs (hello id)) → (∀ i xs id pt, promise i xs (handle id pt)) →
  (∀ i xs ys p, promise i xs p → promise i (xs ++ ys) p) →
  (∀ i xs section rest new,
    let d := foldl (λ d x, op x.2 d) d xs in
    promise i xs (Locked section rest) → section d = foldl (λ d x, op x d) d new → promise i (xs ++ (pair i <$> new)) (rest d)) →
  (∀ m (n : N) why, (conn_WriteMessage m n).1 ≠ Panic why) → clients cs client →
  srv_runs key hello handle send_and_go_on cs (mkSrv [] d) y →
  ∃ xs, explains cs client xs d (srv_shared y) ∧ ∀ i g, srv_conns y !! i = Some g → promised promise i xs g.
Proof.
  intros P1 P2 P3 P4 Hw Hcl (ts & Hrun & Hpre).
  destruct (srv_run_linear key hello handle _ effect op hello_quiet handle_commits d promise P1 P2 P3 P4 ts y Hrun)
    as (xs & Hd & Hno & Hex).
  destruct (srv_run_numbers _ _ _ _ _ _ _ Hrun) as [Hlen _]. pose proof (prefix_length _ _ Hpre) as Hle.
  exists xs. split; [|intros i g Hg; by apply Hex]. split; [done|]. split.
  - intros i x Hin%effects_of_elem. destruct (srv_conns y !! i) as [g|] eqn:Hi.
    + split; [apply lookup_lt_Some in Hi; lia|]. destruct (Hex _ _ Hi) as (_ & l & _ & Hm).
      assert (x ∈ omap effect (messages_of i ts)) as (pt & _ & E)%list_elem_of_omap by (rewrite Hm; set_solver). by exists pt.
    + rewrite Hno in Hin by (by apply lookup_ge_None). by apply not_elem_of_nil in Hin.
  - intros i ps (entropy & n & Hi & Hc)%Hcl. destruct (connections ts !! i) as [c|] eqn:Hci.
    + pose proof (prefix_lookup_Some _ _ _ _ Hci Hpre) as Hci'. simplify_eq.
      destruct (srv_run_fed key hello handle _ send_and_go_on_keeps Hw _ _ _ _ _ _ _ Hrun Hci Hc) as (g & ps' & Hg & -> & _).
      destruct (Hex _ _ Hg) as (_ & l & _ & Hm). rewrite omap_app, Hm, <-(assoc_L (++)). by eexists.
    + apply lookup_ge_None in Hci. rewrite Hno by lia. apply prefix_nil.
Qed.

Lemma srv_runs_explained cs client d y :
  (∀ m (n : N) why, (conn_WriteMessage m n).1 ≠ Panic why) → clients cs client →
  srv_runs key hello handle send_and_go_on cs (mkSrv [] d) y → ∃ xs, explains cs client xs d (srv_shared y).
Proof.
  intros Hw Hcl Hrun. destruct (srv_runs_promised (λ _ _ _, True) cs client d y) as (xs & Hxs & _); [done..|]. by exists xs.
Qed.

(** The effects of a kind that only one client asks for. *)
Lemma explains_own cs client xs d d' i ps (P : X → Prop) `{∀ x, Decision (P x)} :
  explains cs client xs d d' → client i = Some ps →
  (∀ j, (j < length cs)%nat → j ≠ i → ∃ qs, client j = Some qs ∧ ∀ x, x ∈ omap effect qs → ¬ P x) →
  ∃ qs, qs `prefix_of` omap effect ps ∧ filter P xs.*2 = filter P qs.
Proof.
  intros (_ & Hin & Hpre) Hi Hothers. exists (effects_of i xs). split; [by apply Hpre|]. apply effects_of_filter.
  intros j x Hj HP. destruct (decide (j = i)) as [|Hne]; [done|]. exfalso.
  destruct (Hothers j (proj1 (Hin _ _ Hj)) Hne) as (qs & Hq & Hno). apply (Hno x); [|done].
  eapply elem_of_prefix; [by apply effects_of_elem|]. by apply Hpre.
Qed.

End served.

(** ** A client process *)

(** [x, _ := f()]: nil when it fails. *)
Definition unchecked {W G L A} (r : result A) : PM W G L (option A) := λ p,
  match r with Ok a => (Done (Some a), p) | Err _ => (Done None, p) | Panic why => (Panicking why, p) end.

(** The text before the colon. *)
Definition error_prefix (e : error) : string := match e with Errorf msg | Wrap msg _ => msg end.

(** A client on the connection it has dialled: [log.Fatalf] on the errors that [body]
    returns; [conn.Close()] is deferred.  A run of the model that is cut off by its fuel is
    a client that is still at work. *)
Definition run_dialled {W G L N A} `{Closer N} (n : N) (body : M N A) : PM W G L (A * N) := λ p,
  match body n with
  | (Ok a, n') => (Done (a, closed n'), p)
  | (Err e, _) => (Gone 1, (log std_log FatalLevel (error_prefix e) p).2)
  | (Panic why, _) => (if bool_decide (why = "out of fuel") then Running else Panicking why, p)
  end.

(** ** A process that serves *)

Section started.
Context {N D G L : Type} `{Conn N} `{Noise} `{Closer N}.
Context (hello : string → prog D (option bytes)) (handle : string → bytes → prog D (option bytes)).
Context (send : bytes → M (GwW N unit) bool) (d : D).

(** The process has not got to serving, or it has run a server that began with [d]. *)
Definition started (key : option KeyPair) (cs : list (bytes * N)) (x y : Srv N D) : Prop :=
  y = x ∨ srv_runs key hello handle send cs (mkSrv [] d) y.

#[export] Instance started_refl key cs : Reflexive (started key cs).
Proof. intros x. by left. Qed.

Lemma keeps_started key cs {A} (loop : PM (Srv N D) G L A) :
  keeps (srv_runs key hello handle send cs) loop → keeps (started key cs) (_ ← put_srv (mkSrv [] d); loop).
Proof. intros Hl p o p' E. right. by apply Hl in E. Qed.

Lemma keeps_unchecked {W A} (r : result A) : keeps (W:=W) (G:=G) (H:=L) (=) (unchecked r).
Proof. intros p o p'. unfold unchecked. destruct r; by intros [= _ <-]. Qed.

(** What follows depends on the value. *)
Lemma unchecked_then {W A B} (R : option A → relation W) `{!∀ a, Reflexive (R a)} (r : result A) (f : option A → PM W G L B) p o p' :
  (∀ a, keeps (R a) (f a)) → (a ← unchecked r; f a) p = (o, p') → ∃ a, R a (pr_world p) (pr_world p').
Proof.
  intros Hf. unfold mbind, PM_bind, unchecked. destruct r; intros E; [by eexists; eapply Hf..|]. injection E as _ <-. by exists None.
Qed.

Lemma keeps_run_dialled {W A} (n : N) (body : M N A) : keeps (W:=W) (G:=G) (H:=L) (=) (run_dialled n body).
Proof. intros p o p'. unfold run_dialled. destruct (body n) as [[| |] ?]; by intros [= _ <-]. Qed.

End started.

(** *** A process that no handler can end *)

(** No panic of a goroutine ends it. *)
Definition survives {W G L A} (m : PM W G L A) : Prop := ∀ p, (m p).1 ≠ Gone 2.

Section survives.
Context {W G L : Type} `{Host L}.

Lemma survives_bind {A B} (m : PM W G L A) (f : A → PM W G L B) : survives m → (∀ a, survives (f a)) → survives (a ← m; f a).
Proof.
  intros Hm Hf p. unfold mbind, PM_bind. specialize (Hm p). destruct (m p) as [[a| |st|why] p']; simpl in *; [apply Hf|congruence..].
Qed.

Lemma survives_fatal {A} lg msg (m : M (Proc W G L) A) : survives (fatal lg msg m).
Proof. intros p. unfold fatal. by destruct (m p) as [[]]. Qed.

Lemma survives_perform {A} (m : M (Proc W G L) A) d : survives (perform m d).
Proof. intros p. unfold perform. by destruct (m p) as [[]]. Qed.

Lemma survives_unchecked {A} (r : result A) : survives (W:=W) (G:=G) (L:=L) (unchecked r).
Proof. intros p. unfold unchecked. by destruct r. Qed.

Lemma survives_run_dialled {N A} `{Closer N} (n : N) (body : M N A) : survives (W:=W) (G:=G) (L:=L) (run_dialled n body).
Proof. intros p. unfold run_dialled. destruct (body n) as [[]]; [done..|]. simpl. by case_bool_decide. Qed.

Lemma survives_ret {A} (a : A) : survives (W:=W) (G:=G) (L:=L) (mret a).
Proof. done. Qed.

End survives.

Lemma survives_put_srv {N D G L} `{Noise} (x : Srv N D) : survives (G:=G) (L:=L) (put_srv x).
Proof. done. Qed.

Lemma survives_http {N D G L} `{Conn N} `{Noise} `{Closer N} key hello handle send msg end_ es :
  survives (G:=G) (L:=L) (http_serve (N:=N) (D:=D) key hello handle send msg end_ es).
Proof. intros p. destruct (http_serve _ _ _ _ _ _ es p) as [o p'] eqn:E. by destruct (http_serve_outcome _ _ _ _ _ _ _ _ _ _ E) as [->| ->]. Qed.

#[export] Hint Resolve survives_bind survives_fatal survives_perform survives_unchecked survives_run_dialled : process.
#[export] Hint Resolve survives_ret survives_put_srv survives_http : process.

(** ** Examples *)

(** A client in memory: the handshake, then what it sends. *)
Lemma toy_calls (k : KeyPair) msgs : @calls MemConn _ toy_noise (Some k) [] (toy_server_end msgs) msgs.
Proof.
  exists k, [x01], [x02], [x03], (example_client 0), (example_server 0). eexists _, _.
  split; [done|]. split; [exact (proj2 example_stages)|]. split; [done|]. split; [apply toy_encrypt_seq|]. done.
Qed.

Lemma toy_clients (k : KeyPair) (mss : list (list bytes)) :
  @clients MemConn _ toy_noise (Some k) ((λ msgs, ([], toy_server_end msgs)) <$> mss) (λ i, mss !! i).
Proof. intros i ps Hi. eexists _, _. rewrite list_lookup_fmap, Hi. split; [done|apply toy_calls]. Qed.
