(* ===== verification/IotServer.v ===== *)
(** * The telemetry server as a process

    [runServer] and [main] of [examples/iot-telemetry/server.go]: the handler of [Iot] by
    the sections that hold the lock of the store, for any number of devices at once
    ([ExampleServer]), and the process around it. *)
From S2P Require Import Prelude Bytes Wire Noise Conn Gateway ExampleLoop Iot Observability Process GatewayMain ExampleServer.

Local Open Scope Z_scope.

Section server.
Context `{JSON Telemetry} `{JSON ControlCommand} (spare : bytes → bytes).

(** A message of a device: [store.add], then [store.count] for the log line, then the
    acknowledgement. *)
Definition device_prog (_ : string) (pt : bytes) : prog telemetryStore (option bytes) :=
  match decodeMessage (spare pt) pt with
  | Ok (msgType, payload) =>
      if bool_decide (msgType = MsgTelemetry) then
        match json_Unmarshal payload with
        | Ok t => Locked (telemetryStore_add t) (λ _, Locked id (λ _, send_encoded (encodeCommand (ack_command t))))
        | Err _ => Fin (Ok None)
        | Panic why => Fin (Panic why)
        end
      else Fin (Ok None)
  | Err _ => Fin (Ok None)
  | Panic why => Fin (Panic why)
  end.

Section process.
Context {N G L : Type} `{Conn N} `{Closer N} `{Noise} `{Tls} `{Host L}.
(** [quic.ListenAddr], and [transport.DialQUIC] with quic-go. *)
Context (ListenAddr : string → tls_Config → Z → M L unit) (dial : string → M L N).

(** [rnd], [rnd1] and [rnd2] are what [rand.Reader] gives for the key and for the
    certificate, [now1] and [now2] the times of its template. *)
Definition runServer (quicAddr : string) (rnd rnd1 rnd2 : result bytes) (now1 now2 : Z) (es : list net_event) :
    PM (Srv N telemetryStore) G L unit :=
  serverKey ← fatal std_log "keygen" (lift (GenerateKeyPair rnd));
  tlsConf ← perform_or_panic (lift (GenerateSelfSignedTLS now1 now2 rnd1 rnd2));
  _ ← fatal std_log "listen" (acquire (RListener quicAddr) (on_host (ListenQUIC ListenAddr quicAddr tlsConf)));
  _ ← perform (log std_log InfoLevel "IoT QUIC server") tt;
  _ ← put_srv (mkSrv [] newStore);
  accept_loop (Some serverKey) no_hello device_prog send_and_go_on es.

(** The client: [entropy] for its handshake, [clock] for its readings. *)
Definition runDevice (addr deviceID : string) (rnd : result bytes) (entropy : bytes) (clock : Z → Z) :
    PM (Srv N telemetryStore) G L unit :=
  clientKey ← fatal std_log "keygen" (lift (GenerateKeyPair rnd));
  conn ← fatal std_log "dial" (on_host (dial addr));
  _ ← run_dialled conn (runClient spare entropy clientKey deviceID clock);
  perform (log std_log InfoLevel "telemetry session complete") tt.

Record iot_flags := mkIotFlags { if_mode : string; if_addr : string; if_device : string }.

Definition iot_defaults : iot_flags := mkIotFlags "server" ":4433" "sensor-001".

Definition iot_main (f : iot_flags) (rnd rnd1 rnd2 : result bytes) (now1 now2 : Z) (entropy : bytes) (clock : Z → Z)
    (es : list net_event) : PM (Srv N telemetryStore) G L unit :=
  if bool_decide (if_mode f = "server") then runServer (if_addr f) rnd rnd1 rnd2 now1 now2 es
  else runDevice (if_addr f) (if_device f) rnd entropy clock.

End process.

(** The reading that a message carries. *)
Definition reading_of (pt : bytes) : option Telemetry :=
  match decodeMessage (spare pt) pt with
  | Ok (msgType, payload) =>
      if bool_decide (msgType = MsgTelemetry) then match json_Unmarshal payload with Ok t => Some t | _ => None end else None
  | _ => None
  end.

End server.

(** ** Lemmas *)

Section lemmas.
Context `{JSON Telemetry} `{JSON ControlCommand} (spare : bytes → bytes).

Lemma decodeMessage_no_error sp data e : decodeMessage sp data ≠ Err e.
Proof. unfold decodeMessage. by repeat case_match. Qed.

(** A device that is alone is answered as [Iot] says. *)
Lemma device_prog_alone id pt s : device_answer spare pt s = run_prog (device_prog spare id pt) s.
Proof.
  unfold device_answer, device_prog, lift, attempt, modify, mbind, M_bind, mret, M_ret.
  pose proof (decodeMessage_no_error (spare pt) pt) as Hno.
  destruct (decodeMessage (spare pt) pt) as [[t payload]|e|why]; [|by destruct (Hno e)|done]. cbn [fst snd].
  case_bool_decide; [|done]. destruct (json_Unmarshal payload) as [tm|e|why]; [|done..]. cbn [snd run_prog send_encoded].
  by destruct (or_nil _).
Qed.

Lemma device_prog_commits id pt :
  match reading_of spare pt with
  | Some t => commits (telemetryStore_add t) (device_prog spare id pt)
  | None => quiet (device_prog spare id pt)
  end.
Proof.
  unfold reading_of, device_prog. destruct (decodeMessage (spare pt) pt) as [[t payload]|e|why]; [|done..].
  case_bool_decide; [|done]. destruct (json_Unmarshal payload) as [tm|e|why]; [|done..].
  left. intros d. split; [done|]. intros d'. done.
Qed.

End lemmas.

Lemma store_of_readings (xs : list (nat * Telemetry)) dev :
  records (foldl (λ s x, telemetryStore_add x.2 s) newStore xs) dev = last_n 1000 (filter (λ t, tm_DeviceID t = dev) xs.*2).
Proof. pose proof (records_adds xs.*2 newStore dev) as Hr. rewrite foldl_fmap in Hr. apply Hr.
  unfold records, newStore. rewrite lookup_empty. simpl. lia. Qed.

Section process_lemmas.
Context {N G L : Type} `{Conn N} `{Closer N} `{Noise} `{Tls} `{Otel G} `{Host L} `{JSON Telemetry} `{JSON ControlCommand}.
Context (spare : bytes → bytes) (ListenAddr : string → tls_Config → Z → M L unit) (dial : string → M L N).

Lemma iot_main_started f rnd rnd1 rnd2 now1 now2 entropy clock es k :
  GenerateKeyPair rnd = Ok k →
  keeps (G:=G) (started no_hello (device_prog spare) send_and_go_on newStore (Some k) (connects es))
    (iot_main spare ListenAddr dial f rnd rnd1 rnd2 now1 now2 entropy clock es).
Proof.
  intros Hk. unfold iot_main, runServer, runDevice. rewrite Hk. case_bool_decide.
  - apply (keeps_after _ (perform_or_panic _)); [apply part_perform_or_panic|]. intros conf.
    apply keeps_after; [apply _|apply keeps_fatal, keepsM_acquire, keepsM_host|]. intros _.
    apply keeps_after; [apply _|apply keeps_perform, keepsM_log|]. intros _. apply keeps_started, accept_loop_runs.
  - apply keeps_eq; [apply _|]. apply (keeps_bind _ (fatal _ _ (on_host _))); [apply keeps_fatal, keepsM_host|]. intros conn.
    apply keeps_bind; [apply _|apply keeps_run_dialled|]. intros _. apply keeps_perform, keepsM_log.
Qed.

End process_lemmas.

(** The handler of [Iot] is the goroutine of a device when no other runs. *)
Lemma handleDevice_alone {N} `{ConnLaws N} `{Closer N} `{Noise} `{JSON Telemetry} `{JSON ControlCommand} (spare : bytes → bytes)
    fuel entropy key (n n' : N) store store' :
  handleDevice spare fuel entropy key (n, store) = (Ok tt, (n', store')) →
  rtc (alone key no_hello (device_prog spare)) (GStarted entropy n, store) (GReturned (closed n'), store').
Proof. apply alone_serve; [intros r n1; apply run_proc_addr|apply device_prog_alone|done]. Qed.

(** ** Properties *)

(** C36: The telemetry server, whatever its devices do and however their goroutines are
    interleaved.  One order of the readings explains the store, in which those of each
    client are the first ones that it has sent, each once and in order.  For every device
    the store has the last thousand of them; and the readings of a device that uses one
    connection are not mixed with those of any other. *)
Theorem iot_server {N G L} `{ConnLaws N} `{Closer N} `{NoiseLaws} `{Tls} `{Otel G} `{Host L} `{JSON Telemetry} `{JSON ControlCommand}
    (spare : bytes → bytes) (ListenAddr : string → tls_Config → Z → M L unit) (dial : string → M L N) (f : iot_flags)
    (rnd rnd1 rnd2 : result bytes) (now1 now2 : Z) (ent : bytes) (clock : Z → Z) (es : list net_event)
    (p p' : Proc (Srv N telemetryStore) G L) (o : outcome unit) (k : KeyPair) (client : nat → option (list bytes)) :
  (∀ m (n : N) why, (conn_WriteMessage m n).1 ≠ Panic why) →
  GenerateKeyPair rnd = Ok k → clients (Some k) (connects es) client → pr_world p = mkSrv [] newStore →
  iot_main spare ListenAddr dial f rnd rnd1 rnd2 now1 now2 ent clock es p = (o, p') →
  let store := srv_shared (pr_world p') in
  ∃ xs, explains (reading_of spare) telemetryStore_add (connects es) client xs newStore store ∧
    (∀ dev, records store dev = last_n 1000 (filter (λ t, tm_DeviceID t = dev) xs.*2)) ∧
    (∀ i ps dev, client i = Some ps →
       (∀ j, (j < length (connects es))%nat → j ≠ i →
          ∃ qs, client j = Some qs ∧ ∀ t, t ∈ omap (reading_of spare) qs → tm_DeviceID t ≠ dev) →
       ∃ qs, qs `prefix_of` omap (reading_of spare) ps ∧ records store dev = last_n 1000 (filter (λ t, tm_DeviceID t = dev) qs)).
Proof.
  intros Hw Hk Hcl Hp E store. apply (iot_main_started spare _ _ _ _ _ _ _ _ _ _ _ _ Hk) in E. rewrite Hp in E.
  assert (srv_runs (Some k) no_hello (device_prog spare) send_and_go_on (connects es) (mkSrv [] newStore) (pr_world p')) as Hrun.
  { destruct E as [->|Hrun]; [apply srv_runs_refl|done]. }
  destruct (srv_runs_explained (Some k) no_hello (device_prog spare) (reading_of spare) telemetryStore_add (λ _, I)
    (device_prog_commits spare) _ _ _ _ Hw Hcl Hrun) as [xs Hxs]. exists xs.
  assert (Hall : ∀ dev, records store dev = last_n 1000 (filter (λ t, tm_DeviceID t = dev) xs.*2)).
  { intros dev. unfold store. rewrite (proj1 Hxs). apply store_of_readings. }
  split_and!; [done..|]. intros i ps dev Hi Hothers.
  destruct (explains_own _ _ _ _ _ _ _ i ps (λ t, tm_DeviceID t = dev) Hxs Hi Hothers) as (qs & Hq & Hf).
  exists qs. split; [done|]. by rewrite Hall, Hf.
Qed.

(** A frame of one device whose length field points past the message ends the server for
    all of them: whatever else happens in between, the next turn of its goroutine after
    the one that reads the frame is the last one of the process. *)
Theorem malformed_frame_ends_server {N G L} `{ConnLaws N} `{Closer N} `{NoiseLaws} `{JSON Telemetry} `{JSON ControlCommand}
    (spare : bytes → bytes) (key : option KeyPair) (b1 b2 b3 b4 t : byte) (rest ct : bytes) (cts : list bytes)
    (c c' s : NoiseSession) (i : nat) (id : string) (n : N) (es es' : list net_event) (p : Proc (Srv N telemetryStore) G L) :
  let pt := t :: b1 :: b2 :: b3 :: b4 :: rest in
  Z.of_nat (length (rest ++ spare pt)) < Uint32BE [b1; b2; b3; b4] < 2 ^ 32 - 5 →
  in_step (ns_Send c) (ns_Recv s) → NoiseSession_Encrypt pt c = (Ok ct, c') → conn_unread n (ct :: cts) →
  srv_conns (pr_world p) !! i = Some (GReading id s n) →
  (accept_loop key no_hello (device_prog spare) send_and_go_on (NTurn i :: es ++ NTurn i :: es') p).1 = Gone 2.
Proof.
  intros pt Hl Hs Ec Hu Hi. destruct (Read_next _ _ _ Hu) as (n1 & Er & _).
  destruct (in_step_Decrypt _ _ _ _ _ Hs Ec) as (s1 & Ed & _).
  cbn [accept_loop]. unfold mbind, PM_bind, take_turn. rewrite Hi. cbn [resume]. unfold resume_read. rewrite Er, Ed.
  eapply accept_loop_dies. simpl. rewrite list_lookup_insert_eq by (by eapply lookup_lt_Some).
  unfold device_prog. by rewrite (decodeMessage_panics _ _ _ _ _ _ _ Hl : decodeMessage (spare pt) pt = _).
Qed.

(** ** Witnesses *)

#[local] Existing Instance toy_noise.
#[local] Existing Instance toy_noise_laws.
#[local] Existing Instance telemetry_json.
#[local] Existing Instance command_json.

(** Two clients, one of which sends something else; the first reading has been stored and
    the second one read when the run is cut off. *)
Definition example_iot_clients : list (list bytes) := [take 2 example_msgs; [message x05 []]].
Definition example_iot_events : list net_event :=
  ((λ msgs, NConnect [] (toy_server_end msgs)) <$> example_iot_clients) ++ (NTurn <$> [0; 1; 0; 1; 0; 1; 0; 1; 0; 0; 0]%nat).
Definition example_iot_start : Proc (Srv MemConn telemetryStore) MemOtel MemHost := fresh_proc (mkSrv [] newStore) (λ _, false).

Local Notation example_iot_run :=
  (iot_main example_spare (λ _ _ _, mret tt) (λ _, throw (Errorf "refused")) iot_defaults (Ok [x01]) (Ok [x02]) (Ok [x03]) 0 0 [] (λ i, i)
    example_iot_events example_iot_start).

Lemma example_iot_running : ∃ y, example_iot_run = (Running, y) ∧ telemetryStore_count "sensor-001" (srv_shared (pr_world y)) = 1%nat.
Proof.
  exists example_iot_run.2. split; [|by vm_compute]. refine (pair_eq_1 example_iot_run Running _). by vm_compute.
Qed.

Lemma example_iot_other : omap (reading_of example_spare) [message x05 []] = [].
Proof. vm_compute. reflexivity. Qed.

Lemma iot_server_witness :
  ∃ y, example_iot_run = (Running, y) ∧
    ∃ qs, qs `prefix_of` omap (reading_of example_spare) (take 2 example_msgs) ∧
      records (srv_shared (pr_world y)) "sensor-001" = last_n 1000 (filter (λ t, tm_DeviceID t = "sensor-001") qs).
Proof.
  destruct example_iot_running as (y & E & _). exists y. split; [exact E|].
  pose proof (iot_server example_spare (λ _ _ _, mret tt) (λ _, throw (Errorf "refused")) iot_defaults (Ok [x01]) (Ok [x02]) (Ok [x03]) 0 0 []
    (λ i, i) example_iot_events example_iot_start y Running (mkKeyPair [x01] [x01]) (λ i, example_iot_clients !! i)) as Ht.
  specialize (Ht ltac:(intros m n why; discriminate) eq_refl (toy_clients _ _) eq_refl E). destruct Ht as (xs & _ & _ & Hown).
  refine (Hown 0%nat (take 2 example_msgs) "sensor-001" eq_refl _).
  intros j Hj Hne. change (j < 2)%nat in Hj. assert (j = 1%nat) as -> by lia.
  exists [message x05 []]. split; [reflexivity|]. intros t Ht. rewrite example_iot_other in Ht. exfalso. exact (not_elem_of_nil _ Ht).
Defined.

Lemma malformed_frame_ends_server_witness :
  (accept_loop (Some toy_key) no_hello (device_prog example_spare) send_and_go_on [NTurn 0; NTurn 0]
     (fresh_proc (mkSrv [GReading "client" (example_server 0) (mkMemConn [[x61; x01; x00; x00; x00; x01]] [] "client")] newStore)
        (λ _, false))).1 = Gone 2.
Proof.
  apply (malformed_frame_ends_server example_spare (Some toy_key) x00 x00 x00 x01 x01 [] [x61; x01; x00; x00; x00; x01] []
    (example_client 0) (example_client 1) (example_server 0) 0 "client" (mkMemConn [[x61; x01; x00; x00; x00; x01]] [] "client") [] []).
  - vm_compute. done.
  - reflexivity.
  - reflexivity.
  - reflexivity.
  - reflexivity.
Defined.
