(* ===== verification/FinanceServer.v ===== *)
(** * The trading server as a process

    [runServer] and [main] of [examples/finance-orders/server.go]: the handler of
    [Finance] by the sections that hold the lock of the book, for any number of traders at
    once ([ExampleServer]), and the process around it. *)
From S2P Require Import Prelude Bytes Wire SenderKeys Noise Conn Gateway ExampleLoop Finance Observability Process GatewayMain ExampleServer.

Local Open Scope Z_scope.

(** [book.accept] on the book, under its lock. *)
Definition accept_op (o : Order) (ob : orderBook) : orderBook := (orderBook_accept o ob).2.

Section server.
Context `{Ed25519} `{JSON Order} `{JSON SignedOrder} `{JSON OrderResponse}.

(** A message of a trader: [book.accept], then [book.count] for the log line, then the
    answer. *)
Definition trader_prog (_ : string) (pt : bytes) : prog orderBook (option bytes) :=
  match decodeFrame pt with
  | Ok (msgType, payload) =>
      if bool_decide (msgType = MsgOrder) then
        match verifyOrder payload with
        | Ok order =>
            Locked (accept_op order) (λ ob,
              match (orderBook_accept order ob).1 with
              | Ok execID => Locked id (λ _, send_encoded (encodeResponse (mkOrderResponse (o_OrderID order) "filled" execID)))
              | Err e => Fin (Err e)
              | Panic why => Fin (Panic why)
              end)
        | Err err => send_encoded (encodeResponse (mkOrderResponse "" "rejected" (error_Error err)))
        | Panic why => Fin (Panic why)
        end
      else Fin (Ok None)
  | Err _ => Fin (Ok None)
  | Panic why => Fin (Panic why)
  end.

Section process.
Context {N G L : Type} `{Conn N} `{Closer N} `{Noise} `{Host L}.
(** [transport.DialWS] with the WebSocket library. *)
Context (dial : string → M L N).

Definition runServer (addr : string) (rnd : result bytes) (es : list net_event) : PM (Srv N orderBook) G L unit :=
  serverKey ← unchecked (GenerateKeyPair rnd);
  _ ← perform (log std_log InfoLevel "Finance WS server") tt;
  _ ← fatal std_log "" (open_ (RListener addr));
  _ ← put_srv (mkSrv [] new_book);
  http_serve serverKey no_hello trader_prog send_and_go_on "upgrade" "" es.

(** The client; [pair] is what [ed25519.GenerateKey] gives.  Without a key of its own it
    panics in the handshake, without a signing key when it signs its first order. *)
Definition runTraderClient (addr : string) (rnd : result bytes) (pair : result (bytes * bytes)) (entropy : bytes) (clock : nat → Z) :
    PM (Srv N orderBook) G L unit :=
  clientKey ← unchecked (GenerateKeyPair rnd);
  sigKey ← unchecked (GenerateSigningKey pair);
  conn ← fatal std_log "dial" (on_host (dial ("ws://localhost" +:+ addr +:+ "/ws")));
  match clientKey, sigKey with
  | Some clientKey, Some sigKey => _ ← run_dialled conn (runTrader entropy clientKey sigKey clock); mret tt
  | Some clientKey, None =>
      _ ← run_dialled conn (connected entropy clientKey (panic (A:=unit) "nil pointer dereference")); mret tt
  | None, _ => _ ← run_dialled conn (panic (A:=unit) "nil pointer dereference"); mret tt
  end.

Record finance_flags := mkFinanceFlags { ff_mode : string; ff_addr : string }.

Definition finance_defaults : finance_flags := mkFinanceFlags "server" ":8080".

Definition finance_main (f : finance_flags) (rnd : result bytes) (pair : result (bytes * bytes)) (entropy : bytes) (clock : nat → Z)
    (es : list net_event) : PM (Srv N orderBook) G L unit :=
  if bool_decide (ff_mode f = "server") then runServer (ff_addr f) rnd es
  else runTraderClient (ff_addr f) rnd pair entropy clock.

End process.
End server.

(** ** Lemmas *)

Section lemmas.
Context `{Ed25519} `{JSON Order} `{JSON SignedOrder} `{JSON OrderResponse}.

(** A trader that is alone is answered as [Finance] says. *)
Lemma trader_prog_alone id pt ob : trader_answer pt ob = run_prog (trader_prog id pt) ob.
Proof.
  unfold trader_answer, trader_prog, lift, attempt, mbind, M_bind, mret, M_ret.
  destruct (decodeFrame pt) as [[t payload]|e|why]; [|done..]. cbn [snd]. case_bool_decide; [|done].
  destruct (verifyOrder payload) as [o|e|why]; [| |done]; cbn [run_prog send_encoded orderBook_accept fst snd].
  - by destruct (or_nil _).
  - by destruct (or_nil _).
Qed.

Lemma trader_prog_commits id pt :
  match order_of pt with Some o => commits (accept_op o) (trader_prog id pt) | None => quiet (trader_prog id pt) end.
Proof.
  unfold order_of, trader_prog. destruct (decodeFrame pt) as [[t payload]|e|why]; [|done..].
  case_bool_decide; [|done]. destruct (verifyOrder payload) as [o|e|why]; [|done..].
  left. intros d. split; [done|]. intros d'. done.
Qed.

(** The book after some orders: all of them, numbered from 1. *)
Lemma book_of_orders (xs : list (nat * Order)) :
  let book := foldl (λ ob x, accept_op x.2 ob) new_book xs in
  ob_orders book = xs.*2 ∧ (Z.of_nat (length xs) ≤ MaxInt64 → book_ok book).
Proof.
  induction xs as [|x xs [IHo IHk]] using rev_ind; [done|]. rewrite foldl_app, fmap_app. simpl. rewrite IHo. split; [done|].
  rewrite length_app. simpl. intros Hl. unfold book_ok, orderBook_count in *. simpl. rewrite IHo in *. rewrite IHk by lia.
  rewrite length_app, length_fmap, int64_small; [simpl; lia|]. unfold MinInt64, MaxInt64 in *. lia.
Qed.

(** *** The answers *)

(** The number of the order at position [i] of the book. *)
Definition execution_id (i : nat) : string := "accepted-" +:+ FormatInt (int64 (Z.of_nat i + 1)).

(** An answer to a trader: a signed order was refused, or the order of the trader at
    position [i] of the book is filled, under the number of this position. *)
Inductive answers (c : nat) (xs : list (nat * Order)) (b : bytes) : Prop :=
| answers_rejected payload err :
    verifyOrder payload = Err err → or_nil (encodeResponse (mkOrderResponse "" "rejected" (error_Error err))) = Ok b → answers c xs b
| answers_filled i order :
    xs !! i = Some (c, order) → or_nil (encodeResponse (mkOrderResponse (o_OrderID order) "filled" (execution_id i))) = Ok b →
    answers c xs b.

(** The rest of a handler that leads to such an answer. *)
Definition answering (c : nat) (xs : list (nat * Order)) (p : prog orderBook (option bytes)) : Prop :=
  match p with
  | Fin (Ok (Some b)) => answers c xs b
  | Fin _ => True
  | Locked section rest =>
      (∃ order, (∀ ob, section ob = accept_op order ob) ∧
         ∀ ob execID, (orderBook_accept order ob).1 = Ok execID →
           rest ob = Locked id (λ _, send_encoded (encodeResponse (mkOrderResponse (o_OrderID order) "filled" execID)))) ∨
      (∃ i order, (∀ ob, section ob = ob) ∧ xs !! i = Some (c, order) ∧
         ∀ ob, rest ob = send_encoded (encodeResponse (mkOrderResponse (o_OrderID order) "filled" (execution_id i))))
  end.

Lemma trader_prog_answering c xs id pt : answering c xs (trader_prog id pt).
Proof.
  unfold trader_prog. destruct (decodeFrame pt) as [[t payload]|e|why]; [|done..]. case_bool_decide; [|done].
  destruct (verifyOrder payload) as [o|e|why] eqn:Ev; [| |done].
  - left. exists o. split; [done|]. intros ob execID E. by rewrite E.
  - unfold send_encoded. destruct (or_nil _) as [b| |] eqn:Eb; [|done..]. by eapply answers_rejected.
Qed.

Lemma answering_grow c xs ys p : answering c xs p → answering c (xs ++ ys) p.
Proof.
  destruct p as [[[b|]| |]|section rest]; [|done..|].
  - intros [payload err Hv Hb|i order Hi Hb]; [by eapply answers_rejected|]. eapply answers_filled; [by apply lookup_app_l_Some|done].
  - intros [Ha|(i & order & Hs & Hi & Hr)]; [by left|]. right. exists i, order. split; [done|]. split; [by apply lookup_app_l_Some|done].
Qed.

Lemma accept_all_seq (xs : list (nat * Order)) :
  ob_seq (foldl (λ ob x, accept_op x.2 ob) new_book xs) = int64 (Z.of_nat (length xs)).
Proof.
  induction xs as [|x xs IH] using rev_ind; [done|]. rewrite foldl_app, length_app. simpl. rewrite IH, int64_add_l. f_equal. lia.
Qed.

Lemma accept_all_orders (os : list Order) ob : ob_orders (foldl (λ ob o, accept_op o ob) ob os) = ob_orders ob ++ os.
Proof. revert ob. induction os as [|o os IH]; intros ob; simpl; [by rewrite app_nil_r|]. rewrite IH. simpl. by rewrite <-(assoc_L (++)). Qed.

(** A section that holds the lock of the book. *)
Lemma answering_section c xs section rest new :
  let ob := foldl (λ ob x, accept_op x.2 ob) new_book xs in
  answering c xs (Locked section rest) → section ob = foldl (λ ob o, accept_op o ob) ob new →
  answering c (xs ++ (pair c <$> new)) (rest ob).
Proof.
  intros ob Ha Hs. pose proof (accept_all_orders new ob) as Ho. rewrite <-Hs in Ho.
  destruct Ha as [(order & Hsec & Hrest)|(i & order & Hsec & Hi & Hrest)].
  - rewrite Hsec in Ho. simpl in Ho. apply app_inv_head in Ho as <-.
    rewrite (Hrest ob _ eq_refl). right. exists (length xs), order. split; [done|]. split; [by apply list_lookup_middle|].
    intros ob'. unfold execution_id. do 4 f_equal. unfold ob. rewrite accept_all_seq, int64_add_l. done.
  - rewrite Hsec in Ho. rewrite <-(app_nil_r (ob_orders ob)) in Ho at 1. apply app_inv_head in Ho as <-.
    rewrite app_nil_r, Hrest. unfold send_encoded. destruct (or_nil _) as [b| |] eqn:Eb; [|done..]. by eapply answers_filled.
Qed.

End lemmas.

Section process_lemmas.
Context {N G L : Type} `{Conn N} `{Closer N} `{Noise} `{Otel G} `{Host L} `{Ed25519} `{JSON Order} `{JSON SignedOrder} `{JSON OrderResponse}.
Context (dial : string → M L N).

Lemma finance_main_started f rnd pair entropy clock es k :
  GenerateKeyPair rnd = Ok k →
  keeps (G:=G) (started no_hello trader_prog send_and_go_on new_book (Some k) (connects es)) (finance_main dial f rnd pair entropy clock es).
Proof.
  intros Hk. unfold finance_main, runServer, runTraderClient. rewrite Hk. case_bool_decide.
  - apply (keeps_after _ (perform _ _)); [apply keeps_perform, keepsM_log|]. intros _.
    apply keeps_after; [apply _|apply keeps_open_|]. intros _. apply keeps_started, http_serve_runs.
  - apply keeps_eq; [apply _|]. apply (keeps_bind _ (unchecked (GenerateSigningKey pair))); [apply keeps_unchecked|]. intros sk.
    apply keeps_bind; [apply _|apply keeps_fatal, keepsM_host|]. intros conn. destruct sk;
      (apply keeps_bind; [apply _|apply keeps_run_dialled|]; intros _; by apply keeps_ret).
Qed.

(** No panic of a handler ends the process. *)
Lemma finance_main_survives f rnd pair entropy clock es : survives (G:=G) (finance_main dial f rnd pair entropy clock es).
Proof.
  unfold finance_main, runServer, runTraderClient. case_bool_decide; [eauto 10 with process|].
  apply survives_bind; [auto with process|]. intros ck. apply survives_bind; [auto with process|]. intros sk.
  apply survives_bind; [auto with process|]. intros conn. destruct ck, sk; auto with process.
Qed.

End process_lemmas.

(** The handler of [Finance] is the goroutine of a trader when no other runs. *)
Lemma handleTrader_alone {N} `{ConnLaws N} `{Closer N} `{Noise} `{Ed25519} `{JSON Order} `{JSON SignedOrder} `{JSON OrderResponse}
    fuel entropy key (n n' : N) book book' :
  handleTrader fuel entropy key (n, book) = (Ok tt, (n', book')) →
  rtc (alone key no_hello trader_prog) (GStarted entropy n, book) (GReturned (closed n'), book').
Proof. apply alone_serve; [intros r n1; apply run_proc_addr|apply trader_prog_alone|done]. Qed.

(** ** Properties *)

(** C35: the trading server, whatever its traders send and however their goroutines are
    interleaved.  One order of the signed orders explains the book: it consists of orders
    whose signature verified, and those of each client are the first ones that it has
    sent, each once and in order.  The book has exactly these.  An answer about to be sent
    to a client refuses a signed order that does not verify, or fills an order of this
    client, and then its execution id is the position of the order in the book, counted
    from 1.  No panic of a handler ends the process. *)
Theorem finance_server {N G L} `{ConnLaws N} `{Closer N} `{NoiseLaws} `{Otel G} `{Host L}
    `{Ed25519} `{JSON Order} `{JSON SignedOrder} `{JSON OrderResponse}
    (dial : string → M L N) (f : finance_flags) (rnd : result bytes) (pair : result (bytes * bytes)) (ent : bytes) (clock : nat → Z)
    (es : list net_event) (p p' : Proc (Srv N orderBook) G L) (o : outcome unit) (k : KeyPair) (client : nat → option (list bytes)) :
  (∀ m (n : N) why, (conn_WriteMessage m n).1 ≠ Panic why) →
  GenerateKeyPair rnd = Ok k → clients (Some k) (connects es) client → pr_world p = mkSrv [] new_book →
  finance_main dial f rnd pair ent clock es p = (o, p') →
  let book := srv_shared (pr_world p') in
  o ≠ Gone 2 ∧
  ∃ xs, explains order_of accept_op (connects es) client xs new_book book ∧
    ob_orders book = xs.*2 ∧ (Z.of_nat (orderBook_count book) ≤ MaxInt64 → ob_seq book = Z.of_nat (orderBook_count book)) ∧
    (∀ c id s n b, srv_conns (pr_world p') !! c = Some (GBusy id s n (Fin (Ok (Some b)))) →
       (∃ payload err, verifyOrder payload = Err err ∧
          or_nil (encodeResponse (mkOrderResponse "" "rejected" (error_Error err))) = Ok b) ∨
       (∃ i order, xs !! i = Some (c, order) ∧
          or_nil (encodeResponse (mkOrderResponse (o_OrderID order) "filled"
            ("accepted-" +:+ FormatInt (int64 (Z.of_nat i + 1))))) = Ok b)) ∧
    (∀ order, order ∈ ob_orders book → ∃ payload signed, json_Unmarshal payload = Ok signed ∧
       Verify (so_PublicKey signed) (so_Order signed) (so_Signature signed) = Ok true ∧ json_Unmarshal (so_Order signed) = Ok order).
Proof.
  intros Hw Hk Hcl Hp E book. split; [pose proof (finance_main_survives dial f rnd pair ent clock es p) as Hs; by rewrite E in Hs|].
  apply (finance_main_started _ _ _ _ _ _ _ _ Hk) in E. rewrite Hp in E.
  assert (srv_runs (Some k) no_hello trader_prog send_and_go_on (connects es) (mkSrv [] new_book) (pr_world p')) as Hrun.
  { destruct E as [->|Hrun]; [apply srv_runs_refl|done]. }
  destruct (srv_runs_promised (Some k) no_hello trader_prog order_of accept_op (λ _, I) trader_prog_commits answering _ _ _ _
    (λ _ _ _, I) trader_prog_answering answering_grow answering_section Hw Hcl Hrun) as (xs & Hxs & Hans).
  exists xs. split; [done|]. destruct Hxs as (Hd & Hin & _). destruct (book_of_orders xs) as [Ho Hok]. rewrite <-Hd in Ho, Hok.
  fold book in Ho, Hok. split_and!; [done| | |].
  - unfold book_ok, orderBook_count in *. intros Hl. apply Hok. by rewrite Ho, length_fmap in Hl.
  - intros c id s n b [payload err Hv Hb|i order Hi Hb]%Hans; [left; by exists payload, err|right; by exists i, order].
  - rewrite Ho. intros order ([i o'] & -> & Hx)%list_elem_of_fmap. destruct (Hin _ _ Hx) as [_ [pt Ept]].
    apply order_of_inv in Ept as (len & payload & rest & signed & _ & _ & Hj & Hv & Hu). by exists payload, signed.
Qed.

(** A signed order with a public key of the wrong length makes [ed25519.Verify] panic.
    The trader's connection is closed; the book and all other connections are as before,
    and the server goes on. *)
Theorem bad_key_closes_connection {N G L} `{ConnLaws N} `{Closer N} `{NoiseLaws}
    `{Ed25519Laws} `{JSON Order} `{JSON SignedOrder} `{JSON OrderResponse}
    (key : option KeyPair) (pt payload ct : bytes) (signed : SignedOrder) (cts : list bytes) (c c' s : NoiseSession)
    (i : nat) (id : string) (n : N) (p : Proc (Srv N orderBook) G L) :
  decodeFrame pt = Ok (MsgOrder, payload) → json_Unmarshal payload = Ok signed → length (so_PublicKey signed) ≠ PublicKeySize →
  in_step (ns_Send c) (ns_Recv s) → NoiseSession_Encrypt pt c = (Ok ct, c') → conn_unread n (ct :: cts) →
  srv_conns (pr_world p) !! i = Some (GReading id s n) →
  ∃ n1 p', (_ ← take_turn key no_hello trader_prog send_and_go_on true i; take_turn key no_hello trader_prog send_and_go_on true i) p = (Done tt, p') ∧
    pr_world p' = mkSrv (<[i := GReturned (closed n1)]> (srv_conns (pr_world p))) (srv_shared (pr_world p)).
Proof.
  intros Ed Ej Hl Hs Ec Hu Hi. destruct (Read_next _ _ _ Hu) as (n1 & Er & _).
  destruct (in_step_Decrypt _ _ _ _ _ Hs Ec) as (s1 & Edec & _). exists n1. eexists. split.
  - unfold mbind, PM_bind, take_turn. rewrite Hi. cbn [resume]. unfold resume_read. rewrite Er, Edec. simpl.
    rewrite list_lookup_insert_eq by (by eapply lookup_lt_Some). unfold trader_prog. rewrite Ed, bool_decide_true by done.
    unfold verifyOrder. rewrite Ej, (Verify_bad_key _ _ _ Hl). reflexivity.
  - simpl. by rewrite list_insert_insert_eq.
Qed.

(** ** Witnesses *)

#[local] Existing Instance toy_noise.
#[local] Existing Instance toy_noise_laws.
#[local] Existing Instance toy_ed25519.
#[local] Existing Instance toy_ed25519_laws.
#[local] Existing Instance order_json.
#[local] Existing Instance signed_json.
#[local] Existing Instance response_json.

(** Two traders; the second one sends a forged order, then one with a bad key, and its
    goroutine panics while the first one has two orders accepted. *)
Definition example_bad_key : bytes := message MsgOrder (replicate 4 x31).
Definition example_traders : list (list bytes) := [take 2 example_orders; [message MsgOrder (replicate 3 x31); example_bad_key]].
Definition example_trading : list net_event :=
  ((λ msgs, NConnect [] (toy_server_end msgs)) <$> example_traders) ++
  (NTurn <$> [0; 1; 0; 1; 0; 1; 0; 1; 0; 1; 0; 1; 0; 0; 0; 0]%nat).
Definition example_book_start : Proc (Srv MemConn orderBook) MemOtel MemHost := fresh_proc (mkSrv [] new_book) (λ _, false).

Local Notation example_trading_run :=
  (finance_main (λ _, throw (Errorf "refused")) finance_defaults (Ok [x01]) (Err (Errorf "none")) [] example_clock example_trading example_book_start).

Lemma example_trading_running :
  ∃ y, example_trading_run = (Running, y) ∧ ob_orders (srv_shared (pr_world y)) = take 2 (client_orders example_clock) ∧
    ob_seq (srv_shared (pr_world y)) = 2.
Proof.
  exists example_trading_run.2. split; [|by vm_compute]. refine (pair_eq_1 example_trading_run Running _). by vm_compute.
Qed.

Lemma finance_server_witness :
  ∃ y, example_trading_run = (Running, y) ∧ ob_orders (srv_shared (pr_world y)) = take 2 (client_orders example_clock) ∧
    ∃ xs, effects_of 1 xs `prefix_of` omap order_of [message MsgOrder (replicate 3 x31); example_bad_key] ∧
      ob_orders (srv_shared (pr_world y)) = xs.*2.
Proof.
  destruct example_trading_running as (y & E & Ho & _). exists y. split; [exact E|]. split; [exact Ho|].
  pose proof (finance_server (λ _, throw (Errorf "refused")) finance_defaults (Ok [x01]) (Err (Errorf "none")) [] example_clock
    example_trading example_book_start y Running (mkKeyPair [x01] [x01]) (λ i, example_traders !! i)) as Ht.
  specialize (Ht ltac:(intros m n why; discriminate) eq_refl (toy_clients _ _) eq_refl E).
  destruct Ht as (_ & xs & Hx & Hb & _). exists xs. split; [exact (proj2 (proj2 Hx) 1%nat _ eq_refl)|exact Hb].
Defined.

Lemma bad_key_closes_connection_witness :
  let start := fresh_proc (mkSrv [GReading "client" (example_server 0) (mkMemConn [x61 :: example_bad_key] [] "client")] new_book) (λ _, false) in
  ∃ n1 p', (_ ← take_turn (Some toy_key) no_hello trader_prog send_and_go_on true 0;
            take_turn (Some toy_key) no_hello trader_prog send_and_go_on true 0) start = (Done tt, p') ∧
    pr_world p' = mkSrv [GReturned (closed n1)] new_book.
Proof.
  intros start.
  apply (bad_key_closes_connection (Some toy_key) example_bad_key (replicate 4 x31) (x61 :: example_bad_key) (mkSignedOrder [] [] []) []
    (example_client 0) (example_client 1) (example_server 0) 0 "client" (mkMemConn [x61 :: example_bad_key] [] "client") start);
    try (vm_compute; reflexivity).
  discriminate.
Defined.
