(* ===== verification/GameServer.v ===== *)
(** * The game server as a process

    [runServer] and [main] of [examples/game-realtime/server.go]: the handler of [Game] by
    the sections that hold the lock of the world, for any number of players at once
    ([ExampleServer]), and the process around it.  An action and the snapshot that answers
    it are two sections, so that other players may act in between. *)
From S2P Require Import Prelude Bytes Wire Noise Conn Gateway Float64 ExampleLoop Game Observability Process GatewayMain ExampleServer.

Local Open Scope Z_scope.

Section server.
Context `{RangeOrder} `{JSON GameAction} `{JSON StateUpdate}.

(** [world.snapshot()], and its state as the answer. *)
Definition snapshot_prog : prog gameWorld (option bytes) :=
  Locked (λ w, (gameWorld_snapshot w).2) (λ w,
    match (gameWorld_snapshot w).1 with
    | Ok state => send_encoded (encodeStateUpdate state)
    | Err e => Fin (Err e)
    | Panic why => Fin (Panic why)
    end).

Definition player_prog (playerID : string) (pt : bytes) : prog gameWorld (option bytes) :=
  match decodeFrame pt with
  | Ok (msgType, payload) =>
      if bool_decide (msgType = MsgGameAction) then
        match json_Unmarshal payload with
        | Ok action => Locked (gameWorld_applyAction (act_as playerID action)) (λ _, snapshot_prog)
        | Err _ => Fin (Ok None)
        | Panic why => Fin (Panic why)
        end
      else snapshot_prog
  | Err _ => Fin (Ok None)
  | Panic why => Fin (Panic why)
  end.

(** [world.spawn(playerID)], once the handshake is done. *)
Definition player_hello (playerID : string) : prog gameWorld (option bytes) :=
  Locked (gameWorld_spawn playerID) (λ _, Fin (Ok None)).

Section process.
Context {N G L : Type} `{Conn N} `{Closer N} `{Noise} `{Tls} `{Host L}.
(** [quic.ListenAddr], and [transport.DialQUIC] with quic-go. *)
Context (ListenAddr : string → tls_Config → Z → M L unit) (dial : string → M L N).

Definition runServer (quicAddr : string) (rnd rnd1 rnd2 : result bytes) (now1 now2 : Z) (es : list net_event) :
    PM (Srv N gameWorld) G L unit :=
  serverKey ← unchecked (GenerateKeyPair rnd);
  tlsConf ← perform_or_panic (lift (GenerateSelfSignedTLS now1 now2 rnd1 rnd2));
  _ ← fatal std_log "listen" (acquire (RListener quicAddr) (on_host (ListenQUIC ListenAddr quicAddr tlsConf)));
  _ ← perform (log std_log InfoLevel "Game QUIC server") tt;
  _ ← put_srv (mkSrv [] newWorld);
  accept_loop serverKey player_hello player_prog send_and_go_on es.

(** The client, which panics in the handshake without a key. *)
Definition runPlayerClient (addr playerID : string) (rnd : result bytes) (entropy : bytes) (clock : nat → Z) :
    PM (Srv N gameWorld) G L unit :=
  clientKey ← unchecked (GenerateKeyPair rnd);
  conn ← fatal std_log "dial" (on_host (dial addr));
  match clientKey with
  | Some clientKey => _ ← run_dialled conn (runPlayer entropy clientKey playerID clock); mret tt
  | None => _ ← run_dialled conn (panic (A:=unit) "nil pointer dereference"); mret tt
  end.

Record game_flags := mkGameFlags { gf_mode : string; gf_addr : string; gf_player : string }.

Definition game_defaults : game_flags := mkGameFlags "server" ":4434" "player-1".

Definition game_main (f : game_flags) (rnd rnd1 rnd2 : result bytes) (now1 now2 : Z) (entropy : bytes) (clock : nat → Z)
    (es : list net_event) : PM (Srv N gameWorld) G L unit :=
  if bool_decide (gf_mode f = "server") then runServer (gf_addr f) rnd rnd1 rnd2 now1 now2 es
  else runPlayerClient (gf_addr f) (gf_player f) rnd entropy clock.

End process.
End server.

(** ** Lemmas *)

Section lemmas.
Context `{RangeOrder} `{JSON GameAction} `{JSON StateUpdate}.

(** A player that is alone is answered as [Game] says. *)
Lemma player_prog_alone id pt w : player_answer id pt w = run_prog (player_prog id pt) w.
Proof.
  unfold player_answer, player_prog, send_state, lift, attempt, modify, mbind, M_bind, mret, M_ret.
  destruct (decodeFrame pt) as [[t payload]|e|why]; [|done..]. cbn [snd]. case_bool_decide.
  - destruct (json_Unmarshal payload) as [a|e|why]; [|done..]. cbn [snd run_prog snapshot_prog gameWorld_snapshot fst send_encoded].
    by destruct (or_nil _).
  - cbn [run_prog snapshot_prog gameWorld_snapshot fst snd send_encoded]. by destruct (or_nil _).
Qed.

(** *** The players stay well formed, whoever joins again *)

Lemma applyAction_players a w :
  map_Forall player_ok (gw_players w) → map_Forall player_ok (gw_players (gameWorld_applyAction a w)).
Proof.
  intros Hall. unfold gameWorld_applyAction. destruct (gw_players w !! ga_PlayerID a) as [p|] eqn:Hp; [|done].
  destruct (ps_Alive p); [|done]. cbn [negb]. case_bool_decide.
  { apply players_ok_insert; [done|]. by apply Hall in Hp. }
  case_bool_decide; [|done]. destruct (gw_players w !! ga_TargetID a) as [target|] eqn:Ht; [|done].
  destruct (ps_Alive target) eqn:Hal; [|done]. destruct (in_range p target); [|done]. cbn [andb].
  destruct (hit_ok _ _ (Hall _ _ Ht) Hal) as (Hok & _ & _).
  assert (Hhit : map_Forall player_ok (<[ga_TargetID a := hit target]> (gw_players w))) by by apply players_ok_insert.
  case_match; [|done]. intros id q. simpl. rewrite lookup_alter_Some. intros [(<- & q0 & Hq & ->)|[_ Hq]]; [|by apply Hhit].
  by apply Hhit in Hq.
Qed.

(** Joining, acting and looking, also under an address that is in use. *)
Definition world_moves (w w' : gameWorld) : Prop :=
  map_Forall player_ok (gw_players w) → map_Forall player_ok (gw_players w').

Lemma player_prog_moves id pt : sections world_moves (player_prog id pt).
Proof.
  assert (sections world_moves snapshot_prog) as Hsnap by (intros w; split; [by intros Hw|done]).
  unfold player_prog. destruct (decodeFrame pt) as [[t payload]|e|why]; [|done..]. case_bool_decide; [|done].
  destruct (json_Unmarshal payload) as [a|e|why]; [|done..]. intros w. split; [|done]. intros Hw. by apply applyAction_players.
Qed.

Lemma player_hello_moves id : sections world_moves (player_hello id).
Proof. intros w. split; [|done]. intros Hw. by apply players_ok_insert. Qed.

(** *** The addresses of the players *)

(** Sections that follow the rules of the game and add no player. *)
Definition acts : prog gameWorld (option bytes) → Prop :=
  sections (λ w w', game_step w w' ∧ dom (gw_players w') = dom (gw_players w)).

Lemma applyAction_dom a w : dom (gw_players (gameWorld_applyAction a w)) = dom (gw_players w).
Proof.
  unfold gameWorld_applyAction. destruct (gw_players w !! ga_PlayerID a) as [p|] eqn:Hp; [|done]. destruct (ps_Alive p); [|done].
  cbn [negb]. case_bool_decide; [by apply dom_insert_lookup_L|]. case_bool_decide; [|done].
  destruct (gw_players w !! ga_TargetID a) as [target|] eqn:Ht; [|done]. destruct (_ && _); [|done].
  case_match; simpl; rewrite ?dom_alter_L; by apply dom_insert_lookup_L.
Qed.

Lemma player_prog_acts id pt : acts (player_prog id pt).
Proof.
  assert (acts snapshot_prog) as Hsnap by (intros w; split; [split; [apply step_snapshot|done]|done]).
  unfold player_prog. destruct (decodeFrame pt) as [[t payload]|e|why]; [|done..]. case_bool_decide; [|done].
  destruct (json_Unmarshal payload) as [a|e|why]; [|done..]. intros w. split; [|done]. split; [apply step_act|apply applyAction_dom].
Qed.

End lemmas.

Section addresses.
Context {N : Type} `{ConnLaws N} `{Closer N} `{Noise} `{RangeOrder} `{JSON GameAction} `{JSON StateUpdate}.
Context (key : option KeyPair).
Implicit Types (g : goroutine N gameWorld) (w : gameWorld) (addr : string) (addrs : list string).

(** A goroutine under the address [addr]: as long as it has not joined there is no player
    of that address, and after that it follows the rules. *)
Definition plays w addr g : Prop :=
  match g with
  | GStarted _ n => conn_RemoteAddr n = addr ∧ gw_players w !! addr = None
  | GBusy id _ _ p => (p = player_hello id ∧ id = addr ∧ gw_players w !! addr = None) ∨ acts p
  | GReading _ _ _ | GReturned _ => True
  end.

(** Every player has the address of a connection, and the world follows the rules. *)
Definition fair (x : Srv N gameWorld) addrs : Prop :=
  rtc game_step newWorld (srv_shared x) ∧ dom (gw_players (srv_shared x)) ⊆ list_to_set addrs ∧
  Forall2 (plays (srv_shared x)) addrs (srv_conns x).

(** The turn of a goroutine: by the rules, and no player but its own is added. *)
Lemma plays_resume w addr g :
  let r := resume key player_hello player_prog send_and_go_on g w in
  plays w addr g →
  rtc game_step w r.2 ∧ dom (gw_players r.2) ⊆ dom (gw_players w) ∪ {[addr]} ∧ plays r.2 addr (after r.1).
Proof.
  destruct g as [entropy n|id s n|id s n [r|section rest]|n]; cbn [resume fst snd]; intros Hp.
  - split; [done|]. split; [set_solver|]. destruct Hp as [Ha Hno]. unfold resume_handshake. destruct key as [k|]; [|done].
    destruct (run_proc _ n) as [[s|e|why] n'] eqn:E; [|done..]. left. by rewrite (run_proc_addr _ _ _ _ E).
  - split; [done|]. split; [set_solver|]. unfold resume_read. destruct (conn_ReadMessage n) as [[ct| |] n1]; [|done..].
    destruct (NoiseSession_Decrypt ct s) as [[pt| |] s1]; [|done..]. right. apply player_prog_acts.
  - split; [done|]. split; [set_solver|]. unfold resume_fin. destruct r as [[b|]| |]; [|done..].
    by destruct (send_and_go_on b _) as [[[]| |] w'].
  - destruct Hp as [(Eh & -> & Hno)|Ha].
    + injection Eh as -> ->. split; [by apply rtc_once, step_spawn|]. split; [|by right].
      simpl. rewrite dom_insert_L. set_solver.
    + destruct (Ha w) as [[Hst Hdom] Hrest]. split; [by apply rtc_once|]. split; [set_solver|by right].
  - split; [done|]. split; [set_solver|done].
Qed.

(** The others are not touched. *)
Lemma plays_other w w' addr addr' g :
  dom (gw_players w') ⊆ dom (gw_players w) ∪ {[addr]} → addr ≠ addr' → plays w addr' g → plays w' addr' g.
Proof.
  intros Hdom Hne. assert (gw_players w !! addr' = None → gw_players w' !! addr' = None) as Hno.
  { rewrite <-!not_elem_of_dom. set_solver. }
  destruct g; simpl; naive_solver.
Qed.

Lemma fair_run ts y :
  srv_run key player_hello player_prog send_and_go_on (mkSrv [] newWorld) ts y →
  NoDup (conn_RemoteAddr <$> (connections ts).*2) → fair y (conn_RemoteAddr <$> (connections ts).*2).
Proof.
  intros Hrun. remember (mkSrv [] newWorld) as x eqn:Hx. induction Hrun as [x|x ts y us z _ IH Hst].
  { subst x. intros _. split; [done|]. split; [done|constructor]. }
  rewrite connections_app, !fmap_app. intros Hnd. apply NoDup_app in Hnd as Hnd'. destruct Hnd' as (Hnd1 & Hdis & _).
  destruct (IH Hx Hnd1) as (Hrules & Hdom & Hall). clear IH Hx.
  apply srv_step_conns in Hst as [(e & n & -> & Hgs & Hw)|(i & g & Hi & -> & Hw & Hgs)].
  - unfold fair. rewrite Hgs, Hw. split; [done|]. split; [set_solver|]. apply Forall2_app; [done|]. constructor; [|constructor].
    split; [done|]. apply not_elem_of_dom. intros Hin%Hdom%elem_of_list_to_set. apply (Hdis _ Hin). simpl. set_solver.
  - rewrite reads_connections. simpl. rewrite app_nil_r in *. destruct (Forall2_lookup_r _ _ _ _ _ Hall Hi) as (addr & Haddr & Hp).
    destruct (plays_resume _ _ _ Hp) as (Hst & Hd & Hp'). unfold fair. rewrite Hgs, Hw. split; [by etrans|].
    split; [apply list_elem_of_lookup_2 in Haddr; set_solver|].
    apply Forall2_same_length_lookup_2; [rewrite length_insert; by eapply Forall2_length|].
    intros j a g' Ha Hg'. apply list_lookup_insert_Some in Hg' as [(<- & <- & _)|(Hne & Hg')].
    + by simplify_eq.
    + eapply plays_other; [exact Hd| |eapply Forall2_lookup_lr; eauto]. intros ->. apply Hne. by eapply NoDup_lookup.
Qed.

End addresses.

Section process_lemmas.
Context {N G L : Type} `{Conn N} `{Closer N} `{Noise} `{Tls} `{Otel G} `{Host L} `{RangeOrder} `{JSON GameAction} `{JSON StateUpdate}.
Context (ListenAddr : string → tls_Config → Z → M L unit) (dial : string → M L N).

Lemma game_main_started f rnd rnd1 rnd2 now1 now2 entropy clock es (p p' : Proc (Srv N gameWorld) G L) o :
  game_main ListenAddr dial f rnd rnd1 rnd2 now1 now2 entropy clock es p = (o, p') →
  ∃ key, started player_hello player_prog send_and_go_on newWorld key (connects es) (pr_world p) (pr_world p').
Proof.
  unfold game_main.
  case_bool_decide; apply (unchecked_then (λ key, started player_hello player_prog send_and_go_on newWorld key (connects es)));
    try apply _; intros key.
  - apply keeps_after; [apply _|apply part_perform_or_panic|]. intros conf.
    apply keeps_after; [apply _|apply keeps_fatal, keepsM_acquire, keepsM_host|]. intros _.
    apply keeps_after; [apply _|apply keeps_perform, keepsM_log|]. intros _. apply keeps_started, accept_loop_runs.
  - apply keeps_eq; [apply _|]. apply keeps_bind; [apply _|apply keeps_fatal, keepsM_host|]. intros conn.
    destruct key; (apply keeps_bind; [apply _|apply keeps_run_dialled|]; intros _; by apply keeps_ret).
Qed.

End process_lemmas.

(** The handler of [Game] is the goroutine of a player when no other runs. *)
Lemma handlePlayer_alone {N} `{ConnLaws N} `{Closer N} `{Noise} `{RangeOrder} `{JSON GameAction} `{JSON StateUpdate}
    fuel entropy key (n n' : N) world world' :
  handlePlayer fuel entropy key (n, world) = (Ok tt, (n', world')) →
  rtc (alone key player_hello player_prog) (GStarted entropy n, world) (GReturned (closed n'), world').
Proof. apply alone_serve; [intros r n1; apply run_proc_addr|apply player_prog_alone|done]. Qed.

(** ** Properties *)

(** C37: the game server, whatever its clients send, also over connections that break,
    and however their goroutines are interleaved: every player has an address of its own
    and a health from 0 to 100, and is alive exactly while it has health; and as long as
    no two connections come from one address, the world is one that the rules of the game
    lead to, in which the points of all players together are a hundred for each that died
    (as 64-bit integers). *)
Theorem game_server {N G L} `{ConnLaws N} `{Closer N} `{Noise} `{Tls} `{Otel G} `{Host L}
    `{RangeOrder} `{JSON GameAction} `{JSON StateUpdate}
    (ListenAddr : string → tls_Config → Z → M L unit) (dial : string → M L N) (f : game_flags)
    (rnd rnd1 rnd2 : result bytes) (now1 now2 : Z) (ent : bytes) (clock : nat → Z) (es : list net_event)
    (p p' : Proc (Srv N gameWorld) G L) (o : outcome unit) :
  pr_world p = mkSrv [] newWorld →
  game_main ListenAddr dial f rnd rnd1 rnd2 now1 now2 ent clock es p = (o, p') →
  let world := srv_shared (pr_world p') in
  (∀ id q, gw_players world !! id = Some q → ps_PlayerID q = id ∧ 0 ≤ ps_Health q ≤ 100 ∧ ps_Alive q = (0 <? ps_Health q)) ∧
  (NoDup (conn_RemoteAddr <$> (connects es).*2) →
     rtc game_step newWorld world ∧
     int64 (total ps_Score (gw_players world)) = int64 (100 * total died (gw_players world))).
Proof.
  intros Hp E world. apply game_main_started in E as [key E]. rewrite Hp in E.
  assert (srv_runs key player_hello player_prog send_and_go_on (connects es) (mkSrv [] newWorld) (pr_world p')) as (ts & Hrun & Hpre).
  { destruct E as [->|Hrun]; [apply srv_runs_refl|done]. }
  split.
  - pose proof (srv_run_along key player_hello player_prog send_and_go_on world_moves player_hello_moves player_prog_moves _ _ _ Hrun) as Hm.
    assert (map_Forall player_ok (gw_players world)) as Hall.
    { apply (rtc_invariant world_moves (λ w, map_Forall player_ok (gw_players w)) newWorld); [by intros x y ??; auto|apply map_Forall_empty|exact Hm]. }
    intros id q (? & ? & _ & ?)%Hall. auto.
  - intros Hnd. destruct (fair_run key ts _ Hrun) as (Hrules & _ & _).
    { destruct Hpre as [cs Hcs]. rewrite Hcs, !fmap_app in Hnd. by apply NoDup_app in Hnd as [? _]. }
    split; [exact Hrules|]. by apply reachable_points.
Qed.

(** ** Witnesses *)

#[local] Existing Instance toy_noise.
#[local] Existing Instance toy_noise_laws.
#[local] Existing Instance action_json.
#[local] Existing Instance state_json.

(** Two players; the second one attacks between the action of the first one and the
    snapshot that answers it. *)
Definition example_player (addr : string) (msg : bytes) : MemConn := mkMemConn [[x01]; [x03]; x61 :: msg] [] addr.
Definition example_match : list net_event :=
  [NConnect [] (example_player "other" (message MsgGameAction [])); NConnect [] (example_player "client" (message MsgGameAction (replicate 3 x31)))] ++
  (NTurn <$> [0; 0; 0; 1; 1; 1; 0; 1; 0; 1; 1; 0; 1]%nat).
Definition example_game_start : Proc (Srv MemConn gameWorld) MemOtel MemHost := fresh_proc (mkSrv [] newWorld) (λ _, false).

Local Notation example_match_run :=
  (game_main (λ _ _ _, mret tt) (λ _, throw (Errorf "refused")) game_defaults (Ok [x01]) (Ok [x02]) (Ok [x03]) 0 0 [] example_clock
    example_match example_game_start).

Lemma example_match_running :
  ∃ y, example_match_run = (Running, y) ∧ gw_tick (srv_shared (pr_world y)) = 2 ∧
    ps_Health <$> gw_players (srv_shared (pr_world y)) !! "other" = Some 90.
Proof. exists example_match_run.2. split; [|by vm_compute]. refine (pair_eq_1 example_match_run Running _). by vm_compute. Qed.

Lemma game_server_witness :
  ∃ y, example_match_run = (Running, y) ∧
    let world := srv_shared (pr_world y) in
    ps_Health <$> gw_players world !! "other" = Some 90 ∧
    int64 (total ps_Score (gw_players world)) = int64 (100 * total died (gw_players world)).
Proof.
  destruct example_match_running as (y & E & _ & Hh). exists y. split; [exact E|]. split; [exact Hh|].
  pose proof (game_server (λ _ _ _, mret tt) (λ _, throw (Errorf "refused")) game_defaults (Ok [x01]) (Ok [x02]) (Ok [x03]) 0 0 []
    example_clock example_match example_game_start y Running eq_refl E) as [_ Ht].
  refine (proj2 (Ht _)). apply (bool_decide_unpack (NoDup ["other"; "client"])). exact I.
Defined.
