(* ===== verification/StarterMain.v ===== *)
(** * The Go starters as processes

    [main] and [runServer] of [starters/go/main.go] and [main] of
    [starters/interop/server.go] around the handlers of [Starters], for any number of
    clients at once ([ExampleServer]). *)
From S2P Require Import Prelude Bytes Wire Noise Conn Gateway ExampleLoop Starters Observability Process GatewayMain ExampleServer.

Local Open Scope Z_scope.

Section starters.
Context {N D G L : Type} `{Conn N} `{Closer N} `{Noise} `{Host L}.

(** [session.Encrypt] and [conn.WriteMessage], after each of which an error ends the
    handler. *)
Definition send_strictly (reply : bytes) : M (GwW N unit) bool :=
  enc ← attempt (on_session (NoiseSession_Encrypt reply));
  match enc.2 with
  | None => mret false
  | Some enc => w ← attempt (on_conn (conn_WriteMessage enc)); mret (bool_decide (w.1 = None))
  end.

(** [time.Now().UnixMilli()]: the clock is what the goroutines share. *)
Context (now : M D Z) `{JSON EchoReply}.

(** A message of a client: the reply with the time, or the message itself. *)
Definition starter_prog (_ : string) (pt : bytes) : prog D (option bytes) :=
  Locked (λ d, (now d).2) (λ d,
    match (now d).1 with
    | Ok t => send_encoded (json_Marshal (mkEchoReply (string_of_bytes pt) t))
    | Err e => Fin (Err e)
    | Panic why => Fin (Panic why)
    end).

Definition interop_prog (_ : string) (pt : bytes) : prog D (option bytes) := Fin (Ok (Some pt)).

(** ** starters/go *)

(** [transport.DialWS] with the WebSocket library. *)
Context (dial : string → M L N).

(** [clock] is the clock when the server starts. *)
Definition starter_runServer (addr : string) (rnd : result bytes) (clock : D) (es : list net_event) : PM (Srv N D) G L unit :=
  serverKey ← fatal std_log "keygen" (lift (GenerateKeyPair rnd));
  _ ← perform (log std_log InfoLevel "[server] listening") tt;
  _ ← fatal std_log "listen" (open_ (RListener addr));
  _ ← put_srv (mkSrv [] clock);
  http_serve (Some serverKey) no_hello starter_prog send_strictly "accept" "listen" es.

Definition starter_runClient (addr : string) (rnd : result bytes) (entropy : bytes) : PM (Srv N D) G L unit :=
  clientKey ← fatal std_log "keygen" (lift (GenerateKeyPair rnd));
  conn ← fatal std_log "dial" (on_host (dial ("ws://" +:+ addr +:+ "/ws")));
  _ ← run_dialled conn (starter_client entropy clientKey);
  perform (log std_log InfoLevel "[client] session complete") tt.

Record starter_flags := mkStarterFlags { sf_mode : string; sf_addr : string }.

Definition starter_defaults : starter_flags := mkStarterFlags "server" "localhost:9100".

Definition starter_main (f : starter_flags) (rnd : result bytes) (clock : D) (entropy : bytes) (es : list net_event) :
    PM (Srv N D) G L unit :=
  if bool_decide (sf_mode f = "server") then starter_runServer (sf_addr f) rnd clock es
  else if bool_decide (sf_mode f = "client") then starter_runClient (sf_addr f) rnd entropy
  else fatal std_log "unknown mode" (throw (Errorf (sf_mode f))).

(** ** starters/interop *)

Definition interop_default_addr : string := "localhost:9500".

Definition interop_main (addr : string) (rnd : result bytes) (clock : D) (es : list net_event) : PM (Srv N D) G L unit :=
  serverKey ← fatal std_log "keygen" (lift (GenerateKeyPair rnd));
  _ ← perform (log std_log InfoLevel "[interop] echo server listening") tt;
  _ ← fatal std_log "listen" (open_ (RListener addr));
  _ ← put_srv (mkSrv [] clock);
  http_serve (Some serverKey) no_hello interop_prog send_strictly "upgrade" "listen" es.

End starters.

(** ** Lemmas *)

Section echo.
Context {N D : Type} `{ConnLaws N} `{!ReliableConn N} `{Closer N} `{NoiseLaws}.
Implicit Types (s c : NoiseSession) (n : N) (g : goroutine N D).

(** The handshake of a client, what it sends, and what is to be written to it. *)
Context (k : KeyPair) (entropy m1 m2 m3 : bytes) (s c c1 s1 : NoiseSession) (n : N) (ps cts encs : list bytes).

Definition interop_client : Prop :=
  server0 m1 m2 m3 s (ServerHandshake entropy k) ∧ in_step (ns_Send c) (ns_Recv s) ∧ encrypt_seq ps c = (Ok cts, c1) ∧
  conn_unread n (m1 :: m3 :: cts) ∧ conn_wrote n [] ∧ encrypt_seq ps s = (Ok encs, s1) ∧ Forall conn_fits (m2 :: encs).

(** [todo] is still to be read and [owed] to be sent; [sent] has been written. *)
Definition echoing s' n' (todo owed sent : list bytes) : Prop :=
  incoming s' n' todo ∧ conn_wrote n' (m2 :: sent) ∧
  ∃ s0 s2 e2, ns_Send s' = ns_Send s0 ∧ encrypt_seq owed s0 = (Ok e2, s2) ∧ encs = sent ++ e2.

Definition echoes g : Prop :=
  match g with
  | GStarted entropy' n' => entropy' = entropy ∧ n' = n
  | GReading _ s' n' => ∃ todo sent, echoing s' n' todo todo sent
  | GBusy _ s' n' (Fin (Ok None)) => ∃ todo sent, echoing s' n' todo todo sent
  | GBusy _ s' n' (Fin (Ok (Some pt))) => ∃ todo sent, echoing s' n' todo (pt :: todo) sent
  | GBusy _ _ _ _ => False
  | GReturned n' => ∃ n1, n' = closed n1 ∧ conn_wrote n1 (m2 :: encs)
  end.

Lemma send_strictly_clean b s' n' enc s2 :
  NoiseSession_Encrypt b s' = (Ok enc, s2) → conn_fits enc →
  ∃ n2, send_strictly b (mkGwW s' n' tt) = (Ok true, mkGwW s2 n2 tt) ∧ conn_WriteMessage enc n' = (Ok tt, n2).
Proof.
  intros Ee Hf. destruct (Write_succeeds n' enc Hf) as [n2 Ew]. exists n2. split; [|done].
  unfold send_strictly, attempt, on_session, on_conn, zoom, mbind, M_bind. simpl. rewrite Ee. simpl. by rewrite Ew.
Qed.

Lemma echoes_read id s' n' todo sent d :
  echoing s' n' todo todo sent → echoes (after (resume (Some k) no_hello interop_prog send_strictly (GReading id s' n') d).1).
Proof.
  intros ((c' & c2 & cts' & Hs & Ec & Hu) & Hw & Ho). cbn [resume fst]. unfold resume_read. destruct todo as [|p todo].
  - injection Ec as <- <-. destruct (Read_end _ Hu) as (e & n1 & -> & Hw1). simpl. exists n1. split; [done|].
    destruct Ho as (s0 & s2 & e2 & _ & [= <- _] & ->). rewrite app_nil_r. by apply Hw1.
  - simpl in Ec. apply bind_Ok_inv in Ec as (ct & c0 & E1 & Ec). apply bind_Ok_inv in Ec as (cts2 & c3 & E2 & Ec). injection Ec as <- <-.
    destruct (Read_next _ _ _ Hu) as (n1 & -> & Hu1 & Hw1). destruct (in_step_Decrypt _ _ _ _ _ Hs E1) as (s2 & -> & Hs2 & Hsend & _).
    simpl. exists todo, sent. split; [by exists c0, c3, cts2|]. split; [by apply Hw1|]. rewrite Hsend. done.
Qed.

Lemma echoes_send id s' n' pt todo sent d :
  Forall conn_fits (m2 :: encs) → echoing s' n' todo (pt :: todo) sent →
  echoes (after (resume (Some k) no_hello interop_prog send_strictly (GBusy id s' n' (Fin (Ok (Some pt)))) d).1).
Proof.
  intros Hfits ((c' & c2 & cts' & Hs & Ec & Hu) & Hw & (s0 & s2 & e2 & Hsend & Ee & Hencs)). cbn [resume fst]. unfold resume_fin.
  simpl in Ee. apply bind_Ok_inv in Ee as (enc & s3 & E1 & Ee). apply bind_Ok_inv in Ee as (e3 & s4 & E2 & Ee). injection Ee as <- <-.
  rewrite Hencs in Hfits. assert (conn_fits enc) as Hfit.
  { rewrite Forall_forall in Hfits. apply Hfits. set_solver. }
  destruct (send_strictly_clean pt s' n' enc _ (NoiseSession_Encrypt_send _ _ _ _ _ E1 Hsend) Hfit) as (n2 & -> & Ew). simpl.
  exists todo, (sent ++ [enc]). split; [|split].
  - exists c', c2, cts'. split_and!; [done..|by eapply Write_unread].
  - rewrite app_comm_cons. by eapply Write_adds.
  - exists s3, s4, e3. split_and!; [done..|]. by rewrite <-(assoc_L (++)).
Qed.

Lemma echoes_resume g d :
  interop_client → echoes g → echoes (after (resume (Some k) no_hello interop_prog send_strictly g d).1).
Proof.
  intros (Hs & Hstep & Ec & Hu & Hw & Ee & Hf). destruct g as [entropy' n'|id s' n'|id s' n' p|n']; intros Hg.
  - destruct Hg as [-> ->]. cbn [resume fst]. unfold resume_handshake. apply Forall_cons in Hf as Hf'. destruct Hf' as [Hf2 _].
    destruct (run_server_handshake _ _ _ _ _ _ _ _ Hs Hf2 Hu Hw) as (n1 & -> & Hu1 & Hw1 & _). simpl.
    exists ps, []. split; [by exists c, c1, cts|]. split; [done|]. by exists s, s1, encs.
  - destruct Hg as (todo & sent & Hg). by eapply echoes_read.
  - destruct p as [[[pt|]| |]|]; try done. destruct Hg as (todo & sent & Hg). by eapply echoes_send.
  - exact Hg.
Qed.

End echo.

(** ** Properties *)

(** The interop server with any number of clients, whatever the others do and however the
    goroutines are interleaved.  What it has written to a client that sends [ps] is the
    answer to its handshake and the echoes of the first messages, encrypted in order; and
    its handler returns, and closes the connection, only after the last one. *)
Theorem interop_echoes {N D G L} `{ConnLaws N} `{!ReliableConn N} `{Closer N} `{NoiseLaws} `{Otel G} `{Host L}
    (k : KeyPair) (entropy m1 m2 m3 : bytes) (s c c1 s1 : NoiseSession) (n : N) (ps cts encs : list bytes)
    (addr : string) (rnd : result bytes) (clock : D) (es : list net_event) (p p' : Proc (Srv N D) G L) (o : outcome unit) (i : nat) :
  GenerateKeyPair rnd = Ok k → pr_world p = mkSrv [] clock → interop_main addr rnd clock es p = (o, p') →
  connects es !! i = Some (entropy, n) → interop_client k entropy m1 m2 m3 s c c1 s1 n ps cts encs →
  match srv_conns (pr_world p') !! i with
  | None => (length (srv_conns (pr_world p')) ≤ i)%nat
  | Some (GStarted _ n') => n' = n
  | Some (GReading _ _ n' | GBusy _ _ n' _) => ∃ e, e `prefix_of` encs ∧ conn_wrote n' (m2 :: e)
  | Some (GReturned n') => ∃ n1, n' = closed n1 ∧ conn_wrote n1 (m2 :: encs)
  end.
Proof.
  intros Hk Hp E Hi Hc.
  assert (started no_hello interop_prog send_strictly clock (Some k) (connects es) (pr_world p) (pr_world p')) as Hst.
  { revert E. unfold interop_main. rewrite Hk. generalize p o p'.
    refine (keeps_after _ (perform (log std_log InfoLevel "[interop] echo server listening") tt) _ _ _);
      [apply keeps_perform, keepsM_log|]. intros _.
    apply keeps_after; [apply _|apply keeps_open_|]. intros _. apply keeps_started, http_serve_runs. }
  rewrite Hp in Hst. assert (srv_runs (Some k) no_hello interop_prog send_strictly (connects es) (mkSrv [] clock) (pr_world p'))
    as (ts & Hrun & Hpre) by (destruct Hst as [->|]; [apply srv_runs_refl|done]).
  destruct (srv_conns (pr_world p') !! i) as [g|] eqn:Hg; [|by apply lookup_ge_None].
  destruct (srv_run_numbers _ _ _ _ _ _ _ Hrun) as [Hl _].
  assert (connections ts !! i = Some (entropy, n)) as Hci.
  { destruct Hpre as [cs Hcs]. rewrite Hcs, lookup_app_l in Hi; [done|]. apply lookup_lt_Some in Hg. lia. }
  destruct (srv_run_each _ _ _ _ (echoes entropy m2 n encs) _ _ _ _ _ _ (λ g d, echoes_resume _ _ _ _ _ _ _ _ _ _ _ _ _ g d Hc) Hrun Hci)
    as (g' & Hg' & He); [done|]. rewrite Hg in Hg'. injection Hg' as <-.
  assert (Hecho : ∀ s' n' todo owed sent, echoing m2 encs s' n' todo owed sent → ∃ e, e `prefix_of` encs ∧ conn_wrote n' (m2 :: e)).
  { intros s' n' todo owed sent (_ & Hw & s0 & s2 & e2 & _ & _ & ->). exists sent. split; [by eexists|done]. }
  destruct g as [entropy' n'|id s' n'|id s' n' q|n']; [by destruct He| | |done].
  - destruct He as (todo & sent & He). by eapply Hecho.
  - destruct q as [[[pt|]| |]|]; try done; destruct He as (todo & sent & He); by eapply Hecho.
Qed.

(** ** Witnesses *)

#[local] Existing Instance toy_noise.
#[local] Existing Instance toy_noise_laws.

(** Two clients; the first one has its message echoed. *)
Definition example_interop : list net_event :=
  [NConnect [] (toy_server_end [[x68]; [x69]]); NConnect [] (toy_server_end [])] ++ (NTurn <$> [0; 1; 0; 1; 0; 1; 0; 1; 0]%nat).

Local Notation example_interop_run :=
  (interop_main (D:=unit) (G:=MemOtel) interop_default_addr (Ok [x01]) tt example_interop (fresh_proc (mkSrv [] tt) (λ _, false))).

Lemma example_interop_running :
  ∃ y, example_interop_run = (Running, y) ∧
    ∃ s n', srv_conns (pr_world y) !! 0%nat = Some (GBusy "client" s n' (Fin (Ok (Some [x69])))) ∧
      mem_out n' = [[x02]; [x62; x68]].
Proof.
  exists example_interop_run.2. split; [refine (pair_eq_1 example_interop_run Running _); by vm_compute|].
  eexists _, _. split; vm_compute; reflexivity.
Qed.

Lemma interop_echoes_witness :
  ∃ y, example_interop_run = (Running, y) ∧
    ∃ s n' e, srv_conns (pr_world y) !! 0%nat = Some (GBusy "client" s n' (Fin (Ok (Some [x69])))) ∧
      e `prefix_of` [[x62; x68]; [x62; x69]] ∧ conn_wrote n' ([x02] :: e).
Proof.
  destruct example_interop_running as (y & E & s & n' & Hg & _). exists y. split; [exact E|]. exists s, n'.
  pose proof (interop_echoes (D:=unit) (mkKeyPair [x01] [x01]) [] [x01] [x02] [x03] (example_server 0) (example_client 0) (example_client 2)
    (example_server 2) (toy_server_end [[x68]; [x69]]) [[x68]; [x69]] [[x61; x68]; [x61; x69]] [[x62; x68]; [x62; x69]]
    interop_default_addr (Ok [x01]) tt example_interop (fresh_proc (mkSrv [] tt) (λ _, false)) y Running 0
    eq_refl eq_refl E eq_refl) as Ht.
  rewrite Hg in Ht. destruct Ht as (e & He & Hw).
  - split; [exact (proj2 example_stages)|]. split_and!; try reflexivity. by apply Forall_true.
  - exists e. split; [exact Hg|]. split; [exact He|exact Hw].
Defined.
