(* ===== verification/NotifyServer.v ===== *)
(** * The notification server as a process

    [runServer] and [main] of [examples/notifications/server.go]: the goroutines of the
    subscribers and of the requests to [/send], the hub they share and its read-write
    lock.  A broadcast holds the lock for reading, which keeps clients from joining and
    leaving, but not other broadcasts and not the handlers of the subscribers.  What they
    share without a lock (the channels of a subscriber, the sending half of its session,
    the writing side of its connection) is accessed in two steps, the start and the end of
    the access; two accesses in progress of which one writes are a data race. *)
From S2P Require Import Prelude Bytes Wire Noise Conn Gateway ExampleLoop Notify Observability Process GatewayMain ExampleServer.

Local Open Scope Z_scope.

(** The goroutine of a client: before the handshake, at [hub.mu.Lock] in [addSubscriber],
    in its loop with its pointer, in the assignments that rebuild [sub.channels], at
    [hub.mu.Lock] in the deferred [removeSubscriber], at the deferred [conn.Close], or
    returned. *)
Inductive nclient `{Noise} (N : Type) :=
| NStarted (entropy : bytes) (conn : N)
| NJoining (session : NoiseSession) (conn : N)
| NServing (id : string) (sub : nat)
| NSubscribing (id : string) (sub : nat) (s : Subscription)
| NLeaving (id : string) (sub : nat)
| NClosing (sub : nat)
| NReturned.
Arguments NStarted {_ N} _ _.
Arguments NJoining {_ N} _ _.
Arguments NServing {_ N} _ _.
Arguments NSubscribing {_ N} _ _ _.
Arguments NLeaving {_ N} _ _.
Arguments NClosing {_ N} _.
Arguments NReturned {_ N}.

(** A request to [/send], with the lock held for reading: in the loop of [broadcast]; for
    one subscriber, looking at its channels, before and in [Encrypt], before and in
    [WriteMessage].  Or answered, without an answer after a panic. *)
Inductive nsend :=
| BRange (n : Notification) (msg : bytes) (todo : list nat) (sent : Z)
| BLook (n : Notification) (msg : bytes) (sub : nat) (todo : list nat) (sent : Z)
| BWanted (n : Notification) (msg : bytes) (sub : nat) (todo : list nat) (sent : Z)
| BEncrypt (n : Notification) (msg : bytes) (sub : nat) (todo : list nat) (sent : Z)
| BReady (n : Notification) (msg : bytes) (sub : nat) (ct : bytes) (todo : list nat) (sent : Z)
| BWrite (n : Notification) (msg : bytes) (sub : nat) (ct : bytes) (todo : list nat) (sent : Z)
| BDone (resp : option http_response).

Record NSrv `{Noise} (N : Type) := mkNSrv { nv_hub : hubW N; nv_clients : list (nclient N); nv_sends : list nsend }.
Arguments mkNSrv {_ N} _ _ _.
Arguments nv_hub {_ N} _.
Arguments nv_clients {_ N} _.
Arguments nv_sends {_ N} _.

(** The subscribers a broadcast has before it, with the one it is at, and its count. *)
Definition in_progress (b : nsend) : option (list nat * Z) :=
  match b with
  | BRange _ _ todo sent => Some (todo, sent)
  | BLook _ _ sub todo sent | BWanted _ _ sub todo sent | BEncrypt _ _ sub todo sent
  | BReady _ _ sub _ todo sent | BWrite _ _ sub _ todo sent => Some (sub :: todo, sent)
  | BDone _ => None
  end.

(** The lock is not held for reading. *)
Definition reading (b : nsend) : bool := match b with BDone _ => false | _ => true end.
Definition lock_free (bs : list nsend) : bool := negb (existsb reading bs).

(** What happens: a client connects or cannot be upgraded, a request to [/send], a turn of
    a client's goroutine or of a request's, [http.ListenAndServe] returns. *)
Inductive nevent (N : Type) :=
| EConnect (entropy : bytes) (n : N)
| EUpgradeFails (e : error)
| EPost (now : Z) (method : string) (body : bytes)
| EClient (i : nat)
| ESend (j : nat)
| EServeFails (e : error).
Arguments EConnect {N} _ _.
Arguments EUpgradeFails {N} _.
Arguments EPost {N} _ _ _.
Arguments EClient {N} _.
Arguments ESend {N} _.
Arguments EServeFails {N} _.

(** What a message makes the handler do: return, go on with its loop, or subscribe. *)
Inductive client_next := CReturn | CAgain | CSubscribe (s : Subscription).

Section server.
Context {N : Type} `{Conn N} `{Closer N} `{Noise} `{RangeOrder}.
Context `{JSON Notification} `{JSON Subscription} `{JSON NotifyAck}.
(** [json.NewDecoder(r.Body).Decode(&n)] on the body of a request. *)
Context (decode : bytes → result Notification) (key : option KeyPair).

(** ** A client *)

(** A turn of the loop up to the assignments: a message is read, decrypted and decoded. *)
Definition client_read : M (subscriber N) client_next :=
  ct ← attempt (with_conn conn_ReadMessage);
  match ct.2 with
  | None => mret CReturn
  | Some ct =>
      pt ← attempt (with_session (NoiseSession_Decrypt ct));
      match pt.2 with
      | None => mret CReturn
      | Some pt =>
          x ← attempt (lift (decodeFrame pt));
          match x.2 with
          | None => mret CAgain
          | Some (msgType, payload) =>
              if bool_decide (msgType = MsgSubscribe) then
                s ← attempt (lift (json_Unmarshal payload));
                mret (match s.2 with Some s => CSubscribe s | None => CAgain end)
              else if bool_decide (msgType = MsgAck) then
                _ ← attempt (lift (json_Unmarshal (A:=NotifyAck) payload)); mret CAgain
              else mret CAgain
          end
      end
  end.

(** A panic is recovered by [net/http] after the deferred calls. *)
Definition client_step (free : bool) (c : nclient N) (h : hubW N) : nclient N * hubW N :=
  match c with
  | NStarted entropy n =>
      match key with
      | Some key => match run_proc (ServerHandshake entropy key) n with (Ok s, n) => (NJoining s n, h) | _ => (NReturned, h) end
      | None => (NReturned, h)
      end
  | NJoining s n =>
      if free then
        match client_join n s h with (Ok sub, h) => (NServing (conn_RemoteAddr n) sub, h) | (_, h) => (NReturned, h) end
      else (c, h)
  | NServing id sub =>
      match at_pointer sub client_read h with
      | (Ok CAgain, h) => (NServing id sub, h)
      | (Ok (CSubscribe s), h) => (NSubscribing id sub s, h)
      | (_, h) => (NLeaving id sub, h)
      end
  | NSubscribing id sub s => (NServing id sub, (at_pointer sub (modify (subscribe s)) h).2)
  | NLeaving id sub => if free then (NClosing sub, (removeSubscriber id h).2) else (c, h)
  | NClosing sub => (NReturned, (at_pointer sub (with_conn conn_Close) h).2)
  | NReturned => (c, h)
  end.

(** ** A request *)

(** [n.TimestampMs = nowMs()] when it is zero. *)
Definition stamped (now : Z) (n : Notification) : Notification :=
  if n_TimestampMs n =? 0 then mkNotification (n_ID n) (n_Channel n) (n_Title n) (n_Body n) (n_Priority n) now else n.

(** Up to the loop of [broadcast], with the lock. *)
Definition send_start (now : Z) (method : string) (body : bytes) (h : hubW N) : nsend :=
  if negb (bool_decide (method = "POST")) then BDone (Some (HttpError "POST only" 405))
  else match decode body with
       | Err _ => BDone (Some (HttpError "bad request" 400))
       | Panic _ => BDone None
       | Ok n =>
           let n := stamped now n in
           match encodeNotification n with
           | Ok msg => BRange n msg (range (hub_subscribers h)).*2 0
           | Err _ => BDone (Some (HttpSent 0))
           | Panic _ => BDone None
           end
       end.

Definition send_step (b : nsend) (h : hubW N) : nsend * hubW N :=
  match b with
  | BRange n msg [] sent => (BDone (Some (HttpSent sent)), h)
  | BRange n msg (sub :: todo) sent => (BLook n msg sub todo sent, h)
  | BLook n msg sub todo sent =>
      match at_pointer sub (λ s, (Ok (wants n s), s)) h with
      | (Ok true, h) => (BWanted n msg sub todo sent, h)
      | (Ok false, h) => (BRange n msg todo sent, h)
      | (_, h) => (BDone None, h)
      end
  | BWanted n msg sub todo sent => (BEncrypt n msg sub todo sent, h)
  | BEncrypt n msg sub todo sent =>
      match at_pointer sub (attempt (with_session (NoiseSession_Encrypt msg))) h with
      | (Ok (_, Some ct), h) => (BReady n msg sub ct todo sent, h)
      | (Ok (_, None), h) => (BRange n msg todo sent, h)
      | (_, h) => (BDone None, h)
      end
  | BReady n msg sub ct todo sent => (BWrite n msg sub ct todo sent, h)
  | BWrite n msg sub ct todo sent =>
      match at_pointer sub (attempt (with_conn (conn_WriteMessage ct))) h with
      | (Ok (None, _), h) => (BRange n msg todo (sent + 1), h)
      | (Ok (Some _, _), h) => (BRange n msg todo sent, h)
      | (_, h) => (BDone None, h)
      end
  | BDone _ => (b, h)
  end.

(** ** Races *)

(** The subscribers whose channels are being rebuilt, whose channels a broadcast is
    looking at, for whom one is encrypting, and to whom one is writing. *)
Definition rebuilding (x : NSrv N) : list nat :=
  omap (λ c, match c with NSubscribing _ sub _ => Some sub | _ => None end) (nv_clients x).
Definition looking (x : NSrv N) : list nat :=
  omap (λ b, match b with BLook _ _ sub _ _ => Some sub | _ => None end) (nv_sends x).
Definition encrypting (x : NSrv N) : list nat :=
  omap (λ b, match b with BEncrypt _ _ sub _ _ => Some sub | _ => None end) (nv_sends x).
Definition writing (x : NSrv N) : list nat :=
  omap (λ b, match b with BWrite _ _ sub _ _ _ => Some sub | _ => None end) (nv_sends x).

(** No two accesses in progress conflict. *)
Definition race_free (x : NSrv N) : Prop :=
  NoDup (rebuilding x) ∧ Forall (λ sub, sub ∉ looking x) (rebuilding x) ∧ NoDup (encrypting x) ∧ NoDup (writing x).

#[export] Instance race_free_dec x : Decision (race_free x).
Proof. unfold race_free. apply _. Defined.

(** ** All of them *)

Definition nstep (e : nevent N) (x : NSrv N) : NSrv N :=
  match e with
  | EConnect entropy n => mkNSrv (nv_hub x) (nv_clients x ++ [NStarted entropy n]) (nv_sends x)
  | EPost now method body => mkNSrv (nv_hub x) (nv_clients x) (nv_sends x ++ [send_start now method body (nv_hub x)])
  | EClient i =>
      match nv_clients x !! i with
      | Some c => let '(c, h) := client_step (lock_free (nv_sends x)) c (nv_hub x) in mkNSrv h (<[i := c]> (nv_clients x)) (nv_sends x)
      | None => x
      end
  | ESend j =>
      match nv_sends x !! j with
      | Some b => let '(b, h) := send_step b (nv_hub x) in mkNSrv h (nv_clients x) (<[j := b]> (nv_sends x))
      | None => x
      end
  | EUpgradeFails _ | EServeFails _ => x
  end.

(** ** The process *)

Section process.
Context {G L : Type}.

Definition put_nsrv (x : NSrv N) : PM (NSrv N) G L unit := λ p,
  (Done tt, mkProc x (pr_otel p) (pr_host p) (pr_log p) (pr_events p) (pr_ctx p)).

(** A data race ends the run: Go's runtime kills the process when it finds a map read and
    written at the same time, and what becomes of a cipher state or of the writing side
    of a connection that two goroutines use at once is not determined. *)
Fixpoint notify_serve (es : list (nevent N)) : PM (NSrv N) G L unit :=
  match es with
  | [] => λ p, (Running, p)
  | EServeFails e :: _ => fatal std_log "" (throw e)
  | EUpgradeFails _ :: es => _ ← perform (log std_log InfoLevel "upgrade") tt; notify_serve es
  | e :: es => λ p,
      let x := nstep e (pr_world p) in
      (_ ← put_nsrv x; if bool_decide (race_free x) then notify_serve es else λ p, (Gone 2, p)) p
  end.

End process.
End server.

Section main.
Context {N G L : Type} `{Conn N} `{Closer N} `{Noise} `{RangeOrder} `{Host L}.
Context `{JSON Notification} `{JSON Subscription} `{JSON NotifyAck}.
Context (decode : bytes → result Notification) (partial : bytes → Notification) (dial : string → M L N).

Definition runServer (addr : string) (rnd : result bytes) (es : list (nevent N)) : PM (NSrv N) G L unit :=
  serverKey ← unchecked (GenerateKeyPair rnd);
  _ ← perform (log std_log InfoLevel "Notification WS server") tt;
  _ ← fatal std_log "" (open_ (RListener addr));
  _ ← put_nsrv (mkNSrv newHub [] []);
  notify_serve decode serverKey es.

(** The client for [fuel] messages; without a key it panics in the handshake. *)
Definition runSubscriberClient (addr userID : string) (rnd : result bytes) (entropy : bytes) (fuel : nat) : PM (NSrv N) G L unit :=
  clientKey ← unchecked (GenerateKeyPair rnd);
  conn ← fatal std_log "dial" (on_host (dial ("ws://localhost" +:+ addr +:+ "/ws")));
  match clientKey with
  | Some clientKey =>
      _ ← run_dialled conn (λ n, let '(r, (n, _)) := runSubscriber partial fuel entropy clientKey userID (n, []) in (r, n)); mret tt
  | None => _ ← run_dialled conn (panic (A:=unit) "nil pointer dereference"); mret tt
  end.

Record notify_flags := mkNotifyFlags { nf_mode : string; nf_addr : string; nf_user : string }.

Definition notify_defaults : notify_flags := mkNotifyFlags "server" ":8081" "user-1".

Definition notify_main (f : notify_flags) (rnd : result bytes) (entropy : bytes) (fuel : nat) (es : list (nevent N)) : PM (NSrv N) G L unit :=
  if bool_decide (nf_mode f = "server") then runServer (nf_addr f) rnd es
  else runSubscriberClient (nf_addr f) (nf_user f) rnd entropy fuel.

End main.

(** ** Lemmas *)

Section lemmas.
Context {N : Type} `{ConnLaws N} `{Closer N} `{NoiseLaws} `{RangeOrderLaws}.
Context `{JSONLaws Notification} `{JSONLaws Subscription} `{JSONLaws NotifyAck}.
Context (decode : bytes → result Notification) (key : option KeyPair).
Context (encrypt_no_panic : ∀ x p why, (cs_Encrypt x p).1 ≠ Panic why) (write_no_panic : ∀ m (n : N) why, (conn_WriteMessage m n).1 ≠ Panic why).
Context (decode_no_panic : ∀ b why, decode b ≠ Panic why).
Implicit Types (h : hubW N) (b : nsend) (c : nclient N) (x y : NSrv N).

(** The pointers of the hub, in the order in which a broadcast goes through them. *)
Definition pointers h : list nat := (range (hub_subscribers h)).*2.

(** A broadcast in progress has the rest of the hub before it, and has sent to no more
    than those it has passed; a request is answered. *)
Definition send_ok h b : Prop :=
  match in_progress b with
  | Some (rest, sent) => rest `suffix_of` pointers h ∧ 0 ≤ sent ≤ Z.of_nat (length (pointers h) - length rest)
  | None => b ≠ BDone None
  end.

(** A goroutine has a valid pointer, which the hub has for its address only, and not any
    more when the connection is closed. *)
Definition client_ok h c : Prop :=
  match c with
  | NServing id sub | NSubscribing id sub _ | NLeaving id sub =>
      is_Some (hub_store h !! sub) ∧ ∀ id', hub_subscribers h !! id' = Some sub → id' = id
  | NClosing sub => is_Some (hub_store h !! sub) ∧ ∀ id', hub_subscribers h !! id' ≠ Some sub
  | _ => True
  end.

Definition notify_ok x : Prop :=
  hub_ok (nv_hub x) ∧ Forall (client_ok (nv_hub x)) (nv_clients x) ∧ Forall (send_ok (nv_hub x)) (nv_sends x).

(** Valid pointers stay valid, and the hub gets new ones only. *)
Definition extends h h' : Prop :=
  ∀ sub, is_Some (hub_store h !! sub) → is_Some (hub_store h' !! sub) ∧
    ∀ id, hub_subscribers h' !! id = Some sub → hub_subscribers h !! id = Some sub.

Lemma same_pointers_extends h h' : same_pointers h h' → extends h h'.
Proof. intros [Hh Hs] sub Hsub. rewrite Hs, Hh. done. Qed.

Lemma extends_client h h' c : extends h h' → client_ok h c → client_ok h' c.
Proof. intros He. destruct c; simpl; try done; intros [[Hs Hh]%He Hid]; (split; [done|]); intros id' Hl; apply (Hid id'), Hh, Hl. Qed.

Lemma same_pointers_send h h' b : same_pointers h h' → send_ok h b → send_ok h' b.
Proof. intros [Hh _]. unfold send_ok, pointers. by rewrite Hh. Qed.

Lemma lock_free_done bs : lock_free bs = true → Forall (λ b, reading b = false) bs.
Proof. unfold lock_free. induction bs as [|b bs IH]; [done|]. simpl. intros [Hb Hbs]%negb_true_iff%orb_false_iff. constructor; [done|]. apply IH. by rewrite Hbs. Qed.

Lemma done_send_ok h h' bs : lock_free bs = true → Forall (send_ok h) bs → Forall (send_ok h') bs.
Proof. intros Hd%lock_free_done Hs. induction Hd as [|b bs Hb _ IH]; inversion Hs; constructor; [by destruct b|auto]. Qed.

(** *** A client's turn *)

Lemma join_extends n s h : extends h (client_join n s h).2.
Proof.
  intros sub [s' Hs]. unfold client_join, addSubscriber, modify, mbind, M_bind. simpl.
  assert (fresh (dom (hub_store h)) ≠ sub) as Hf.
  { intros <-. apply elem_of_dom_2 in Hs. by destruct (is_fresh (dom (hub_store h))). }
  split; [rewrite lookup_insert_ne by done; by exists s'|]. by intros id [[_ ?]|[_ ?]]%lookup_insert_Some.
Qed.

(** The assignments of a subscription, and every other access, keep the pointers. *)
Lemma client_keeps {A} id sub (m : M (subscriber N) A) h :
  hub_ok h → client_ok h (NServing id sub) →
  let h' := (at_pointer sub m h).2 in hub_ok h' ∧ client_ok h' (NServing id sub) ∧ extends h h' ∧ same_pointers h h'.
Proof.
  intros Hok Hc h'. pose proof (at_pointer_same sub m h) as Hs. fold h' in Hs.
  split_and!; [by eapply same_pointers_ok|by eapply (extends_client _ _ (NServing id sub)), Hc; apply same_pointers_extends| |done].
  by apply same_pointers_extends.
Qed.

Lemma client_step_ok free c h c' h' :
  hub_ok h → client_ok h c → client_step key free c h = (c', h') →
  hub_ok h' ∧ client_ok h' c' ∧ extends h h' ∧ (free = false → same_pointers h h').
Proof.
  intros Hok Hc. assert (extends h h) as Hrefl by by intros sub Hsub.
  destruct c as [entropy n|s n|id sub|id sub s|id sub|sub|]; cbn [client_step].
  - destruct key; [destruct (run_proc _ n) as [[| |] ?]|]; by intros [= <- <-].
  - destruct free; [|by intros [= <- <-]]. pose proof (join_ok n s h Hok) as Hj. pose proof (join_extends n s h) as He. revert Hj He.
    unfold client_join, addSubscriber, modify, mbind, M_bind. simpl. intros Hj He [= <- <-]. split_and!; [done| |done..].
    simpl. split; [by rewrite lookup_insert_eq|]. intros id' [[-> _]|[_ Hl]]%lookup_insert_Some; [done|]. apply Hok in Hl as [s' Hs]. apply elem_of_dom_2 in Hs.
    by destruct (is_fresh (dom (hub_store h))).
  - destruct (client_keeps id sub client_read h Hok Hc) as (? & ? & ? & ?).
    destruct (at_pointer sub client_read h) as [r h1]. simpl in *.
    destruct r as [[]| |]; intros [= <- <-]; (split_and!; done).
  - destruct (client_keeps id sub (modify (subscribe s)) h Hok Hc) as (? & ? & ? & ?). by intros [= <- <-].
  - destruct free; [|by intros [= <- <-]]. intros [= <- <-]. split_and!; [eapply hub_step_ok; [exact Hok|apply hub_leave]|..|done].
    + split; [by apply Hc|]. simpl. intros id' [Hne Hl]%lookup_delete_Some. apply Hne. symmetry. by apply Hc.
    + intros x Hx. simpl. split; [done|]. by intros id' [_ ?]%lookup_delete_Some.
  - intros [= <- <-]. pose proof (at_pointer_same sub (with_conn conn_Close) h) as Hs.
    split_and!; [by eapply same_pointers_ok|done|by apply same_pointers_extends|done].
  - by intros [= <- <-].
Qed.

(** *** A request's turn *)

Lemma suffix_valid h sub todo : hub_ok h → sub :: todo `suffix_of` pointers h → is_Some (hub_store h !! sub).
Proof.
  intros Hok [k Hk]. destruct (proj2 (hub_pointers h Hok) sub) as [Hin _].
  destruct Hin as [id Hid]; [unfold pointers in Hk; rewrite Hk; set_solver|]. by eapply Hok.
Qed.

Lemma at_pointer_ok {A} sub (m : M (subscriber N) A) h s :
  hub_store h !! sub = Some s → at_pointer sub m h = ((m s).1, mkHubW (<[sub := (m s).2]> (hub_store h)) (hub_subscribers h)).
Proof. intros Hs. unfold at_pointer. rewrite Hs. by destruct (m s). Qed.

Lemma encrypt_outcome msg (s : subscriber N) : ∃ r, (attempt (with_session (NoiseSession_Encrypt msg)) s).1 = Ok r.
Proof.
  unfold attempt, with_session, zoom, NoiseSession_Encrypt. pose proof (encrypt_no_panic (ns_Send (sub_session s)) msg) as Hp.
  destruct (cs_Encrypt _ msg) as [[ct| |why] x]; simpl in *; [by eexists..|by destruct (Hp why)].
Qed.

Lemma write_outcome ct (s : subscriber N) : ∃ r, (attempt (with_conn (conn_WriteMessage ct)) s).1 = Ok r.
Proof.
  unfold attempt, with_conn, zoom. pose proof (write_no_panic ct (sub_conn s)) as Hp.
  destruct (conn_WriteMessage ct _) as [[[]| |why] c]; simpl in *; [by eexists..|by destruct (Hp why)].
Qed.

(** An access to the subscriber a broadcast is at, which does not panic. *)
Lemma send_access {A} h sub todo sent (m : M (subscriber N) A) :
  hub_ok h → sub :: todo `suffix_of` pointers h → 0 ≤ sent ≤ Z.of_nat (length (pointers h) - length (sub :: todo)) →
  (∀ s, ∃ r, (m s).1 = Ok r) →
  ∃ r h', at_pointer sub m h = (Ok r, h') ∧ same_pointers h h' ∧
    ∀ b, (in_progress b = Some (sub :: todo, sent) ∨ in_progress b = Some (todo, sent) ∨ in_progress b = Some (todo, sent + 1)) → send_ok h' b.
Proof.
  intros Hok Hsuf Hsent Hm. destruct (suffix_valid _ _ _ Hok Hsuf) as [s Hs]. destruct (Hm s) as [r Er].
  pose proof (at_pointer_same sub m h) as Hsame. revert Hsame. rewrite (at_pointer_ok _ _ _ _ Hs), Er. intros Hsame.
  eexists _, _. split; [done|]. split; [done|]. intros b Hb. eapply same_pointers_send; [exact Hsame|]. unfold send_ok.
  pose proof (suffix_length _ _ Hsuf) as Hl. simpl in Hsent, Hl.
  destruct Hb as [->|[->| ->]]; (split; [done || by eapply suffix_cons_l|simpl; lia]).
Qed.

Lemma send_step_ok b h b' h' : hub_ok h → send_ok h b → send_step b h = (b', h') → same_pointers h h' ∧ send_ok h' b'.
Proof.
  intros Hok Hb.
  destruct b as [n msg [|sub todo] sent|n msg sub todo sent|n msg sub todo sent|n msg sub todo sent|n msg sub ct todo sent|n msg sub ct todo sent|resp];
    cbn [send_step]; try (by intros [= <- <-]); destruct Hb as [Hsuf Hsent].
  - destruct (send_access h sub todo sent (λ s, (Ok (wants n s), s)) Hok Hsuf Hsent) as (r & h1 & -> & Hsame & Hnext); [by eexists|].
    destruct r; intros [= <- <-]; (split; [done|apply Hnext; auto]).
  - destruct (send_access h sub todo sent (attempt (with_session (NoiseSession_Encrypt msg))) Hok Hsuf Hsent (encrypt_outcome msg))
      as ([e [ct|]] & h1 & -> & Hsame & Hnext); intros [= <- <-]; (split; [done|apply Hnext; auto]).
  - destruct (send_access h sub todo sent (attempt (with_conn (conn_WriteMessage ct))) Hok Hsuf Hsent (write_outcome ct))
      as ([[e|] u] & h1 & -> & Hsame & Hnext); intros [= <- <-]; (split; [done|apply Hnext; auto]).
Qed.

Lemma send_start_ok now method body h : send_ok h (send_start decode now method body h).
Proof.
  unfold send_start. destruct (negb _); [done|]. pose proof (decode_no_panic body) as Hd.
  destruct (decode body) as [n| |why]; [|done|by destruct (Hd why)]. unfold encodeNotification, encode.
  pose proof (json_Marshal_no_panic (stamped now n)) as Hm. destruct (json_Marshal (stamped now n)) as [msg| |why]; [|done|by destruct (Hm why)].
  simpl. split; [done|]. unfold pointers. lia.
Qed.

Lemma nstep_ok e x : notify_ok x → notify_ok (nstep decode key e x).
Proof.
  intros (Hok & Hcs & Hbs). destruct x as [h cs bs]. simpl in *. destruct e as [entropy n|err|now method body|i|j|err]; simpl; try done.
  - split_and!; [done| |done]. by apply Forall_app_2; [|apply Forall_singleton].
  - split_and!; [done..|]. apply Forall_app_2; [done|]. apply Forall_singleton, send_start_ok.
  - destruct (cs !! i) as [c|] eqn:Hi; [|done]. destruct (client_step key (lock_free bs) c h) as [c' h'] eqn:E.
    assert (client_ok h c) as Hc by by eapply Forall_lookup_1.
    destruct (client_step_ok _ _ _ _ _ Hok Hc E) as (Hok' & Hc' & Hst & Hsame). split_and!; [done| |]; simpl.
    + apply Forall_insert; [|done]. eapply Forall_impl; [exact Hcs|]. intros c2. by apply extends_client.
    + destruct (lock_free bs) eqn:Hf; [by eapply done_send_ok|]. eapply Forall_impl; [exact Hbs|]. intros b. by apply same_pointers_send, Hsame.
  - destruct (bs !! j) as [b|] eqn:Hj; [|done]. destruct (send_step b h) as [b' h'] eqn:E.
    assert (send_ok h b) as Hb by by eapply Forall_lookup_1. destruct (send_step_ok _ _ _ _ Hok Hb E) as [Hsame Hb'].
    split_and!; [by eapply same_pointers_ok| |]; simpl.
    + eapply Forall_impl; [exact Hcs|]. intros c. by apply extends_client, same_pointers_extends.
    + apply Forall_insert; [|done]. eapply Forall_impl; [exact Hbs|]. intros b2. by apply same_pointers_send.
Qed.

(** The process keeps it, and dies of a race only. *)
Lemma notify_serve_ok {G L} es (p p' : Proc (NSrv N) G L) o :
  notify_ok (pr_world p) → race_free (pr_world p) → notify_serve decode key es p = (o, p') →
  notify_ok (pr_world p') ∧ ((o = Running ∨ o = Gone 1) ∧ race_free (pr_world p') ∨ o = Gone 2 ∧ ¬ race_free (pr_world p')).
Proof.
  revert p. induction es as [|e es IH]; intros p Hok Hrf; [intros [= <- <-]; auto|].
  assert (Hnext : ∀ x, notify_ok x →
    (_ ← put_nsrv x; if bool_decide (race_free x) then notify_serve decode key es else λ p, (Gone 2, p)) p = (o, p') →
    notify_ok (pr_world p') ∧ ((o = Running ∨ o = Gone 1) ∧ race_free (pr_world p') ∨ o = Gone 2 ∧ ¬ race_free (pr_world p'))).
  { intros x Hx. unfold mbind, PM_bind, put_nsrv. case_bool_decide; [by apply IH|]. intros [= <- <-]. auto. }
  destruct e; cbn [notify_serve]; try (apply Hnext; apply (nstep_ok _ _ Hok)).
  - by apply IH.
  - intros [= <- <-]. auto.
Qed.

End lemmas.

Section process_lemmas.
Context {N G L : Type} `{ConnLaws N} `{Closer N} `{NoiseLaws} `{RangeOrderLaws} `{Otel G} `{Host L}.
Context `{JSONLaws Notification} `{JSONLaws Subscription} `{JSONLaws NotifyAck}.
Context (decode : bytes → result Notification) (partial : bytes → Notification) (dial : string → M L N).
Context (encrypt_no_panic : ∀ x p why, (cs_Encrypt x p).1 ≠ Panic why) (write_no_panic : ∀ m (n : N) why, (conn_WriteMessage m n).1 ≠ Panic why).
Context (decode_no_panic : ∀ b why, decode b ≠ Panic why).

(** What holds of the server at every time, and that only a race kills it. *)
Definition serves_well (p : Proc (NSrv N) G L) (m : PM (NSrv N) G L unit) : Prop :=
  ∀ o p', m p = (o, p') → notify_ok (pr_world p') ∧ (o = Gone 2 ↔ ¬ race_free (pr_world p')).

Lemma serves_well_bind {A} (m : PM (NSrv N) G L A) f p :
  notify_ok (pr_world p) → race_free (pr_world p) → survives m → keeps (=) m →
  (∀ a p', notify_ok (pr_world p') → race_free (pr_world p') → serves_well p' (f a)) →
  serves_well p (a ← m; f a).
Proof.
  intros Hok Hrf Hs Hk Hf o p'. unfold mbind, PM_bind. specialize (Hs p). destruct (m p) as [o1 p1] eqn:E. apply Hk in E.
  rewrite E in Hok, Hrf. destruct o1 as [a| |st|why]; [by apply Hf|intros [= <- <-]; (split; [exact Hok|]; split; [|done])..]; [done| |done].
  by intros [= ->].
Qed.

Lemma notify_main_ok f rnd ent fuel es p :
  pr_world p = mkNSrv newHub [] [] → serves_well p (notify_main decode partial dial f rnd ent fuel es).
Proof.
  intros Hp. assert (notify_ok (mkNSrv (N:=N) newHub [] [])) as Hnew by by split_and!.
  assert (race_free (mkNSrv (N:=N) newHub [] [])) as Hfree by by vm_compute; split_and!; constructor.
  assert (notify_ok (pr_world p) ∧ race_free (pr_world p)) as [Hok Hrf] by by rewrite Hp. unfold notify_main, runServer, runSubscriberClient.
  case_bool_decide; (apply serves_well_bind; [done|done|apply survives_unchecked|apply keeps_unchecked|]; intros key p1 Hok1 Hrf1).
  - apply serves_well_bind; [done|done|apply survives_perform|apply keeps_perform, keepsM_log|]. intros _ p2 Hok2 Hrf2.
    apply serves_well_bind; [done|done|apply survives_fatal|apply keeps_open_|]. intros _ p3 _ _ o p'. unfold mbind, PM_bind, put_nsrv.
    intros E. apply notify_serve_ok in E as [Hok' Hend]; [|done..]. split; [done|]. naive_solver.
  - apply serves_well_bind; [done|done|apply survives_fatal|apply keeps_fatal, keepsM_host|]. intros conn p2 Hok2 Hrf2.
    destruct key; (apply serves_well_bind; [done|done|apply survives_run_dialled|apply keeps_run_dialled|]; intros _ p3 Hok3 Hrf3 o p' [= <- <-]; done).
Qed.

End process_lemmas.

Section alone.
Context {N : Type} `{Conn N} `{Noise} `{RangeOrder} `{JSON Notification} `{JSON Subscription} `{JSON NotifyAck}.

(** A turn of the handler of a client, in its two steps. *)
Lemma client_turn_steps (s : subscriber N) :
  client_turn s =
    match client_read s with
    | (Ok CReturn, s') => (Ok false, s')
    | (Ok CAgain, s') => (Ok true, s')
    | (Ok (CSubscribe sn), s') => (Ok true, subscribe sn s')
    | (Err e, s') => (Err e, s')
    | (Panic why, s') => (Panic why, s')
    end.
Proof.
  unfold client_turn, client_read, client_message, attempt, lift, mbind, M_bind.
  destruct (with_conn conn_ReadMessage s) as [[ct| |] s1]; [|done..]. cbn [snd].
  destruct (with_session (NoiseSession_Decrypt ct) s1) as [[pt| |] s2]; [|done..]. cbn [snd].
  destruct (decodeFrame pt) as [[t payload]| |]; [|done..]. cbn [snd]. case_bool_decide.
  - by destruct (json_Unmarshal payload) as [sn| |].
  - case_bool_decide; [|done]. by destruct (json_Unmarshal payload) as [a| |].
Qed.

(** A request that has the subscribers for itself. *)
Definition send_alone (x y : nsend * hubW N) : Prop := send_step x.1 x.2 = y.

(** One subscriber, in its steps. *)
Lemma deliver_alone n msg sub todo sent (h : hubW N) (s s' : subscriber N) ok :
  hub_store h !! sub = Some s → deliver n msg s = (Ok ok, s') →
  rtc send_alone (BRange n msg (sub :: todo) sent, h)
    (BRange n msg todo (if (ok : bool) then sent + 1 else sent), mkHubW (<[sub := s']> (hub_store h)) (hub_subscribers h)).
Proof.
  intros Hs Ed. eapply rtc_l; [reflexivity|].
  assert (Hlook : send_alone (BLook n msg sub todo sent, h)
    (if wants n s then BWanted n msg sub todo sent else BRange n msg todo sent, mkHubW (<[sub := s]> (hub_store h)) (hub_subscribers h))).
  { unfold send_alone. simpl. unfold at_pointer. rewrite Hs. by destruct (wants n s). }
  eapply rtc_l; [exact Hlook|]. clear Hlook. unfold deliver in Ed. destruct (wants n s); [|by injection Ed as <- <-].
  eapply rtc_l; [reflexivity|]. apply bind_Ok_inv in Ed as ([e oct] & s1 & E1 & Ed). cbn [snd] in Ed.
  assert (Henc : send_alone (BEncrypt n msg sub todo sent, mkHubW (<[sub := s]> (hub_store h)) (hub_subscribers h))
    (match oct with Some ct => BReady n msg sub ct todo sent | None => BRange n msg todo sent end,
     mkHubW (<[sub := s1]> (hub_store h)) (hub_subscribers h))).
  { unfold send_alone. simpl. unfold at_pointer. cbn [hub_store]. rewrite lookup_insert_eq, E1. cbn [hub_store hub_subscribers].
    rewrite insert_insert_eq. by destruct oct. }
  eapply rtc_l; [exact Henc|]. clear Henc. destruct oct as [ct|]; [|by injection Ed as <- <-].
  eapply rtc_l; [reflexivity|]. apply bind_Ok_inv in Ed as ([e' u] & s2 & E2 & Ed). injection Ed as <- <-. cbn [fst].
  eapply rtc_once. unfold send_alone. simpl. unfold at_pointer. cbn [hub_store]. rewrite lookup_insert_eq, E2.
  cbn [hub_store hub_subscribers]. rewrite insert_insert_eq. by destruct e'.
Qed.

(** Its loop is the one of [Notify]. *)
Lemma broadcast_loop_alone n msg todo sent (h h' : hubW N) k :
  broadcast_loop n msg todo h = (Ok k, h') → rtc send_alone (BRange n msg todo sent, h) (BRange n msg [] (sent + k), h').
Proof.
  revert h sent k. induction todo as [|sub todo IH]; intros h sent k E; simpl in E.
  { injection E as <- <-. by rewrite Z.add_0_r. }
  apply bind_Ok_inv in E as (ok & h1 & E1 & E). apply bind_Ok_inv in E as (k1 & h2 & E2 & E). injection E as <- <-.
  unfold at_pointer in E1. destruct (hub_store h !! sub) as [s|] eqn:Hs; [|done].
  destruct (deliver n msg s) as [r s'] eqn:Ed. injection E1 as -> <-. etrans; [by eapply deliver_alone|].
  specialize (IH _ (if ok then sent + 1 else sent) _ E2). destruct ok; [|exact IH].
  by replace (sent + (k1 + 1)) with (sent + 1 + k1) by lia.
Qed.

End alone.

(** ** Properties *)


(** ** Witnesses *)

#[local] Existing Instance toy_noise.
#[local] Existing Instance toy_noise_laws.
#[local] Existing Instance note_json.
#[local] Existing Instance note_json_laws.
#[local] Existing Instance sub_json.
#[local] Existing Instance sub_json_laws.
#[local] Existing Instance ack_json.
#[local] Existing Instance ack_json_laws.

(** Two clients join and a third leaves; two requests are served at once, the second one
    overtaking the first; a fourth client has to wait. *)
Definition example_nclient (addr : string) : MemConn := mkMemConn [[x01]; [x03]] [] addr.
Definition example_notify : list (nevent MemConn) :=
  [EConnect [] (example_nclient "a"); EConnect [] (example_nclient "b"); EConnect [] (example_nclient "c");
   EClient 0; EClient 0; EClient 1; EClient 1; EClient 2; EClient 2; EClient 2; EClient 2;
   EPost 5 "POST" []; EPost 6 "POST" []; EPost 7 "GET" []; EConnect [] (example_nclient "d"); EClient 3; EClient 3;
   ESend 0; ESend 1; ESend 0; ESend 0; ESend 0; ESend 1; ESend 1; ESend 1; ESend 1; ESend 1; ESend 0; ESend 0; ESend 0].

Local Notation notify_run es :=
  (notify_main json_Unmarshal (λ _, example_note) (λ _, throw (Errorf "refused")) notify_defaults (Ok [x01]) [] 0 es
    (fresh_proc (mkNSrv newHub [] []) (λ _, false))).

Lemma example_notify_running :
  ∃ y, notify_run example_notify = (Running, y) ∧ (range (hub_subscribers (nv_hub (pr_world y)))).*2 = [0; 1]%nat ∧
    NClosing 2 ∈ nv_clients (pr_world y) ∧
    ∃ n msg, nv_sends (pr_world y) = [BLook n msg 1 [] 1; BRange n msg [1%nat] 1; BDone (Some (HttpError "POST only" 405))].
Proof.
  exists (notify_run example_notify).2. split; [refine (pair_eq_1 (notify_run example_notify) Running _); by vm_compute|].
  split; [by vm_compute|]. split; [|eexists _, _; vm_compute; reflexivity].
  assert (nv_clients (pr_world (notify_run example_notify).2) !! 2%nat = Some (NClosing 2)) as Hc by by vm_compute.
  by eapply list_elem_of_lookup_2.
Qed.


(** ** Races *)

(** A subscription that arrives while a broadcast looks at the channels: Go's runtime
    kills the process, with all its clients. *)
Example subscription_kills_server :
  (notify_run [EConnect [] (mkMemConn [[x01]; [x03]; x61 :: example_subscribe 1] [] "a"); EClient 0; EClient 0;
     EPost 5 "POST" []; ESend 0; EClient 0]).1 = Gone 2.
Proof. by vm_compute. Qed.

(** Two requests at the same time encrypt for, or write to, one subscriber at the same time. *)
Example broadcasts_race :
  (notify_run [EConnect [] (example_nclient "a"); EClient 0; EClient 0; EPost 5 "POST" []; EPost 6 "POST" [];
     ESend 0; ESend 0; ESend 0; ESend 1; ESend 1; ESend 1]).1 = Gone 2 ∧
  (notify_run [EConnect [] (example_nclient "a"); EClient 0; EClient 0; EPost 5 "POST" []; EPost 6 "POST" [];
     ESend 0; ESend 0; ESend 0; ESend 0; ESend 1; ESend 1; ESend 1; ESend 1; ESend 0; ESend 1]).1 = Gone 2.
Proof. split; by vm_compute. Qed.

(** Without a race, two broadcasts at once: the message that was encrypted second reaches
    the connection first.  The subscriber's cipher state counts messages in the order of
    encryption. *)
Example broadcasts_overtake :
  let sub := mkSubscriber (example_server 0) (mkMemConn [] [] "a") {["*" := true]} "a" in
  let x := mkNSrv (mkHubW {[0%nat := sub]} {["a" := 0%nat]}) [] [BRange example_note [x01] [0%nat] 0; BRange example_note [x02] [0%nat] 0] in
  let es := [ESend 0; ESend 0; ESend 0; ESend 0; ESend 1; ESend 1; ESend 1; ESend 1; ESend 1; ESend 1; ESend 0; ESend 0] in
  let after k := foldl (λ x e, nstep json_Unmarshal None e x) x (take k es) in
  forallb (λ k, bool_decide (race_free (after k))) (seq 0 13) = true ∧
  (mem_out ∘ sub_conn) <$> (hub_store (nv_hub (after 12%nat)) !! 0%nat) = Some [[x62; x02]; [x62; x01]].
Proof. split; by vm_compute. Qed.
