(* ===== verification/Core.v ===== *)
(** * The core package

    [proto-core/config.go] and [proto-core/hooks.go]: the configuration of the framework
    and the hooks that an application may set, with the adapters that do nothing. *)
From S2P Require Import Prelude SessionMachine Wire Conn GatewayMain.

Local Open Scope Z_scope.

(** ** config.go *)

Module Core.

Record Config := mkConfig {
  WebSocketAddr : string;
  QUICAddr : string;
  GRPCAddr : string;
  RedisAddr : string;
  PgDSN : string;
  OTLPEndpoint : string;
  ServiceName : string;
  ServiceVersion : string;
  TLSCertFile : string;
  TLSKeyFile : string;
  Session : SessionMachine.Config;
  HandshakeTimeout : Z;
  MaxPayloadSize : Z;
}.

Definition DefaultConfig : Config :=
  mkConfig ":8080" ":8443" ":9000" "localhost:6379" "" "localhost:4317" "proto-core" "1.0.0" "" "" SessionMachine.DefaultConfig
    (30 * Second) 65536.

(** ** hooks.go *)

(** The interfaces, for an application with state [W]. *)
Class MessageHandler (T W : Type) := { HandleMessage : T → slice → slice → M W unit }.

Class SessionHook (T W : Type) := {
  OnCreate : T → SessionMachine.Session → M W unit;
  OnActive : T → SessionMachine.Session → M W unit;
  OnExpire : T → slice → M W unit;
}.

Class TransportHook (T N W : Type) := {
  OnConnect : T → N → M W unit;
  OnDisconnect : T → N → option error → M W unit;
}.

Record MessageHandlerFunc (W : Type) := mkMessageHandlerFunc { handler_func : slice → slice → M W unit }.
Arguments handler_func {W} _.

#[export] Instance MessageHandlerFunc_handler {W} : MessageHandler (MessageHandlerFunc W) W := {|
  HandleMessage f sessionID payload := handler_func f sessionID payload;
|}.

Inductive NoopSessionHook := noop_session_hook.

#[export] Instance NoopSessionHook_hook {W} : SessionHook NoopSessionHook W := {|
  OnCreate _ _ := mret tt;
  OnActive _ _ := mret tt;
  OnExpire _ _ := mret tt;
|}.

Inductive NoopTransportHook := noop_transport_hook.

#[export] Instance NoopTransportHook_hook {N W} : TransportHook NoopTransportHook N W := {|
  OnConnect _ _ := mret tt;
  OnDisconnect _ _ _ := mret tt;
|}.

(** The defaults of the framework are those of the gateway, and a payload of the largest
    size still fits into a message of a QUIC connection. *)
Lemma defaults_agree :
  WebSocketAddr DefaultConfig = gf_ws gateway_defaults ∧ QUICAddr DefaultConfig = gf_quic gateway_defaults ∧
  OTLPEndpoint DefaultConfig = gf_otlp gateway_defaults ∧
  ∀ m : bytes, Z.of_nat (length m) ≤ MaxPayloadSize DefaultConfig → quic_fits m.
Proof. done. Qed.

End Core.
