(* ===== verification/EndToEnd.v ===== *)
(** * From one client to another

    The whole path of a direct message: a client of the Go SDK sends it over an encrypted
    connection, the gateway hands it to the dispatcher and acknowledges it, a relay
    publishes it, the sync service stores it and the recipient gets it with the messages
    missed while offline.  The theorem composes [Sdk], [Gateway], [Delivery] and
    [OfflineSync]. *)
From S2P Require Import Prelude Bytes Redis Postgres Kafka Messages Grpc Outbox Dispatcher.
From S2P Require Import Inbox SyncHandler OfflineSync Delivery Wire Noise Conn Gateway Sdk.

Local Open Scope Z_scope.

(** ** The dispatcher process as the gateway sees it *)

(** A state [D] of the processes behind the RPC: the outbox and Kafka with the relays at
    work ([dp_world]), and the call of [Dispatch]. *)
Class DispatcherProcess (D P K : Type) := {
  dp_world : D → Outbox.RelayW P K * list Outbox.relay_pc;
  dp_Dispatch : slice → slice → AppMessage → M D slice;
}.

Section process.
Context {D P K Ctx : Type} `{PgPool P Outbox.db} `{SqlOrder} `{KafkaCluster K} `{Propagator Ctx} `{AppCodec}.
Context `{DispatcherProcess D P K}.

(** While a call is under way relays and other clients go on.  A call that returns an
    id has been answered by the handler, at some point in between; one that returns an
    error may have been answered or not. *)
Definition answered (sender : slice) (m : AppMessage) (ack : slice) (x y : Outbox.RelayW P K * list Outbox.relay_pc) : Prop :=
  ∃ w pcs now ok p', rtc Outbox.outbox_step x (w, pcs) ∧
    DispatcherServer_Dispatch now sender (Some m) (Outbox.rl_pg w) = (Ok (ok, ack), p') ∧
    rtc Outbox.outbox_step (Outbox.mkRelayW p' (Outbox.rl_kafka w), pcs) y.

End process.

Class DispatcherProcessLaws (D P K Ctx : Type) `{PgPool P Outbox.db} `{SqlOrder} `{KafkaCluster K} `{Propagator Ctx}
    `{AppCodec} `{DispatcherProcess D P K} : Prop := {
  dp_Dispatch_spec sid sender m d r d' :
    dp_Dispatch sid sender m d = (r, d') →
    match r with
    | Ok ack => answered sender m ack (dp_world d) (dp_world d')
    | Err _ => rtc Outbox.outbox_step (dp_world d) (dp_world d')
    | Panic _ => False
    end;
}.

(** The frame in which a client sends a message. *)
Record framed_message `{AppCodec} `{FrameCodec} (m : AppMessage) (payload pt : bytes) : Prop := {
  fm_payload : app_marshal m = Ok payload;
  fm_nonempty : payload ≠ [];
  fm_frame : ∃ f, canonical_frame f ∧ fr_EncryptedPayload f = Some payload ∧ frame_marshal f = Ok pt;
}.

(** ** Lemmas *)

Section steps.
Context {D P K Ctx : Type} `{DispatcherProcessLaws D P K Ctx} `{FrameCodec}.
Implicit Types (d : D) (x y z : Outbox.RelayW P K * list Outbox.relay_pc).

(** A call of the handler inserts at most once. *)
Lemma dispatch_steps now sender m (p p' : P) (k : K) pcs r :
  DispatcherServer_Dispatch now sender (Some m) p = (r, p') →
  rtc Outbox.outbox_step (Outbox.mkRelayW p k, pcs) (Outbox.mkRelayW p' k, pcs).
Proof.
  unfold DispatcherServer_Dispatch, Dispatcher_Dispatch. intros E. step E as r1 p1 E1.
  assert (p' = p1) as -> by (destruct r1; unfold mret, M_ret in E; by injection E). clear E.
  apply status_wrap_inv in E1 as (r0 & E1 & _). step E1 as r2 p2 E2.
  assert (p2 = p) as -> by (apply wrap_inv in E2 as (? & E2 & _); by injection E2).
  destruct r2 as [route| |]; [|injection E1 as _ <-; apply rtc_refl..].
  step E1 as r3 p3 E3. assert (p3 = p) as -> by (apply wrap_inv in E3 as (? & E3 & _); by injection E3).
  destruct r3 as [payload| |]; [|injection E1 as _ <-; apply rtc_refl..].
  apply wrap_inv in E1 as (r4 & E1 & _). eapply rtc_once, Outbox.step_insert.
  unfold Outbox.on_pg, zoom. simpl. by rewrite E1.
Qed.

Lemma answered_steps sender m ack x y : answered sender m ack x y → rtc Outbox.outbox_step x y.
Proof.
  intros (w & pcs & now & ok & p' & Hx & Ed & Hy). etrans; [exact Hx|]. destruct w as [p k].
  etrans; [eapply dispatch_steps, Ed|exact Hy].
Qed.

Lemma answered_mono sender m ack x x' y y' :
  rtc Outbox.outbox_step x x' → answered sender m ack x' y' → rtc Outbox.outbox_step y' y → answered sender m ack x y.
Proof.
  intros Hx (w & pcs & now & ok & p' & ? & ? & ?) Hy. exists w, pcs, now, ok, p'. split_and!; [by etrans|done|by etrans].
Qed.

(** What the answer to a message says: unless it is an echo, the dispatcher has
    answered. *)
Lemma reply_answered addr pt d acked b d' :
  reply (Some dp_Dispatch) addr pt d = (Ok (acked, b), d') →
  rtc Outbox.outbox_step (dp_world d) (dp_world d') ∧
  (b ≠ echo pt → ∃ frame m ack, parse pt = Ok (Some (frame, m)) ∧
     answered (fr_SessionId frame) m ack (dp_world d) (dp_world d')).
Proof.
  unfold reply. intros E. step E as r1 d1 E1. unfold lift in E1. injection E1 as <- <-.
  destruct (parse pt) as [[[frame m]|]|e|why]; [|unfold mret, M_ret in E; by injection E as <- <- <-|done..].
  step E as r2 d2 E2. unfold attempt in E2. destruct (dp_Dispatch _ _ _ d) as [rd d3] eqn:Ed.
  apply dp_Dispatch_spec in Ed. destruct rd as [ack|e|why]; [| |done]; injection E2 as <- <-.
  - step E as r3 d4 E3. assert (d4 = d3 ∧ ∃ v, r3 = Ok v) as [-> [v ->]].
    { unfold attempt, lift in E3. destruct (app_marshal _); injection E3 as <- <-; [by eauto|by eauto|done]. }
    unfold mret, M_ret in E. injection E as _ _ <-. split; [by eapply answered_steps|]. eauto.
  - unfold mret, M_ret in E. by injection E as _ <- <-.
Qed.

Lemma reply_all_steps addr ps d rs d' :
  reply_all (Some dp_Dispatch) addr ps d = (Ok rs, d') → rtc Outbox.outbox_step (dp_world d) (dp_world d').
Proof.
  revert d rs. induction ps as [|pt ps IH]; intros d rs E; simpl in E.
  { unfold mret, M_ret in E. by injection E as _ <-. }
  apply bind_Ok_inv in E as ([acked b] & d1 & E1 & E). apply bind_Ok_inv in E as (rs' & d2 & E2 & E).
  unfold mret, M_ret in E. injection E as _ <-. etrans; [by eapply reply_answered|by eapply IH].
Qed.

(** The message number [i] of a connection, when its answer is not an echo. *)
Lemma reply_all_answered addr ps d rs d' i pt b :
  reply_all (Some dp_Dispatch) addr ps d = (Ok rs, d') → ps !! i = Some pt → rs !! i = Some b → b ≠ echo pt →
  ∃ frame m ack, parse pt = Ok (Some (frame, m)) ∧ answered (fr_SessionId frame) m ack (dp_world d) (dp_world d').
Proof.
  revert d rs i. induction ps as [|q ps IH]; intros d rs i E Hp Hr Hne; simpl in E; [done|].
  apply bind_Ok_inv in E as ([acked b0] & d1 & E1 & E). apply bind_Ok_inv in E as (rs' & d2 & E2 & E).
  unfold mret, M_ret in E. injection E as <- <-. apply reply_answered in E1 as [Hs Ha]. destruct i as [|i]; simplify_eq/=.
  - destruct (Ha Hne) as (frame & m & ack & ? & ?). exists frame, m, ack. split; [done|].
    eapply answered_mono; [reflexivity|done|by eapply reply_all_steps].
  - destruct (IH _ _ _ E2 Hp Hr Hne) as (frame & m & ack & ? & ?). exists frame, m, ack. split; [done|].
    by eapply answered_mono.
Qed.

End steps.

Lemma framed_parse `{AppCodecLaws} `{FrameCodecLaws} m payload pt :
  canonical m → framed_message m payload pt → ∃ frame, parse pt = Ok (Some (frame, m)).
Proof.
  intros Hm [Hp Hne (f & Hf & Hpay & Hb)]. exists f. unfold parse. rewrite (frame_roundtrip _ _ Hf Hb), Hpay. simpl.
  rewrite (app_roundtrip _ _ Hm Hp). by destruct payload.
Qed.

(** A row of the inbox is among the messages the user has missed. *)
Lemma row_missed `{SqlOrderLaws} (d : Inbox.db) (id t : Z) (r : Inbox.row) (u mid : bytes) :
  Inbox.rows d !! id = Some r → Inbox.is_row u mid r → t < Inbox.row_created_at r →
  Inbox.entry_of_row id r ∈ missed (Some u) t d.
Proof.
  intros Hr [Hu _] Ht. unfold missed. rewrite order_by_perm. apply list_elem_of_filter. split.
  - split; [|done]. split; [done|]. simpl. by rewrite Hu.
  - unfold Inbox.entries. apply list_elem_of_fmap. exists (id, r). split; [done|]. by apply elem_of_map_to_list.
Qed.

(** What the recipient gets of a message that the dispatcher has accepted. *)
Lemma delivered_to_inbox {P K Ctx C I Q} `{PgLaws P Outbox.db} `{SqlOrderLaws} `{KafkaLaws K} `{Propagator Ctx}
    `{AppCodecLaws} `{RedisLaws C} `{PgLaws I Inbox.db} `{PushLaws Q}
    (m : AppMessage) (mid sender recipient : bytes) (now : Z) (caller : slice) (w0 w : Outbox.RelayW P K) (p' : P)
    (ack : bool * slice) (pcs0 pcs : list Outbox.relay_pc) :
  direct_chat m mid sender recipient →
  DispatcherServer_Dispatch now caller (Some m) (Outbox.rl_pg w0) = (Ok ack, p') →
  Outbox.system_ok (w0, pcs0) →
  rtc Outbox.outbox_step (Outbox.mkRelayW p' (Outbox.rl_kafka w0), pcs0) (w, pcs) →
  ∃ row, Outbox.rows (Outbox.table w) !! Outbox.next_id (pgdata (Outbox.rl_pg w0)) = Some row ∧
    Outbox.row_message_id row = mid ∧
    (Outbox.row_status row = Outbox.StatusPublished →
     ∃ rec, rec ∈ Outbox.records w ∧ pm_Topic rec = UserTopic recipient ∧ pm_Key rec = Some recipient ∧
       ∀ t cm (u u' : SyncW C I Q),
         cm_Value cm = pm_Value rec →
         live t (rdata (sy_redis u)) (dedupKey recipient mid) = None →
         (∀ j r, Inbox.rows (pgdata (sy_pg u)) !! j = Some r → ¬ Inbox.is_row recipient mid r) →
         Handler_Handle t cm u = (Ok tt, u') →
         ∃ entry, Inbox.UserID entry = Some recipient ∧ Inbox.MessageID entry = Some mid ∧
           Inbox.SenderID entry = Some sender ∧ app_unmarshal (sbytes (Inbox.Payload entry)) = Ok m ∧
           ∀ t0, t0 < Inbox.CreatedAt entry → entry ∈ missed (Some recipient) t0 (pgdata (sy_pg u'))).
Proof.
  intros Hdc Edisp Hok Hsteps. destruct w0 as [p0 k0]. simpl in *.
  assert (Outbox.system_ok (Outbox.mkRelayW p' k0, pcs0)) as Hok'.
  { eapply Outbox.outbox_steps_ok; [exact Hok|]. by eapply dispatch_steps. }
  destruct (dispatched_published _ _ _ _ _ _ _ _ _ _ _ _ _ Hdc Edisp Hok' Hsteps) as (row & payload & Hpay & Hrow & Hmid & Hpub).
  exists row. split_and!; [done..|]. intros (rec & Hin & Ht & Hk & Hv)%Hpub. exists rec. split_and!; [done..|].
  intros t cm u u' Hcm Hl Hnew Eh. rewrite Hv in Hcm.
  destruct (record_stored _ _ _ _ _ _ _ _ _ Hdc Hpay Hcm Hl Eh) as (id & r & Hr & Hir & [Hold|[Hsnd Hdec]]).
  { by apply Hnew in Hold. }
  exists (Inbox.entry_of_row id r). destruct Hir as [Hu Hm]. simpl. split_and!; [by f_equal..|done|].
  intros t0 Ht0. by eapply row_missed.
Qed.

(** ** Property *)

(** C1: from one client to another.  A client of the SDK and the gateway talk to each
    other over connections that deliver what the other side writes; behind the gateway
    the dispatcher, any number of relays and other clients are at work.  When the
    answer that the client gets to a direct message is not an echo of it, the message
    has a row in the outbox from then on, whatever calls fail; once that row is marked
    published Kafka holds the message in the topic of its recipient; a sync service
    that accepts this record and had not stored the message before puts it, decoded as
    it was sent, into the recipient's inbox; and an offline synchronisation that succeeds,
    with pages of at least one message, from an earlier message of the recipient on hands
    it out, provided that no two messages of the recipient's inbox have the same time and
    none has an empty id, which the pages use as cursors. *)
Theorem acknowledged_message_arrives {N Nc E D P K Ctx C I Q}
    `{ConnLaws N} `{!ReliableConn N} `{Transport Nc} `{!ConnLaws Nc} `{!ReliableConn Nc} `{SdkEnv E Nc} `{NoiseLaws}
    `{AppCodecLaws} `{FrameCodecLaws} `{PgLaws P Outbox.db} `{SqlOrderLaws} `{KafkaLaws K} `{Propagator Ctx}
    `{DispatcherProcess D P K} `{!DispatcherProcessLaws D P K Ctx} `{RedisLaws C} `{PgLaws I Inbox.db} `{PushLaws Q}
    (es entropy m1 m2 m3 : bytes) (ks : KeyPair) (c c1 s s' : NoiseSession) (client : Client Nc)
    (ps cts rs encs : list bytes) (n : N) (nc : Nc) (d d' : D) (e e1 e2 : E) (fuel i : nat)
    (m : AppMessage) (mid sender recipient payload pt b : bytes) :
  (* the conversation *)
  client0 m1 m2 m3 c (ClientHandshake entropy (cl_key client)) →
  server0 m1 m2 m3 s (ServerHandshake es ks) → paired c s →
  encrypt_seq ps c = (Ok cts, c1) → reply_all (Some dp_Dispatch) (conn_RemoteAddr n) ps d = (Ok rs, d') →
  encrypt_seq rs s = (Ok encs, s') →
  dial (cl_config client) e = (Ok nc, e1) → env_entropy e1 = (entropy, e2) →
  conn_unread n (m1 :: m3 :: cts) → conn_wrote n [] → conn_unread nc (m2 :: encs) → conn_wrote nc [] →
  Forall (conn_fits (N:=N)) (m2 :: encs) → Forall (conn_fits (N:=Nc)) (m1 :: m3 :: cts) → (length ps < fuel)%nat →
  (* the message and its answer *)
  direct_chat m mid sender recipient → framed_message m payload pt →
  ps !! i = Some pt → rs !! i = Some b → b ≠ echo pt → Outbox.system_ok (dp_world d) →
  (∃ n', handleConn (Some dp_Dispatch) fuel es ks (n, d) = (Ok tt, (n', d'))) ∧
  (∃ client', (Client_Connect ;; send_all ps ;; receive_all (length rs)) (client, e) = (Ok rs, client')) ∧
  ∃ id, ∀ w pcs, rtc Outbox.outbox_step (dp_world d') (w, pcs) →
    ∃ row, Outbox.rows (Outbox.table w) !! id = Some row ∧ Outbox.row_message_id row = mid ∧
      (Outbox.row_status row = Outbox.StatusPublished →
       ∃ rec, rec ∈ Outbox.records w ∧ pm_Topic rec = UserTopic recipient ∧ pm_Key rec = Some recipient ∧
         ∀ t cm (u u' : SyncW C I Q),
           cm_Topic cm = pm_Topic rec → cm_Value cm = pm_Value rec →
           live t (rdata (sy_redis u)) (dedupKey recipient mid) = None →
           (∀ j r, Inbox.rows (pgdata (sy_pg u)) !! j = Some r → ¬ Inbox.is_row recipient mid r) →
           Handler_Handle t cm u = (Ok tt, u') →
           ∃ entry, Inbox.UserID entry = Some recipient ∧ Inbox.MessageID entry = Some mid ∧
             Inbox.SenderID entry = Some sender ∧ app_unmarshal (sbytes (Inbox.Payload entry)) = Ok m ∧
             ∀ pageSize k cursor t0 q sent,
               0 < pageSize → Inbox.inbox_ok (pgdata (sy_pg u')) → distinct_times (Some recipient) (pgdata (sy_pg u')) →
               cursors_ok (Some recipient) (pgdata (sy_pg u')) → slen cursor ≠ 0%nat →
               Inbox.created_at_of (Some recipient) cursor (pgdata (sy_pg u')) = Some t0 → t0 < Inbox.CreatedAt entry →
               (length (missed (Some recipient) t0 (pgdata (sy_pg u'))) < k)%nat →
               OfflineSync_GetMissedMessagesPaginated pageSize collect k (Some recipient) cursor (sy_pg u', []) =
                 (Ok tt, (q, sent)) →
               entry ∈ sent).
Proof.
  intros Hc Hs Hp Ep Er Ee Ed Een Hu Hw Hun Hwn Hf Hfc Hfuel Hdc Hfm Hpt Hb Hne Hok.
  destruct (sdk_talks (Some dp_Dispatch) _ _ _ _ _ _ _ _ _ _ _ _ _ _ _ _ _ _ _ _ _ _ _
    Hc Hs Hp Ep Er Ee Ed Een Hu Hw Hun Hwn Hf Hfc Hfuel) as [(n' & Egw & _) (nc' & c2 & Ecl & _)].
  split; [by eauto|split; [by eauto|]].
  destruct (reply_all_answered _ _ _ _ _ _ _ _ Er Hpt Hb Hne) as (f & m' & ack & Hparse & Ha).
  destruct (framed_parse _ _ _ (dc_canonical _ _ _ _ Hdc) Hfm) as [f' Hparse']. rewrite Hparse in Hparse'. injection Hparse' as -> ->.
  destruct Ha as (w0 & pcs0 & now & ok & p' & Hbefore & Edisp & Hafter).
  exists (Outbox.next_id (pgdata (Outbox.rl_pg w0))). intros w pcs Hsteps.
  destruct (delivered_to_inbox (C:=C) (I:=I) (Q:=Q) _ _ _ _ _ _ w0 w _ _ pcs0 pcs Hdc Edisp) as (row & Hrow & Hid & Hpub);
    [by eapply Outbox.outbox_steps_ok|by etrans|].
  exists row. split_and!; [done..|]. intros (rec & Hin & Ht & Hk & Hrec)%Hpub. exists rec. split_and!; [done..|].
  intros t cm u u' _ Hv Hl Hnew Eh. destruct (Hrec _ _ _ _ Hv Hl Hnew Eh) as (entry & ? & ? & ? & ? & Hmiss).
  exists entry. split_and!; [done..|]. intros pageSize k cursor t0 q sent Hn Hin' Hdist Hcur Hcu Ht0 Hlt Hk' Epag.
  eapply paginate_spec in Epag as ->; [|done..]. by apply Hmiss.
Qed.

(** ** Witness *)

(** A dispatcher process whose relay is idle during the calls. *)
#[export] Instance quiet_process {P K} `{PgPool P Outbox.db} `{AppCodec} : DispatcherProcess (Outbox.RelayW P K) P K := {
  dp_world w := (w, [Outbox.RIdle]);
  dp_Dispatch _ sender m := Outbox.on_pg (resp ← DispatcherServer_Dispatch 7 sender (Some m); mret resp.2);
}.

#[export] Instance quiet_process_laws {P K Ctx} `{PgLaws P Outbox.db} `{SqlOrder} `{KafkaCluster K} `{Propagator Ctx}
    `{AppCodecLaws} : DispatcherProcessLaws (Outbox.RelayW P K) P K Ctx.
Proof.
  split. intros sid sender m [p k] r d'. cbn [dp_Dispatch quiet_process]. unfold Outbox.on_pg, zoom, mbind, M_bind, mret, M_ret.
  cbn [Outbox.rl_pg Outbox.rl_kafka]. destruct (DispatcherServer_Dispatch 7 sender (Some m) p) as [r0 p'] eqn:E.
  destruct r0 as [[ok ack]|e|why]; intros [= <- <-].
  - exists (Outbox.mkRelayW p k), [Outbox.RIdle], 7, ok, p'. split_and!; [reflexivity|done|reflexivity].
  - by eapply dispatch_steps.
  - by apply DispatcherServer_Dispatch_spec in E.
Qed.

#[local] Existing Instance toy_noise.
#[local] Existing Instance toy_noise_laws.
#[local] Existing Instance toy_app_codec.
#[local] Existing Instance toy_app_codec_laws.
#[local] Existing Instance toy_frame_codec.
#[local] Existing Instance toy_frame_codec_laws.

Definition example_backend : Outbox.RelayW (MemPg Outbox.db) MemKafka :=
  Outbox.mkRelayW example_outbox (mkMemKafka ∅ [] []).

Lemma example_framed_message : framed_message direct (encoded direct) example_plain.
Proof.
  split; [reflexivity|by vm_compute|]. exists (mkFrame (Some [x02]) 1 0 (Some (encoded direct))).
  split; [|split; [done|vm_compute; reflexivity]].
  unfold canonical_frame, canonical_slice, is_uint64. simpl. split_and!; try done; try lia; by vm_compute.
Qed.

Lemma example_backend_ok : Outbox.system_ok (dp_world example_backend).
Proof. split; [split; apply map_Forall_empty|by repeat constructor]. Qed.

(** The conversation of the example, as far as the answers. *)
Lemma example_answers :
  reply_all (Some dp_Dispatch) "peer" [example_plain; [x68]] example_backend =
  (Ok [example_ack; echo [x68]], Outbox.mkRelayW dispatched (mkMemKafka ∅ [] [])).
Proof. vm_compute. reflexivity. Qed.

(** The relay takes the row, publishes it and marks it. *)
Lemma example_published :
  ∃ w pcs, rtc Outbox.outbox_step (Outbox.mkRelayW dispatched (mkMemKafka ∅ [] []), [Outbox.RIdle]) (w, pcs) ∧
    Outbox.rows (Outbox.table w) = {[ 1 := Outbox.set_published 9 dispatched_row ]} ∧
    Outbox.records w = [Outbox.sent (Outbox.entry_of_row 1 dispatched_row)].
Proof.
  eexists _, _. split; [|split].
  - eapply rtc_l; [apply (Outbox.step_relay 0 Outbox.RIdle
                            (Outbox.RWork [Outbox.entry_of_row 1 dispatched_row]) 9 100); reflexivity|].
    eapply rtc_l; [eapply (Outbox.step_relay 0 _ _ 9 100); reflexivity|].
    eapply rtc_l; [eapply (Outbox.step_relay 0 _ _ 9 100); reflexivity|]. apply rtc_refl.
  - reflexivity.
  - reflexivity.
Qed.

Lemma acknowledged_message_arrives_witness :
  ∃ entry u',
    Handler_Handle 5 (example_record direct "user-0a") (sync_world []) = (Ok tt, u') ∧
    Inbox.MessageID entry = Some [x01] ∧ app_unmarshal (sbytes (Inbox.Payload entry)) = Ok direct.
Proof.
  destruct example_published as (w & pcs & Hsteps & Hrows & Hrecs).
  pose proof example_fits as Hf. rewrite !Forall_cons in Hf. destruct Hf as (Hf1 & Hf2 & Hf3 & Hf4 & _).
  assert (Hfs : Forall quic_fits [[x02]; x62 :: example_ack; x62 :: echo [x68]]) by (by repeat (apply Forall_cons; split; [done|])).
  assert (Hfc : Forall quic_fits [[x01]; [x03]; x61 :: example_plain; [x61; x68]]) by (by repeat (apply Forall_cons; split; [done|])).
  destruct (acknowledged_message_arrives (N:=QUICConn chunks) (Nc:=quicTransport chunks) (D:=Outbox.RelayW (MemPg Outbox.db) MemKafka)
    (C:=MemRedis) (I:=MemPg Inbox.db) (Q:=list (slice * AppMessage))
    [] [] [x01] [x02] [x03] toy_key (example_client 0) (example_client 2) (example_server 0) (example_server 2) example_sdk.1
    [example_plain; [x68]] [x61 :: example_plain; [x61; x68]] [example_ack; echo [x68]] [x62 :: example_ack; x62 :: echo [x68]]
    (example_conn [[x01]; [x03]; x61 :: example_plain; [x61; x68]])
    (example_transport [[x02]; x62 :: example_ack; x62 :: echo [x68]]) example_backend
    (Outbox.mkRelayW dispatched (mkMemKafka ∅ [] [])) example_sdk.2 (mkToyEnv [] [None]) (mkToyEnv [] [None]) 3 0
    direct [x01] [x02] [x0a] (encoded direct) example_plain example_ack) as (_ & _ & id & Harr).
  - apply example_stages.
  - apply example_stages.
  - split; reflexivity.
  - reflexivity.
  - rewrite example_conn_addr. exact example_answers.
  - reflexivity.
  - reflexivity.
  - reflexivity.
  - by apply example_conn_unread.
  - reflexivity.
  - by apply example_transport_unread, quic_sdk_fits.
  - reflexivity.
  - exact Hfs.
  - by apply quic_sdk_fits.
  - simpl. lia.
  - exact direct_is_direct.
  - exact example_framed_message.
  - reflexivity.
  - reflexivity.
  - by vm_compute.
  - exact example_backend_ok.
  - destruct (Harr w pcs Hsteps) as (row & Hrow & Hid & Hpub).
    destruct (Handler_Handle 5 (example_record direct "user-0a") (sync_world [])) as [r u'] eqn:Eh.
    assert (r = Ok tt) as -> by (change r with (r, u').1; rewrite <-Eh; vm_compute; reflexivity).
    rewrite Hrows in Hrow. apply lookup_singleton_Some in Hrow as [<- <-].
    destruct (Hpub eq_refl) as (rec & Hin & _ & _ & Hhandle). rewrite Hrecs in Hin. apply list_elem_of_singleton in Hin as ->.
    destruct (Hhandle 5 (example_record direct "user-0a") (sync_world []) u' eq_refl eq_refl direct_unseen) as (entry & _ & ? & _ & ? & _);
      [by intros j r0 Hr0|exact Eh|]. exists entry, u'. split_and!; done.
Defined.
