(* ===== verification/Ports.v ===== *)
(** * The starters in other languages

    [starters/{rust,python,node,java,dotnet,php}]: six ports of the session machine and
    of the symmetric encryption of [proto-core], written for clients and servers that
    are to talk to the Go ones.  Each is modelled the way it is written (a match, tables
    by pair or by string, a table built on first use) and compared with the Go code in
    [SessionMachine] and [Crypto].  The cryptographic primitives are the same parameters
    as there: every language's library implements the same ciphers. *)
From S2P Require Import Prelude Bytes Crypto SenderKeys SessionMachine Float64.

Local Open Scope Z_scope.

(** ** The session machine *)

Inductive PStatus := Connecting | Active | Sleeping | Expired.
Inductive PEvent := HandshakeOK | HandshakeFail | PacketReceived | IdleTimeout | ExpiryTimeout | ExplicitLogout.

#[export] Instance PStatus_eq_dec : EqDecision PStatus.
Proof. solve_decision. Defined.
#[export] Instance PEvent_eq_dec : EqDecision PEvent.
Proof. solve_decision. Defined.

(** The string values of the enumerations. *)
Definition status_value (s : PStatus) : string :=
  match s with Connecting => "connecting" | Active => "active" | Sleeping => "sleeping" | Expired => "expired" end.

Definition event_value (e : PEvent) : string :=
  match e with
  | HandshakeOK => "handshake_ok"
  | HandshakeFail => "handshake_fail"
  | PacketReceived => "packet_received"
  | IdleTimeout => "idle_timeout"
  | ExpiryTimeout => "expiry_timeout"
  | ExplicitLogout => "explicit_logout"
  end.

Record TransitionResult := mkTransition { tr_next : PStatus; tr_destroyed : bool }.

(** The exception or error of an illegal pair; its text names status and event, spelled
    by each language in its own way. *)
Definition InvalidTransition (s : PStatus) (e : PEvent) : error := Errorf "invalid transition: %s + %s".

Definition rust_transition (current : PStatus) (event : PEvent) : result TransitionResult :=
  match current, event with
  | Connecting, HandshakeOK => Ok (mkTransition Active false)
  | Connecting, HandshakeFail => Ok (mkTransition Expired true)
  | Active, PacketReceived => Ok (mkTransition Active false)
  | Active, IdleTimeout => Ok (mkTransition Sleeping false)
  | Active, ExplicitLogout => Ok (mkTransition Expired false)
  | Sleeping, PacketReceived => Ok (mkTransition Active false)
  | Sleeping, ExpiryTimeout => Ok (mkTransition Expired false)
  | _, _ => Err (InvalidTransition current event)
  end.

(** A dictionary literal and a lookup in it; a later entry replaces an earlier one. *)
Definition dict_get {K V} `{EqDecision K} (d : list (K * V)) (k : K) : option V :=
  foldl (λ found kv, if decide (kv.1 = k) then Some kv.2 else found) None d.

Definition python_TRANSITIONS : list ((PStatus * PEvent) * TransitionResult) := [
  ((Connecting, HandshakeOK), mkTransition Active false);
  ((Connecting, HandshakeFail), mkTransition Expired true);
  ((Active, PacketReceived), mkTransition Active false);
  ((Active, IdleTimeout), mkTransition Sleeping false);
  ((Active, ExplicitLogout), mkTransition Expired false);
  ((Sleeping, PacketReceived), mkTransition Active false);
  ((Sleeping, ExpiryTimeout), mkTransition Expired false)
].

Definition python_transition (current : PStatus) (event : PEvent) : result TransitionResult :=
  match dict_get python_TRANSITIONS (current, event) with
  | None => Err (InvalidTransition current event)
  | Some r => Ok (mkTransition (tr_next r) (tr_destroyed r))
  end.

(** [`${current}:${event}`] *)
Definition transition_key (s : PStatus) (e : PEvent) : string := status_value s +:+ ":" +:+ event_value e.

Definition node_transitions : list (string * TransitionResult) := [
  (transition_key Connecting HandshakeOK, mkTransition Active false);
  (transition_key Connecting HandshakeFail, mkTransition Expired true);
  (transition_key Active PacketReceived, mkTransition Active false);
  (transition_key Active IdleTimeout, mkTransition Sleeping false);
  (transition_key Active ExplicitLogout, mkTransition Expired false);
  (transition_key Sleeping PacketReceived, mkTransition Active false);
  (transition_key Sleeping ExpiryTimeout, mkTransition Expired false)
].

Definition node_transition (current : PStatus) (event : PEvent) : result TransitionResult :=
  match dict_get node_transitions (transition_key current event) with
  | None => Err (InvalidTransition current event)
  | Some r => Ok r
  end.

Definition java_TRANSITIONS : list ((PStatus * PEvent) * TransitionResult) := [
  ((Connecting, HandshakeOK), mkTransition Active false);
  ((Connecting, HandshakeFail), mkTransition Expired true);
  ((Active, PacketReceived), mkTransition Active false);
  ((Active, IdleTimeout), mkTransition Sleeping false);
  ((Active, ExplicitLogout), mkTransition Expired false);
  ((Sleeping, PacketReceived), mkTransition Active false);
  ((Sleeping, ExpiryTimeout), mkTransition Expired false)
].

Definition java_transition (current : PStatus) (event : PEvent) : result TransitionResult :=
  match dict_get java_TRANSITIONS (current, event) with
  | None => Err (InvalidTransition current event)
  | Some r => Ok r
  end.

Definition dotnet_Transitions : list ((PStatus * PEvent) * TransitionResult) := [
  ((Connecting, HandshakeOK), mkTransition Active false);
  ((Connecting, HandshakeFail), mkTransition Expired true);
  ((Active, PacketReceived), mkTransition Active false);
  ((Active, IdleTimeout), mkTransition Sleeping false);
  ((Active, ExplicitLogout), mkTransition Expired false);
  ((Sleeping, PacketReceived), mkTransition Active false);
  ((Sleeping, ExpiryTimeout), mkTransition Expired false)
].

Definition dotnet_Transition (current : PStatus) (ev : PEvent) : result TransitionResult :=
  match dict_get dotnet_Transitions (current, ev) with
  | Some r => Ok r
  | None => Err (InvalidTransition current ev)
  end.

(** The PHP table is a static variable that is filled on first use. *)
Definition php_init : M (list (string * TransitionResult)) unit := λ t,
  match t with
  | [] => (Ok tt, [
      (transition_key Connecting HandshakeOK, mkTransition Active false);
      (transition_key Connecting HandshakeFail, mkTransition Expired true);
      (transition_key Active PacketReceived, mkTransition Active false);
      (transition_key Active IdleTimeout, mkTransition Sleeping false);
      (transition_key Active ExplicitLogout, mkTransition Expired false);
      (transition_key Sleeping PacketReceived, mkTransition Active false);
      (transition_key Sleeping ExpiryTimeout, mkTransition Expired false) ])
  | _ => (Ok tt, t)
  end.

Definition php_lookup (current : PStatus) (event : PEvent) : M (list (string * TransitionResult)) TransitionResult := λ t,
  match dict_get t (transition_key current event) with
  | None => (Err (InvalidTransition current event), t)
  | Some r => (Ok r, t)
  end.

Definition php_transition (current : PStatus) (event : PEvent) : M (list (string * TransitionResult)) TransitionResult :=
  _ ← php_init; php_lookup current event.

(** The defaults of the configuration, in seconds; all six are the same. *)
Record PConfig := mkPConfig {
  idle_timeout_secs : Z;
  expiry_timeout_secs : Z;
  handshake_timeout_secs : Z;
  max_connections : Z;
}.

Definition default_config : PConfig := mkPConfig 300 86400 30 10000.

(** ** Symmetric encryption *)

(** A little-endian 64-bit integer where the language checks its range: [struct.pack],
    [writeBigUInt64LE]. *)
Definition checked_uint64 (seq : Z) : result bytes :=
  if (0 <=? seq) && (seq <? 2 ^ 64) then Ok (PutUint64LE seq) else Err (Errorf "value out of range").

(** [BigInt(x)]: the value of a JavaScript number, which is a binary64; it throws
    unless the number is an integer. *)
Definition BigInt (x : float64) : result Z :=
  match x with
  | S754_zero _ => Ok 0
  | S754_finite s m e =>
      if (0 <=? e) || (Z.pos m mod 2 ^ (- e) =? 0) then
        let n := if 0 <=? e then Z.pos m * 2 ^ e else Z.pos m / 2 ^ (- e) in
        Ok (if s then - n else n)
      else Err (Errorf "RangeError: The number cannot be converted to a BigInt because it is not an integer")
  | _ => Err (Errorf "RangeError: The number cannot be converted to a BigInt because it is not an integer")
  end.

(** What each port offers: sealing and opening with key, session id, sequence number
    and text, and deriving the next key.  The sequence number is an integer of the
    language, which holds those below [p_seq_limit]. *)
Record port := mkPort {
  p_seq_limit : Z;
  p_encrypt : bytes → bytes → Z → bytes → result bytes;
  p_decrypt : bytes → bytes → Z → bytes → result bytes;
  p_rekey : bytes → result bytes;
}.

Definition result_bind {A B} (r : result A) (k : A → result B) : result B :=
  match r with Ok a => k a | Err e => Err e | Panic why => Panic why end.

Section crypto.
Context `{ChaCha20Poly1305} `{HMAC} `{HKDF}.

(** The key check, the same in every port. *)
Definition with_key (key : bytes) (k : result bytes) : result bytes :=
  if bool_decide (length key = 32%nat) then k else Err (Errorf "invalid key size: expected 32").

(** Rust and .NET: [u64] and [ulong]; Java and PHP: signed 64-bit, written as the same
    bytes. *)
Definition rust_build_nonce (seq : Z) : bytes := replicate 4 x00 ++ PutUint64LE seq.
Definition rust_build_aad (session_id : bytes) (seq : Z) : bytes := session_id ++ PutUint64LE seq.

Definition rust_encrypt_aead (key session_id : bytes) (seq : Z) (plaintext : bytes) : result bytes :=
  with_key key (Seal key (rust_build_nonce seq) plaintext (rust_build_aad session_id seq)).
Definition rust_decrypt_aead (key session_id : bytes) (seq : Z) (ciphertext : bytes) : result bytes :=
  with_key key (Open key (rust_build_nonce seq) ciphertext (rust_build_aad session_id seq)).

(** [Hkdf::<Sha256>::new(None, current_key)] and [expand]. *)
Definition rust_rekey (current_key : bytes) : result bytes :=
  hkdf_read current_key [] (bytes_of_string "fproto-rekey") 32.

Definition python_build_nonce (seq : Z) : result bytes := app (replicate 4 x00) <$> checked_uint64 seq.
Definition python_build_aad (session_id : bytes) (seq : Z) : result bytes := app session_id <$> checked_uint64 seq.

Definition python_encrypt_aead (key session_id : bytes) (seq : Z) (plaintext : bytes) : result bytes :=
  with_key key (result_bind (python_build_nonce seq) (λ nonce, result_bind (python_build_aad session_id seq) (λ aad,
    Seal key nonce plaintext aad))).
Definition python_decrypt_aead (key session_id : bytes) (seq : Z) (ciphertext : bytes) : result bytes :=
  with_key key (result_bind (python_build_nonce seq) (λ nonce, result_bind (python_build_aad session_id seq) (λ aad,
    Open key nonce ciphertext aad))).

(** HKDF written out: extract with an empty salt, one block of expansion. *)
Definition python_rekey (current_key : bytes) : result bytes :=
  let prk := hmacSHA256 [] current_key in
  let info := bytes_of_string "fproto-rekey" in
  Ok (take 32 (hmacSHA256 prk (info ++ [x01]))).

(** The sequence number is a JavaScript number: [writeBigUInt64LE(BigInt(seq), ...)]. *)
Definition node_buildNonce (seq : float64) : result bytes :=
  app (replicate 4 x00) <$> result_bind (BigInt seq) checked_uint64.
Definition node_buildAad (sessionId : bytes) (seq : float64) : result bytes :=
  app sessionId <$> result_bind (BigInt seq) checked_uint64.

(** Node's cipher returns text and tag apart, and takes them apart. *)
Definition node_encryptAead (key sessionId : bytes) (seq : float64) (plaintext : bytes) : result bytes :=
  with_key key (result_bind (node_buildNonce seq) (λ nonce, result_bind (node_buildAad sessionId seq) (λ aad,
    result_bind (Seal key nonce plaintext aad) (λ sealed,
      let encrypted := take (length plaintext) sealed in
      let tag := drop (length plaintext) sealed in
      Ok (encrypted ++ tag))))).
(** [setAuthTag] refuses a tag that is not 16 bytes long. *)
Definition node_decryptAead (key sessionId : bytes) (seq : float64) (ciphertext : bytes) : result bytes :=
  with_key key (result_bind (node_buildNonce seq) (λ nonce, result_bind (node_buildAad sessionId seq) (λ aad,
    if (length ciphertext <? 16)%nat then Err (Errorf "Invalid authentication tag length")
    else
      let tag := drop (length ciphertext - 16) ciphertext in
      let data := take (length ciphertext - 16) ciphertext in
      Open key nonce (data ++ tag) aad))).

Definition node_rekey (currentKey : bytes) : result bytes :=
  let prk := hmacSHA256 [] currentKey in
  let info := bytes_of_string "fproto-rekey" in
  Ok (take 32 (hmacSHA256 prk (info ++ [x01]))).

Definition java_buildNonce (seq : Z) : bytes := replicate 4 x00 ++ PutUint64LE seq.
Definition java_buildAad (sessionId : bytes) (seq : Z) : bytes := sessionId ++ PutUint64LE seq.

Definition java_encryptAead (key sessionId : bytes) (seq : Z) (plaintext : bytes) : result bytes :=
  with_key key (Seal key (java_buildNonce seq) plaintext (java_buildAad sessionId seq)).
Definition java_decryptAead (key sessionId : bytes) (seq : Z) (ciphertext : bytes) : result bytes :=
  with_key key (Open key (java_buildNonce seq) ciphertext (java_buildAad sessionId seq)).

(** [new SecretKeySpec(key, ...)] throws on an empty key. *)
Definition SecretKeySpec (key : bytes) : result bytes :=
  if bool_decide (key = []) then Err (Errorf "IllegalArgumentException: Empty key") else Ok key.

Definition java_rekey (currentKey : bytes) : result bytes :=
  result_bind (SecretKeySpec []) (λ k,
  let prk := hmacSHA256 k currentKey in
  result_bind (SecretKeySpec prk) (λ k2,
  let okm := hmacSHA256 k2 (bytes_of_string "fproto-rekey" ++ [x01]) in
  Ok (take 32 (okm ++ replicate 32 x00)))).

Definition dotnet_BuildNonce (seq : Z) : bytes := replicate 4 x00 ++ PutUint64LE seq.
Definition dotnet_BuildAad (sessionId : bytes) (seq : Z) : bytes := sessionId ++ PutUint64LE seq.

Definition dotnet_EncryptAead (key sessionId : bytes) (seq : Z) (plaintext : bytes) : result bytes :=
  with_key key (result_bind (Seal key (dotnet_BuildNonce seq) plaintext (dotnet_BuildAad sessionId seq)) (λ sealed,
    let ciphertext := take (length plaintext) sealed in
    let tag := drop (length plaintext) sealed in
    Ok (ciphertext ++ tag))).
(** [AsSpan(0, n - 16)] throws on a shorter text. *)
Definition dotnet_DecryptAead (key sessionId : bytes) (seq : Z) (ciphertextWithTag : bytes) : result bytes :=
  with_key key
    (if (length ciphertextWithTag <? 16)%nat then Err (Errorf "ArgumentOutOfRangeException")
     else
       let ciphertext := take (length ciphertextWithTag - 16) ciphertextWithTag in
       let tag := drop (length ciphertextWithTag - 16) ciphertextWithTag in
       Open key (dotnet_BuildNonce seq) (ciphertext ++ tag) (dotnet_BuildAad sessionId seq)).

Definition dotnet_Rekey (currentKey : bytes) : result bytes :=
  let prk := hmacSHA256 [] currentKey in
  let info := bytes_of_string "fproto-rekey" in
  Ok (take 32 (hmacSHA256 prk (info ++ [x01]))).

Definition php_buildNonce (seq : Z) : bytes := replicate 4 x00 ++ PutUint64LE seq.
Definition php_buildAad (sessionId : bytes) (seq : Z) : bytes := sessionId ++ PutUint64LE seq.

Definition php_encryptAead (key sessionId : bytes) (seq : Z) (plaintext : bytes) : result bytes :=
  with_key key (Seal key (php_buildNonce seq) plaintext (php_buildAad sessionId seq)).
Definition php_decryptAead (key sessionId : bytes) (seq : Z) (ciphertext : bytes) : result bytes :=
  with_key key (Open key (php_buildNonce seq) ciphertext (php_buildAad sessionId seq)).

Definition php_rekey (currentKey : bytes) : result bytes :=
  let prk := hmacSHA256 [] currentKey in
  let info := bytes_of_string "fproto-rekey" in
  Ok (take 32 (hmacSHA256 prk (info ++ [x01]))).

(** [u64], [int] and [ulong] of Rust, Python (packed into 64 bits) and .NET; [number]
    of Node, in which the sequence number of the other side is the nearest binary64;
    [long] and [int] of Java and PHP. *)
Definition ports : list port := [
  mkPort (2 ^ 64) rust_encrypt_aead rust_decrypt_aead rust_rekey;
  mkPort (2 ^ 64) python_encrypt_aead python_decrypt_aead python_rekey;
  mkPort (2 ^ 53) (λ key sid seq, node_encryptAead key sid (f_of_Z seq))
    (λ key sid seq, node_decryptAead key sid (f_of_Z seq)) node_rekey;
  mkPort (2 ^ 63) java_encryptAead java_decryptAead java_rekey;
  mkPort (2 ^ 64) dotnet_EncryptAead dotnet_DecryptAead dotnet_Rekey;
  mkPort (2 ^ 63) php_encryptAead php_decryptAead php_rekey
].

End crypto.

(** ** Laws *)

(** A sealed text is as long as the plaintext and the tag. *)
Class AeadTag `{ChaCha20Poly1305} : Prop := {
  Seal_length k n p a c : Seal k n p a = Ok c → length c = (length p + 16)%nat;
}.

(** RFC 5869: HKDF with an empty salt, for one block of output. *)
Class HKDFviaHMAC `{HKDF} `{HMAC} : Prop := {
  hkdf_one_block secret info : hkdf_read secret [] info 32 = Ok (hmacSHA256 (hmacSHA256 [] secret) (info ++ [x01]));
}.

(** ** Lemmas *)

Definition go_event (e : PEvent) : Event :=
  match e with
  | HandshakeOK => EventHandshakeOK
  | HandshakeFail => EventHandshakeFail
  | PacketReceived => EventPacketReceived
  | IdleTimeout => EventIdleTimeout
  | ExpiryTimeout => EventExpiryTimeout
  | ExplicitLogout => EventExplicitLogout
  end.

(** The transition functions, the PHP one on the table that has not been filled. *)
Definition port_transitions : list (PStatus → PEvent → result TransitionResult) := [
  rust_transition; python_transition; node_transition; java_transition; dotnet_Transition;
  λ s e, (php_transition s e []).1
].

Lemma with_key_32 key k : length key = 32%nat → with_key key k = k.
Proof. intros Hk. unfold with_key. by rewrite bool_decide_true. Qed.

Lemma checked_uint64_ok seq : 0 ≤ seq < 2 ^ 64 → checked_uint64 seq = Ok (PutUint64LE seq).
Proof.
  intros Hs. unfold checked_uint64.
  destruct (Z.leb_spec 0 seq), (Z.ltb_spec seq (2 ^ 64)); (done || lia).
Qed.

(** JavaScript numbers hold the integers below 2^53. *)
Lemma BigInt_exact seq : 0 ≤ seq < 2 ^ 53 → BigInt (f_of_Z seq) = Ok seq.
Proof.
  intros [H0 H1]. destruct seq as [|m|]; [done| |lia]. rewrite f_of_Z_exact by done.
  pose proof (f_trunc_exact m H1) as Ht. unfold exact_float, f_trunc, BigInt in *.
  assert ((0 <=? Z.of_nat (bits m) - 53) || (Z.pos (pshl (53 - bits m) m) mod 2 ^ (- (Z.of_nat (bits m) - 53)) =? 0) = true) as ->.
  { apply orb_true_iff. destruct (Z.leb_spec 0 (Z.of_nat (bits m) - 53)); [by left|right]. apply Z.eqb_eq.
    rewrite pshl_value. replace (- (Z.of_nat (bits m) - 53)) with (Z.of_nat (53 - bits m)) by lia.
    apply Z.mod_mul, Z.pow_nonzero; lia. }
  congruence.
Qed.

(** ** Properties *)

(** C24: the six ports of the session machine are the Go machine: on every status
    and event either both refuse, or both accept, agree on whether the session is
    destroyed and, if it is not, on its next status.  The lazily filled table of the PHP
    port does not depend on what was called before. *)
Theorem ports_follow_machine (s s' : PStatus) (e e' : PEvent) :
  Forall (λ f, match Transition (status_value s) (go_event e), f s e with
               | Ok (next, destroyed), Ok r =>
                   tr_destroyed r = destroyed ∧ (destroyed = false → status_value (tr_next r) = next)
               | Err _, Err _ => True
               | _, _ => False
               end) port_transitions ∧
  (php_transition s e (php_transition s' e' []).2).1 = (php_transition s e []).1.
Proof.
  split; [|by destruct s, e, s', e'].
  unfold port_transitions. rewrite !Forall_cons, Forall_nil. split_and!; try exact I; by destruct s, e.
Qed.

(** C23: what one implementation seals every other one opens.  For 32-byte keys
    and sequence numbers that the port's integers hold each port seals to the same bytes
    as the Go code and opens what it sealed: below 2^64 in Rust, Python and .NET, below
    2^63 in Java and PHP, and below 2^53 in Node, where the sequence number is a
    floating-point number. *)
Theorem ports_interoperate `{ChaCha20Poly1305Laws} `{!AeadTag} `{HMAC} `{HKDF} (p : port) (key sid text : bytes) (seq : Z) :
  p ∈ ports → length key = 32%nat → 0 ≤ seq < p_seq_limit p → plaintext_fits text →
  p_encrypt p key sid seq text = EncryptAEAD key sid seq text ∧
  ∃ c, EncryptAEAD key sid seq text = Ok c ∧ p_decrypt p key sid seq c = Ok text ∧ DecryptAEAD key sid seq c = Ok text.
Proof.
  intros Hp Hk Hs Hfit.
  destruct (Seal_Ok key (BuildNonce seq) text (BuildAAD sid seq) (BuildNonce_length seq) Hfit) as [c Ec].
  pose proof (Open_Seal _ _ _ _ _ Ec) as Eo. pose proof (Seal_length _ _ _ _ _ Ec) as Hl.
  assert (Hdec : DecryptAEAD key sid seq c = Ok text) by (unfold DecryptAEAD; by rewrite Eo).
  assert (Hsplit : (length c <? 16)%nat = false) by (apply Nat.ltb_ge; lia).
  assert (Hboth : ∀ enc dec, enc = Ok c → dec c = Ok text →
    enc = EncryptAEAD key sid seq text ∧
    ∃ c, EncryptAEAD key sid seq text = Ok c ∧ dec c = Ok text ∧ DecryptAEAD key sid seq c = Ok text).
  { intros enc dec -> Hd. unfold EncryptAEAD. rewrite Ec. eauto. }
  unfold ports in Hp. rewrite !elem_of_cons, elem_of_nil in Hp.
  destruct Hp as [->|[->|[->|[->|[->|[->|[]]]]]]]; apply Hboth; cbn [p_encrypt p_decrypt p_seq_limit] in *.
  1,2: by unfold rust_encrypt_aead, rust_decrypt_aead; rewrite with_key_32.
  1,2: by unfold python_encrypt_aead, python_decrypt_aead, python_build_nonce, python_build_aad;
    rewrite with_key_32, checked_uint64_ok.
  1: unfold node_encryptAead, node_buildNonce, node_buildAad; rewrite with_key_32, BigInt_exact by done;
     cbn [result_bind]; rewrite checked_uint64_ok by lia; simpl; unfold BuildNonce, BuildAAD in Ec; simpl in Ec; rewrite Ec; simpl; by rewrite take_drop.
  1: unfold node_decryptAead, node_buildNonce, node_buildAad; rewrite with_key_32, BigInt_exact by done;
     cbn [result_bind]; rewrite checked_uint64_ok by lia; cbn [fmap result_fmap result_bind]; rewrite Hsplit; by rewrite take_drop.
  1,2: by unfold java_encryptAead, java_decryptAead; rewrite with_key_32.
  1: unfold dotnet_EncryptAead; rewrite with_key_32 by done; unfold dotnet_BuildNonce, dotnet_BuildAad;
     unfold BuildNonce, BuildAAD in Ec; rewrite Ec; cbn [result_bind]; by rewrite take_drop.
  1: unfold dotnet_DecryptAead; rewrite with_key_32, Hsplit by done; by rewrite take_drop.
  1,2: by unfold php_encryptAead, php_decryptAead; rewrite with_key_32.
Qed.

(** Above 2^53 the Node port uses one nonce for several sequence numbers. *)
Example node_nonces_repeat :
  node_buildNonce (f_of_Z (2 ^ 53 + 1)) = node_buildNonce (f_of_Z (2 ^ 53)) ∧
  node_buildNonce (f_of_Z (2 ^ 53)) = Ok (BuildNonce (2 ^ 53)) ∧ BuildNonce (2 ^ 53 + 1) ≠ BuildNonce (2 ^ 53).
Proof. by vm_compute. Qed.

(** The ports and the Go code do not agree on the next key.  They derive it with
    different labels: from any key, the next key of a port is the Go code's only if
    HMAC-SHA256 takes the two labels to the same value; the Java port derives none. *)
Theorem rekey_labels_differ `{ChaCha20Poly1305} `{HKDFviaHMAC} `{!HMACLaws} (p : port) (key next next' : bytes) :
  p ∈ ports → Rekey key = Ok next → p_rekey p key = Ok next' →
  let prk := hmacSHA256 [] key in
  next' = hmacSHA256 prk (bytes_of_string "fproto-rekey" ++ [x01]) ∧
  next = hmacSHA256 prk (bytes_of_string "proto-rekey" ++ [x01]).
Proof.
  intros Hp Hg Hr prk. split.
  - assert (Hlen : ∀ m, take 32 (hmacSHA256 prk m) = hmacSHA256 prk m) by (intros m; apply take_ge; by rewrite hmac_length).
    unfold ports in Hp. rewrite !elem_of_cons, elem_of_nil in Hp.
    destruct Hp as [->|[->|[->|[->|[->|[->|[]]]]]]]; cbn [p_rekey] in Hr; try done.
    1: unfold rust_rekey in Hr; rewrite hkdf_one_block in Hr; by injection Hr as <-.
    all: injection Hr as <-; apply Hlen.
  - unfold Rekey in Hg. case_bool_decide; [done|]. unfold rekeyLen in Hg. rewrite hkdf_one_block in Hg. by injection Hg as <-.
Qed.

(** The Java port never derives a key. *)
Theorem java_rekey_fails `{HMAC} (key : bytes) : java_rekey key = Err (Errorf "IllegalArgumentException: Empty key").
Proof. done. Qed.

(** The default of the ports for the connections of a session is not the Go code's. *)
Example default_config_differs :
  idle_timeout_secs default_config * Second = SessionMachine.IdleTimeout DefaultConfig ∧
  expiry_timeout_secs default_config * Second = SessionMachine.ExpiryTimeout DefaultConfig ∧
  handshake_timeout_secs default_config * Second = HandshakeTimeout DefaultConfig ∧
  max_connections default_config ≠ MaxConnections DefaultConfig.
Proof. by vm_compute. Qed.

(** ** Witnesses *)

(** A cipher that appends a tag: the key, the nonce and the additional data folded into
    sixteen bytes. *)
Definition toy_tag (k n a : bytes) : bytes := take 16 (k ++ n ++ a ++ replicate 16 x00).

Definition tag_chacha : ChaCha20Poly1305 := {|
  Seal k n p a :=
    if bool_decide (length n = NonceSize) then Ok (p ++ toy_tag k n a)
    else Panic "chacha20poly1305: bad nonce length passed to Seal";
  Open k n c a :=
    if bool_decide (length n = NonceSize) then
      if bool_decide (drop (length c - 16) c = toy_tag k n a) then Ok (take (length c - 16) c)
      else Err (Errorf "chacha20poly1305: message authentication failed")
    else Panic "chacha20poly1305: bad nonce length passed to Open";
|}.

Lemma toy_tag_length k n a : length (toy_tag k n a) = 16%nat.
Proof. unfold toy_tag. rewrite length_take, !length_app, length_replicate. lia. Qed.

Lemma tag_chacha_laws : @ChaCha20Poly1305Laws tag_chacha.
Proof.
  split; simpl.
  - intros k n p a Hn _. rewrite bool_decide_true by done. eauto.
  - intros k n c a w Hn _. rewrite bool_decide_true by done. by case_match.
  - intros k n c a Hn. by rewrite bool_decide_false.
  - intros k n p a c E. case_bool_decide; [|done]. injection E as <-. rewrite length_app, toy_tag_length, Nat.add_sub.
    by rewrite drop_app_length, take_app_length, bool_decide_true.
  - intros k n p a c E. case_bool_decide; [|done]. case_bool_decide as Ht; [|done]. injection E as <-.
    by rewrite <-Ht, take_drop.
Qed.

Lemma tag_chacha_tag : @AeadTag tag_chacha.
Proof. split. intros k n p a c. simpl. case_bool_decide; [|done]. intros [= <-]. by rewrite length_app, toy_tag_length. Qed.

(** HKDF on top of the toy HMAC. *)
Definition hmac_hkdf : HKDF := {|
  hkdf_read secret salt info n := Ok (@hmacSHA256 toy_hmac (@hmacSHA256 toy_hmac salt secret) (info ++ [x01]));
|}.

Lemma hmac_hkdf_laws : @HKDFviaHMAC hmac_hkdf toy_hmac.
Proof. by split. Qed.

#[local] Existing Instance tag_chacha.
#[local] Existing Instance tag_chacha_laws.
#[local] Existing Instance tag_chacha_tag.
#[local] Existing Instance toy_hmac.
#[local] Existing Instance toy_hmac_laws.
#[local] Existing Instance hmac_hkdf.
#[local] Existing Instance hmac_hkdf_laws.

Lemma ports_interoperate_witness :
  let key := replicate 32 x05 in
  let node := mkPort (2 ^ 53) (λ key sid seq, node_encryptAead key sid (f_of_Z seq))
    (λ key sid seq, node_decryptAead key sid (f_of_Z seq)) node_rekey in
  p_encrypt node key [x01] 7 [x68; x69] = EncryptAEAD key [x01] 7 [x68; x69] ∧
  ∃ c, EncryptAEAD key [x01] 7 [x68; x69] = Ok c ∧ p_decrypt node key [x01] 7 c = Ok [x68; x69] ∧
    DecryptAEAD key [x01] 7 c = Ok [x68; x69].
Proof.
  intros key node. apply (ports_interoperate node key [x01] [x68; x69] 7).
  - unfold ports. set_solver.
  - reflexivity.
  - simpl. lia.
  - vm_compute. discriminate.
Defined.

Lemma rekey_labels_differ_witness :
  let key := replicate 32 x05 in
  ∃ next next', Rekey key = Ok next ∧ python_rekey key = Ok next' ∧ next ≠ next' ∧
    next' = hmacSHA256 (hmacSHA256 [] key) (bytes_of_string "fproto-rekey" ++ [x01]).
Proof.
  intros key. eexists _, _. split; [reflexivity|]. split; [reflexivity|]. split; [vm_compute; discriminate|].
  refine (proj1 (rekey_labels_differ (mkPort (2 ^ 64) python_encrypt_aead python_decrypt_aead python_rekey) key _ _ _ _ _));
    [unfold ports; set_solver|reflexivity|reflexivity].
Defined.
