(* ===== verification/SdkPorts.v ===== *)
(** * The SDKs in TypeScript, Kotlin and Swift

    [sdk/typescript], [sdk/kotlin] and [sdk/swift]: clients over a WebSocket with a
    queue of received messages and reconnection with exponential backoff.  The sockets
    of the libraries (ws, OkHttp, Starscream) are a parameter; what they report arrives
    as events.  [receive] of the TypeScript client returns a promise, kept in a heap, and
    that of the Swift client takes its lock twice, so its two halves are two steps. *)
From S2P Require Import Prelude Bytes Float64.

Local Open Scope Z_scope.

(** The sockets of a WebSocket library: handles [S] in surroundings [E]. *)
Class Sockets (E S : Type) := {
  sock_new : string → M E S;
  sock_open : S → E → bool;
  sock_send : S → bytes → M E unit;
  sock_close : S → M E unit;
}.

(** ** Reconnection *)

(** The number of attempts of the TypeScript configuration is a whole number. *)
Record PortReconnect (D : Type) := mkPortReconnect {
  initialDelay : D;
  maxDelay : D;
  multiplier : float64;
  jitter : float64;
  maxAttempts : Z;
}.
Arguments mkPortReconnect {D} _ _ _ _ _.
Arguments initialDelay {D} _.
Arguments maxDelay {D} _.
Arguments multiplier {D} _.
Arguments jitter {D} _.
Arguments maxAttempts {D} _.

(** Milliseconds as numbers, milliseconds as [Long], seconds as [TimeInterval]. *)
Definition defaultReconnectConfig : PortReconnect float64 :=
  mkPortReconnect (f_of_Z 1000) (f_of_Z 30000) (f_of_Z 2) (f_dec 2 1) 0.
Definition kt_ReconnectConfig : PortReconnect Z := mkPortReconnect 1000 30000 (f_of_Z 2) (f_dec 2 1) 0.
Definition swift_default : PortReconnect float64 :=
  mkPortReconnect (f_of_Z 1) (f_of_Z 30) (f_of_Z 2) (f_dec 2 1) 0.

Section delays.
Context {W : Type}.

(** The power function and the random numbers of the language's library. *)
Context (pow : float64 → float64 → float64) (random : M W float64).

(** [delay - delta + random * 2 * delta] when there is jitter. *)
Definition jittered (delay j : float64) : M W float64 :=
  if f_lt (f_of_Z 0) j then
    let delta := f_mul delay j in
    r ← random;
    mret (f_add (f_sub delay delta) (f_mul (f_mul r (f_of_Z 2)) delta))
  else mret delay.

Definition ts_computeDelay (attempt : Z) (cfg : PortReconnect float64) : M W float64 :=
  let delay := f_mul (initialDelay cfg) (pow (multiplier cfg) (f_of_Z attempt)) in
  let delay := if f_lt (maxDelay cfg) delay then maxDelay cfg else delay in
  jittered delay (jitter cfg).

(** [kotlin.math.min]: not a number when one of them is not, and -0 before +0. *)
Definition kt_min (x y : float64) : float64 :=
  match x, y with
  | S754_nan, _ | _, S754_nan => S754_nan
  | S754_zero s, S754_zero s' => S754_zero (s || s')
  | _, _ => if f_le x y then x else y
  end.

(** [Double.toLong]: towards zero, saturating, 0 for a value that is not a number. *)
Definition kt_toLong (x : float64) : Z :=
  match f_trunc x with
  | Some z => Z.max MinInt64 (Z.min z MaxInt64)
  | None => match x with S754_infinity true => MinInt64 | S754_infinity false => MaxInt64 | _ => 0 end
  end.

Definition kt_computeDelay (attempt : Z) (config : PortReconnect Z) : M W Z :=
  let delay := f_mul (f_of_Z (initialDelay config)) (pow (multiplier config) (f_of_Z attempt)) in
  let delay := kt_min delay (f_of_Z (maxDelay config)) in
  d ← jittered delay (jitter config);
  mret (kt_toLong d).

(** Swift's generic [min(x, y)]: [y < x ? y : x]. *)
Definition swift_min (x y : float64) : float64 := if f_lt y x then y else x.

Definition swift_computeDelay (attempt : Z) (config : PortReconnect float64) : M W float64 :=
  let delay := f_mul (initialDelay config) (pow (multiplier config) (f_of_Z attempt)) in
  let delay := swift_min delay (maxDelay config) in
  jittered delay (jitter config).

(** The loop that all three have, over a connection attempt, the pause after the given
    number of failed attempts, and the limit.  [fuel] bounds the attempts, and running
    out of it is a panic. *)
Fixpoint port_reconnect (connect : M W unit) (pause : Z → M W unit) (limit : Z) (fuel : nat) (attempt_ : Z) : M W unit :=
  match fuel with
  | O => panic "out of fuel"
  | S fuel =>
      r ← attempt connect;
      match r.1 with
      | None => mret tt
      | Some err =>
          let attempt_ := attempt_ + 1 in
          if (0 <? limit) && (limit <=? attempt_) then throw err
          else _ ← pause (attempt_ - 1); port_reconnect connect pause limit fuel attempt_
      end
  end.

Definition ts_connectWithReconnect (connect : M W unit) (sleep : float64 → M W unit)
    (reconnect : option (PortReconnect float64)) (fuel : nat) : M W unit :=
  let cfg := default defaultReconnectConfig reconnect in
  port_reconnect connect (λ k, delay ← ts_computeDelay k cfg; sleep delay) (maxAttempts cfg) fuel 0.

Definition kt_connectWithReconnect (connect : M W unit) (sleep : Z → M W unit) (config : PortReconnect Z) (fuel : nat) :
    M W unit :=
  port_reconnect connect (λ k, delay ← kt_computeDelay k config; sleep delay) (maxAttempts config) fuel 0.

(** [UInt64(delay * 1_000_000_000)] traps when the value does not fit. *)
Definition swift_UInt64 (x : float64) : result Z :=
  match f_trunc x with
  | Some z => if (0 <=? z) && (z <? 2 ^ 64) then Ok z else Panic "Fatal error: Double value cannot be converted to UInt64"
  | None => Panic "Fatal error: Double value cannot be converted to UInt64"
  end.

Definition swift_connectWithReconnect (connect : M W unit) (sleep : Z → M W unit) (config : PortReconnect float64)
    (fuel : nat) : M W unit :=
  port_reconnect connect
    (λ k, delay ← swift_computeDelay k config;
          ns ← lift (swift_UInt64 (f_mul delay (f_of_Z 1000000000)));
          sleep ns) (maxAttempts config) fuel 0.

End delays.

(** ** TypeScript: transport.ts and client.ts *)

Record WebSocketTransport (S : Type) := mkWebSocketTransport {
  wt_ws : option S;
  wt_url : string;
  wt_messageQueue : list bytes;
  wt_waiters : list nat;
}.
Arguments mkWebSocketTransport {S} _ _ _ _.
Arguments wt_ws {S} _.
Arguments wt_url {S} _.
Arguments wt_messageQueue {S} _.
Arguments wt_waiters {S} _.

(** A client, with the heap of the promises that [receive] has returned ([None] while
    one is pending) and the surroundings.  Events are those of the current transport. *)
Record TsW (E S : Type) := mkTsW {
  ts_transport : option (WebSocketTransport S);
  ts_closed : bool;
  ts_promises : list (option bytes);
  ts_env : E;
}.
Arguments mkTsW {E S} _ _ _ _.
Arguments ts_transport {E S} _.
Arguments ts_closed {E S} _.
Arguments ts_promises {E S} _.
Arguments ts_env {E S} _.

Section typescript.
Context {E S : Type} `{Sockets E S}.

(** Which of [open] and [error] a new socket reports first. *)
Context (first_event : S → M E unit).

Implicit Types (w : TsW E S) (t : WebSocketTransport S).

Definition new_WebSocketTransport (url : string) : WebSocketTransport S := mkWebSocketTransport None url [] [].

Definition ts_on_env {A} (m : M E A) : M (TsW E S) A :=
  zoom ts_env (λ e w, mkTsW (ts_transport w) (ts_closed w) (ts_promises w) e) m.

Definition set_transport (t : option (WebSocketTransport S)) w : TsW E S :=
  mkTsW t (ts_closed w) (ts_promises w) (ts_env w).
Definition set_ts_closed (b : bool) w : TsW E S := mkTsW (ts_transport w) b (ts_promises w) (ts_env w).
Definition set_promises (ps : list (option bytes)) w : TsW E S := mkTsW (ts_transport w) (ts_closed w) ps (ts_env w).

Definition set_ws (ws : option S) t : WebSocketTransport S :=
  mkWebSocketTransport ws (wt_url t) (wt_messageQueue t) (wt_waiters t).

(** The handler of [message]. *)
Definition ts_onmessage (data : bytes) w : TsW E S :=
  match ts_transport w with
  | None => w
  | Some t =>
      match wt_waiters t with
      | waiter :: waiters =>
          set_promises (<[waiter := Some data]> (ts_promises w))
            (set_transport (Some (mkWebSocketTransport (wt_ws t) (wt_url t) (wt_messageQueue t) waiters)) w)
      | [] => set_transport (Some (mkWebSocketTransport (wt_ws t) (wt_url t) (wt_messageQueue t ++ [data]) [])) w
      end
  end.

(** [receive] of the transport: the promise it returns. *)
Definition WebSocketTransport_receive t w : nat * TsW E S :=
  let p := length (ts_promises w) in
  match wt_messageQueue t with
  | m :: queue =>
      (p, set_promises (ts_promises w ++ [Some m])
            (set_transport (Some (mkWebSocketTransport (wt_ws t) (wt_url t) queue (wt_waiters t))) w))
  | [] =>
      (p, set_promises (ts_promises w ++ [None])
            (set_transport (Some (mkWebSocketTransport (wt_ws t) (wt_url t) [] (wt_waiters t ++ [p]))) w))
  end.

Definition WebSocketTransport_connect t : M (TsW E S) unit :=
  ws ← ts_on_env (sock_new (wt_url t));
  _ ← modify (set_transport (Some (set_ws (Some ws) t)));
  ts_on_env (first_event ws).

Definition WebSocketTransport_send t (data : bytes) : M (TsW E S) unit := λ w,
  match wt_ws t with
  | Some ws =>
      if sock_open ws (ts_env w) then ts_on_env (sock_send ws data) w
      else throw (Errorf "WebSocket not connected") w
  | None => throw (Errorf "WebSocket not connected") w
  end.

Definition WebSocketTransport_close t : M (TsW E S) unit :=
  match wt_ws t with
  | Some ws => _ ← ts_on_env (sock_close ws); modify (set_transport (Some (set_ws None t)))
  | None => mret tt
  end.

Definition ts_connect (serverUrl : string) : M (TsW E S) unit :=
  let t := new_WebSocketTransport serverUrl in
  _ ← modify (set_transport (Some t));
  _ ← WebSocketTransport_connect t;
  modify (set_ts_closed false).

(** [if (!this.transport || this.closed)] *)
Definition ts_current w : option (WebSocketTransport S) := if ts_closed w then None else ts_transport w.

Definition ts_send (data : bytes) : M (TsW E S) unit := λ w,
  match ts_current w with
  | None => throw (Errorf "Not connected") w
  | Some t => WebSocketTransport_send t data w
  end.

Definition ts_receive : M (TsW E S) nat := λ w,
  match ts_current w with
  | None => throw (Errorf "Not connected") w
  | Some t => let '(p, w') := WebSocketTransport_receive t w in (Ok p, w')
  end.

Definition ts_close : M (TsW E S) unit := λ w,
  let w := set_ts_closed true w in
  match ts_transport w with
  | None => (Ok tt, w)
  | Some t => (_ ← WebSocketTransport_close t; modify (set_transport None)) w
  end.

Definition ts_isConnected w : bool := bool_decide (is_Some (ts_transport w)) && negb (ts_closed w).

End typescript.

(** ** Kotlin: FProtoClient.kt *)

(** What the listener of a socket is told.  A text arrives as the bytes of its UTF-8
    encoding, as both [toByteArray] and [utf8] give them.  Starscream's error without a
    cause is handled like [onClosed]. *)
Inductive ws_event :=
| onOpen
| onBinary (data : bytes)
| onText (utf8 : bytes)
| onFailure (t : error)
| onClosed.

Record KtW (E S : Type) := mkKtW {
  kt_ws : option S;
  kt_messageQueue : list bytes;
  kt_isConnected : bool;
  kt_env : E;
}.
Arguments mkKtW {E S} _ _ _ _.
Arguments kt_ws {E S} _.
Arguments kt_messageQueue {E S} _.
Arguments kt_isConnected {E S} _.
Arguments kt_env {E S} _.

Section kotlin.
Context {E S : Type} `{Sockets E S}.
Implicit Types (w : KtW E S).

Definition kt_on_env {A} (m : M E A) : M (KtW E S) A :=
  zoom kt_env (λ e w, mkKtW (kt_ws w) (kt_messageQueue w) (kt_isConnected w) e) m.

Definition kt_set_ws (ws : option S) w : KtW E S := mkKtW ws (kt_messageQueue w) (kt_isConnected w) (kt_env w).
Definition kt_set_connected (b : bool) w : KtW E S := mkKtW (kt_ws w) (kt_messageQueue w) b (kt_env w).
Definition kt_offer (data : bytes) w : KtW E S :=
  mkKtW (kt_ws w) (kt_messageQueue w ++ [data]) (kt_isConnected w) (kt_env w).

(** The listener, on the client and the variable [connectError]. *)
Definition kt_listener (x : KtW E S * option error) (ev : ws_event) : KtW E S * option error :=
  match ev with
  | onOpen => (kt_set_connected true x.1, x.2)
  | onBinary data | onText data => (kt_offer data x.1, x.2)
  | onFailure t => (kt_set_connected false x.1, Some t)
  | onClosed => (kt_set_connected false x.1, x.2)
  end.

(** [latch.await(10, TimeUnit.SECONDS)] and the look at [connectError], with the events
    that are handled before it: the call waits for [onOpen] or [onFailure], or for ten
    seconds, and goes on in the same way whichever it was. *)
Definition kt_await (events : list ws_event) : M (KtW E S) unit := λ w,
  match foldl kt_listener (w, None) events with
  | (w', Some t) => (Err t, w')
  | (w', None) => (Ok tt, w')
  end.

Definition kt_connect (serverUrl : string) (events : list ws_event) : M (KtW E S) unit :=
  ws ← kt_on_env (sock_new serverUrl);
  _ ← modify (kt_set_ws (Some ws));
  kt_await events.

Definition kt_send (data : bytes) : M (KtW E S) unit := λ w,
  match kt_ws w with
  | None => throw (Errorf "Not connected") w
  | Some socket => kt_on_env (sock_send socket data) w
  end.

(** [receive], with the events that are handled while it waits for a message. *)
Definition kt_receive (events : list ws_event) : M (KtW E S) bytes := λ w,
  let w := (foldl kt_listener (w, None) events).1 in
  match kt_messageQueue w with
  | [] => throw (Errorf "Receive timeout") w
  | m :: queue => (Ok m, mkKtW (kt_ws w) queue (kt_isConnected w) (kt_env w))
  end.

Definition kt_close : M (KtW E S) unit := λ w,
  (_ ← match kt_ws w with Some ws => kt_on_env (sock_close ws) | None => mret tt end;
   modify (λ w, kt_set_connected false (kt_set_ws None w))) w.

End kotlin.

(** ** Swift: FProtoClient.swift *)

(** The calls of [receive], by number: what each has returned, and in [sw_checked] those
    that have found the queue empty and not yet stored their continuation. *)
Record SwW (E S : Type) := mkSwW {
  sw_socket : option S;
  sw_messageQueue : list bytes;
  sw_continuations : list nat;
  sw_isConnected : bool;
  sw_results : list (option bytes);
  sw_checked : list nat;
  sw_env : E;
}.
Arguments mkSwW {E S} _ _ _ _ _ _ _.
Arguments sw_socket {E S} _.
Arguments sw_messageQueue {E S} _.
Arguments sw_continuations {E S} _.
Arguments sw_isConnected {E S} _.
Arguments sw_results {E S} _.
Arguments sw_checked {E S} _.
Arguments sw_env {E S} _.

Section swift.
Context {E S : Type} `{Sockets E S}.
Implicit Types (w : SwW E S).

Definition sw_on_env {A} (m : M E A) : M (SwW E S) A :=
  zoom sw_env (λ e w, mkSwW (sw_socket w) (sw_messageQueue w) (sw_continuations w) (sw_isConnected w) (sw_results w) (sw_checked w) e) m.

Definition sw_set_socket (s : option S) w : SwW E S :=
  mkSwW s (sw_messageQueue w) (sw_continuations w) (sw_isConnected w) (sw_results w) (sw_checked w) (sw_env w).
Definition sw_set_connected (b : bool) w : SwW E S :=
  mkSwW (sw_socket w) (sw_messageQueue w) (sw_continuations w) b (sw_results w) (sw_checked w) (sw_env w).
(** The queue, the continuations, the results and the calls in between. *)
Definition sw_update (queue : list bytes) (conts : list nat) (results : list (option bytes)) (checked : list nat) w : SwW E S :=
  mkSwW (sw_socket w) queue conts (sw_isConnected w) results checked (sw_env w).

Definition swift_handleMessage (data : bytes) w : SwW E S :=
  match sw_continuations w with
  | cont :: conts => sw_update (sw_messageQueue w) conts (<[cont := Some data]> (sw_results w)) (sw_checked w) w
  | [] => sw_update (sw_messageQueue w ++ [data]) [] (sw_results w) (sw_checked w) w
  end.

(** The first half of [receive], under the lock. *)
Definition swift_receive_check w : SwW E S :=
  match sw_messageQueue w with
  | data :: queue => sw_update queue (sw_continuations w) (sw_results w ++ [Some data]) (sw_checked w) w
  | [] => sw_update [] (sw_continuations w) (sw_results w ++ [None]) (sw_checked w ++ [length (sw_results w)]) w
  end.

(** The second half of the call [c], under the lock again. *)
Definition swift_receive_store (c : nat) w : SwW E S :=
  sw_update (sw_messageQueue w) (sw_continuations w ++ [c]) (sw_results w) (filter (λ c', c' ≠ c) (sw_checked w)) w.

(** What the threads of a client do with the queue. *)
Inductive swift_action := SwMessage (data : bytes) | SwCheck | SwStore (c : nat).

Inductive swift_step : SwW E S → swift_action → SwW E S → Prop :=
| step_message w data : swift_step w (SwMessage data) (swift_handleMessage data w)
| step_check w : swift_step w SwCheck (swift_receive_check w)
| step_store w c : c ∈ sw_checked w → swift_step w (SwStore c) (swift_receive_store c w).

Inductive swift_steps : SwW E S → list swift_action → SwW E S → Prop :=
| steps_nil w : swift_steps w [] w
| steps_snoc w acts w1 a w2 : swift_steps w acts w1 → swift_step w1 a w2 → swift_steps w (acts ++ [a]) w2.

(** The handler of the socket's events, with the continuation of [connect]: [resumed]
    says whether it has been resumed.  Resuming a [CheckedContinuation] again is a fatal
    error. *)
Definition resume (w : SwW E S) (outcome : result unit) (resumed : option (result unit)) :
    result (option (result unit)) * SwW E S :=
  match resumed with
  | None => (Ok (Some outcome), w)
  | Some _ => (Panic "SWIFT TASK CONTINUATION MISUSE: connect() tried to resume its continuation more than once", w)
  end.

Definition swift_onEvent (ev : ws_event) (resumed : option (result unit)) : M (SwW E S) (option (result unit)) := λ w,
  match ev with
  | onOpen => resume (sw_set_connected true w) (Ok tt) resumed
  | onBinary data | onText data => (Ok resumed, swift_handleMessage data w)
  | onClosed => (Ok resumed, sw_set_connected false w)
  | onFailure e => resume (sw_set_connected false w) (Err e) resumed
  end.

Fixpoint swift_events (evs : list ws_event) (resumed : option (result unit)) : M (SwW E S) (option (result unit)) :=
  match evs with
  | [] => mret resumed
  | ev :: evs => resumed ← swift_onEvent ev resumed; swift_events evs resumed
  end.

(** [connect] up to the wait, on a URL that [URL(string:)] accepts or not, and the
    events that follow: the outcome of the continuation, if it has been resumed. *)
Definition swift_connect (serverUrl : string) (valid_url : string → bool) (evs : list ws_event) :
    M (SwW E S) (option (result unit)) :=
  if valid_url serverUrl then
    socket ← sw_on_env (sock_new serverUrl);
    _ ← modify (sw_set_socket (Some socket));
    swift_events evs None
  else throw (Errorf "invalidURL").

Definition swift_send (data : bytes) : M (SwW E S) unit := λ w,
  match sw_socket w with
  | Some socket =>
      if sw_isConnected w then sw_on_env (sock_send socket data) w else throw (Errorf "notConnected") w
  | None => throw (Errorf "notConnected") w
  end.

Definition swift_close : M (SwW E S) unit := λ w,
  (_ ← match sw_socket w with Some s => sw_on_env (sock_close s) | None => mret tt end;
   modify (λ w, sw_set_connected false (sw_set_socket None w))) w.

End swift.

(** ** Lemmas: reconnection *)

(** The loop with its connection attempts counted. *)
Definition counting {W} (connect : M W unit) : M (nat * W) unit := λ w,
  let '(r, w') := connect w.2 in (r, (S w.1, w')).

Definition uncounted {W A} (m : M W A) : M (nat * W) A := zoom snd (λ w x, (x.1, w)) m.

Definition never_panics {W A} (m : M W A) : Prop := ∀ w, match (m w).1 with Panic _ => False | _ => True end.

(** What a client does that neither waits nor panics: it tries until it succeeds or the
    limit is reached. *)
Lemma port_reconnect_counts {W} (connect : M W unit) (pause : Z → M W unit) (limit : Z) (fuel k : nat) (w : W) :
  never_panics connect → (∀ z, never_panics (pause z)) → Z.of_nat k < limit → limit ≤ Z.of_nat (k + fuel) →
  let '(r, (k', w')) := port_reconnect (counting connect) (λ z, uncounted (pause z)) limit fuel (Z.of_nat k) (k, w) in
  Z.of_nat k' ≤ limit ∧ (∀ why, r ≠ Panic why) ∧
  ((∀ w, ∃ e w', connect w = (Err e, w')) → (∀ z w, ∃ w', pause z w = (Ok tt, w')) →
   Z.of_nat k' = limit ∧ ∃ e w1, connect w1 = (Err e, w') ∧ r = Err e).
Proof.
  intros Hc Hp. revert k w. induction fuel as [|fuel IH]; intros k w Hk Hf; [lia|]. simpl.
  unfold mbind, M_bind, attempt, counting at 1. simpl. specialize (Hc w).
  destruct (connect w) as [[[]|e|why] w1] eqn:Ec; [|clear Hc|done].
  - simpl. split_and!; [lia|done|]. intros Hall. destruct (Hall w) as (e & w2 & E). congruence.
  - simpl. replace (0 <? limit) with true by lia. simpl.
    destruct (limit <=? Z.of_nat k + 1) eqn:El.
    + simpl. split_and!; [lia|done|]. intros _ _. split; [lia|eauto].
    + unfold uncounted at 1, zoom. simpl. pose proof (Hp (Z.of_nat k + 1 - 1) w1) as Hp1.
      destruct (pause _ w1) as [[[]|e2|why] w2] eqn:Ep; [|clear Hp1|done].
      * replace (Z.of_nat k + 1) with (Z.of_nat (S k)) by lia. apply IH; lia.
      * simpl. split_and!; [lia|done|]. intros _ Hall. destruct (Hall (Z.of_nat k + 1 - 1) w1) as (w3 & E). congruence.
Qed.

(** ** Lemmas: a mailbox *)

(** What the queues of the TypeScript and Swift clients have in common: messages that
    nobody has asked for, calls that wait for one, and what each call has got. *)
Record mailbox := mkMailbox { mb_queue : list bytes; mb_waiting : list nat; mb_results : list (option bytes) }.

Inductive mail_action := Put (m : bytes) | Take.

#[export] Instance mail_action_eq_dec : EqDecision mail_action.
Proof. solve_decision. Defined.

Definition mail_put (m : bytes) (b : mailbox) : mailbox :=
  match mb_waiting b with
  | c :: cs => mkMailbox (mb_queue b) cs (<[c := Some m]> (mb_results b))
  | [] => mkMailbox (mb_queue b ++ [m]) [] (mb_results b)
  end.

Definition mail_take (b : mailbox) : mailbox :=
  match mb_queue b with
  | m :: q => mkMailbox q (mb_waiting b) (mb_results b ++ [Some m])
  | [] => mkMailbox [] (mb_waiting b ++ [length (mb_results b)]) (mb_results b ++ [None])
  end.

Definition mail_act (b : mailbox) (a : mail_action) : mailbox :=
  match a with Put m => mail_put m b | Take => mail_take b end.

Definition puts (acts : list mail_action) : list bytes := omap (λ a, match a with Put m => Some m | Take => None end) acts.
Definition takes (acts : list mail_action) : nat := length (filter (λ a, a = Take) acts).


(** The state of a mailbox that was empty, after [n] calls and the messages [ms]: the
    call number [i] has the message number [i]. *)
Definition mail_after (ps : list (option bytes)) (ms : list bytes) (n : nat) : mailbox :=
  mkMailbox (drop n ms) (seq (length ps + length ms) (n - length ms)) (ps ++ ((λ i, ms !! i) <$> seq 0 n)).

Lemma mail_after_put ps ms n m : mail_put m (mail_after ps ms n) = mail_after ps (ms ++ [m]) n.
Proof.
  unfold mail_put, mail_after. simpl. rewrite length_app. simpl. destruct (decide (n ≤ length ms)%nat) as [Hn|Hn].
  - replace (n - length ms)%nat with 0%nat by lia. replace (n - (length ms + 1))%nat with 0%nat by lia. simpl.
    rewrite drop_app_le by done. do 2 f_equal. apply list_fmap_ext. intros i x Hx. apply lookup_seq in Hx as [-> Hi].
    by rewrite lookup_app_l by lia.
  - replace (n - length ms)%nat with (S (n - (length ms + 1))) by lia. simpl.
    rewrite (drop_ge ms), (drop_ge (ms ++ [m])) by (rewrite ?length_app; simpl; lia).
    f_equal; [f_equal; lia|]. rewrite insert_app_r. f_equal. apply list_eq. intros i.
    rewrite !list_lookup_fmap. destruct (decide (i = length ms)) as [->|Hi].
    + rewrite list_lookup_insert_eq by (rewrite length_fmap, length_seq; lia).
      rewrite lookup_seq_lt by lia. simpl. by rewrite lookup_app_r, Nat.sub_diag.
    + rewrite list_lookup_insert_ne by done. rewrite list_lookup_fmap. destruct (decide (i < n)%nat).
      * rewrite lookup_seq_lt by done. simpl. f_equal. destruct (decide (i < length ms)%nat).
        -- by rewrite lookup_app_l.
        -- rewrite !lookup_ge_None_2; [done|rewrite length_app; simpl; lia|lia].
      * by rewrite !lookup_seq_ge by lia.
Qed.

Lemma mail_after_take ps ms n : mail_take (mail_after ps ms n) = mail_after ps ms (S n).
Proof.
  unfold mail_take, mail_after. cbn [mb_queue mb_waiting mb_results]. rewrite seq_S, fmap_app, (assoc_L (++)). simpl.
  destruct (drop n ms) as [|m q] eqn:Ed.
  - assert (length ms ≤ n)%nat by (apply (f_equal length) in Ed; rewrite length_drop in Ed; simpl in Ed; lia).
    rewrite (drop_ge ms (S n)) by lia. rewrite lookup_ge_None_2 by lia.
    replace (S n - length ms)%nat with (S (n - length ms)) by lia. rewrite seq_S, length_app, length_fmap, length_seq.
    do 3 f_equal. lia.
  - assert (n < length ms)%nat by (apply (f_equal length) in Ed; rewrite length_drop in Ed; simpl in Ed; lia).
    replace (n - length ms)%nat with 0%nat by lia. replace (S n - length ms)%nat with 0%nat by lia.
    assert (ms !! n = Some m) as Hm by (rewrite <- (Nat.add_0_r n), <- lookup_drop, Ed; done).
    rewrite (drop_S _ _ _ Hm) in Ed. injection Ed as <-. by rewrite Hm.
Qed.

(** Messages are handed out in the order they arrive, to the calls in their order. *)
Lemma mailbox_fifo ps acts :
  foldl mail_act (mkMailbox [] [] ps) acts = mail_after ps (puts acts) (takes acts).
Proof.
  induction acts as [|a acts IH] using rev_ind.
  { unfold mail_after. simpl. by rewrite app_nil_r. }
  rewrite foldl_snoc, IH. unfold puts, takes. rewrite omap_app, filter_app, length_app. destruct a as [m|]; simpl.
  - by rewrite Nat.add_0_r, mail_after_put.
  - by rewrite app_nil_r, Nat.add_1_r, mail_after_take.
Qed.

(** ** Lemmas: TypeScript *)

Section typescript_lemmas.
Context {E S : Type} `{Sockets E S}.
Implicit Types (w : TsW E S) (t : WebSocketTransport S).

(** What happens to the queue of a connected client. *)
Definition ts_act w (a : mail_action) : TsW E S :=
  match a with Put m => ts_onmessage m w | Take => (ts_receive w).2 end.

Definition ts_mailbox t w : mailbox := mkMailbox (wt_messageQueue t) (wt_waiters t) (ts_promises w).

Lemma ts_act_mailbox w t a :
  ts_current w = Some t →
  ∃ t', ts_current (ts_act w a) = Some t' ∧ wt_ws t' = wt_ws t ∧ ts_mailbox t' (ts_act w a) = mail_act (ts_mailbox t w) a.
Proof.
  intros Hc. destruct w as [t0 [] ps e]; [done|]. unfold ts_current in *. simpl in *. subst t0. destruct a as [m|]; simpl.
  - unfold ts_onmessage, mail_put, ts_mailbox. simpl. destruct (wt_waiters t) eqn:Ew; simpl; eexists; split_and!; done.
  - unfold ts_receive, ts_current, WebSocketTransport_receive, mail_take, ts_mailbox. simpl.
    destruct (wt_messageQueue t) eqn:Eq; simpl; eexists; split_and!; done.
Qed.

Lemma ts_run_mailbox w t acts :
  ts_current w = Some t →
  ∃ t', ts_current (foldl ts_act w acts) = Some t' ∧
    ts_mailbox t' (foldl ts_act w acts) = foldl mail_act (ts_mailbox t w) acts.
Proof.
  intros Hc. induction acts as [|a acts IH] using rev_ind; [eauto|]. rewrite !foldl_snoc.
  destruct IH as (t1 & Hc1 & <-). destruct (ts_act_mailbox _ _ a Hc1) as (t' & ? & _ & ?). eauto.
Qed.

End typescript_lemmas.

(** ** Lemmas: Swift *)

Section swift_lemmas.
Context {E S : Type} `{Sockets E S}.
Implicit Types (w : SwW E S).

(** A call of [receive] that nothing interrupts. *)
Definition swift_receive w : SwW E S :=
  let w' := swift_receive_check w in
  if bool_decide (length (sw_results w) ∈ sw_checked w') then swift_receive_store (length (sw_results w)) w' else w'.

Definition swift_act w (a : mail_action) : SwW E S :=
  match a with Put m => swift_handleMessage m w | Take => swift_receive w end.

Definition swift_mailbox w : mailbox := mkMailbox (sw_messageQueue w) (sw_continuations w) (sw_results w).

Lemma swift_act_mailbox w a :
  sw_checked w = [] → sw_checked (swift_act w a) = [] ∧ swift_mailbox (swift_act w a) = mail_act (swift_mailbox w) a.
Proof.
  intros Hc. destruct a as [m|]; simpl.
  - unfold swift_handleMessage, mail_put, swift_mailbox. simpl. by destruct (sw_continuations w).
  - unfold swift_receive, swift_receive_check, mail_take, swift_mailbox. simpl.
    destruct (sw_messageQueue w) as [|m q]; simpl; rewrite Hc; simpl.
    + rewrite bool_decide_true by set_solver. simpl. rewrite filter_cons_False by naive_solver. done.
    + done.
Qed.

Lemma swift_run_mailbox w acts :
  sw_checked w = [] →
  sw_checked (foldl swift_act w acts) = [] ∧ swift_mailbox (foldl swift_act w acts) = foldl mail_act (swift_mailbox w) acts.
Proof.
  intros Hc. induction acts as [|a acts IH] using rev_ind; [done|]. rewrite !foldl_snoc. destruct IH as [Hc1 <-].
  by apply swift_act_mailbox.
Qed.

(** *** Interleaved calls *)

(** The calls that wait are different, and have got nothing. *)
Definition swift_ok w : Prop :=
  NoDup (sw_continuations w ++ sw_checked w) ∧
  ∀ c, c ∈ sw_continuations w ++ sw_checked w → sw_results w !! c = Some None.

Definition swift_arrived (acts : list swift_action) : list bytes :=
  omap (λ a, match a with SwMessage m => Some m | _ => None end) acts.

Lemma omap_insert_None (rs : list (option bytes)) c m :
  rs !! c = Some None → omap id (<[c := Some m]> rs) ≡ₚ m :: omap id rs.
Proof.
  intros Hc. rewrite insert_take_drop by (by apply lookup_lt_is_Some_1; eauto).
  rewrite <- (take_drop_middle rs c None Hc) at 3. rewrite !omap_app. simpl. by rewrite Permutation_middle.
Qed.

Lemma swift_step_ok w a w' : swift_step w a w' → swift_ok w → swift_ok w'.
Proof.
  intros Hs [Hnd Hok]. destruct Hs as [w m|w|w c Hc]; unfold swift_ok.
  - unfold swift_handleMessage. destruct (sw_continuations w) as [|c cs] eqn:Ec; simpl in *; [done|].
    apply NoDup_cons in Hnd as [Hn Hnd]. split; [done|]. intros c' Hc'.
    rewrite list_lookup_insert_ne by (intros ->; done). apply Hok. by right.
  - unfold swift_receive_check. destruct (sw_messageQueue w) as [|m q]; simpl in *.
    + assert (length (sw_results w) ∉ sw_continuations w ++ sw_checked w) as Hnew.
      { intros Hin. apply Hok, lookup_lt_Some in Hin. lia. }
      rewrite (assoc_L (++)). split.
      * apply NoDup_app. split; [done|]. split; [|apply NoDup_singleton]. intros x Hx ->%list_elem_of_singleton. done.
      * intros c [Hc| ->%list_elem_of_singleton]%elem_of_app.
        -- apply lookup_app_l_Some. by apply Hok.
        -- by rewrite lookup_app_r, Nat.sub_diag.
    + split; [done|]. intros c Hc. apply lookup_app_l_Some. by apply Hok.
  - unfold swift_receive_store. simpl. apply NoDup_app in Hnd as (Hnd1 & Hdis & Hnd2). split.
    + apply NoDup_app. split_and!.
      * apply NoDup_app. split_and!; [done| |apply NoDup_singleton]. intros x Hx ->%list_elem_of_singleton. by eapply Hdis.
      * intros x [Hx| ->%list_elem_of_singleton]%elem_of_app; rewrite list_elem_of_filter; [|naive_solver].
        intros [_ Hx2]. by eapply Hdis.
      * by apply NoDup_filter.
    + intros c'. rewrite !elem_of_app, list_elem_of_singleton, list_elem_of_filter. intros Hc'. apply Hok.
      rewrite elem_of_app. naive_solver.
Qed.

(** A step neither loses nor repeats a message. *)
Lemma swift_step_conserves w a w' :
  swift_step w a w' → swift_ok w →
  omap id (sw_results w') ++ sw_messageQueue w' ≡ₚ (omap id (sw_results w) ++ sw_messageQueue w) ++ swift_arrived [a].
Proof.
  intros Hs [_ Hok]. destruct Hs as [w m|w|w c Hc]; simpl.
  - unfold swift_handleMessage. destruct (sw_continuations w) as [|c cs] eqn:Ec; simpl.
    + by rewrite (assoc_L (++)).
    + rewrite omap_insert_None by (apply Hok; rewrite ?Ec; by left). simpl. by rewrite Permutation_cons_append.
  - unfold swift_receive_check. rewrite app_nil_r. destruct (sw_messageQueue w) as [|m q]; simpl; rewrite omap_app; simpl.
    + by rewrite !app_nil_r.
    + by rewrite <- (assoc_L (++)).
  - by rewrite app_nil_r.
Qed.

Lemma swift_steps_conserve w acts w' :
  swift_steps w acts w' → swift_ok w →
  omap id (sw_results w') ++ sw_messageQueue w' ≡ₚ (omap id (sw_results w) ++ sw_messageQueue w) ++ swift_arrived acts.
Proof.
  intros Hs Hok. cut (swift_ok w' ∧ omap id (sw_results w') ++ sw_messageQueue w' ≡ₚ
    (omap id (sw_results w) ++ sw_messageQueue w) ++ swift_arrived acts); [by intros []|].
  induction Hs as [w|w acts w1 a w2 _ IH Hstep].
  - split; [done|]. by rewrite app_nil_r.
  - destruct (IH Hok) as [Hok1 Hp]. split; [by eapply swift_step_ok|].
    rewrite (swift_step_conserves _ _ _ Hstep Hok1), Hp. unfold swift_arrived. by rewrite omap_app, (assoc_L (++)).
Qed.

End swift_lemmas.

(** ** Theorems *)

(** Reconnection, in all three languages: with a positive limit on the attempts
    and enough fuel for them the loop returns, having connected at most that many times.
    When every attempt fails it has tried exactly as often as the limit says, and throws
    the error of the last attempt. *)
Theorem port_reconnect_terminates {W} (connect : M W unit) (pause : Z → M W unit) (limit : Z) (fuel : nat) (w : W) :
  never_panics connect → (∀ z, never_panics (pause z)) → 0 < limit → limit ≤ Z.of_nat fuel →
  let '(r, (k, w')) := port_reconnect (counting connect) (λ z, uncounted (pause z)) limit fuel 0 (0%nat, w) in
  Z.of_nat k ≤ limit ∧ (∀ why, r ≠ Panic why) ∧
  ((∀ w, ∃ e w', connect w = (Err e, w')) → (∀ z w, ∃ w', pause z w = (Ok tt, w')) →
   Z.of_nat k = limit ∧ ∃ e w1, connect w1 = (Err e, w') ∧ r = Err e).
Proof. intros Hc Hp Hl Hf. exact (port_reconnect_counts connect pause limit fuel 0 w Hc Hp Hl Hf). Qed.

(** Without jitter no delay exceeds the maximum of the configuration. *)
Theorem port_delay_capped {W} (pow : float64 → float64 → float64) (random : M W float64) (attempt_ : Z)
    (cfg : PortReconnect float64) (w : W) :
  f_lt (f_of_Z 0) (jitter cfg) = false →
  (∃ d, ts_computeDelay pow random attempt_ cfg w = (Ok d, w) ∧ f_lt (maxDelay cfg) d = false) ∧
  (∃ d, swift_computeDelay pow random attempt_ cfg w = (Ok d, w) ∧ f_lt (maxDelay cfg) d = false).
Proof.
  intros Hj. unfold ts_computeDelay, swift_computeDelay, jittered, swift_min. rewrite Hj. cbv zeta. split; eexists;
    (split; [reflexivity|]); by case_match; [apply f_lt_irrefl|].
Qed.

(** C29: The calls of [receive] of a connected TypeScript client get the messages in
    the order in which they arrive, whatever the order of calls and messages: call
    number [i] has message number [i] or is pending if there is none, messages that
    nobody has asked for wait in the queue, and none is lost or given out twice. *)
Theorem ts_receive_fifo {E S} `{Sockets E S} (w : TsW E S) (t : WebSocketTransport S) (acts : list mail_action) :
  ts_current w = Some t → wt_messageQueue t = [] → wt_waiters t = [] →
  let w' := foldl ts_act w acts in
  ∃ t', ts_current w' = Some t' ∧
    ts_promises w' = ts_promises w ++ ((λ i, puts acts !! i) <$> seq 0 (takes acts)) ∧
    wt_messageQueue t' = drop (takes acts) (puts acts) ∧
    wt_waiters t' = seq (length (ts_promises w) + length (puts acts)) (takes acts - length (puts acts)).
Proof.
  intros Hc Hq Hw. cbv zeta. destruct (ts_run_mailbox w t acts Hc) as (t' & Hc' & Hm). exists t'. split; [done|].
  unfold ts_mailbox in Hm at 2. rewrite Hq, Hw, mailbox_fifo in Hm. injection Hm as -> -> ->. done.
Qed.

(** The same of a Swift client whose calls of [receive] are not interrupted
    between their two halves. *)
Theorem swift_receive_fifo {E S} `{Sockets E S} (w : SwW E S) (acts : list mail_action) :
  sw_checked w = [] → sw_messageQueue w = [] → sw_continuations w = [] →
  let w' := foldl swift_act w acts in
  sw_results w' = sw_results w ++ ((λ i, puts acts !! i) <$> seq 0 (takes acts)) ∧
  sw_messageQueue w' = drop (takes acts) (puts acts).
Proof.
  intros Hc Hq Hw. cbv zeta. destruct (swift_run_mailbox w acts Hc) as [_ Hm].
  unfold swift_mailbox in Hm at 2. rewrite Hq, Hw, mailbox_fifo in Hm. by injection Hm as -> _ ->.
Qed.

(** C30: Whatever the interleaving of the halves of [receive] with the arrival of
    messages, the Swift client loses and repeats no message: what the calls have got
    and what is in the queue are the messages that have arrived. *)
Theorem swift_receive_conserves {E S} `{Sockets E S} (w w' : SwW E S) (acts : list swift_action) :
  sw_continuations w = [] → sw_checked w = [] → swift_steps w acts w' →
  omap id (sw_results w') ++ sw_messageQueue w' ≡ₚ (omap id (sw_results w) ++ sw_messageQueue w) ++ swift_arrived acts.
Proof.
  intros Hc Hk Hs. apply (swift_steps_conserve w acts w' Hs). unfold swift_ok. rewrite Hc, Hk.
  split; [constructor|set_solver].
Qed.

(** The two halves of [receive] can be separated by a message, which is then
    left in the queue while the call waits: the wake-up is lost, and the next message
    overtakes the first. *)
Theorem swift_receive_reorders {E S} `{Sockets E S} (w : SwW E S) (m1 m2 : bytes) :
  sw_messageQueue w = [] → sw_continuations w = [] → sw_checked w = [] → sw_results w = [] →
  (∃ w', swift_steps w [SwCheck; SwMessage m1; SwStore 0] w' ∧ sw_results w' = [None] ∧ sw_messageQueue w' = [m1] ∧
     sw_continuations w' = [0%nat]) ∧
  (∃ w', swift_steps w [SwCheck; SwMessage m1; SwStore 0; SwMessage m2] w' ∧ sw_results w' = [Some m2] ∧
     sw_messageQueue w' = [m1]).
Proof.
  destruct w as [s q cs b rs ks e]. simpl. intros -> -> -> ->. set (w := mkSwW s [] [] b [] [] e).
  set (w3 := swift_receive_store 0 (swift_handleMessage m1 (swift_receive_check w))).
  assert (swift_steps w [SwCheck; SwMessage m1; SwStore 0] w3) as H3.
  { apply (steps_snoc _ [SwCheck; SwMessage m1] (swift_handleMessage m1 (swift_receive_check w))); [|constructor; left].
    apply (steps_snoc _ [SwCheck] (swift_receive_check w)); [|constructor].
    apply (steps_snoc _ [] w); constructor. }
  split; [by exists w3|]. exists (swift_handleMessage m2 w3). split; [|done].
  apply (steps_snoc _ [SwCheck; SwMessage m1; SwStore 0] w3); [done|constructor].
Qed.

(** After a successful [connect] of the Swift client any later error of the
    socket resumes the continuation a second time, which ends the program. *)
Theorem swift_error_after_connect_is_fatal {E S} `{Sockets E S} (url : string) (valid : string → bool)
    (evs : list ws_event) (t : error) (w : SwW E S) (s : S) (e : E) :
  valid url = true → sock_new url (sw_env w) = (Ok s, e) →
  Forall (λ ev, match ev with onBinary _ | onText _ | onClosed => True | _ => False end) evs →
  (∃ w1, swift_connect url valid [onOpen] w = (Ok (Some (Ok tt)), w1) ∧ sw_isConnected w1 = true) ∧
  ∃ why w2, swift_connect url valid (onOpen :: evs ++ [onFailure t]) w = (Panic why, w2).
Proof.
  intros Hv Hs Hevs. unfold swift_connect. rewrite Hv. unfold mbind, M_bind, sw_on_env, zoom. rewrite Hs. simpl.
  split; [by eexists|]. unfold mbind, M_bind. simpl. generalize (sw_set_connected true (sw_set_socket (Some s)
    (mkSwW (sw_socket w) (sw_messageQueue w) (sw_continuations w) (sw_isConnected w) (sw_results w) (sw_checked w) e))).
  induction Hevs as [|ev evs Hev _ IH]; intros w1; simpl; [by do 2 eexists|].
  unfold mbind, M_bind. destruct ev; try done; simpl; apply IH.
Qed.

(** [connect] of the Kotlin client succeeds with the client connected when the
    socket opens and does not fail, and keeps every message that arrives with it; but
    it also succeeds, with the client not connected, when nothing happens for ten
    seconds, and then the loop of [connectWithReconnect] ends too. *)
Theorem kt_connect_outcomes {E S} `{Sockets E S} (url : string) (ms : list bytes) (w : KtW E S) (s : S) (e : E) :
  sock_new url (kt_env w) = (Ok s, e) →
  kt_connect url (onOpen :: (onBinary <$> ms)) w = (Ok tt, mkKtW (Some s) (kt_messageQueue w ++ ms) true e) ∧
  kt_connect url [] w = (Ok tt, mkKtW (Some s) (kt_messageQueue w) (kt_isConnected w) e) ∧
  ∀ pow random sleep cfg fuel,
    kt_connectWithReconnect pow random (kt_connect url []) sleep cfg (Datatypes.S fuel) w =
    (Ok tt, mkKtW (Some s) (kt_messageQueue w) (kt_isConnected w) e).
Proof.
  intros Hs. assert (kt_connect url [] w = (Ok tt, mkKtW (Some s) (kt_messageQueue w) (kt_isConnected w) e)) as Et.
  { unfold kt_connect, mbind, M_bind, kt_on_env, zoom. by rewrite Hs. }
  split_and!; [|done|].
  - unfold kt_connect, mbind, M_bind, kt_on_env, zoom. rewrite Hs. unfold kt_await. simpl.
    unfold kt_set_connected, kt_set_ws. simpl. generalize (kt_messageQueue w) as q.
    induction ms as [|m ms IH]; intros q; simpl; [by rewrite app_nil_r|].
    unfold kt_offer at 1. simpl. etransitivity; [apply IH|]. by rewrite <- (assoc_L (++)).
  - intros. unfold kt_connectWithReconnect. simpl. unfold mbind, M_bind, attempt. by rewrite Et.
Qed.

(** Messages of a connection that was closed are still in the queue of the Kotlin
    client and are what [receive] returns on the next connection. *)
Theorem kt_stale_messages {E S} `{Sockets E S} (url : string) (w w1 : KtW E S) (s : S) (e : E) (m : bytes) (q : list bytes) :
  kt_messageQueue w = m :: q → kt_close w = (Ok tt, w1) → sock_new url (kt_env w1) = (Ok s, e) →
  ∃ w2 w3, kt_connect url [onOpen] w1 = (Ok tt, w2) ∧ kt_isConnected w2 = true ∧ kt_receive [] w2 = (Ok m, w3).
Proof.
  intros Hq Hc Hs. assert (kt_messageQueue w1 = m :: q) as Hq1.
  { unfold kt_close, mbind, M_bind, kt_on_env, zoom in Hc. destruct (kt_ws w) as [ws|].
    - destruct (sock_close ws (kt_env w)) as [[[]|?|?] ?]; simpl in Hc; [|done..]. by injection Hc as <-.
    - by injection Hc as <-. }
  unfold kt_connect, mbind, M_bind, kt_on_env, zoom. rewrite Hs. do 2 eexists. split_and!; [done|done|].
  unfold kt_receive. simpl. by rewrite Hq1.
Qed.

(** A TypeScript client whose connection failed says that it is connected; what it
    sends is refused by the transport, and what it waits for never comes. *)
Theorem ts_failed_connect_is_connected {E S} `{Sockets E S} (first_event : S → M E unit) (url : string) (w : TsW E S)
    (s : S) (e e1 : E) (t : error) :
  ts_closed w = false → sock_new url (ts_env w) = (Ok s, e) → first_event s e = (Err t, e1) → sock_open s e1 = false →
  ∃ w', ts_connect first_event url w = (Err t, w') ∧ ts_isConnected w' = true ∧
    (∀ data, ts_send data w' = (Err (Errorf "WebSocket not connected"), w')) ∧
    ∃ w2, ts_receive w' = (Ok (length (ts_promises w)), w2) ∧ ts_promises w2 = ts_promises w ++ [None].
Proof.
  intros Hc Hs Hf Ho. unfold ts_connect, WebSocketTransport_connect, mbind, M_bind, ts_on_env, zoom. simpl.
  rewrite Hs. simpl. rewrite Hf. eexists. split; [reflexivity|]. unfold ts_isConnected. simpl. rewrite Hc.
  split; [done|]. split.
  - intros data. unfold ts_send, ts_current, WebSocketTransport_send. simpl. by rewrite Ho.
  - eexists. split; [reflexivity|done].
Qed.

(** ** Examples: sockets in memory *)

Record MemNet := mkMemNet { net_open : bool; net_sent : list bytes }.

#[local] Instance MemNet_Sockets : Sockets MemNet nat := {
  sock_new _ n := (Ok 0%nat, n);
  sock_open _ n := net_open n;
  sock_send _ m n := (Ok tt, mkMemNet (net_open n) (net_sent n ++ [m]));
  sock_close _ n := (Ok tt, mkMemNet false (net_sent n));
}.

Definition example_ts : TsW MemNet nat :=
  mkTsW (Some (mkWebSocketTransport (Some 0%nat) "ws://localhost" [] [])) false [] (mkMemNet true []).
Definition example_kt (b : bool) (q : list bytes) : KtW MemNet nat := mkKtW (Some 0%nat) q b (mkMemNet b []).
Definition example_sw : SwW MemNet nat := mkSwW None [] [] false [] [] (mkMemNet true []).

Lemma ts_receive_fifo_witness :
  let w := foldl ts_act example_ts [Take; Put [x01]; Put [x02]; Take; Take] in
  ts_promises w = [Some [x01]; Some [x02]; None].
Proof.
  cbv zeta. pose proof (ts_receive_fifo example_ts _ [Take; Put [x01]; Put [x02]; Take; Take] eq_refl eq_refl eq_refl) as Hw.
  cbv zeta in Hw. destruct Hw as (t' & _ & -> & _). reflexivity.
Defined.

Lemma swift_receive_conserves_witness :
  let acts := [SwCheck; SwMessage [x01]; SwStore 0; SwMessage [x02]] in
  ∃ w, swift_steps example_sw acts w ∧ omap id (sw_results w) ++ sw_messageQueue w ≡ₚ [[x01]; [x02]].
Proof.
  intros acts.
  assert (swift_steps example_sw acts (swift_handleMessage [x02] (swift_receive_store 0
    (swift_handleMessage [x01] (swift_receive_check example_sw))))) as Hs.
  { apply (steps_snoc _ [SwCheck; SwMessage [x01]; SwStore 0]
      (swift_receive_store 0 (swift_handleMessage [x01] (swift_receive_check example_sw)))); [|constructor].
    apply (steps_snoc _ [SwCheck; SwMessage [x01]] (swift_handleMessage [x01] (swift_receive_check example_sw)));
      [|constructor; left].
    apply (steps_snoc _ [SwCheck] (swift_receive_check example_sw)); [|constructor].
    apply (steps_snoc _ [] example_sw); constructor. }
  eexists. split; [exact Hs|]. exact (swift_receive_conserves example_sw _ acts eq_refl eq_refl Hs).
Defined.

Lemma swift_receive_fifo_witness :
  sw_results (foldl swift_act example_sw [Put [x01]; Take; Take; Put [x02]]) = [Some [x01]; Some [x02]].
Proof.
  pose proof (swift_receive_fifo example_sw [Put [x01]; Take; Take; Put [x02]] eq_refl eq_refl eq_refl) as [-> _].
  reflexivity.
Defined.

Lemma swift_error_after_connect_is_fatal_witness :
  ∃ why w, swift_connect "ws://localhost" (λ _, true) [onOpen; onBinary [x01]; onFailure (Errorf "reset")] example_sw = (Panic why, w).
Proof.
  destruct (swift_error_after_connect_is_fatal (H:=MemNet_Sockets) "ws://localhost" (λ _, true) [onBinary [x01]] (Errorf "reset") example_sw 0%nat
    (mkMemNet true []) eq_refl eq_refl) as [_ Hp]; [by repeat constructor|]. exact Hp.
Defined.

Lemma kt_connect_outcomes_witness :
  kt_connect "ws://localhost" [] (example_kt false []) = (Ok tt, example_kt false []).
Proof.
  destruct (kt_connect_outcomes (H:=MemNet_Sockets) "ws://localhost" [] (example_kt false []) 0%nat (mkMemNet false []) eq_refl) as (_ & E & _).
  exact E.
Defined.

Lemma kt_stale_messages_witness :
  ∃ w2 w3, kt_connect "ws://localhost" [onOpen] (mkKtW None [[x01]] false (mkMemNet false [])) = (Ok tt, w2) ∧
    kt_isConnected w2 = true ∧ kt_receive [] w2 = (Ok [x01], w3).
Proof.
  exact (kt_stale_messages (H:=MemNet_Sockets) "ws://localhost" (example_kt true [[x01]]) _ 0%nat (mkMemNet false []) [x01] [] eq_refl eq_refl eq_refl).
Defined.

Lemma ts_failed_connect_is_connected_witness :
  ∃ w, ts_connect (λ _ n, (Err (Errorf "ECONNREFUSED"), n)) "ws://localhost" (mkTsW None false [] (mkMemNet false [])) =
    (Err (Errorf "ECONNREFUSED"), w) ∧ ts_isConnected w = true.
Proof.
  destruct (ts_failed_connect_is_connected (H:=MemNet_Sockets) (λ _ n, (Err (Errorf "ECONNREFUSED"), n)) "ws://localhost"
    (mkTsW None false [] (mkMemNet false [])) 0%nat (mkMemNet false []) (mkMemNet false []) (Errorf "ECONNREFUSED")
    eq_refl eq_refl eq_refl eq_refl) as (w & E & Hc & _). eauto.
Defined.

Lemma port_reconnect_terminates_witness :
  let '(r, (k, _)) := port_reconnect (counting (throw (Errorf "refused"))) (λ _, uncounted (mret tt)) 3 5 0 (0%nat, tt) in
  r = Err (Errorf "refused") ∧ k = 3%nat.
Proof.
  pose proof (port_reconnect_terminates (throw (Errorf "refused")) (λ _, mret tt) 3 5 tt (λ _, I) (λ _ _, I) eq_refl) as Ht.
  destruct (port_reconnect _ _ _ _ _ _) as [r [k w]]. destruct Ht as (_ & _ & Ht); [lia|].
  destruct Ht as (Hk & e & w1 & E & ->); [eauto|eauto|]. split; [by injection E as <-|lia].
Defined.

Lemma port_delay_capped_witness :
  f_lt (f_of_Z 30000) (default S754_nan (match (ts_computeDelay (λ _ _, f_of_Z 1024) (mret (f_of_Z 0)) 10
    (mkPortReconnect (f_of_Z 1000) (f_of_Z 30000) (f_of_Z 2) (f_of_Z 0) 0) tt).1 with Ok d => Some d | _ => None end)) = false.
Proof.
  destruct (port_delay_capped (λ _ _, f_of_Z 1024) (mret (f_of_Z 0)) 10
    (mkPortReconnect (f_of_Z 1000) (f_of_Z 30000) (f_of_Z 2) (f_of_Z 0) 0) tt eq_refl) as [(d & -> & Hd) _]. exact Hd.
Defined.
