(* ===== verification/PortNoise.v ===== *)
(** * The handshakes of the starters in Python and Rust

    [starters/python/fproto/crypto.py] and [starters/rust/fproto-core/src/crypto.rs]: key
    generation, both sides of the Noise handshake and the session, over the Noise
    libraries of these languages.  What a library promises is said in terms of flynn/noise
    of [Noise], as all of them implement the same protocol; from it each port is shown to
    follow the Go code, so that a client in one language and a server in another agree. *)
From S2P Require Import Prelude Bytes Noise.

(** ** Exceptions and [?] *)

(** [await read()] and [await write(msg)]: an exception goes on to the caller, in Rust
    after it was replaced by another error. *)
Definition await_read {A} (err : error → error) (k : bytes → proc A) : proc A :=
  Recv (λ r, match r with Ok b => k b | Err e => Ret (Err (err e)) | Panic s => Ret (Panic s) end).

Definition await_write {A} (err : error → error) (msg : bytes) (k : proc A) : proc A :=
  Send msg (λ r, match r with Ok _ => k | Err e => Ret (Err (err e)) | Panic s => Ret (Panic s) end).

(** A call on the library's object, which it changes. *)
Definition call_then {S A B} (err : error → error) (m : M S A) (s : S) (k : A → S → proc B) : proc B :=
  match m s with
  | (Ok a, s) => k a s
  | (Err e, _) => Ret (Err (err e))
  | (Panic why, _) => Ret (Panic why)
  end.

Definition or_raise {A B} (err : error → error) (r : result A) (k : A → proc B) : proc B :=
  match r with Ok a => k a | Err e => Ret (Err (err e)) | Panic why => Ret (Panic why) end.

(** ** Python *)

(** [NoiseConnection] of the package noiseprotocol: made for a side with a private key
    and the random bytes it will use ([from_name], [set_as_initiator] or
    [set_as_responder], [set_keypair_from_private_bytes], [start_handshake]). *)
Class PyNoise := {
  NoiseConnection : Type;
  nc_generate_keypair : result bytes → result KeyPair;
  nc_start : bool → bytes → bytes → result NoiseConnection;
  nc_write_message : M NoiseConnection bytes;
  nc_read_message : bytes → M NoiseConnection unit;
  nc_encrypt : bytes → M NoiseConnection bytes;
  nc_decrypt : bytes → M NoiseConnection bytes;
}.

Section python.
Context `{PyNoise}.

Definition python_generate_keypair (rnd : result bytes) : result KeyPair :=
  match nc_generate_keypair rnd with Ok kp => Ok (mkKeyPair (Private kp) (Public kp)) | Err e => Err e | Panic why => Panic why end.

(** [NoiseSession]: the connection after the handshake. *)
Definition python_encrypt (plaintext : bytes) : M NoiseConnection bytes := nc_encrypt plaintext.
Definition python_decrypt (ciphertext : bytes) : M NoiseConnection bytes := nc_decrypt ciphertext.

Definition python_server_handshake (entropy : bytes) (keypair : KeyPair) : proc NoiseConnection :=
  or_raise id (nc_start false (Private keypair) entropy) (λ noise,
  await_read id (λ msg1,
  call_then id (nc_read_message msg1) noise (λ _ noise,
  call_then id nc_write_message noise (λ msg2 noise,
  await_write id msg2 (
  await_read id (λ msg3,
  call_then id (nc_read_message msg3) noise (λ _ noise, Ret (Ok noise)))))))).

Definition python_client_handshake (entropy : bytes) (keypair : KeyPair) : proc NoiseConnection :=
  or_raise id (nc_start true (Private keypair) entropy) (λ noise,
  call_then id nc_write_message noise (λ msg1 noise,
  await_write id msg1 (
  await_read id (λ msg2,
  call_then id (nc_read_message msg2) noise (λ _ noise,
  call_then id nc_write_message noise (λ msg3 noise,
  await_write id msg3 (Ret (Ok noise)))))))).

End python.

(** ** Rust *)

(** The crate snow: a handshake, which can be turned into a transport once it is
    complete. *)
Class Snow := {
  SnowHandshake : Type;
  TransportState : Type;
  sn_generate_keypair : result bytes → result KeyPair;
  sn_build : bool → bytes → bytes → result SnowHandshake;
  sn_write_message : M SnowHandshake bytes;
  sn_read_message : bytes → M SnowHandshake unit;
  into_transport_mode : SnowHandshake → result TransportState;
  tr_write_message : bytes → M TransportState bytes;
  tr_read_message : bytes → M TransportState bytes;
}.

(** [CryptoError::Noise], and the error in which those of the callbacks are lost. *)
Definition rust_Noise (e : error) : error := Wrap "noise error" e.
Definition rust_Input (_ : error) : error := rust_Noise (Errorf "input error").

Section rust.
Context `{Snow}.

Definition rust_generate_keypair (rnd : result bytes) : result KeyPair :=
  match sn_generate_keypair rnd with
  | Ok kp => Ok (mkKeyPair (Private kp) (Public kp))
  | Err e => Err (rust_Noise e)
  | Panic why => Panic why
  end.

(** An error of the library as one of the crate. *)
Definition noise_error {S A} (m : M S A) : M S A := λ s,
  let '(r, s') := m s in (match r with Err e => Err (rust_Noise e) | r => r end, s').

Definition rust_encrypt (plaintext : bytes) : M TransportState bytes := noise_error (tr_write_message plaintext).
Definition rust_decrypt (ciphertext : bytes) : M TransportState bytes := noise_error (tr_read_message ciphertext).

Definition rust_server_handshake (entropy : bytes) (keypair : KeyPair) : proc TransportState :=
  or_raise rust_Noise (sn_build false (Private keypair) entropy) (λ hs,
  await_read rust_Input (λ msg1,
  call_then rust_Noise (sn_read_message msg1) hs (λ _ hs,
  call_then rust_Noise sn_write_message hs (λ msg2 hs,
  await_write rust_Input msg2 (
  await_read rust_Input (λ msg3,
  call_then rust_Noise (sn_read_message msg3) hs (λ _ hs,
  or_raise rust_Noise (into_transport_mode hs) (λ transport, Ret (Ok transport))))))))).

Definition rust_client_handshake (entropy : bytes) (keypair : KeyPair) : proc TransportState :=
  or_raise rust_Noise (sn_build true (Private keypair) entropy) (λ hs,
  call_then rust_Noise sn_write_message hs (λ msg1 hs,
  await_write rust_Input msg1 (
  await_read rust_Input (λ msg2,
  call_then rust_Noise (sn_read_message msg2) hs (λ _ hs,
  call_then rust_Noise sn_write_message hs (λ msg3 hs,
  await_write rust_Input msg3 (
  or_raise rust_Noise (into_transport_mode hs) (λ transport, Ret (Ok transport))))))))).

End rust.

(** ** What the libraries promise *)

(** A message that all the libraries take: noiseprotocol and snow refuse longer ones, where
    the cipher states of flynn/noise have no limit. *)
Definition fits_noise (m : bytes) : Prop := (Z.of_nat (length m) <= MaxMsgLen)%Z.

#[export] Instance fits_noise_dec m : Decision (fits_noise m).
Proof. unfold fits_noise. apply _. Defined.

(** The libraries behave like flynn/noise.  They generate keys that match, and compute the
    public key from the private one, so that a key pair has to match for them to use the
    same.  A connection and a handshake state that have the same key and randomness and
    have seen the same messages are [alike]: they write the same messages and accept the
    same ones.  When the handshake of one is complete, that of the other is, with the same
    ciphers ([like_session], for the initiator the first cipher sends). *)
Class PyNoiseLaws `{Noise} `{PyNoise} := {
  nc_alike : bool → NoiseConnection → HandshakeState → Prop;
  nc_like_session : NoiseConnection → NoiseSession → Prop;
  nc_generate_matching rnd k : nc_generate_keypair rnd = Ok k → matching k;
  nc_start_alike i k e h : matching k → NewHandshakeState i k e = Ok h → ∃ s, nc_start i (Private k) e = Ok s ∧ nc_alike i s h;
  nc_write_alike i s h m x y h' : nc_alike i s h → hs_WriteMessage h = (Ok (m, x, y), h') →
    ∃ s', nc_write_message s = (Ok m, s') ∧ nc_alike i s' h' ∧
      (∀ a b, x = Some a → y = Some b → nc_like_session s' (if i then mkNoiseSession a b else mkNoiseSession b a));
  nc_read_alike i s h m x y h' : fits_noise m → nc_alike i s h → hs_ReadMessage h m = (Ok (x, y), h') →
    ∃ s', nc_read_message m s = (Ok tt, s') ∧ nc_alike i s' h' ∧
      (∀ a b, x = Some a → y = Some b → nc_like_session s' (if i then mkNoiseSession a b else mkNoiseSession b a));
  nc_encrypt_alike s g p c s' : nc_like_session s g → nc_encrypt p s = (Ok c, s') →
    ∃ g', NoiseSession_Encrypt p g = (Ok c, g') ∧ nc_like_session s' g';
  nc_decrypt_alike s g p c g' : fits_noise c → nc_like_session s g → NoiseSession_Decrypt c g = (Ok p, g') →
    ∃ s', nc_decrypt c s = (Ok p, s') ∧ nc_like_session s' g';
}.

Class SnowLaws `{Noise} `{Snow} := {
  sn_alike : bool → SnowHandshake → HandshakeState → Prop;
  sn_finished : SnowHandshake → NoiseSession → Prop;
  sn_like_session : TransportState → NoiseSession → Prop;
  sn_generate_matching rnd k : sn_generate_keypair rnd = Ok k → matching k;
  sn_build_alike i k e h : matching k → NewHandshakeState i k e = Ok h → ∃ s, sn_build i (Private k) e = Ok s ∧ sn_alike i s h;
  sn_write_alike i s h m x y h' : sn_alike i s h → hs_WriteMessage h = (Ok (m, x, y), h') →
    ∃ s', sn_write_message s = (Ok m, s') ∧ sn_alike i s' h' ∧
      (∀ a b, x = Some a → y = Some b → sn_finished s' (if i then mkNoiseSession a b else mkNoiseSession b a));
  sn_read_alike i s h m x y h' : fits_noise m → sn_alike i s h → hs_ReadMessage h m = (Ok (x, y), h') →
    ∃ s', sn_read_message m s = (Ok tt, s') ∧ sn_alike i s' h' ∧
      (∀ a b, x = Some a → y = Some b → sn_finished s' (if i then mkNoiseSession a b else mkNoiseSession b a));
  into_transport_alike s g : sn_finished s g → ∃ t, into_transport_mode s = Ok t ∧ sn_like_session t g;
  tr_write_alike t g p c t' : sn_like_session t g → tr_write_message p t = (Ok c, t') →
    ∃ g', NoiseSession_Encrypt p g = (Ok c, g') ∧ sn_like_session t' g';
  tr_read_alike t g p c g' : fits_noise c → sn_like_session t g → NoiseSession_Decrypt c g = (Ok p, g') →
    ∃ t', tr_read_message c t = (Ok p, t') ∧ sn_like_session t' g';
}.

(** ** A port *)

(** What the starters promise each other: keys, handshakes and sessions of a language, of which
    [port_like] says that one behaves like a session of Go. *)
Class Port `{Noise} (S : Type) := {
  port_generate : result bytes → result KeyPair;
  port_client : bytes → KeyPair → proc S;
  port_server : bytes → KeyPair → proc S;
  port_encrypt : bytes → M S bytes;
  port_decrypt : bytes → M S bytes;
  port_like : S → NoiseSession → Prop;
}.

(** Each side, with a key pair that matches, goes through the stages of the handshake ([client0], [server0]) with the
    messages that flynn/noise would send, and ends with a session like that of Go. *)
Class PortLaws `{Noise} (S : Type) `{!Port S} : Prop := {
  port_generate_matching rnd k : port_generate rnd = Ok k → matching k;
  port_client_follows e k h m1 m2 m3 x y h1 x2 y2 h2 a b h3 :
    matching k → fits_noise m2 → NewHandshakeState true k e = Ok h → hs_WriteMessage h = (Ok (m1, x, y), h1) → hs_ReadMessage h1 m2 = (Ok (x2, y2), h2) →
    hs_WriteMessage h2 = (Ok (m3, Some a, Some b), h3) →
    ∃ c, client0 m1 m2 m3 c (port_client e k) ∧ port_like c (mkNoiseSession a b);
  port_server_follows e k h m1 m2 m3 x y h1 x2 y2 h2 a b h3 :
    matching k → fits_noise m1 → fits_noise m3 → NewHandshakeState false k e = Ok h → hs_ReadMessage h m1 = (Ok (x, y), h1) → hs_WriteMessage h1 = (Ok (m2, x2, y2), h2) →
    hs_ReadMessage h2 m3 = (Ok (Some a, Some b), h3) →
    ∃ s, server0 m1 m2 m3 s (port_server e k) ∧ port_like s (mkNoiseSession b a);
  port_encrypt_like s g p c s' : port_like s g → port_encrypt p s = (Ok c, s') →
    ∃ g', NoiseSession_Encrypt p g = (Ok c, g') ∧ port_like s' g';
  port_decrypt_like s g p c g' : fits_noise c → port_like s g → NoiseSession_Decrypt c g = (Ok p, g') →
    ∃ s', port_decrypt c s = (Ok p, s') ∧ port_like s' g';
}.

#[export] Instance go_port `{Noise} : Port NoiseSession := {|
  port_generate := GenerateKeyPair;
  port_client := ClientHandshake;
  port_server := ServerHandshake;
  port_encrypt := NoiseSession_Encrypt;
  port_decrypt := NoiseSession_Decrypt;
  port_like s g := s = g;
|}.

#[export] Instance python_port `{Noise} `{PyNoise} `{!PyNoiseLaws} : Port NoiseConnection := {|
  port_generate := python_generate_keypair;
  port_client := python_client_handshake;
  port_server := python_server_handshake;
  port_encrypt := python_encrypt;
  port_decrypt := python_decrypt;
  port_like := nc_like_session;
|}.

#[export] Instance rust_port `{Noise} `{Snow} `{!SnowLaws} : Port TransportState := {|
  port_generate := rust_generate_keypair;
  port_client := rust_client_handshake;
  port_server := rust_server_handshake;
  port_encrypt := rust_encrypt;
  port_decrypt := rust_decrypt;
  port_like := sn_like_session;
|}.

(** Messages in order, through a function on sessions. *)
Fixpoint in_order {S} (f : bytes → M S bytes) (ps : list bytes) : M S (list bytes) :=
  match ps with [] => mret [] | p :: ps => c ← f p; cs ← in_order f ps; mret (c :: cs) end.

(** A handshake whose session is told apart from those of the other side. *)
Fixpoint proc_map {A B} (f : A → B) (p : proc A) : proc B :=
  match p with
  | Ret (Ok a) => Ret (Ok (f a))
  | Ret (Err e) => Ret (Err e)
  | Ret (Panic why) => Ret (Panic why)
  | Recv k => Recv (λ r, proc_map f (k r))
  | Send b k => Send b (λ r, proc_map f (k r))
  end.

(** ** Lemmas *)

Lemma failed_map {A B} (f : A → B) p : failed p → failed (proc_map f p).
Proof. intros [e ->]. by exists e. Qed.

Lemma client0_map {A B} (f : A → B) m1 m2 m3 c p : client0 m1 m2 m3 c p → client0 m1 m2 m3 (f c) (proc_map f p).
Proof.
  intros (k1 & -> & (k2 & E2 & (k3 & E3 & E4 & F3) & F2) & F1).
  eexists. split; [done|]. split; [|intros e; apply failed_map, F1]. simpl. rewrite E2.
  eexists. split; [done|]. split; [|intros e; apply failed_map, F2]. simpl. rewrite E3.
  eexists. split; [done|]. split; [|intros e; apply failed_map, F3]. simpl. by rewrite E4.
Qed.

Lemma server0_map {A B} (f : A → B) m1 m2 m3 s p : server0 m1 m2 m3 s p → server0 m1 m2 m3 (f s) (proc_map f p).
Proof.
  intros (k1 & -> & (k2 & E2 & (k3 & E3 & E4 & F3) & F2) & F1).
  eexists. split; [done|]. split; [|intros e; apply failed_map, F1]. simpl. rewrite E2.
  eexists. split; [done|]. split; [|intros e; apply failed_map, F2]. simpl. rewrite E3.
  eexists. split; [done|]. split; [|intros e; apply failed_map, F3]. simpl. by rewrite E4.
Qed.

(** The next stage of a handshake: what is sent or read, and that an error ends it. *)
Ltac stage := eexists; split; [reflexivity|]; split; [|by eexists].

#[export] Instance go_port_laws `{NoiseLaws} : PortLaws NoiseSession.
Proof.
  split; cbn [port_generate port_client port_server port_encrypt port_decrypt port_like go_port].
  - intros rnd k. apply GenerateKeyPair_matching.
  - intros e k h m1 m2 m3 x y h1 x2 y2 h2 a b h3 Hk F2 E W1 R2 W3. eexists. split; [|done].
    unfold ClientHandshake. rewrite E. simpl. rewrite W1. simpl. stage. stage. rewrite R2. simpl. rewrite W3. simpl. by stage.
  - intros e k h m1 m2 m3 x y h1 x2 y2 h2 a b h3 Hk F1 F3 E R1 W2 R3. eexists. split; [|done].
    unfold ServerHandshake. rewrite E. simpl. stage. rewrite R1. simpl. rewrite W2. simpl. stage. stage. by rewrite R3.
  - intros s g p c s' -> E. by exists s'.
  - intros s g p c g' _ -> E. by exists g'.
Qed.

#[export] Instance python_port_laws `{Noise} `{PyNoise} `{!PyNoiseLaws} : PortLaws NoiseConnection.
Proof.
  split; cbn [port_generate port_client port_server port_encrypt port_decrypt port_like python_port].
  - intros rnd k. unfold python_generate_keypair. destruct (nc_generate_keypair rnd) as [[? ?]| |] eqn:E; [|done..].
    intros [= <-]. by eapply nc_generate_matching.
  - intros e k h m1 m2 m3 x y h1 x2 y2 h2 a b h3 Hk F2 E W1 R2 W3.
    destruct (nc_start_alike _ _ _ _ Hk E) as (s & Es & Hs). destruct (nc_write_alike _ _ _ _ _ _ _ Hs W1) as (s1 & E1 & Ha1 & _).
    destruct (nc_read_alike _ _ _ _ _ _ _ F2 Ha1 R2) as (s2 & E2 & Ha2 & _). destruct (nc_write_alike _ _ _ _ _ _ _ Ha2 W3) as (s3 & E3 & _ & Ha3).
    exists s3. split; [|by apply (Ha3 a b)]. unfold python_client_handshake, call_then. rewrite Es. simpl. rewrite E1.
    stage. stage. rewrite E2, E3. by stage.
  - intros e k h m1 m2 m3 x y h1 x2 y2 h2 a b h3 Hk F1 F3 E R1 W2 R3.
    destruct (nc_start_alike _ _ _ _ Hk E) as (s & Es & Hs). destruct (nc_read_alike _ _ _ _ _ _ _ F1 Hs R1) as (s1 & E1 & Ha1 & _).
    destruct (nc_write_alike _ _ _ _ _ _ _ Ha1 W2) as (s2 & E2 & Ha2 & _). destruct (nc_read_alike _ _ _ _ _ _ _ F3 Ha2 R3) as (s3 & E3 & _ & Ha3).
    exists s3. split; [|by apply (Ha3 a b)]. unfold python_server_handshake, call_then. rewrite Es. simpl.
    stage. rewrite E1, E2. stage. stage. by rewrite E3.
  - intros. by eapply nc_encrypt_alike.
  - intros. by eapply nc_decrypt_alike.
Qed.

#[export] Instance rust_port_laws `{Noise} `{Snow} `{!SnowLaws} : PortLaws TransportState.
Proof.
  split; cbn [port_generate port_client port_server port_encrypt port_decrypt port_like rust_port].
  - intros rnd k. unfold rust_generate_keypair. destruct (sn_generate_keypair rnd) as [[? ?]| |] eqn:E; [|done..].
    intros [= <-]. by eapply sn_generate_matching.
  - intros e k h m1 m2 m3 x y h1 x2 y2 h2 a b h3 Hk F2 E W1 R2 W3.
    destruct (sn_build_alike _ _ _ _ Hk E) as (s & Es & Hs). destruct (sn_write_alike _ _ _ _ _ _ _ Hs W1) as (s1 & E1 & Ha1 & _).
    destruct (sn_read_alike _ _ _ _ _ _ _ F2 Ha1 R2) as (s2 & E2 & Ha2 & _). destruct (sn_write_alike _ _ _ _ _ _ _ Ha2 W3) as (s3 & E3 & _ & Ha3).
    destruct (into_transport_alike _ _ (Ha3 a b eq_refl eq_refl)) as (t & Et & Ht).
    exists t. split; [|done]. unfold rust_client_handshake, call_then. rewrite Es. simpl. rewrite E1.
    stage. stage. rewrite E2, E3. stage. simpl. by rewrite Et.
  - intros e k h m1 m2 m3 x y h1 x2 y2 h2 a b h3 Hk F1 F3 E R1 W2 R3.
    destruct (sn_build_alike _ _ _ _ Hk E) as (s & Es & Hs). destruct (sn_read_alike _ _ _ _ _ _ _ F1 Hs R1) as (s1 & E1 & Ha1 & _).
    destruct (sn_write_alike _ _ _ _ _ _ _ Ha1 W2) as (s2 & E2 & Ha2 & _). destruct (sn_read_alike _ _ _ _ _ _ _ F3 Ha2 R3) as (s3 & E3 & _ & Ha3).
    destruct (into_transport_alike _ _ (Ha3 a b eq_refl eq_refl)) as (t & Et & Ht).
    exists t. split; [|done]. unfold rust_server_handshake, call_then. rewrite Es. simpl.
    stage. rewrite E1, E2. stage. stage. rewrite E3. simpl. by rewrite Et.
  - intros t g p c t' Hl E. unfold rust_encrypt, noise_error in E. destruct (tr_write_message p t) as [[b|e|why] t1] eqn:Et; try done.
    injection E as -> ->. by eapply tr_write_alike.
  - intros t g p c g' Hf Hl E. destruct (tr_read_alike _ _ _ _ _ Hf Hl E) as (t' & Et & Ht). exists t'. split; [|done].
    unfold rust_decrypt, noise_error. by rewrite Et.
Qed.

Section sessions.
Context `{NoiseLaws} {A B : Type} `{!Port A} `{!PortLaws A} `{!Port B} `{!PortLaws B}.

Lemma in_order_encrypt ps (s : A) g cts s' :
  port_like s g → in_order port_encrypt ps s = (Ok cts, s') → ∃ g', encrypt_seq ps g = (Ok cts, g').
Proof.
  revert s g cts. induction ps as [|p ps IH]; intros s g cts Hl E; simpl in *.
  { injection E as <- _. by exists g. }
  apply bind_Ok_inv in E as (c & s1 & E1 & E). apply bind_Ok_inv in E as (cs & s2 & E2 & E). injection E as <- <-.
  destruct (port_encrypt_like _ _ _ _ _ Hl E1) as (g1 & G1 & Hl1). destruct (IH _ _ _ Hl1 E2) as (g2 & G2).
  exists g2. by rewrite (bind_run _ _ _ _ _ G1), (bind_run _ _ _ _ _ G2).
Qed.

Lemma in_order_decrypt cts (s : A) g ps g' :
  Forall fits_noise cts → port_like s g → decrypt_seq cts g = (Ok ps, g') → ∃ s', in_order port_decrypt cts s = (Ok ps, s').
Proof.
  intros Hf. revert s g ps. induction Hf as [|c cts Hc _ IH]; intros s g ps Hl E; simpl in *.
  { injection E as <- _. by exists s. }
  apply bind_Ok_inv in E as (p & g1 & E1 & E). apply bind_Ok_inv in E as (qs & g2 & E2 & E). injection E as <- <-.
  destruct (port_decrypt_like _ _ _ _ _ Hc Hl E1) as (s1 & S1 & Hl1). destruct (IH _ _ _ Hl1 E2) as (s2 & S2).
  exists s2. by rewrite (bind_run _ _ _ _ _ S1), (bind_run _ _ _ _ _ S2).
Qed.

(** The two sides go through the stages with sessions that are like a pair of Go. *)
Lemma ports_stages ec es kc ks hc hs :
  usable ec kc → usable es ks → NewHandshakeState true kc ec = Ok hc → NewHandshakeState false ks es = Ok hs →
  ∃ m1 m2 m3 (c : A) (s : B) gc gs, client0 m1 m2 m3 c (port_client ec kc) ∧ server0 m1 m2 m3 s (port_server es ks) ∧
    port_like c gc ∧ port_like s gs ∧ paired gc gs.
Proof.
  intros [Hkc [xc Hxc]] [Hks [xs Hxs]] Ec Es. destruct (XX_completes _ _ _ _ _ _ _ _ Hkc Hks Hxc Hxs Ec Es)
    as (m1 & m2 & m3 & hi1 & hi2 & hi3 & hr1 & hr2 & hr3 & a & b & a' & b' & W1 & R1 & W2 & R2 & W3 & R3).
  destruct (XX_agrees _ _ _ _ _ _ _ _ _ _ _ _ _ _ _ _ _ _ _ _ _ _ _ _ _ _ _ Ec Es W1 R1 W2 R2 W3 R3).
  destruct (WriteMessage_size _ _ _ _ _ W1) as [_ F1]. destruct (WriteMessage_size _ _ _ _ _ W2) as [_ F2].
  destruct (WriteMessage_size _ _ _ _ _ W3) as [_ F3].
  destruct (port_client_follows (S:=A) _ _ _ _ _ _ _ _ _ _ _ _ _ _ _ Hkc F2 Ec W1 R2 W3) as (c & Hc & Hlc).
  destruct (port_server_follows (S:=B) _ _ _ _ _ _ _ _ _ _ _ _ _ _ _ Hks F1 F3 Es R1 W2 R3) as (s & Hs & Hls).
  exists m1, m2, m3, c, s, (mkNoiseSession a b), (mkNoiseSession b' a'). by split_and!.
Qed.

End sessions.

(** ** Properties *)


(** ** Toy libraries and the witness

    The toy suite of [Noise] behind the interfaces of the two libraries. *)

Definition toy_session : Type := @NoiseSession toy_noise.
Definition toy_split (i : bool) (x : option (bytes * nat) * option (bytes * nat)) : option toy_session :=
  match x with (Some a, Some b) => Some (if i then @mkNoiseSession toy_noise a b else @mkNoiseSession toy_noise b a) | _ => None end.

Definition toy_hs_write : M ((bool * nat) * option toy_session) bytes := λ s,
  match toy_write s.1 with
  | (Ok (m, x, y), h) => (Ok m, (h, toy_split s.1.1 (x, y)))
  | (Err e, h) => (Err e, (h, s.2))
  | (Panic why, h) => (Panic why, (h, s.2))
  end.

Definition toy_hs_read (m : bytes) : M ((bool * nat) * option toy_session) unit := λ s,
  match toy_read s.1 m with
  | (Ok (x, y), h) => (Ok tt, (h, toy_split s.1.1 (x, y)))
  | (Err e, h) => (Err e, (h, s.2))
  | (Panic why, h) => (Panic why, (h, s.2))
  end.

Definition toy_finished (f : bytes → M toy_session bytes) (m : bytes) : M ((bool * nat) * option toy_session) bytes := λ s,
  match s.2 with
  | Some g => let '(r, g') := f m g in (r, (s.1, Some g'))
  | None => (Err (Errorf "NoiseHandshakeError: Handshake not finished yet!"), s)
  end.

(** The limit of the libraries. *)
Definition toy_limited {S A} (f : bytes → M S A) (m : bytes) : M S A := λ s,
  if bool_decide (fits_noise m) then f m s else (Err (Errorf "message too long"), s).

Definition toy_py : PyNoise := {|
  NoiseConnection := (bool * nat) * option toy_session;
  nc_generate_keypair rnd := (λ b, mkKeyPair b b) <$> rnd;
  nc_start i _ _ := Ok ((i, 0), None);
  nc_write_message := toy_hs_write;
  nc_read_message := toy_limited toy_hs_read;
  nc_encrypt := toy_limited (toy_finished (@NoiseSession_Encrypt toy_noise));
  nc_decrypt := toy_limited (toy_finished (@NoiseSession_Decrypt toy_noise));
|}.

Definition toy_snow : Snow := {|
  SnowHandshake := (bool * nat) * option toy_session;
  TransportState := toy_session;
  sn_generate_keypair rnd := (λ b, mkKeyPair b b) <$> rnd;
  sn_build i _ _ := Ok ((i, 0), None);
  sn_write_message := toy_hs_write;
  sn_read_message := toy_limited toy_hs_read;
  into_transport_mode s := match s.2 with Some g => Ok g | None => Err (Errorf "state error") end;
  tr_write_message := toy_limited (@NoiseSession_Encrypt toy_noise);
  tr_read_message := toy_limited (@NoiseSession_Decrypt toy_noise);
|}.

Lemma toy_write_split (i : bool) (s : (bool * nat) * option toy_session) h m x y h' :
  s.1 = h ∧ h.1 = i → toy_write h = (Ok (m, x, y), h') → ∃ s', toy_hs_write s = (Ok m, s') ∧ (s'.1 = h' ∧ h'.1 = i) ∧
    ∀ a b, x = Some a → y = Some b → s'.2 = Some (if i then @mkNoiseSession toy_noise a b else @mkNoiseSession toy_noise b a).
Proof.
  intros [<- <-] E. unfold toy_hs_write. rewrite E. eexists. split; [done|]. split; [|by intros a b -> ->].
  split; [done|]. unfold toy_write in E. repeat case_match; by simplify_eq.
Qed.

Lemma toy_read_split (i : bool) (s : (bool * nat) * option toy_session) h m x y h' :
  s.1 = h ∧ h.1 = i → toy_read h m = (Ok (x, y), h') → ∃ s', toy_hs_read m s = (Ok tt, s') ∧ (s'.1 = h' ∧ h'.1 = i) ∧
    ∀ a b, x = Some a → y = Some b → s'.2 = Some (if i then @mkNoiseSession toy_noise a b else @mkNoiseSession toy_noise b a).
Proof.
  intros [<- <-] E. unfold toy_hs_read. rewrite E. eexists. split; [done|]. split; [|by intros a b -> ->].
  split; [done|]. unfold toy_read in E. repeat case_match; by simplify_eq.
Qed.

Lemma toy_finished_like (f : bytes → M toy_session bytes) p c (s s' : (bool * nat) * option toy_session) g :
  s.2 = Some g → toy_finished f p s = (Ok c, s') → ∃ g', f p g = (Ok c, g') ∧ s'.2 = Some g'.
Proof.
  intros Hs. unfold toy_finished. rewrite Hs. destruct (f p g) as [r g'] eqn:E. intros [= -> <-]. by exists g'.
Qed.

#[refine] Definition toy_py_laws : @PyNoiseLaws toy_noise toy_py := {|
  nc_alike i (s : @NoiseConnection toy_py) (h : @HandshakeState toy_noise) := s.1 = h ∧ h.1 = i;
  nc_like_session (s : @NoiseConnection toy_py) g := s.2 = Some g;
|}.
Proof.
  - intros [b| |] k [= <-]. done.
  - intros i k e h _ [= <-]. by eexists.
  - intros. by eapply toy_write_split.
  - intros i s h m x y h' Hf Ha E. simpl. unfold toy_limited. rewrite bool_decide_true by done. by eapply toy_read_split.
  - intros s g p c s' Hs. simpl. unfold toy_limited. case_bool_decide; [|done]. by eapply toy_finished_like.
  - intros s g p c g' Hf Hs E. simpl. unfold toy_limited. rewrite bool_decide_true by done. unfold toy_finished. rewrite Hs, E. by eexists.
Defined.

#[refine] Definition toy_snow_laws : @SnowLaws toy_noise toy_snow := {|
  sn_alike i (s : @SnowHandshake toy_snow) (h : @HandshakeState toy_noise) := s.1 = h ∧ h.1 = i;
  sn_finished (s : @SnowHandshake toy_snow) g := s.2 = Some g;
  sn_like_session (t : @TransportState toy_snow) g := t = g;
|}.
Proof.
  - intros [b| |] k [= <-]. done.
  - intros i k e h _ [= <-]. by eexists.
  - intros. by eapply toy_write_split.
  - intros i s h m x y h' Hf Ha E. simpl. unfold toy_limited. rewrite bool_decide_true by done. by eapply toy_read_split.
  - intros s g Hs. simpl. rewrite Hs. by eexists.
  - intros t g p c t' ->. simpl. unfold toy_limited. case_bool_decide; [|done]. by exists t'.
  - intros t g p c g' Hf -> E. simpl. unfold toy_limited. rewrite bool_decide_true by done. by exists g'.
Defined.

