(* ===== verification/PortTransports.v ===== *)
(** * The transports of the starters in TypeScript, Python and Rust

    [starters/node/src/transport.ts], [starters/python/fproto/transport.py] and
    [starters/rust/fproto-core/src/transport.rs]: connections over the WebSocket libraries
    of these languages, which are parameters.  The server's and the client's connection of
    a language have the same methods; they differ in how they are made and in their
    address. *)
From S2P Require Import Prelude Bytes Wire ConnPool Noise Conn Float64 SdkPorts.

(** ** TypeScript *)

(** A connection: received messages, the promises of waiting calls, and whether the
    socket has closed.  The promises are kept in a heap: one is pending, resolved or
    rejected. *)
Record NodeConn (S : Type) := mkNodeConn {
  nd_queue : list bytes;
  nd_waiters : list nat;
  nd_closed : bool;
  nd_ws : S;
  nd_addr : string;
}.
Arguments mkNodeConn {S} _ _ _ _ _.
Arguments nd_queue {S} _.
Arguments nd_waiters {S} _.
Arguments nd_closed {S} _.
Arguments nd_ws {S} _.
Arguments nd_addr {S} _.

Record NodeW (E S : Type) := mkNodeW { nd_conn : NodeConn S; nd_promises : list (option (result bytes)); nd_env : E }.
Arguments mkNodeW {E S} _ _ _.
Arguments nd_conn {E S} _.
Arguments nd_promises {E S} _.
Arguments nd_env {E S} _.

Section node.
Context {E S : Type} `{Sockets E S}.
Implicit Types (w : NodeW E S).

Definition WsServerConn_new (ws : S) (addr : string) : NodeConn S := mkNodeConn [] [] false ws addr.

(** The first event of a new socket, [open] or [error]; the client's address is the URL
    of its socket. *)
Definition WsClientConn_connect (first_event : S → M E unit) (ws_url : S → option string) (url : string) : M E (NodeConn S) :=
  ws ← sock_new url;
  _ ← first_event ws;
  mret (mkNodeConn [] [] false ws (default "unknown" (ws_url ws))).

Definition nd_update (queue : list bytes) (waiters : list nat) (closed : bool) (promises : list (option (result bytes))) w : NodeW E S :=
  mkNodeW (mkNodeConn queue waiters closed (nd_ws (nd_conn w)) (nd_addr (nd_conn w))) promises (nd_env w).

(** The handlers of [message] and [close]. *)
Definition node_onmessage (data : bytes) w : NodeW E S :=
  let c := nd_conn w in
  match nd_waiters c with
  | p :: ps => nd_update (nd_queue c) ps (nd_closed c) (<[p := Some (Ok data)]> (nd_promises w)) w
  | [] => nd_update (nd_queue c ++ [data]) [] (nd_closed c) (nd_promises w) w
  end.

Definition node_onclose w : NodeW E S :=
  let c := nd_conn w in
  nd_update (nd_queue c) [] true (foldl (λ ps p, <[p := Some (Ok [])]> ps) (nd_promises w) (nd_waiters c)) w.

(** [readMessage]: the promise it returns. *)
Definition node_readMessage w : nat * NodeW E S :=
  let c := nd_conn w in
  let p := length (nd_promises w) in
  match nd_queue c with
  | m :: q => (p, nd_update q (nd_waiters c) (nd_closed c) (nd_promises w ++ [Some (Ok m)]) w)
  | [] =>
      if nd_closed c then (p, nd_update [] (nd_waiters c) true (nd_promises w ++ [Some (Err (Errorf "connection closed"))]) w)
      else (p, nd_update [] (nd_waiters c ++ [p]) false (nd_promises w ++ [None]) w)
  end.

Definition node_on_env {A} (m : M E A) : M (NodeW E S) A := zoom nd_env (λ e w, mkNodeW (nd_conn w) (nd_promises w) e) m.

(** The promise of [writeMessage] is settled by the callback of [send]. *)
Definition node_writeMessage (data : bytes) : M (NodeW E S) unit := λ w, node_on_env (sock_send (nd_ws (nd_conn w)) data) w.

Definition node_close : M (NodeW E S) unit := λ w, node_on_env (sock_close (nd_ws (nd_conn w))) w.

Definition node_transportType (_ : NodeConn S) : Type_ := TypeWebSocket.
Definition node_remoteAddr (c : NodeConn S) : string := nd_addr c.

(** What happens to a connection that is open. *)
Definition node_act w (a : mail_action) : NodeW E S :=
  match a with Put m => node_onmessage m w | Take => (node_readMessage w).2 end.

End node.

(** ** Python *)

(** A connection of the package websockets: [recv] gives bytes or text. *)
Inductive pydata := PyBytes (b : bytes) | PyStr (s : string).

Class PyWebSocket (S : Type) := {
  py_recv : M S pydata;
  py_send : bytes → M S unit;
  py_close : M S unit;
  py_remote_address : S → option (string * string);
}.

Section python.
Context {S : Type} `{PyWebSocket S}.

(** [data.encode()] of a text, whose characters are kept as their UTF-8 bytes. *)
Definition python_read_message : M S bytes :=
  data ← py_recv;
  mret (match data with PyStr s => bytes_of_string s | PyBytes b => b end).

Definition python_write_message (data : bytes) : M S unit := py_send data.
Definition python_close : M S unit := py_close.
Definition python_transport_type (_ : S) : Type_ := TypeWebSocket.

(** The server's connection spells the address out; the client's gives [str] of the
    tuple. *)
Definition python_remote_addr (s : S) : string :=
  match py_remote_address s with Some (host, port) => host +:+ ":" +:+ port | None => "unknown" end.
Definition python_client_remote_addr (str : string * string → string) (s : S) : string :=
  match py_remote_address s with Some peer => str peer | None => "unknown" end.

(** [WsClientConn.connect] over [websockets.client.connect]: the connection is the one of
    the library. *)
Definition python_connect {Q} (connect : string → M Q S) (url : string) : M Q S := connect url.

End python.

(** ** Rust *)

(** The messages of tungstenite, and the stream of them. *)
Inductive tungstenite := Binary (data : bytes) | Text (s : string) | Ping (data : bytes) | Pong (data : bytes) | Close.

Class RustWebSocket (S : Type) := {
  rs_next : M S (option tungstenite);
  rs_send : tungstenite → M S unit;
  rs_close : M S unit;
}.

Record RustConn (S : Type) := mkRustConn { rc_ws : S; rc_addr : string }.
Arguments mkRustConn {S} _ _.
Arguments rc_ws {S} _.
Arguments rc_addr {S} _.

(** [TransportError] *)
Definition rust_Closed : error := Errorf "connection closed".
Definition rust_WebSocket (e : error) : error := Wrap "websocket error" e.

Section rust.
Context {S : Type} `{RustWebSocket S}.

Definition on_rust_ws {A} (m : M S A) : M (RustConn S) A := zoom rc_ws (λ s c, mkRustConn s (rc_addr c)) m.

(** An error of the library as one of the crate. *)
Definition ws_error {A} (m : M S A) : M S A := λ s,
  let '(r, s') := m s in (match r with Err e => Err (rust_WebSocket e) | r => r end, s').

(** [read_message] calls itself for every message that it passes over; [fuel] bounds
    these calls. *)
Fixpoint rust_read_loop (fuel : nat) : M S bytes :=
  match fuel with
  | O => panic "out of fuel"
  | Datatypes.S fuel =>
      item ← ws_error rs_next;
      match item with
      | Some (Binary data) => mret data
      | Some Close | None => throw rust_Closed
      | Some _ => rust_read_loop fuel
      end
  end.

Definition rust_read_message (fuel : nat) : M (RustConn S) bytes := on_rust_ws (rust_read_loop fuel).
Definition rust_write_message (data : bytes) : M (RustConn S) unit := on_rust_ws (ws_error (rs_send (Binary data))).
Definition rust_close : M (RustConn S) unit := on_rust_ws (ws_error rs_close).
Definition rust_transport_type (_ : RustConn S) : Type_ := TypeWebSocket.
Definition rust_remote_addr (c : RustConn S) : string := rc_addr c.

(** [WsClientConn::connect] and [accept_ws] over the library, whose state is [Q]. *)
Definition rust_connect {Q} (connect_async : string → M Q S) (url : string) : M Q (RustConn S) := λ q,
  let '(r, q') := connect_async url q in
  (match r with Ok ws => Ok (mkRustConn ws url) | Err e => Err (rust_WebSocket e) | Panic why => Panic why end, q').

Definition accept_ws {Q} (accept_async : M Q S) (addr : string) : M Q (RustConn S) := λ q,
  let '(r, q') := accept_async q in
  (match r with Ok ws => Ok (mkRustConn ws addr) | Err e => Err (rust_WebSocket e) | Panic why => Panic why end, q').

End rust.

(** ** What the libraries promise *)

Class PyWebSocketLaws (S : Type) `{PyWebSocket S} := {
  py_unread : S → list bytes → Prop;
  py_wrote : S → list bytes → Prop;
  py_recv_next s m ms : py_unread s (m :: ms) →
    ∃ d s', py_recv s = (Ok d, s') ∧ (d = PyBytes m ∨ ∃ t, d = PyStr t ∧ bytes_of_string t = m) ∧ py_unread s' ms ∧
      (∀ os, py_wrote s os → py_wrote s' os);
  py_recv_end s : py_unread s [] → ∃ e s', py_recv s = (Err e, s') ∧ (∀ os, py_wrote s os → py_wrote s' os);
  py_send_adds s m s' os : py_send m s = (Ok tt, s') → py_wrote s os → py_wrote s' (os ++ [m]);
  py_send_unread s m r s' ms : py_send m s = (r, s') → py_unread s ms → py_unread s' ms;
  py_recv_addr s r s' : py_recv s = (r, s') → py_remote_address s' = py_remote_address s;
  py_send_addr s m r s' : py_send m s = (r, s') → py_remote_address s' = py_remote_address s;
}.

(** The stream gives the messages in order and then ends. *)
Class RustWebSocketLaws (S : Type) `{RustWebSocket S} := {
  rs_pending : S → list tungstenite → Prop;
  rs_next_pops s x xs : rs_pending s (x :: xs) → ∃ s', rs_next s = (Ok (Some x), s') ∧ rs_pending s' xs;
  rs_next_ends s : rs_pending s [] → ∃ s', rs_next s = (Ok None, s') ∧ rs_pending s' [];
}.

(** ** Python keeps the interface of connections *)

#[export] Instance python_Conn {S} `{PyWebSocketLaws S} : Conn S := {
  conn_ReadMessage := python_read_message;
  conn_WriteMessage := python_write_message;
  conn_RemoteAddr := python_remote_addr;
  conn_unread := py_unread;
  conn_wrote := py_wrote;
  conn_fits _ := True;
}.

#[export] Instance python_ConnLaws {S} `{PyWebSocketLaws S} : ConnLaws S.
Proof.
  split; cbn [conn_ReadMessage conn_WriteMessage conn_RemoteAddr conn_unread conn_wrote python_Conn].
  - intros s m ms Hu. destruct (py_recv_next _ _ _ Hu) as (d & s' & E & Hd & Hu' & Hw). exists s'. split; [|done].
    unfold python_read_message. rewrite (bind_run _ _ _ _ _ E). destruct Hd as [->|(t & -> & <-)]; done.
  - intros s Hu. destruct (py_recv_end _ Hu) as (e & s' & E & Hw). exists e, s'. split; [|done].
    unfold python_read_message. by rewrite (bind_run _ _ _ _ _ E).
  - intros s m s' os _ E Hw. by eapply py_send_adds.
  - intros s m r s' ms E Hu. by eapply py_send_unread.
  - intros s r s' E. unfold python_read_message in E. step E as r1 s1 E1. apply py_recv_addr in E1. unfold python_remote_addr.
    rewrite <-E1. destruct r1; by injection E as _ <-.
  - intros s m r s' E. unfold python_remote_addr. by rewrite (py_send_addr _ _ _ _ E).
Qed.

(** ** Lemmas: TypeScript *)

Section node_lemmas.
Context {E S : Type} `{Sockets E S}.
Implicit Types (w : NodeW E S) (b : mailbox).

(** A connection that is open, as a mailbox. *)
Definition node_is w b : Prop :=
  nd_queue (nd_conn w) = mb_queue b ∧ nd_waiters (nd_conn w) = mb_waiting b ∧ nd_closed (nd_conn w) = false ∧
  nd_promises w = (λ r : option bytes, Ok <$> r) <$> mb_results b.

Lemma node_act_mailbox w b a : node_is w b → node_is (node_act w a) (mail_act b a).
Proof.
  intros (Hq & Hw & Hc & Hp). destruct a as [m|]; simpl.
  - unfold node_onmessage, mail_put. rewrite Hq, Hw, Hc, Hp. destruct (mb_waiting b); [done|].
    split_and!; [done..|]. simpl. by rewrite list_fmap_insert.
  - unfold node_readMessage, mail_take. rewrite Hq, Hw, Hc, Hp. destruct (mb_queue b); simpl.
    + split_and!; simpl; [done|by rewrite length_fmap|done|by rewrite fmap_app].
    + split_and!; simpl; [done..|by rewrite fmap_app].
Qed.

Lemma node_run_mailbox w b acts : node_is w b → node_is (foldl node_act w acts) (foldl mail_act b acts).
Proof. revert w b. induction acts as [|a acts IH]; intros w b Hw; [done|]. simpl. by apply IH, node_act_mailbox. Qed.

End node_lemmas.

(** Settling promises one after the other. *)
Lemma settle_all {A} (v : A) ps js i :
  (∀ j, j ∈ js → j < length ps) →
  foldl (λ ps p, <[p := v]> ps) ps js !! i = if decide (i ∈ js) then Some v else ps !! i.
Proof.
  revert ps. induction js as [|j js IH]; intros ps Hj; cbn [foldl].
  { by rewrite decide_False by set_solver. }
  rewrite IH by (intros k Hk; rewrite length_insert; apply Hj; set_solver). destruct (decide (i ∈ js)) as [Hi|Hi].
  - by rewrite decide_True by set_solver.
  - destruct (decide (i = j)) as [->|Hne].
    + rewrite decide_True by set_solver. apply list_lookup_insert_eq, Hj. set_solver.
    + rewrite decide_False by set_solver. by apply list_lookup_insert_ne.
Qed.

(** ** Lemmas: Rust *)

(** The messages that are handed out: the binary ones up to a close. *)
Fixpoint binaries (xs : list tungstenite) : list bytes :=
  match xs with
  | [] | Close :: _ => []
  | Binary d :: xs => d :: binaries xs
  | _ :: xs => binaries xs
  end.

Section rust_lemmas.
Context {S : Type} `{RustWebSocketLaws S}.

(** One call passes over everything up to the next binary message. *)
Lemma rust_read_loop_spec fuel (s : S) xs :
  rs_pending s xs → length xs < fuel →
  match binaries xs with
  | d :: ds => ∃ s' ys, rust_read_loop fuel s = (Ok d, s') ∧ rs_pending s' ys ∧ binaries ys = ds ∧ length ys < length xs
  | [] => ∃ s', rust_read_loop fuel s = (Err rust_Closed, s')
  end.
Proof.
  revert s xs. induction fuel as [|fuel IH]; intros s xs Hp Hf; [lia|]. cbn [rust_read_loop]. unfold mbind, M_bind, ws_error.
  destruct xs as [|x xs]; simpl.
  { destruct (rs_next_ends _ Hp) as (s' & -> & _). by eexists. }
  destruct (rs_next_pops _ _ _ Hp) as (s' & -> & Hp'). simpl in Hf.
  assert (match binaries xs with
          | d :: ds => ∃ s2 ys, rust_read_loop fuel s' = (Ok d, s2) ∧ rs_pending s2 ys ∧ binaries ys = ds ∧ length ys < Datatypes.S (length xs)
          | [] => ∃ s2, rust_read_loop fuel s' = (Err rust_Closed, s2)
          end) as Hrest.
  { specialize (IH s' xs Hp' ltac:(lia)). destruct (binaries xs); [done|]. destruct IH as (s2 & ys & ? & ? & ? & ?).
    exists s2, ys. split_and!; [done..|lia]. }
  destruct x; [exists s', xs; split_and!; [done..|lia]|exact Hrest..|by eexists].
Qed.

End rust_lemmas.

(** ** Properties *)

(** The connection of the TypeScript starter.  While it is open, the calls of [readMessage]
    get the messages in the order in which they arrive, each once.  When it closes, the
    calls that wait get an empty message, as if the peer had sent one; the messages that
    are left can still be read, and after them calls are rejected. *)
Theorem node_reads {E S} `{Sockets E S} (ws : S) (addr : string) (env : E) (acts : list mail_action) :
  let w := foldl node_act (mkNodeW (WsServerConn_new ws addr) [] env) acts in
  let ms := puts acts in
  let n := takes acts in
  nd_promises w = (λ i, Ok <$> ms !! i) <$> seq 0 n ∧ nd_queue (nd_conn w) = drop n ms ∧
  let w' := node_onclose w in
  (∀ i, i < n → nd_promises w' !! i = Some (Some (Ok (default [] (ms !! i))))) ∧
  nd_queue (nd_conn w') = drop n ms ∧
  (length ms ≤ n → nd_promises (node_readMessage w').2 !! n = Some (Some (Err (Errorf "connection closed")))).
Proof.
  intros w ms n. assert (node_is w (mail_after [] ms n)) as (Hq & Hw & Hc & Hp).
  { unfold ms, n. rewrite <-mailbox_fifo. by apply node_run_mailbox. }
  unfold mail_after in Hq, Hw, Hp. simpl in Hq, Hw, Hp.
  assert (nd_promises w = (λ i, Ok <$> ms !! i) <$> seq 0 n) as Hps by (by rewrite Hp, <-list_fmap_compose).
  split_and!; [done..|]. intros w'. unfold w', node_onclose. cbn [nd_update nd_promises nd_conn nd_queue]. rewrite Hw, Hq.
  assert (length (nd_promises w) = n) as Hlen by (by rewrite Hps, length_fmap, length_seq). split_and!; [|done|].
  - intros i Hi. rewrite settle_all by (intros j [? ?]%elem_of_seq; lia). case_decide as Hin.
    + apply elem_of_seq in Hin. by rewrite lookup_ge_None_2 by lia.
    + assert (i < length ms) as Hlt by (rewrite elem_of_seq in Hin; lia). rewrite Hps, list_lookup_fmap, lookup_seq_lt by done.
      simpl. by destruct (lookup_lt_is_Some_2 _ _ Hlt) as [m ->].
  - intros Hle. unfold node_readMessage. simpl. rewrite (drop_ge ms) by lia. simpl.
    assert (∀ js (ps : list (option (result bytes))), length (foldl (λ ps p, <[p:=Some (Ok [])]> ps) ps js) = length ps) as Hl.
    { intros js. induction js as [|j js IH]; intros ps; [done|]. simpl. by rewrite IH, length_insert. }
    rewrite lookup_app_r by (rewrite Hl; lia). by rewrite Hl, Hlen, Nat.sub_diag.
Qed.

(** Calls of [read_message], and of the next one. *)
Fixpoint rust_reads {S} `{RustWebSocket S} (fuel n : nat) : M S (list bytes) :=
  match n with O => mret [] | Datatypes.S n => d ← rust_read_loop fuel; ds ← rust_reads fuel n; mret (d :: ds) end.

(** The connection of the Rust starter.  [read_message] returns: it passes over messages
    that are not binary, so that calls get the binary messages in order, each once, up to
    the one that closes the connection, and from then on an error. *)
Theorem rust_reads_binaries {S} `{RustWebSocketLaws S} (fuel : nat) (s : S) (xs : list tungstenite) :
  rs_pending s xs → length xs < fuel →
  ∃ s', rust_reads fuel (length (binaries xs)) s = (Ok (binaries xs), s') ∧ ∃ s2, rust_read_loop fuel s' = (Err rust_Closed, s2).
Proof.
  remember (binaries xs) as ds eqn:Ed. revert s xs Ed. induction ds as [|d ds IH]; intros s xs Ed Hp Hf; simpl.
  { exists s. split; [done|]. pose proof (rust_read_loop_spec fuel s xs Hp Hf) as Hr. by rewrite <-Ed in Hr. }
  pose proof (rust_read_loop_spec fuel s xs Hp Hf) as Hr. rewrite <-Ed in Hr. destruct Hr as (s1 & ys & E1 & Hp1 & Hy & Hl).
  destruct (IH s1 ys (eq_sym Hy) Hp1 ltac:(lia)) as (s' & E2 & Hend). exists s'. split; [|done].
  by rewrite (bind_run _ _ _ _ _ E1), (bind_run _ _ _ _ _ E2).
Qed.

(** ** Libraries in memory and the witness *)

(** The connection in memory of [Conn], every message of which is binary. *)
#[export] Instance MemConn_py : PyWebSocket MemConn := {
  py_recv := m ← conn_ReadMessage; mret (PyBytes m);
  py_send := conn_WriteMessage;
  py_close := ws_Close;
  py_remote_address c := Some (mem_addr c, "0");
}.

#[refine, export] Instance MemConn_py_laws : PyWebSocketLaws MemConn := {
  py_unread c ms := mem_in c = ms;
  py_wrote c ms := mem_out c = ms;
}.
Proof.
  - intros [i o a] m ms Hu. simpl in Hu. subst i. do 2 eexists. split; [done|]. split; [by left|done].
  - intros [i o a] Hu. simpl in Hu. subst i. by do 2 eexists.
  - intros c m c' os [= <-] <-. done.
  - intros c m r c' ms [= _ <-] <-. done.
  - intros [[|m i] o a] r c' E; by injection E as _ <-.
  - intros c m r c' [= _ <-]. done.
Defined.

#[export] Instance list_ws : RustWebSocket (list tungstenite) := {
  rs_next xs := match xs with [] => (Ok None, []) | x :: xs => (Ok (Some x), xs) end;
  rs_send _ := mret tt;
  rs_close := mret tt;
}.

#[export] Instance list_ws_laws : RustWebSocketLaws (list tungstenite) := {
  rs_pending s xs := s = xs;
  rs_next_pops s x xs H := ex_intro _ xs (conj (f_equal rs_next H) eq_refl);
  rs_next_ends s H := ex_intro _ [] (conj (f_equal rs_next H) eq_refl);
}.

Lemma rust_reads_binaries_witness :
  ∃ s', rust_reads 6 2 [Ping []; Binary [x61]; Text "b"; Binary [x62]; Close] = (Ok [[x61]; [x62]], s') ∧
    ∃ s2, rust_read_loop 6 s' = (Err rust_Closed, s2).
Proof. exact (rust_reads_binaries 6 _ [Ping []; Binary [x61]; Text "b"; Binary [x62]; Close] eq_refl ltac:(simpl; lia)). Defined.
